(* ===== verification/_CoqProject ===== *)
-Q . S2P
Prelude.v
GoStd.v
Config.v
Model.v
Common.v
Samples.v
Bencode.v
Mapx.v
Local.v
LocalInv.v
LocalSafety.v
LocalSpec.v
LocalScrape.v
LocalTable.v
LocalFrame.v
LocalClean.v
LocalSweep.v
LocalRest.v
LocalExpire.v
Cache.v
LocalBounds.v
LocalOrder.v
LocalRaces.v
BanItem.v
IPFilter.v
Xdp.v
Ban.v
Manager.v
Mux.v
MuxSpec.v
Tracker.v
Udp.v
UdpSpec.v
Idl.v
Persist.v
PersistSpec.v
ManagerLaws.v
Http.v
HttpSpec.v
EndToEnd.v
Rpc.v
RpcSpec.v
Admin.v
Websocket.v
WebTorrent.v
WsSpec.v
WsTracker.v
WsCache.v
Db.v
DbSpec.v
Clients.v
Metrics.v
MetricsSpec.v
Traffic.v
TrafficSpec.v
Service.v
ServiceSpec.v
Boot.v
BootSpec.v
