(* ===== verification/Prelude.v ===== *)
(** * A verification of trunker, a BitTorrent and WebTorrent tracker in Go

    ** The program

    Clients announce themselves to a tracker and are told about other peers of
    the same torrent.  Announces and scrapes arrive over HTTP ([biz/handler]),
    UDP ([biz/services/udp_server]), WebSocket ([biz/handler/webtorrent.go]) or
    RPC ([biz/services/rpc]).  All but the WebSocket handler talk to one
    [PeerManager] ([biz/services/peer/manager.go]), of which there are three: the
    sharded in-memory store ([peer/local] behind [peer/mux_local]), a database
    ([peer/database]) and a client that forwards to another tracker ([peer/rpc]).
    WebTorrent has a store of its own ([peer/websocket]).  The in-memory store is
    saved to files and read back ([mux_local/persist.go]), and checks bans
    ([mux_local/ban]) that are kept in files, in Bloom filters and, for addresses,
    in a kernel map.

    ** How it is modelled

    Definitions are executable functions with the names of the code.  A Go
    integer is a [Z] with its wrap-around written ([u32], [u64], [i64]), a byte
    string is [bytes] or [string], an IP is [netIP] ([None] is nil), an instant is
    a [Z] of nanoseconds.  An error is [Err] of [result]; a panic is [None] where
    one can happen.  Objects that the code shares by pointer (peers, torrents,
    connections) are kept in stores and referred to by index.  Each goroutine a
    handler starts is a task of the state; a theorem that says "reachable" speaks
    of all runs in which tasks, handlers and closing connections follow one another in
    any order ([LocalSafety.step], [MuxSpec.mux_step], [WsSpec.ws_step]), an
    announce being cut in two where it starts to read peers.  The clock is an
    argument wherever it is read.

    Code that is not in the repository is a class of operations, with laws where
    a theorem relies on them: the skip map ([Mapx.SyncStringMap]), the Bloom
    filter ([BanItem.BloomFilter]), the XDP kernel maps ([Xdp]), the frugal
    encoder and zstd ([Persist]), the thrift codec's reading of nil fields
    ([Idl]), kitex delivery ([Rpc.delivery]), gorm and MySQL ([Db.Gorm]), JSON
    decoding ([WebTorrent.Json]), ISO 8859-1 ([Admin.Charmap]), redis and msgpack
    ([Cache]), regular expressions ([Clients.Regexp]), the Prometheus client and
    its floats ([Metrics.MetricVec], [Metrics.PrometheusRegistry],
    [Metrics.Float64]).  Every class with laws has a concrete instance, on which
    the witnesses run.

    ** The files

    - [Prelude]: this header; bytes and words, lists, slices, the error type, hints.
    - [GoStd]: what is used of Go's standard library (IP texts, hexadecimal,
      decimal, time).
    - [Config] ([biz/config/init.go]), [Model] ([biz/model/http.go]), [Common]
      ([peer/common]: peers, compact lists), [Samples] (concrete inputs).
    - [Bencode] ([model/fast_bencode.go], [utils/bencode]): encoders and renderer,
      with a reference decoder.
    - [Mapx] ([utils/collections/mapx]): the map interface, its laws, and the
      [sync.Map] wrapper both as methods and as interleaved atomic accesses.
    - [Local] ([peer/local]): the store of a shard, every handler and goroutine.
      [LocalInv] and [LocalSafety] are its invariant and the reachable states;
      [LocalSpec] the answers, [LocalScrape] the counts, [LocalTable] the
      refinement to one table of peers, [LocalFrame] what an operation leaves
      alone, [LocalClean] and [LocalSweep] the clean-up of a torrent
      and of the shard, [LocalRest] what it does to the tables of a shard at rest,
      [LocalExpire] the departure of expired peers, [LocalBounds] sizes,
      [LocalOrder] the goroutines of an announce in any order,
      [LocalRaces] runs in which an interleaving goes wrong.  [Cache]
      ([service/cache/utils.go]) puts the scrape cache in front.
    - [BanItem], [IPFilter], [Xdp], [Ban] ([mux_local/ban]): a ban list with its
      file, the two address filters behind one interface, the ban manager.
    - [Manager] ([peer/manager.go]): the interface; [ManagerLaws]: what front
      ends rely on, promised by [Mux] and [Db] and, over any of these, by [Rpc].
    - [Mux], [MuxSpec] ([mux_manager.go]): bans, then the shard; [Tracker]: the
      sharded manager against a reference tracker on finite maps.
    - [Udp], [UdpSpec] ([udp_server]): packets, connections, the three handlers.
    - [Idl] (both [rpc/adaptor.go]), [Persist], [PersistSpec] ([persist.go]).
    - [Http], [HttpSpec] ([handler/announce.go], [utils/http]).
    - [EndToEnd]: the HTTP and UDP front ends over the sharded manager, session by
      session, against the reference tracker ([EndToEnd.run_event] composes their
      handlers, [EndToEnd.ref_event] says what a sender may see).
    - [Rpc], [RpcSpec] ([services/rpc/handler.go], [peer/rpc]).
    - [Admin] ([handler/admin.go]); [Service], [ServiceSpec]: the admin routes
      and their key, the interval task, the torrent gauges.
    - [Websocket], [WebTorrent], [WsSpec] ([peer/websocket], [model/ws.go],
      [handler/webtorrent.go]); [WsTracker]: the WebTorrent store against a
      reference tracker; [WsCache]: its scrape cache beside the other store's.
    - [Db], [DbSpec] ([peer/database]); [Clients] ([utils/bittorrent]).
    - [Metrics], [MetricsSpec] ([service/metrics]): registries, counters and
      histograms; [Traffic], [TrafficSpec]: what each front end reports, and the
      UDP server's [OnTraffic] and [OnTick].
    - [Boot], [BootSpec] ([main.go], [init.go], [router.go], [biz/middleware]):
      start and stop, the manager of each mode behind the one interface, routes
      and middleware.

    ** What is shown

    - The whole tracker: whatever calls the sharded manager or the WebTorrent
      store is given one after another, they answer and keep what a reference
      tracker on finite maps does; and what HTTP and UDP clients read in the bytes
      they get back is what that reference allows.
    - The store: under every interleaving only connectable, unstopped peers are
      filed, each under its id, in well-formed torrents; an undisturbed announce
      is an update of an abstract table; answers hold at most the peers asked for,
      all live, other and of the caller's kind; scrapes count each live peer once;
      expired peers leave after a scrape or a clean-up; the goroutines of an
      announce end and leave the same table in whatever order they run; a torrent
      served one request at a time, no peers being loaded into it by a restart,
      is bounded by its limit plus two.
    - The manager: torrents stay in their shard; bans of torrents and addresses
      hold until they are lifted; statistics count everything once; bans survive
      growth of the filter and restarts, those before the first torn write
      whatever goes wrong later; persistence gives every live peer back
      to any number of shards.
    - The front ends: every datagram gets the one reply it should, which decodes
      to what the manager said, and only clients with an issued connection id
      reach the manager; HTTP and RPC answers likewise; a WebTorrent announce
      writes exactly its reply and one offer per peer; the admin routes do
      nothing without the key.
    - Encodings: compact lists, bencoded replies, packets and records decode to
      what was encoded.
    - The program: [main] starts the configured parts or panics for a stated
      reason; a restart after a stop or a crash finds what was saved; the registry
      that is served shows what the handlers report, every datagram once; cached
      scrapes of both stores are recent counts of the right torrent.
    - The database: saving is an upsert of a finite map, read back as the columns
      of the table keep it; answers and counts are
      those of the live rows, stored bans come back.

    ** Fuel

    Loops over input take the length of the input plus one as fuel
    ([Udp.scrape_hashes], [Persist.load_loop], [GoStd.utoa], the decoders): each
    round consumes at least a byte, and the round-trip theorems show it is enough.
    [Local.run_all] takes the number of goroutine steps: [LocalBounds.work]
    computes one that always empties the queue; after one announce four are
    enough, and two in the WebTorrent store, which the proofs of the reference
    trackers show.

    ** Not modelled

    The HTTP, UDP and RPC servers and their event loops, connection set-up of
    MySQL, redis, RocketMQ and kitex, the profiler, logging ([version.go] only
    logs), the limiter's algorithm, the Go and process collectors of Prometheus;
    the code generated from the IDL.  A write to a ban file may fail after some of
    its bytes and a truncation may fail; reading a ban file is taken to succeed.  Locks appear only as the atomicity of what they
    protect.  Go slices panic here beyond their length, where Go allows their
    capacity.  A peer handed out by a manager is read when the call returns. *)
From Stdlib Require Import ZArith Lia Bool.
From Stdlib Require Import Strings.String Strings.Byte.
From stdpp Require Import base gmap strings list fin_maps option.
Set Default Proof Using "Type*".

(** ** Error values

    Go's [(T, error)] pairs: a handler either yields a value or an error
    message; [Err] carries the text of [error.Error()]. *)
Inductive result (A : Type) : Type :=
| Ok (a : A)
| Err (msg : string).
Arguments Ok {A} a.
Arguments Err {A} msg.

Definition res_bind {A B} (f : A → result B) (r : result A) : result B :=
  match r with Ok a => f a | Err e => Err e end.

Definition res_map {A B} (f : A → B) (r : result A) : result B :=
  match r with Ok a => Ok (f a) | Err e => Err e end.

Definition is_ok {A} (r : result A) : bool :=
  match r with Ok _ => true | Err _ => false end.

#[export] Instance Ok_inj {A} : Inj (=) (=) (@Ok A).
Proof. by intros ? ? [= ->]. Qed.

Declare Scope go_scope.
Delimit Scope go_scope with go.
Notation "x <-! e ; k" := (res_bind (fun x => k) e)
  (at level 100, e at next level, right associativity) : go_scope.

(** ** Machine integers *)
Definition wrap_u (w z : Z) : Z := (z mod 2 ^ w)%Z.
Definition wrap_s (w z : Z) : Z := ((z + 2 ^ (w - 1)) mod 2 ^ w - 2 ^ (w - 1))%Z.
Definition u64 := wrap_u 64.
Definition u32 := wrap_u 32.
Definition u16 := wrap_u 16.
Definition i64 := wrap_s 64.
Definition i32 := wrap_s 32.
Definition i8 := wrap_s 8.
Definition MaxUint64 : Z := (2 ^ 64 - 1)%Z.

Create HintDb trunker.
Create Rewrite HintDb trunker_bytes.

Section wraps.
Local Open Scope Z_scope.

Lemma wrap_u_range w z : 0 ≤ w → 0 ≤ wrap_u w z < 2 ^ w.
Proof. intros. apply Z.mod_pos_bound. lia. Qed.

Lemma wrap_u_small w z : 0 ≤ z < 2 ^ w → wrap_u w z = z.
Proof. intros. by apply Z.mod_small. Qed.

Lemma wrap_u_idem w z : 0 ≤ w → wrap_u w (wrap_u w z) = wrap_u w z.
Proof. intros. apply wrap_u_small, wrap_u_range; lia. Qed.

Lemma wrap_s_range w z : 0 < w → - 2 ^ (w - 1) ≤ wrap_s w z < 2 ^ (w - 1).
Proof.
  intros. unfold wrap_s.
  pose proof (Z.mod_pos_bound (z + 2 ^ (w - 1)) (2 ^ w)) as Hb.
  assert (2 ^ w = 2 * 2 ^ (w - 1)) as Heq
    by (rewrite <- Z.pow_succ_r by lia; f_equal; lia).
  lia.
Qed.

Lemma wrap_s_small w z :
  0 < w → - 2 ^ (w - 1) ≤ z < 2 ^ (w - 1) → wrap_s w z = z.
Proof.
  intros Hw Hz. unfold wrap_s.
  assert (2 ^ w = 2 * 2 ^ (w - 1)) as Heq
    by (rewrite <- Z.pow_succ_r by lia; f_equal; lia).
  rewrite Z.mod_small; lia.
Qed.

(** The conversions [uint64(int64(x))] and back lose nothing. *)
Lemma wrap_u_wrap_s w z : 0 < w → wrap_u w (wrap_s w z) = wrap_u w z.
Proof.
  intros Hw. unfold wrap_u, wrap_s.
  rewrite Zminus_mod_idemp_l. f_equal. lia.
Qed.

Lemma wrap_s_wrap_u w z : 0 < w → wrap_s w (wrap_u w z) = wrap_s w z.
Proof.
  intros Hw. unfold wrap_u, wrap_s. by rewrite Zplus_mod_idemp_l.
Qed.
End wraps.

(** ** Bytes *)
Abbreviation bytes := (list Byte.byte).

#[export] Instance byte_eq_dec : EqDecision Byte.byte := Byte.byte_eq_dec.
#[export] Instance byte_countable : Countable Byte.byte := inj_countable Byte.to_N Byte.of_N Byte.of_to_N.

Definition Z_of_byte (b : Byte.byte) : Z := Z.of_N (Byte.to_N b).
Definition byte_of_Z (z : Z) : Byte.byte :=
  default Byte.x00 (Byte.of_N (Z.to_N (z mod 256))).

Definition bytes_of_string (s : string) : bytes := list_byte_of_string s.
Definition string_of_bytes (b : bytes) : string := string_of_list_byte b.

Lemma Z_of_byte_range b : (0 ≤ Z_of_byte b < 256)%Z.
Proof. destruct b; vm_compute; split; congruence. Qed.

Lemma byte_of_Z_of_byte b : byte_of_Z (Z_of_byte b) = b.
Proof. by destruct b. Qed.

Lemma Z_of_byte_of_Z z : Z_of_byte (byte_of_Z z) = (z mod 256)%Z.
Proof.
  unfold Z_of_byte, byte_of_Z.
  pose proof (Z.mod_pos_bound z 256 ltac:(lia)) as Hb.
  destruct (Byte.of_N (Z.to_N (z mod 256))) as [b|] eqn:E; simpl.
  - apply Byte.to_of_N in E. rewrite E. rewrite Z2N.id; lia.
  - apply Byte.of_N_None_iff in E. lia.
Qed.

Lemma Z_of_byte_inj b1 b2 : Z_of_byte b1 = Z_of_byte b2 → b1 = b2.
Proof. intros H. by rewrite <- (byte_of_Z_of_byte b1), H, byte_of_Z_of_byte. Qed.

Lemma string_of_bytes_of_string s : string_of_bytes (bytes_of_string s) = s.
Proof. apply string_of_list_byte_of_string. Qed.

Lemma bytes_of_string_of_bytes b : bytes_of_string (string_of_bytes b) = b.
Proof. apply list_byte_of_string_of_list_byte. Qed.

Lemma bytes_of_string_inj s1 s2 : bytes_of_string s1 = bytes_of_string s2 → s1 = s2.
Proof. intros H. by rewrite <- (string_of_bytes_of_string s1), H, string_of_bytes_of_string. Qed.

Lemma length_bytes_of_string s : length (bytes_of_string s) = String.length s.
Proof.
  unfold bytes_of_string, list_byte_of_string. rewrite length_map.
  induction s as [|c s IH]; simpl; congruence.
Qed.

Lemma length_string_of_bytes b : String.length (string_of_bytes b) = length b.
Proof. by rewrite <- length_bytes_of_string, bytes_of_string_of_bytes. Qed.

#[export] Hint Rewrite string_of_bytes_of_string bytes_of_string_of_bytes
  length_bytes_of_string length_string_of_bytes byte_of_Z_of_byte : trunker_bytes.

(** ** Fixed-width integers on the wire ([encoding/binary]) *)
Fixpoint be_encode (n : nat) (z : Z) : bytes :=
  match n with
  | O => []
  | S n' => byte_of_Z (Z.shiftr z (8 * Z.of_nat n')) :: be_encode n' z
  end.

Definition be_decode_acc (acc : Z) (l : bytes) : Z :=
  fold_left (fun a b => (a * 256 + Z_of_byte b)%Z) l acc.
Definition be_decode (l : bytes) : Z := be_decode_acc 0 l.

Definition le_encode (n : nat) (z : Z) : bytes := reverse (be_encode n z).
Definition le_decode (l : bytes) : Z := be_decode (reverse l).

Section wire.
Local Open Scope Z_scope.

Lemma pow256 n : 2 ^ (8 * Z.of_nat (S n)) = 256 * 2 ^ (8 * Z.of_nat n).
Proof.
  replace (8 * Z.of_nat (S n)) with (8 + 8 * Z.of_nat n) by lia.
  rewrite Z.pow_add_r by lia. reflexivity.
Qed.

Lemma length_be_encode n z : length (be_encode n z) = n.
Proof. induction n; simpl; congruence. Qed.

Lemma be_decode_acc_app a l1 l2 :
  be_decode_acc a (l1 ++ l2) = be_decode_acc (be_decode_acc a l1) l2.
Proof. apply fold_left_app. Qed.

Lemma be_decode_acc_eq a l :
  be_decode_acc a l = a * 2 ^ (8 * Z.of_nat (length l)) + be_decode l.
Proof.
  unfold be_decode. revert a. induction l as [|b l IH]; intros a.
  - simpl. lia.
  - cbn [be_decode_acc fold_left length].
    fold (be_decode_acc (a * 256 + Z_of_byte b) l).
    fold (be_decode_acc (0 * 256 + Z_of_byte b) l).
    rewrite (IH (a * 256 + _)), (IH (0 * 256 + _)), pow256. lia.
Qed.

Lemma be_decode_cons b l :
  be_decode (b :: l) = Z_of_byte b * 2 ^ (8 * Z.of_nat (length l)) + be_decode l.
Proof.
  unfold be_decode at 1. cbn [be_decode_acc fold_left].
  fold (be_decode_acc (0 * 256 + Z_of_byte b) l).
  rewrite be_decode_acc_eq. f_equal.
Qed.

Lemma be_decode_range l : 0 ≤ be_decode l < 2 ^ (8 * Z.of_nat (length l)).
Proof.
  induction l as [|b l IH]; [vm_compute; split; congruence|].
  rewrite be_decode_cons. cbn [length]. rewrite pow256.
  pose proof (Z_of_byte_range b). nia.
Qed.

Lemma be_decode_encode n z : be_decode (be_encode n z) = z mod 2 ^ (8 * Z.of_nat n).
Proof.
  induction n as [|n IH]; [by rewrite Z.mod_1_r|].
  cbn [be_encode]. rewrite be_decode_cons, length_be_encode, IH, pow256.
  rewrite Z_of_byte_of_Z, Z.shiftr_div_pow2 by lia.
  rewrite (Z.mul_comm 256), Z.rem_mul_r by (try apply Z.pow_nonzero; lia). lia.
Qed.

Lemma be_decode_encode_small n z :
  0 ≤ z < 2 ^ (8 * Z.of_nat n) → be_decode (be_encode n z) = z.
Proof. intros. rewrite be_decode_encode. by apply Z.mod_small. Qed.

Lemma be_encode_mod n z : be_encode n (z mod 2 ^ (8 * Z.of_nat n)) = be_encode n z.
Proof.
  assert (∀ m, (n ≤ m)%nat → be_encode n (z mod 2 ^ (8 * Z.of_nat m)) = be_encode n z)
    as H; [|by apply H].
  induction n as [|n IH]; intros m Hm; [done|]. cbn [be_encode]. f_equal; [|apply IH; lia].
  apply Z_of_byte_inj. rewrite !Z_of_byte_of_Z.
  change 256 with (2 ^ 8). rewrite <- !Z.land_ones by lia.
  apply Z.bits_inj'. intros i Hi.
  rewrite !Z.land_spec, !Z.testbit_ones, !Z.shiftr_spec by lia.
  destruct (Z.ltb_spec i 8); rewrite ?andb_false_r; [|done].
  rewrite Z.land_spec, Z.testbit_ones by lia.
  replace ((0 <=? i + 8 * Z.of_nat n) && (i + 8 * Z.of_nat n <? 8 * Z.of_nat m)) with true by lia.
  by rewrite !andb_true_r.
Qed.

Lemma be_encode_decode l : be_encode (length l) (be_decode l) = l.
Proof.
  induction l as [|b l IH]; [done|].
  cbn [length be_encode]. rewrite be_decode_cons. f_equal.
  - rewrite Z.shiftr_div_pow2 by lia.
    rewrite Z.div_add_l by (apply Z.pow_nonzero; lia).
    pose proof (be_decode_range l). rewrite Z.div_small by lia.
    by rewrite Z.add_0_r, byte_of_Z_of_byte.
  - rewrite <- be_encode_mod, Z.add_comm, Z_mod_plus_full, be_encode_mod. apply IH.
Qed.

Lemma be_encode_decode' n l : length l = n → be_encode n (be_decode l) = l.
Proof. intros <-. apply be_encode_decode. Qed.
End wire.

#[export] Hint Rewrite length_be_encode : trunker_bytes.

(** ** Slices: [b[i:j]] panics ([None]) when the bounds are out of range. *)
Definition go_slice {A} (i j : nat) (l : list A) : option (list A) :=
  if decide (i ≤ j ∧ j ≤ length l) then Some (take (j - i) (drop i l)) else None.

Lemma go_slice_Some {A} i j (l : list A) :
  i ≤ j → j ≤ length l → go_slice i j l = Some (take (j - i) (drop i l)).
Proof. intros. unfold go_slice. by rewrite decide_True by done. Qed.

Lemma go_slice_app_skip {A} i j (l1 l2 : list A) :
  length l1 ≤ i → i ≤ j →
  go_slice i j (l1 ++ l2) = go_slice (i - length l1) (j - length l1) l2.
Proof.
  intros. unfold go_slice. rewrite length_app, drop_app_ge by lia.
  repeat case_decide; try lia; [|done]. do 2 f_equal. lia.
Qed.

Lemma go_slice_prefix {A} n (l1 l2 : list A) :
  length l1 = n → go_slice 0 n (l1 ++ l2) = Some l1.
Proof.
  intros <-. rewrite go_slice_Some by (rewrite ?length_app; lia).
  by rewrite Nat.sub_0_r, drop_0, take_app_length.
Qed.

(** A slice that lies entirely behind the prefix [l1]. *)
Lemma go_slice_mid {A} i j (l1 l2 l3 : list A) :
  length l1 = i → length l1 + length l2 = j →
  go_slice i j (l1 ++ l2 ++ l3) = Some l2.
Proof.
  intros. rewrite go_slice_app_skip by lia.
  replace (i - length l1) with 0 by lia. apply go_slice_prefix. lia.
Qed.

Lemma map_subseteq_empty `{Countable K} {A} (m : gmap K A) : m ⊆ ∅ → m = ∅.
Proof.
  intros Hs. apply map_empty. intros k. destruct (m !! k) eqn:E; [|done].
  by eapply lookup_weaken in E; [rewrite lookup_empty in E|].
Qed.
