(* ===== verification/GoStd.v ===== *)
(** The fragments of Go's standard library the tracker calls: [strconv.Itoa],
    [encoding/hex], [strings] helpers, package [net]'s [IP] with its textual
    form, and the arithmetic of [time].  They are written out executable, with
    the round trips the components rely on. *)
From Stdlib Require Import ZArith Lia Bool.
From Stdlib Require Import Strings.String Strings.Byte Strings.Ascii.
From stdpp Require Import base gmap strings list fin_maps option.
From S2P Require Import Prelude.
Set Default Proof Using "Type*".
Local Open Scope Z_scope.

(** ** Characters *)
Definition ch (s : string) : Byte.byte := default Byte.x00 (head (bytes_of_string s)).
Definition is_digit (c : Byte.byte) : bool := (48 <=? Z_of_byte c) && (Z_of_byte c <=? 57).
Definition digit_char (d : Z) : Byte.byte := byte_of_Z (48 + d).

(** ** [strconv.Itoa] *)
Fixpoint dec_digits (fuel : nat) (n : Z) : bytes :=
  match fuel with
  | O => []
  | S fuel => if n <? 10 then [digit_char n]
              else dec_digits fuel (n / 10) ++ [digit_char (n mod 10)]
  end.

(** [n < 2 ^ (log2 n + 1)] and each round divides by ten, so [log2 n + 1]
    rounds are enough (see [dec_value_digits]). *)
Definition utoa (n : Z) : bytes := dec_digits (S (Z.to_nat (Z.log2 n))) n.
Definition Itoa_bytes (n : Z) : bytes := if n <? 0 then ch "-" :: utoa (- n) else utoa n.
Definition Itoa (n : Z) : string := string_of_bytes (Itoa_bytes n).

Definition dec_value_acc (a : Z) (l : bytes) : Z :=
  fold_left (fun a c => a * 10 + (Z_of_byte c - 48)) l a.
Definition dec_value (l : bytes) : Z := dec_value_acc 0 l.

Lemma digit_char_val d : 0 ≤ d < 10 → Z_of_byte (digit_char d) = 48 + d.
Proof. intros. unfold digit_char. rewrite Z_of_byte_of_Z, Z.mod_small; lia. Qed.

Lemma digit_char_is_digit d : 0 ≤ d < 10 → is_digit (digit_char d) = true.
Proof. intros. unfold is_digit. rewrite digit_char_val by lia. lia. Qed.

Lemma dec_digits_spec fuel n :
  0 ≤ n < 2 ^ Z.of_nat fuel → (1 ≤ fuel)%nat →
  dec_value (dec_digits fuel n) = n ∧ Forall (fun c => is_digit c = true) (dec_digits fuel n)
  ∧ dec_digits fuel n ≠ [].
Proof.
  revert n. induction fuel as [|fuel IH]; intros n Hn Hf; [lia|].
  cbn [dec_digits]. destruct (Z.ltb_spec n 10).
  - unfold dec_value, dec_value_acc; cbn [fold_left]. rewrite digit_char_val by lia.
    split_and!; [lia| |done]. constructor; [|done]. apply digit_char_is_digit; lia.
  - assert (0 ≤ n / 10 < 2 ^ Z.of_nat fuel) as Hq.
    { rewrite Nat2Z.inj_succ, Z.pow_succ_r in Hn by lia.
      split; [apply Z.div_pos; lia|]. apply Z.div_lt_upper_bound; lia. }
    destruct fuel as [|fuel]; [simpl in Hq; lia|].
    destruct (IH (n / 10) Hq ltac:(lia)) as (Hv & Hd & Hne).
    pose proof (Z.mod_pos_bound n 10 ltac:(lia)).
    split_and!.
    + unfold dec_value, dec_value_acc in *. rewrite fold_left_app, Hv. cbn [fold_left].
      rewrite digit_char_val by lia. pose proof (Z.div_mod n 10). lia.
    + apply Forall_app; split; [done|]. constructor; [|done]. apply digit_char_is_digit; lia.
    + by destruct (dec_digits (S fuel) (n / 10)).
Qed.

Lemma utoa_spec n :
  0 ≤ n → dec_value (utoa n) = n ∧ Forall (fun c => is_digit c = true) (utoa n) ∧ utoa n ≠ [].
Proof.
  intros. apply dec_digits_spec; [|lia].
  rewrite Nat2Z.inj_succ, Z2Nat.id by apply Z.log2_nonneg.
  destruct (decide (n = 0)) as [->|]; [simpl; lia|]. pose proof (Z.log2_spec n); lia.
Qed.

(** ** [encoding/hex] *)
Definition hex_char (d : Z) : Byte.byte := byte_of_Z (if d <? 10 then 48 + d else 87 + d).
Definition hex_val (c : Byte.byte) : option Z :=
  let z := Z_of_byte c in
  if (48 <=? z) && (z <=? 57) then Some (z - 48)
  else if (97 <=? z) && (z <=? 102) then Some (z - 87)
  else if (65 <=? z) && (z <=? 70) then Some (z - 55)
  else None.

Definition hex_encode (b : bytes) : bytes :=
  flat_map (fun c => [hex_char (Z_of_byte c / 16); hex_char (Z_of_byte c mod 16)]) b.

(** [hex.DecodeString]: [None] for an odd length or a character outside
    [0-9a-fA-F]. *)
Fixpoint hex_decode (s : bytes) : option bytes :=
  match s with
  | [] => Some []
  | [_] => None
  | h :: l :: s =>
      match hex_val h, hex_val l with
      | Some dh, Some dl => (cons (byte_of_Z (16 * dh + dl))) <$> hex_decode s
      | _, _ => None
      end
  end.

(** What [hex.DecodeString] returns, its error aside: the bytes before the first
    pair that is not hexadecimal. *)
Fixpoint hex_prefix (s : bytes) : bytes :=
  match s with
  | h :: l :: s =>
      match hex_val h, hex_val l with
      | Some dh, Some dl => byte_of_Z (16 * dh + dl) :: hex_prefix s
      | _, _ => []
      end
  | _ => []
  end.

Lemma hex_decode_encode b : hex_decode (hex_encode b) = Some b.
Proof.
  induction b as [|c b IH]; [done|]. cbn [hex_encode flat_map app hex_decode].
  fold (hex_encode b). rewrite IH. by destruct c.
Qed.

Lemma hex_prefix_encode b : hex_prefix (hex_encode b) = b.
Proof.
  induction b as [|c b IH]; [done|]. cbn [hex_encode flat_map app hex_prefix].
  fold (hex_encode b). rewrite IH. by destruct c.
Qed.

Lemma length_hex_encode b : length (hex_encode b) = (2 * length b)%nat.
Proof. induction b; simpl in *; lia. Qed.

(** No hexadecimal digit is a line terminator. *)
Lemma hex_encode_no_nl b : Forall (fun c => Z_of_byte c ≠ 10 ∧ Z_of_byte c ≠ 13) (hex_encode b).
Proof.
  induction b as [|c b IH]; [constructor|]. cbn [hex_encode flat_map app].
  repeat constructor; [..|exact IH]; by destruct c.
Qed.

(** ** Package [net] *)

(** [net.IP] is a byte slice; [None] is the nil slice. *)
Abbreviation netIP := (option bytes).

Definition v4InV6Prefix : bytes := replicate 10 Byte.x00 ++ [Byte.xff; Byte.xff].

Definition To4 (ip : netIP) : netIP :=
  match ip with
  | Some b =>
      if decide (length b = 4)%nat then Some b
      else if decide (length b = 16%nat ∧ take 12 b = v4InV6Prefix) then Some (drop 12 b)
      else None
  | None => None
  end.

Definition To16 (ip : netIP) : netIP :=
  match ip with
  | Some b =>
      if decide (length b = 4)%nat then Some (v4InV6Prefix ++ b)
      else if decide (length b = 16)%nat then Some b
      else None
  | None => None
  end.

Definition byte_at (b : bytes) (i : nat) : Z := default 0 (Z_of_byte <$> b !! i).
Definition ip_len (ip : netIP) : nat := from_option length 0%nat ip.

Definition IsPrivate (ip : netIP) : bool :=
  match To4 ip with
  | Some b =>
      (byte_at b 0 =? 10)
      || ((byte_at b 0 =? 172) && (Z.land (byte_at b 1) 240 =? 16))
      || ((byte_at b 0 =? 192) && (byte_at b 1 =? 168))
  | None =>
      match ip with
      | Some b => bool_decide (length b = 16)%nat && (Z.land (byte_at b 0) 254 =? 252)
      | None => false
      end
  end.

Definition IPv6loopback : bytes := replicate 15 Byte.x00 ++ [Byte.x01].
Definition IsLoopback (ip : netIP) : bool :=
  match To4 ip with
  | Some b => byte_at b 0 =? 127
  | None => bool_decide (ip = Some IPv6loopback)
  end.

(** *** Textual form *)
Definition dot : Byte.byte := ch ".".
Definition colon : Byte.byte := ch ":".

Definition ipv4_string (b : bytes) : bytes :=
  utoa (byte_at b 0) ++ dot :: utoa (byte_at b 1) ++ dot
    :: utoa (byte_at b 2) ++ dot :: utoa (byte_at b 3).

(** Lower-case hexadecimal of a 16-bit group, without leading zeros. *)
Definition append_hex (x : Z) : bytes :=
  (if 4096 <=? x then [hex_char (x / 4096)] else [])
  ++ (if 256 <=? x then [hex_char (x / 256 mod 16)] else [])
  ++ (if 16 <=? x then [hex_char (x / 16 mod 16)] else [])
  ++ [hex_char (x mod 16)].

Definition v6u16 (b : bytes) (i : nat) : Z := byte_at b (2 * i) * 256 + byte_at b (2 * i + 1).

Fixpoint zero_run (b : bytes) (fuel i : nat) : nat :=
  match fuel with
  | O => i
  | S f => if (i <? 8)%nat && (v6u16 b i =? 0) then zero_run b f (S i) else i
  end.

(** The first longest run of at least two zero groups ([netip.Addr.appendTo6]). *)
Definition find_zeros (b : bytes) : option (nat * nat) :=
  fold_left (fun best i =>
    let j := zero_run b 8 i in
    let l := (j - i)%nat in
    let cur := match best with Some (s, e) => (e - s)%nat | None => 0%nat end in
    if (2 <=? l)%nat && (cur <? l)%nat then Some (i, j) else best) (seq 0 8) None.

Fixpoint ipv6_groups (b : bytes) (z : option (nat * nat)) (fuel i : nat) : bytes :=
  match fuel with
  | O => []
  | S f =>
      if (8 <=? i)%nat then [] else
      match z with
      | Some (zs, ze) =>
          if (i =? zs)%nat then
            [colon; colon] ++
            (if (8 <=? ze)%nat then [] else append_hex (v6u16 b ze) ++ ipv6_groups b z f (S ze))
          else (if (0 <? i)%nat then [colon] else []) ++ append_hex (v6u16 b i)
               ++ ipv6_groups b z f (S i)
      | None => (if (0 <? i)%nat then [colon] else []) ++ append_hex (v6u16 b i)
                ++ ipv6_groups b z f (S i)
      end
  end.

Definition ipv6_string (b : bytes) : bytes := ipv6_groups b (find_zeros b) 8 0.

Definition IP_String_bytes (ip : netIP) : bytes :=
  match ip with
  | None => bytes_of_string "<nil>"
  | Some [] => bytes_of_string "<nil>"
  | Some b =>
      match To16 ip with
      | None => ch "?" :: hex_encode b
      | Some _ =>
          match To4 ip with
          | Some b4 => ipv4_string b4
          | None => ipv6_string b
          end
      end
  end.
Definition IP_String (ip : netIP) : string := string_of_bytes (IP_String_bytes ip).

(** *** [net.ParseIP] ([netip.ParseAddr], zones refused) *)
Fixpoint ipv4_fields (s : bytes) (val digLen : Z) (prev : option Byte.byte) (fields : bytes)
  : option bytes :=
  match s with
  | [] => if (length fields <? 3)%nat then None else Some (fields ++ [byte_of_Z val])
  | c :: s' =>
      if is_digit c then
        if (digLen =? 1) && (val =? 0) then None else
        let val' := val * 10 + (Z_of_byte c - 48) in
        if 255 <? val' then None else ipv4_fields s' val' (digLen + 1) (Some c) fields
      else if Byte.eqb c dot then
        if bool_decide (prev = None ∨ s' = [] ∨ prev = Some dot) then None else
        if (length fields =? 3)%nat then None else
        ipv4_fields s' 0 0 (Some c) (fields ++ [byte_of_Z val])
      else None
  end.
Definition parseIPv4Fields (s : bytes) : option bytes := ipv4_fields s 0 0 None [].

Fixpoint hex_group (s : bytes) (off : nat) (acc : Z) : option (Z * nat * bytes) :=
  match s with
  | c :: s' =>
      match hex_val c with
      | Some d =>
          let acc' := u32 (acc * 16 + d) in
          if (3 <? off)%nat then None
          else if 65535 <? acc' then None
          else hex_group s' (S off) acc'
      | None => Some (acc, off, s)
      end
  | [] => Some (acc, off, [])
  end.

(** The loop [for i < 16]: [n] is the number of 16-bit groups left, [ip] the
    bytes written so far ([i] is its length). *)
Fixpoint ipv6_loop (n : nat) (ip : bytes) (ell : option nat) (s : bytes)
  : option (bytes * option nat * bytes) :=
  match n with
  | O => Some (ip, ell, s)
  | S n' =>
      match hex_group s 0 0 with
      | None => None
      | Some (acc, off, rest) =>
          if (off =? 0)%nat then None else
          let ip' := ip ++ be_encode 2 acc in
          match rest with
          | [] => Some (ip', ell, [])
          | c :: rest' =>
              if Byte.eqb c dot then
                if bool_decide (ell = None ∧ length ip ≠ 12%nat) then None
                else if (16 <? length ip + 4)%nat then None
                else match parseIPv4Fields s with
                     | None => None
                     | Some f => Some (ip ++ f, ell, [])
                     end
              else if negb (Byte.eqb c colon) then None
              else match rest' with
                   | [] => None
                   | c2 :: rest2 =>
                       if Byte.eqb c2 colon then
                         match ell with
                         | Some _ => None
                         | None =>
                             match rest2 with
                             | [] => Some (ip', Some (length ip'), [])
                             | _ => ipv6_loop n' ip' (Some (length ip')) rest2
                             end
                         end
                       else ipv6_loop n' ip' ell rest'
                   end
          end
      end
  end.

Definition ipv6_finish (r : bytes * option nat * bytes) : option bytes :=
  let '(ip, ell, s) := r in
  if bool_decide (s ≠ []) then None
  else if (length ip <? 16)%nat then
    match ell with
    | None => None
    | Some e => Some (take e ip ++ replicate (16 - length ip) Byte.x00 ++ drop e ip)
    end
  else match ell with Some _ => None | None => Some ip end.

Definition parseIPv6 (s : bytes) : option bytes :=
  match s with
  | c1 :: c2 :: s' =>
      if Byte.eqb c1 colon && Byte.eqb c2 colon then
        match s' with
        | [] => Some (replicate 16 Byte.x00)
        | _ => r ← ipv6_loop 8 [] (Some 0%nat) s'; ipv6_finish r
        end
      else r ← ipv6_loop 8 [] None s; ipv6_finish r
  | _ => r ← ipv6_loop 8 [] None s; ipv6_finish r
  end.

Fixpoint parse_addr (s all : bytes) : option bytes :=
  match s with
  | [] => None
  | c :: s' =>
      if Byte.eqb c dot then (fun b => v4InV6Prefix ++ b) <$> parseIPv4Fields all
      else if Byte.eqb c colon then parseIPv6 all
      else if Byte.eqb c (ch "%") then None
      else parse_addr s' all
  end.

(** A [%] introduces a zone: [netip.ParseAddr] may accept it, [net.ParseIP]
    returns nil for any address with a zone. *)
Definition ParseIP_bytes (s : bytes) : netIP :=
  if existsb (Byte.eqb (ch "%")) s then None else parse_addr s s.
Definition ParseIP (s : string) : netIP := ParseIP_bytes (bytes_of_string s).

Example parse_v4 : ParseIP "192.168.1.1" = Some (v4InV6Prefix ++ [Byte.xc0; Byte.xa8; Byte.x01; Byte.x01]).
Proof. reflexivity. Qed.
Example parse_v4_zero : ParseIP "192.168.01.1" = None.
Proof. reflexivity. Qed.
Example parse_v6 : IP_String (ParseIP "2a09:bac5:2431:e6::17:358") = "2a09:bac5:2431:e6::17:358"%string.
Proof. vm_compute. reflexivity. Qed.
Example parse_v6_mapped : IP_String (ParseIP "::ffff:1.2.3.4") = "1.2.3.4"%string.
Proof. vm_compute. reflexivity. Qed.
Example parse_v6_short : IP_String (ParseIP "0:0:0::0") = "::"%string.
Proof. vm_compute. reflexivity. Qed.
Example parse_empty : ParseIP "" = None.
Proof. reflexivity. Qed.

(** *** Round trip of the textual form *)

Lemma byte_eqb_refl b : Byte.eqb b b = true.
Proof. by destruct b. Qed.

Lemma ipv4_fields_octet c rest prev fields :
  ∃ last dl, is_digit last = true ∧
  ipv4_fields (utoa (Z_of_byte c) ++ rest) 0 0 prev fields =
  ipv4_fields rest (Z_of_byte c) dl (Some last) fields.
Proof. destruct c; (eexists _, _; split; [|reflexivity]; reflexivity). Qed.

Lemma ipv4_field_step c s prev fields :
  s ≠ [] → (length fields < 3)%nat →
  ipv4_fields (utoa (Z_of_byte c) ++ dot :: s) 0 0 prev fields =
  ipv4_fields s 0 0 (Some dot) (fields ++ [c]).
Proof.
  intros Hs Hf. destruct (ipv4_fields_octet c (dot :: s) prev fields) as (l & dl & Hl & ->).
  assert (l ≠ dot) by (intros ->; discriminate Hl). cbn [ipv4_fields].
  change (is_digit dot) with false. rewrite byte_eqb_refl. cbn match.
  rewrite bool_decide_false by (intros [?|[?|[= ?]]]; congruence).
  rewrite (proj2 (Nat.eqb_neq _ 3)) by lia. by rewrite byte_of_Z_of_byte.
Qed.

Lemma ipv4_field_last c prev fields :
  length fields = 3%nat → ipv4_fields (utoa (Z_of_byte c)) 0 0 prev fields = Some (fields ++ [c]).
Proof.
  intros Hf. destruct (ipv4_fields_octet c [] prev fields) as (l & dl & _ & H).
  rewrite app_nil_r in H. rewrite H. cbn [ipv4_fields]. by rewrite Hf, byte_of_Z_of_byte.
Qed.

Lemma utoa_app_ne c (r : bytes) : utoa (Z_of_byte c) ++ r ≠ [].
Proof.
  destruct (utoa_spec (Z_of_byte c)) as (_ & _ & Hne); [apply Z_of_byte_range|].
  by destruct (utoa (Z_of_byte c)).
Qed.

Lemma parseIPv4Fields_string a b c d :
  parseIPv4Fields (ipv4_string [a; b; c; d]) = Some [a; b; c; d].
Proof.
  unfold parseIPv4Fields. change (ipv4_string [a; b; c; d]) with
    (utoa (Z_of_byte a) ++ dot :: utoa (Z_of_byte b) ++ dot
      :: utoa (Z_of_byte c) ++ dot :: utoa (Z_of_byte d)).
  rewrite ipv4_field_step by (apply utoa_app_ne || (simpl; lia)).
  rewrite ipv4_field_step by (apply utoa_app_ne || (simpl; lia)).
  rewrite ipv4_field_step by
    (try (simpl; lia); rewrite <- (app_nil_r (utoa _)); apply utoa_app_ne).
  by rewrite ipv4_field_last.
Qed.

Lemma parse_addr_octet c r all :
  parse_addr (utoa (Z_of_byte c) ++ dot :: r) all
  = (fun b => v4InV6Prefix ++ b) <$> parseIPv4Fields all.
Proof. by destruct c. Qed.

Lemma existsb_app_false {A} (f : A → bool) l1 l2 :
  existsb f l1 = false → existsb f l2 = false → existsb f (l1 ++ l2) = false.
Proof. intros H1 H2. by rewrite existsb_app, H1, H2. Qed.

Lemma octet_no_percent c : existsb (Byte.eqb (ch "%")) (utoa (Z_of_byte c)) = false.
Proof. by destruct c. Qed.

Lemma ParseIP_ipv4_string b :
  length b = 4%nat → ParseIP_bytes (ipv4_string b) = Some (v4InV6Prefix ++ b).
Proof.
  intros Hb. destruct b as [|b0 [|b1 [|b2 [|b3 []]]]]; try discriminate Hb.
  unfold ParseIP_bytes.
  replace (existsb _ _) with false.
  - unfold ipv4_string at 1. cbn [byte_at]. change (byte_at [b0; b1; b2; b3] 0) with (Z_of_byte b0).
    by rewrite parse_addr_octet, parseIPv4Fields_string.
  - symmetry. unfold ipv4_string.
    do 3 (apply existsb_app_false; [apply octet_no_percent|];
          apply (existsb_app_false _ [dot]); [reflexivity|]).
    apply octet_no_percent.
Qed.

(** The IPv6 form: each printed group is read back, whatever follows it. *)
Definition no_hex_head (r : bytes) : Prop :=
  match r with [] => True | c :: _ => hex_val c = None end.

Lemma hex_val_char d : 0 ≤ d < 16 → hex_val (hex_char d) = Some d.
Proof.
  intros. rewrite <- (Z2Nat.id d) by lia. assert (Z.to_nat d < 16)%nat as Hn by lia.
  revert Hn. generalize (Z.to_nat d). intros n Hn.
  do 16 (destruct n as [|n]; [reflexivity|]). lia.
Qed.

Lemma hex_group_digit d r off acc :
  0 ≤ d < 16 → (off ≤ 3)%nat → 0 ≤ acc → acc * 16 + d ≤ 65535 →
  hex_group (hex_char d :: r) off acc = hex_group r (S off) (acc * 16 + d).
Proof.
  intros. cbn [hex_group]. rewrite hex_val_char by lia.
  unfold u32. rewrite wrap_u_small by lia.
  rewrite (proj2 (Nat.ltb_ge 3 off)) by lia.
  by rewrite (proj2 (Z.ltb_ge _ _)) by lia.
Qed.

Lemma hex_group_stop r off acc : no_hex_head r → hex_group r off acc = Some (acc, off, r).
Proof. destruct r as [|c r]; [done|]. simpl. by intros ->. Qed.

Lemma hex_group_append x r :
  0 ≤ x < 65536 → no_hex_head r →
  ∃ n, hex_group (append_hex x ++ r) 0 0 = Some (x, S n, r).
Proof.
  intros Hx Hr. unfold append_hex.
  assert (0 ≤ x mod 16 < 16) by (apply Z.mod_pos_bound; lia).
  assert (0 ≤ x / 16 mod 16 < 16) by (apply Z.mod_pos_bound; lia).
  assert (0 ≤ x / 256 mod 16 < 16) by (apply Z.mod_pos_bound; lia).
  assert (0 ≤ x / 4096 < 16) by (split; [apply Z.div_pos|apply Z.div_lt_upper_bound]; lia).
  pose proof (Z.div_mod x 16 ltac:(lia)). pose proof (Z.div_mod (x / 16) 16 ltac:(lia)) as E2.
  pose proof (Z.div_mod (x / 256) 16 ltac:(lia)) as E3.
  rewrite Z.div_div in E2, E3 by lia. change (16 * 16) with 256 in E2. change (256 * 16) with 4096 in E3.
  destruct (Z.leb_spec 4096 x), (Z.leb_spec 256 x), (Z.leb_spec 16 x); try lia; cbn [app];
    repeat rewrite hex_group_digit by lia; rewrite hex_group_stop by done;
    eexists; repeat f_equal; lia.
Qed.

Lemma append_hex_head x :
  0 ≤ x < 65536 → ∃ d r, 0 ≤ d < 16 ∧ append_hex x = hex_char d :: r.
Proof.
  intros Hx. unfold append_hex.
  assert (0 ≤ x mod 16 < 16) by (apply Z.mod_pos_bound; lia).
  assert (0 ≤ x / 16 mod 16 < 16) by (apply Z.mod_pos_bound; lia).
  assert (0 ≤ x / 256 mod 16 < 16) by (apply Z.mod_pos_bound; lia).
  assert (0 ≤ x / 4096 < 16) by (split; [apply Z.div_pos|apply Z.div_lt_upper_bound]; lia).
  destruct (Z.leb_spec 4096 x), (Z.leb_spec 256 x), (Z.leb_spec 16 x); cbn [app];
    eexists _, _; (split; [|reflexivity]); lia.
Qed.

Lemma hex_char_punct d :
  0 ≤ d < 16 → Byte.eqb (hex_char d) colon = false ∧ Byte.eqb (hex_char d) dot = false
               ∧ Byte.eqb (ch "%") (hex_char d) = false.
Proof.
  intros. rewrite <- (Z2Nat.id d) by lia. assert (Z.to_nat d < 16)%nat as Hn by lia.
  revert Hn. generalize (Z.to_nat d). intros n Hn.
  do 16 (destruct n as [|n]; [repeat split; reflexivity|]). lia.
Qed.

Section ipv6_steps.
Variables (x y : Z) (n : nat) (ip : bytes) (ell : option nat) (r : bytes).
Hypotheses (Hx : 0 ≤ x < 65536) (Hy : 0 ≤ y < 65536).
Let ip' := ip ++ be_encode 2 x.

Lemma ipv6_loop_group :
  ipv6_loop (S n) ip ell (append_hex x ++ colon :: append_hex y ++ r)
  = ipv6_loop n ip' ell (append_hex y ++ r).
Proof using Hx Hy.
  destruct (append_hex_head y Hy) as (d & t & Hd & Ht).
  destruct (hex_group_append x (colon :: append_hex y ++ r) Hx) as [m Hm]; [done|].
  cbn [ipv6_loop]. rewrite Hm. cbn match.
  change (Byte.eqb colon dot) with false. rewrite byte_eqb_refl. cbn [negb].
  rewrite Ht. cbn [app]. by rewrite (proj1 (hex_char_punct d Hd)).
Qed.

Lemma ipv6_loop_last :
  ipv6_loop (S n) ip ell (append_hex x ++ []) = Some (ip', ell, []).
Proof using Hx.
  destruct (hex_group_append x [] Hx) as [m Hm]; [done|].
  cbn [ipv6_loop]. by rewrite Hm.
Qed.

Lemma ipv6_loop_ellipsis :
  ipv6_loop (S n) ip None (append_hex x ++ colon :: colon :: append_hex y ++ r)
  = ipv6_loop n ip' (Some (length ip')) (append_hex y ++ r).
Proof using Hx Hy.
  destruct (append_hex_head y Hy) as (d & t & Hd & Ht).
  destruct (hex_group_append x (colon :: colon :: append_hex y ++ r) Hx) as [m Hm]; [done|].
  cbn [ipv6_loop]. rewrite Hm. cbn match.
  change (Byte.eqb colon dot) with false. rewrite byte_eqb_refl. cbn [negb].
  by rewrite Ht.
Qed.

Lemma ipv6_loop_ellipsis_end :
  ipv6_loop (S n) ip None (append_hex x ++ [colon; colon])
  = Some (ip', Some (length ip'), []).
Proof using Hx.
  destruct (hex_group_append x [colon; colon] Hx) as [m Hm]; [done|].
  cbn [ipv6_loop]. rewrite Hm. cbn match.
  change (Byte.eqb colon dot) with false. by rewrite byte_eqb_refl.
Qed.

Lemma parseIPv6_group :
  parseIPv6 (append_hex x ++ r) = (ipv6_loop 8 [] None (append_hex x ++ r) ≫= ipv6_finish).
Proof using Hx.
  destruct (append_hex_head x Hx) as (d & t & Hd & ->). cbn [app parseIPv6].
  destruct (t ++ r); [done|]. by rewrite (proj1 (hex_char_punct d Hd)).
Qed.

Lemma parseIPv6_leading :
  parseIPv6 (colon :: colon :: append_hex x ++ r)
  = (ipv6_loop 8 [] (Some 0%nat) (append_hex x ++ r) ≫= ipv6_finish).
Proof using Hx.
  destruct (append_hex_head x Hx) as (d & t & Hd & ->). done.
Qed.
End ipv6_steps.

(** What [find_zeros] returns covers only zero groups. *)
Definition zeros_ok (b : bytes) (z : option (nat * nat)) : Prop :=
  match z with
  | None => True
  | Some (s, e) => (s + 2 ≤ e ∧ e ≤ 8)%nat ∧ ∀ i, (s ≤ i < e)%nat → v6u16 b i = 0
  end.

Lemma zero_run_spec b fuel i :
  (i ≤ zero_run b fuel i)%nat ∧ (i ≤ 8 → zero_run b fuel i ≤ 8)%nat
  ∧ ∀ k, (i ≤ k < zero_run b fuel i)%nat → v6u16 b k = 0.
Proof.
  revert i. induction fuel as [|f IH]; intros i; cbn [zero_run]; [split_and!; intros; lia|].
  destruct (Nat.ltb_spec i 8), (Z.eqb_spec (v6u16 b i) 0); cbn [andb]; try (split_and!; intros; lia).
  destruct (IH (S i)) as (H1 & H2 & H3). split_and!; [lia|lia|].
  intros k Hk. destruct (decide (k = i)) as [->|]; [done|]. apply H3. lia.
Qed.

Lemma find_zeros_ok b : zeros_ok b (find_zeros b).
Proof.
  unfold find_zeros.
  assert (∀ l z, (∀ i, i ∈ l → i < 8)%nat → zeros_ok b z →
    zeros_ok b (fold_left (fun best i =>
      let j := zero_run b 8 i in
      let l := (j - i)%nat in
      let cur := match best with Some (s, e) => (e - s)%nat | None => 0%nat end in
      if (2 <=? l)%nat && (cur <? l)%nat then Some (i, j) else best) l z)) as H.
  { induction l as [|i l IH]; intros z Hl Hz; [done|]. cbn [fold_left].
    apply IH; [set_solver|]. cbv zeta.
    destruct (zero_run_spec b 8 i) as (H1 & H2 & H3).
    assert (i < 8)%nat by set_solver.
    destruct (Nat.leb_spec 2 (zero_run b 8 i - i)); [|done]. cbn [andb].
    case_match; [|done]. cbn [zeros_ok]. specialize (H2 ltac:(lia)).
    split; [lia|exact H3]. }
  apply H; [|done]. intros i Hi. apply elem_of_seq in Hi. lia.
Qed.

Lemma be_encode_v6u16 h l : be_encode 2 (Z_of_byte h * 256 + Z_of_byte l) = [h; l].
Proof. exact (be_encode_decode [h; l]). Qed.

Lemma v6u16_zero h l : Z_of_byte h * 256 + Z_of_byte l = 0 → h = Byte.x00 ∧ l = Byte.x00.
Proof.
  intros H. pose proof (Z_of_byte_range h). pose proof (Z_of_byte_range l).
  split; apply Z_of_byte_inj; change (Z_of_byte Byte.x00) with 0; lia.
Qed.

Lemma v6u16_range h l : 0 ≤ Z_of_byte h * 256 + Z_of_byte l < 65536.
Proof. pose proof (Z_of_byte_range h). pose proof (Z_of_byte_range l). lia. Qed.

#[local] Arguments append_hex : simpl never.
#[local] Arguments be_encode : simpl never.
#[local] Arguments parseIPv6 : simpl never.
#[local] Arguments ipv6_loop : simpl never.
#[local] Hint Resolve v6u16_range : core.

Ltac ipv6_read :=
  repeat first
    [ rewrite parseIPv6_leading by auto | rewrite parseIPv6_group by auto
    | rewrite ipv6_loop_group by auto | rewrite ipv6_loop_ellipsis by auto
    | rewrite ipv6_loop_ellipsis_end by auto | rewrite ipv6_loop_last by auto ].

(** One printed address, whatever run of zero groups was elided. *)
Lemma parseIPv6_groups b z :
  length b = 16%nat → zeros_ok b z → parseIPv6 (ipv6_groups b z 8 0) = Some b.
Proof.
  intros Hb Hz.
  do 16 (destruct b as [|? b]; [discriminate Hb|]). destruct b; [|discriminate Hb]. clear Hb.
  destruct z as [[s e]|].
  - destruct Hz as [Hse Hz].
    do 9 (try (destruct e as [|e]; [try (exfalso; lia)|])); try (exfalso; lia).
    all: do 7 (try (destruct s as [|s]; [|try (exfalso; lia)])); try (exfalso; lia).
    all: clear Hse.
    all: repeat match goal with
      | H : ∀ i, _ → v6u16 _ i = 0 |- _ =>
          first [ pose proof (H 0%nat ltac:(lia)) | idtac ]; first [ pose proof (H 1%nat ltac:(lia)) | idtac ];
          first [ pose proof (H 2%nat ltac:(lia)) | idtac ]; first [ pose proof (H 3%nat ltac:(lia)) | idtac ];
          first [ pose proof (H 4%nat ltac:(lia)) | idtac ]; first [ pose proof (H 5%nat ltac:(lia)) | idtac ];
          first [ pose proof (H 6%nat ltac:(lia)) | idtac ]; first [ pose proof (H 7%nat ltac:(lia)) | idtac ];
          clear H
      end.
    all: unfold v6u16, byte_at in *; simpl in *; unfold v6u16, byte_at; simpl.
    all: repeat match goal with
      | H : Z_of_byte _ * 256 + Z_of_byte _ = 0 |- _ => apply v6u16_zero in H as [-> ->]
      end.
    all: ipv6_read; rewrite ?be_encode_v6u16; reflexivity.
  - simpl. unfold v6u16, byte_at; simpl. ipv6_read. rewrite !be_encode_v6u16. reflexivity.
Qed.

Definition hex_or_colon (c : Byte.byte) : Prop :=
  c = colon ∨ ∃ d, 0 ≤ d < 16 ∧ c = hex_char d.

Lemma append_hex_chars x : 0 ≤ x < 65536 → Forall hex_or_colon (append_hex x).
Proof.
  intros Hx. unfold append_hex.
  assert (0 ≤ x mod 16 < 16) by (apply Z.mod_pos_bound; lia).
  assert (0 ≤ x / 16 mod 16 < 16) by (apply Z.mod_pos_bound; lia).
  assert (0 ≤ x / 256 mod 16 < 16) by (apply Z.mod_pos_bound; lia).
  assert (0 ≤ x / 4096 < 16) by (split; [apply Z.div_pos|apply Z.div_lt_upper_bound]; lia).
  assert (∀ d, 0 ≤ d < 16 → Forall hex_or_colon [hex_char d]) as H'.
  { intros d Hd. constructor; [|constructor]. right. exists d. split; [exact Hd|reflexivity]. }
  destruct (Z.leb_spec 4096 x), (Z.leb_spec 256 x), (Z.leb_spec 16 x);
    repeat (apply Forall_app; split); try (apply H'; lia); constructor.
Qed.

Lemma byte_at_range b i : 0 ≤ byte_at b i < 256.
Proof.
  unfold byte_at. destruct (b !! i); cbn [fmap option_fmap option_map from_option];
    [apply Z_of_byte_range|lia].
Qed.

Lemma v6u16_bound b i : 0 ≤ v6u16 b i < 65536.
Proof.
  unfold v6u16. pose proof (byte_at_range b (2 * i)). pose proof (byte_at_range b (2 * i + 1)). lia.
Qed.
#[local] Hint Resolve v6u16_bound append_hex_chars : core.

Lemma ipv6_groups_chars b z fuel i : Forall hex_or_colon (ipv6_groups b z fuel i).
Proof.
  assert (hex_or_colon colon) by by left.
  revert i. induction fuel as [|f IH]; intros i; cbn [ipv6_groups]; [done|].
  repeat case_match; cbn [app];
    repeat first [rewrite Forall_app | rewrite Forall_cons_iff];
    split_and?; auto.
Qed.

Lemma parse_addr_colon s all :
  Forall hex_or_colon s → colon ∈ s → parse_addr s all = parseIPv6 all.
Proof.
  induction s as [|c s IH]; intros Hs Hc; [set_solver|].
  apply Forall_cons_iff in Hs as [[->|(d & Hd & ->)] Hs]; cbn [parse_addr].
  - by change (Byte.eqb colon dot) with false; rewrite byte_eqb_refl.
  - destruct (hex_char_punct d Hd) as (H1 & H2 & H3). rewrite H1, H2.
    assert (Byte.eqb (hex_char d) (ch "%") = false) as ->.
    { destruct (Byte.eqb (hex_char d) (ch "%")) eqn:E; [|done].
      apply Byte.byte_dec_bl in E. rewrite <- E, byte_eqb_refl in H3. discriminate. }
    apply IH; [done|]. apply elem_of_cons in Hc as [Hc|Hc]; [|done].
    rewrite <- Hc, byte_eqb_refl in H1. discriminate.
Qed.

Lemma hex_or_colon_no_percent s :
  Forall hex_or_colon s → existsb (Byte.eqb (ch "%")) s = false.
Proof.
  induction 1 as [|c s [->|(d & Hd & ->)] _ IH]; [done|done|].
  simpl. by rewrite (proj2 (proj2 (hex_char_punct d Hd))).
Qed.

Lemma ipv6_groups_colon b z : colon ∈ ipv6_groups b z 8 0.
Proof.
  destruct z as [[[|[|s]] e]|]; simpl; rewrite ?elem_of_cons, ?elem_of_app, ?elem_of_cons; auto.
Qed.

Lemma ParseIP_ipv6_string b :
  length b = 16%nat → ParseIP_bytes (ipv6_string b) = Some b.
Proof.
  intros Hb. unfold ParseIP_bytes, ipv6_string.
  rewrite hex_or_colon_no_percent by apply ipv6_groups_chars.
  rewrite parse_addr_colon by (apply ipv6_groups_chars || apply ipv6_groups_colon).
  apply parseIPv6_groups; [done|apply find_zeros_ok].
Qed.

#[local] Arguments v4InV6Prefix : simpl never.
#[local] Arguments To4 : simpl never.
#[local] Arguments To16 : simpl never.

(** An address is valid when it is an IPv4 or an IPv6 address. *)
Definition ip_valid (ip : netIP) : bool := bool_decide (is_Some (To16 ip)).

Lemma To16_Some ip b :
  To16 ip = Some b →
  length b = 16%nat ∧
  ((∃ b4, ip = Some b4 ∧ length b4 = 4%nat ∧ b = v4InV6Prefix ++ b4) ∨ ip = Some b).
Proof.
  destruct ip as [b'|]; [|done]. unfold To16. repeat case_decide; intros E; try discriminate E;
    apply (inj Some) in E as <-.
  - split; [|left; eauto]. rewrite length_app, H. done.
  - auto.
Qed.

Lemma To4_length ip b : To4 ip = Some b → length b = 4%nat.
Proof.
  destruct ip as [b'|]; [|done]. unfold To4. repeat case_decide; intros E; try discriminate E;
    apply (inj Some) in E as <-; [done|]. rewrite length_drop. lia.
Qed.

Lemma To4_To16 ip b : To4 ip = Some b → To16 ip = Some (v4InV6Prefix ++ b).
Proof.
  destruct ip as [b'|]; [|done]. unfold To4, To16.
  repeat case_decide; intros E; try discriminate E; apply (inj Some) in E as <-; try done; try lia.
  destruct H0 as [_ <-]. by rewrite take_drop.
Qed.

(** [net.ParseIP] inverts [IP.String], up to the 4-in-16-byte embedding. *)
Lemma ParseIP_String ip : ip_valid ip = true → ParseIP (IP_String ip) = To16 ip.
Proof.
  intros Hv%bool_decide_eq_true. destruct Hv as [b Hb].
  unfold ParseIP, IP_String. rewrite bytes_of_string_of_bytes. rewrite Hb.
  destruct (To16_Some _ _ Hb) as [Hl Hip].
  assert (IP_String_bytes ip =
    match To4 ip with Some b4 => ipv4_string b4 | None => ipv6_string (default [] ip) end) as ->.
  { destruct ip as [[|c l]|]; [discriminate Hb| |discriminate Hb].
    unfold IP_String_bytes. by rewrite Hb. }
  destruct (To4 ip) as [b4|] eqn:E4.
  - rewrite ParseIP_ipv4_string by (by eapply To4_length).
    apply To4_To16 in E4. congruence.
  - destruct Hip as [(b4 & -> & Hb4 & ->)| ->].
    + unfold To4 in E4. by rewrite decide_True in E4 by done.
    + by rewrite ParseIP_ipv6_string.
Qed.

(** Two valid addresses print alike exactly when they are the same address
    ([IP.Equal]). *)
Lemma IP_String_inj a b :
  ip_valid a = true → ip_valid b = true → IP_String a = IP_String b ↔ To16 a = To16 b.
Proof.
  intros Ha Hb. split; intros H.
  - by rewrite <- (ParseIP_String a Ha), <- (ParseIP_String b Hb), H.
  - unfold ip_valid in Ha, Hb. apply bool_decide_eq_true in Ha as [x Hx].
    rewrite Hx in H. symmetry in H.
    assert (To4 a = To4 b ∧ (To4 a = None → a = b)) as [H4 Hn].
    { destruct (To16_Some _ _ Hx) as [Hl [(a4 & -> & Ha4 & ->)| ->]],
        (To16_Some _ _ H) as [_ [(b4 & -> & Hb4 & E)| ->]].
      - apply app_inv_head in E as ->. done.
      - unfold To4. rewrite (decide_True (P := length a4 = 4%nat)) by done.
        rewrite decide_False by (rewrite length_app, ?Ha4, ?Hb4; discriminate).
        rewrite decide_True by (rewrite length_app, ?Ha4, ?Hb4; done). done.
      - subst x. unfold To4. rewrite (decide_True (P := length b4 = 4%nat)) by done.
        rewrite decide_False by (rewrite length_app, ?Ha4, ?Hb4; discriminate).
        rewrite decide_True by (rewrite length_app, ?Ha4, ?Hb4; done). done.
      - done. }
    unfold IP_String, IP_String_bytes. rewrite Hx, H, H4.
    destruct (To4 b) eqn:E.
    + destruct a as [[|? ?]|], b as [[|? ?]|]; done.
    + rewrite Hn by congruence. done.
Qed.

(** [net.ParseIP] returns nil or 16 bytes. *)
Lemma ipv4_fields_length s val digLen prev fields r :
  (length fields ≤ 3)%nat → ipv4_fields s val digLen prev fields = Some r → length r = 4%nat.
Proof.
  revert val digLen prev fields. induction s as [|c s IH]; intros val digLen prev fields Hf; cbn [ipv4_fields].
  - destruct (Nat.ltb_spec (length fields) 3); [done|]. intros [= <-]. rewrite length_app. simpl. lia.
  - destruct (is_digit c).
    + destruct (_ && _); [done|]. destruct (_ <? _); [done|]. by apply IH.
    + destruct (Byte.eqb c dot); [|done]. case_bool_decide; [done|].
      destruct (Nat.eqb_spec (length fields) 3); [done|]. apply IH. rewrite length_app. simpl. lia.
Qed.

Lemma ipv6_loop_length n ip ell s r :
  (length ip + 2 * n ≤ 16)%nat → ipv6_loop n ip ell s = Some r → (length r.1.1 ≤ 16)%nat.
Proof.
  revert ip ell s. induction n as [|n IH]; intros ip ell s Hn; unfold ipv6_loop; fold ipv6_loop.
  { intros [= <-]. simpl. lia. }
  destruct (hex_group s 0 0) as [[[acc off] rest]|]; [|done]. destruct (off =? 0)%nat; [done|].
  assert (length (ip ++ be_encode 2 acc) + 2 * n ≤ 16)%nat as Hn'.
  { rewrite length_app, length_be_encode. lia. }
  destruct rest as [|c rest]; [intros [= <-]; simpl; lia|].
  destruct (Byte.eqb c dot).
  - case_bool_decide; [done|]. destruct (Nat.ltb_spec 16 (length ip + 4)); [done|].
    destruct (parseIPv4Fields s) as [f|] eqn:Hf; [|done]. intros [= <-]. simpl.
    apply (ipv4_fields_length _ _ _ _ []) in Hf; [|simpl; lia]. rewrite length_app. lia.
  - destruct (negb _); [done|]. destruct rest as [|c2 rest2]; [done|].
    destruct (Byte.eqb c2 colon); [|by apply IH].
    destruct ell; [done|]. destruct rest2; [intros [= <-]; simpl; lia|]. by apply IH.
Qed.

Lemma ipv6_finish_length r b : (length r.1.1 ≤ 16)%nat → ipv6_finish r = Some b → length b = 16%nat.
Proof.
  destruct r as [[ip ell] s]. simpl. intros Hl. case_bool_decide; [done|].
  destruct (Nat.ltb_spec (length ip) 16); destruct ell as [e|]; try done; intros [= <-]; [|lia].
  rewrite !length_app, length_replicate. pose proof (f_equal length (take_drop e ip)) as E.
  rewrite length_app in E. lia.
Qed.

Lemma ParseIP_length s b : ParseIP s = Some b → length b = 16%nat.
Proof.
  unfold ParseIP, ParseIP_bytes. set (all := bytes_of_string s). destruct (existsb _ _); [done|].
  assert (∀ s, (ipv6_loop 8 [] None s ≫= ipv6_finish) = Some b → length b = 16%nat) as H6.
  { intros s'. destruct (ipv6_loop 8 [] None s') as [r|] eqn:E; [|done]. simpl.
    apply ipv6_finish_length. eapply ipv6_loop_length; [|exact E]. simpl. lia. }
  generalize all at 1. intros l. induction l as [|c l IH]; [done|]. cbn [parse_addr].
  destruct (Byte.eqb c dot).
  - destruct (parseIPv4Fields all) as [f|] eqn:Hf; [|done]. intros Hb. simpl in Hb.
    apply (inj Some) in Hb as <-. apply (ipv4_fields_length _ _ _ _ []) in Hf; [|simpl; lia].
    change (length (v4InV6Prefix ++ f) = 16%nat). by rewrite length_app, Hf.
  - destruct (Byte.eqb c colon); [|by destruct (Byte.eqb c _)]. unfold parseIPv6.
    destruct all as [|c1 [|c2 s']]; try apply H6. destruct (_ && _); [|apply H6].
    destruct s' as [|c3 s']; [intros E; by apply (inj Some) in E as <-|].
    destruct (ipv6_loop 8 [] (Some 0%nat) (c3 :: s')) as [r|] eqn:E; [|done]. simpl.
    apply ipv6_finish_length. eapply ipv6_loop_length; [|exact E]. simpl. lia.
Qed.

Lemma ParseIP_To16 s b : ParseIP s = Some b → To16 (Some b) = Some b.
Proof.
  intros Hb%ParseIP_length. unfold To16. rewrite decide_False by lia. by rewrite decide_True.
Qed.

(** ** Package [time]: instants and durations in nanoseconds. *)
Definition Second : Z := 1000000000.
Definition Minute : Z := 60 * Second.

(** [time.Duration(x) * time.Second] in [int64]. *)
Definition seconds (x : Z) : Z := i64 (x * Second).
Definition Add (t d : Z) : Z := t + d.
Definition After (t u : Z) : bool := u <? t.
Definition Before (t u : Z) : bool := t <? u.
(** [Time.Unix()]: whole seconds, rounded towards minus infinity. *)
Definition Unix (t : Z) : Z := t / Second.
Definition FromUnix (s : Z) : Z := s * Second.
