(* ===== verification/Config.v ===== *)
(** Configuration ([biz/config/init.go]): the records the YAML or JSON file is
    read into, the default values, and the choice of the source in [Init].
    The decoders (sonic, yaml.v3), the environment and the file system are
    arguments of [Init]. *)
From Stdlib Require Import ZArith Strings.String.
From stdpp Require Import base strings option.
From S2P Require Import Prelude GoStd.
Set Default Proof Using "Type*".
Local Open Scope string_scope.

Record databaseConfig := DatabaseConfig
  { db_Database : string; db_Host : string; db_Port : Z; db_Pass : string; db_User : string }.
Record RocketMqConfig := mkRocketMqConfig { mq_Topic : string; mq_Endpoint : string }.
Record RedisConfig := mkRedisConfig
  { redis_Enable : bool; redis_Network : string; redis_Addr : string }.

Abbreviation runningMode := string (only parsing).
Definition RunningModeMemory : runningMode := "memory".
Definition RunningModeDB : runningMode := "db".
Definition RunningModeRPC : runningMode := "rpc".

Record wsConfig := WsConfig { ws_Enable : bool; ws_Shard : Z }.
Record rpcConfig := RpcConfig
  { rpc_EnableServer : bool; rpc_HostPorts : string; rpc_RemoteServer : string }.
Record udpConfig := UdpConfig { udp_Enable : bool; udp_HostPorts : string }.
Record memoryConfig := MemoryConfig
  { PersistFile : string; MaxPeersPerTorrent : Z; Shard : Z; EnablePersist : bool }.
Record xdpConfig := XdpConfig { xdp_Enable : bool; xdp_Interface : string }.

Record TrackerConfig := mkTrackerConfig
  { Database : databaseConfig; Memory : memoryConfig; UDPServer : udpConfig;
    WSServer : wsConfig; Mode : runningMode; RPC : rpcConfig; XDP : xdpConfig;
    HostPorts : string; MetricsHostPorts : string; TTL : Z; IntervalTask : Z;
    UseUnixSocket : bool; UseAnnounceIP : bool; EnableEventProducer : bool;
    EnableMetrics : bool; TrackerId : string; DebugPort : Z }.

Record Config := mkConfig
  { Cache : RedisConfig; Tracker : TrackerConfig; RocketMq : RocketMqConfig }.

(** Field assignments. *)
Definition set_PersistFile (s : string) (t : TrackerConfig) : TrackerConfig :=
  {| Database := Database t;
     Memory := MemoryConfig s (MaxPeersPerTorrent (Memory t)) (Shard (Memory t)) (EnablePersist (Memory t));
     UDPServer := UDPServer t; WSServer := WSServer t; Mode := Mode t; RPC := RPC t; XDP := XDP t;
     HostPorts := HostPorts t; MetricsHostPorts := MetricsHostPorts t; TTL := TTL t;
     IntervalTask := IntervalTask t; UseUnixSocket := UseUnixSocket t;
     UseAnnounceIP := UseAnnounceIP t; EnableEventProducer := EnableEventProducer t;
     EnableMetrics := EnableMetrics t; TrackerId := TrackerId t; DebugPort := DebugPort t |}.
Definition set_names (hp mhp tid : string) (t : TrackerConfig) : TrackerConfig :=
  {| Database := Database t; Memory := Memory t; UDPServer := UDPServer t;
     WSServer := WSServer t; Mode := Mode t; RPC := RPC t; XDP := XDP t;
     HostPorts := hp; MetricsHostPorts := mhp; TTL := TTL t;
     IntervalTask := IntervalTask t; UseUnixSocket := UseUnixSocket t;
     UseAnnounceIP := UseAnnounceIP t; EnableEventProducer := EnableEventProducer t;
     EnableMetrics := EnableMetrics t; TrackerId := tid; DebugPort := DebugPort t |}.

Definition or_default (s d : string) : string := if decide (s = "") then d else s.

(** [injectDefaultValue]; [Err] is the panic of rpc mode without a server. *)
Definition injectDefaultValue (conf : Config) : result Config :=
  let t := Tracker conf in
  let t1 := set_names (or_default (HostPorts t) "0.0.0.0:8888") (MetricsHostPorts t) (TrackerId t) t in
  let t2 := if decide (Mode t1 = RunningModeMemory)
            then set_PersistFile (or_default (PersistFile (Memory t1)) "persist.dat") t1 else t1 in
  if decide (Mode t2 = RunningModeRPC ∧ rpc_RemoteServer (RPC t2) = "") then
    Err "rpc remote server is required"
  else
    let t3 := set_names (HostPorts t2) (or_default (MetricsHostPorts t2) "127.0.0.1:9091")
                (or_default (TrackerId t2) "default") t2 in
    Ok {| Cache := Cache conf; Tracker := t3; RocketMq := RocketMq conf |}.

(** The zero value of [Config]. *)
Definition zeroConfig : Config :=
  {| Cache := mkRedisConfig false "" "";
     Tracker := {| Database := DatabaseConfig "" "" 0 "" ""; Memory := MemoryConfig "" 0 0 false;
       UDPServer := UdpConfig false ""; WSServer := WsConfig false 0; Mode := "";
       RPC := RpcConfig false "" ""; XDP := XdpConfig false ""; HostPorts := "";
       MetricsHostPorts := ""; TTL := 0; IntervalTask := 0; UseUnixSocket := false;
       UseAnnounceIP := false; EnableEventProducer := false; EnableMetrics := false;
       TrackerId := ""; DebugPort := 0 |};
     RocketMq := mkRocketMqConfig "" "" |}.

(** [Init]: [env] reads an environment variable (empty when unset),
    [read_file] opens and reads a file; a panic or a [log.Fatal] is [Err]. *)
Section Init.
Context (env : string → string) (read_file : string → result string).
Context (json_unmarshal yaml_unmarshal : string → Config → result Config).

Definition conf_file : string :=
  if decide (env "RUN_ENV" = "prod") then "conf/prod.yaml" else "conf/local.yaml".

Definition Init : result Config :=
  let jsonConfig := env "TRUNKER_CONFIG" in
  if negb (bool_decide (jsonConfig = "")) then
    match json_unmarshal jsonConfig zeroConfig with
    | Err e => Err ("invalid json config:" ++ e)
    | Ok config => injectDefaultValue config
    end
  else
    match read_file conf_file with
    | Err e => Err e
    | Ok content =>
        match yaml_unmarshal content zeroConfig with
        | Err e => Err ("parse local config failed: " ++ e)
        | Ok config => injectDefaultValue config
        end
    end.
End Init.

(** What the rest of the program relies on after [Init]. *)
Definition configured (c : Config) : Prop :=
  HostPorts (Tracker c) ≠ "" ∧ MetricsHostPorts (Tracker c) ≠ "" ∧ TrackerId (Tracker c) ≠ "" ∧
  (Mode (Tracker c) = RunningModeMemory → PersistFile (Memory (Tracker c)) ≠ "") ∧
  (Mode (Tracker c) = RunningModeRPC → rpc_RemoteServer (RPC (Tracker c)) ≠ "").

Lemma or_default_ne s d : d ≠ "" → or_default s d ≠ "".
Proof. unfold or_default. by case_decide. Qed.

Lemma or_default_idem s d : s ≠ "" → or_default s d = s.
Proof. unfold or_default. by case_decide. Qed.

Lemma injectDefaultValue_ok c c' : injectDefaultValue c = Ok c' → configured c'.
Proof.
  unfold injectDefaultValue. intros H. repeat case_decide; try discriminate H;
    injection H as <-; unfold configured; simpl in *;
    split_and!; intros; try (by apply or_default_ne); tauto.
Qed.

Lemma injectDefaultValue_configured c : configured c → injectDefaultValue c = Ok c.
Proof.
  intros (H1 & H2 & H3 & H4 & H5). unfold injectDefaultValue.
  destruct c as [ca t mq]. simpl in *.
  destruct t as [? m ? ? mode rp ? hp mhp ? ? ? ? ? ? tid ?]. simpl in *.
  destruct m as [pf ? ? ?]; simpl in *.
  repeat case_decide; simpl in *; rewrite ?or_default_idem by auto; tauto || congruence.
Qed.

(** When [Init] succeeds, the addresses and names the program relies on are
    set (with the persist file in memory mode and the remote server in rpc
    mode), and filling in the defaults once more changes nothing. *)
Theorem Init_configured env rf js ym c :
  Init env rf js ym = Ok c → configured c ∧ injectDefaultValue c = Ok c.
Proof.
  unfold Init. intros H. assert (configured c) as Hc.
  { repeat case_match; try discriminate; by eapply injectDefaultValue_ok. }
  split; [done|]. by apply injectDefaultValue_configured.
Qed.

(** A file that names no address, read in memory mode. *)
Definition sample_decode (s : string) (c : Config) : result Config :=
  Ok {| Cache := Cache c; RocketMq := RocketMq c;
        Tracker := {| Database := Database (Tracker c); Memory := MemoryConfig "" 400 64 true;
          UDPServer := UdpConfig true "0.0.0.0:6969"; WSServer := WsConfig true 4;
          Mode := RunningModeMemory; RPC := RPC (Tracker c); XDP := XDP (Tracker c); HostPorts := "";
          MetricsHostPorts := ""; TTL := 900; IntervalTask := 60; UseUnixSocket := false;
          UseAnnounceIP := true; EnableEventProducer := true; EnableMetrics := false;
          TrackerId := ""; DebugPort := 0 |} |}.
Definition sample_config : result Config :=
  Init (fun _ => "") (fun f => Ok f) sample_decode sample_decode.

Lemma Init_configured_witness :
  match sample_config with
  | Ok c => configured c ∧ PersistFile (Memory (Tracker c)) = "persist.dat"
  | Err _ => False
  end.
Proof.
  split; [|reflexivity].
  eapply (Init_configured (fun _ => "") (fun f => Ok f) sample_decode sample_decode). reflexivity.
Defined.
