(* ===== verification/Model.v ===== *)
(** Wire and request types ([biz/model/http.go]): announce requests, the two
    announce responses, errors, and scrape results. *)
From Stdlib Require Import ZArith Strings.String.
From stdpp Require Import base strings list gmap.
From S2P Require Import Prelude GoStd.
Set Default Proof Using "Type*".

(** [Source] and [PeerType] are [int8]; the named constants are the values the
    program itself produces. *)
Abbreviation Source := Z (only parsing).
Definition SourceHTTP : Source := 0%Z.
Definition SourceUDP : Source := 1%Z.
Definition SourceWS : Source := 2%Z.

Abbreviation PeerType := Z (only parsing).
Definition PeerTypeBittorrent : PeerType := 0%Z.
Definition PeerTypeWebtorrent : PeerType := 1%Z.

Record OfferDetail := mkOfferDetail { od_Type : string; SDP : string }.
Record Offer := mkOffer { OfferID : string; Offer_ : OfferDetail }.

(** A [*model.Conn] is the index of a connection object of the store that
    holds it; [None] is the nil pointer. *)
Abbreviation connptr := (option nat).

Record HttpAnnounceRequest := mkHttpAnnounceRequest
  { req_ClientIP : netIP; req_InfoHash : string; req_PeerID : string; req_Event : string;
    req_UserAgent : string; req_IP : string; req_IPv4 : string; req_IPv6 : string;
    req_Port : Z; req_Uploaded : Z; req_Downloaded : Z; req_Left : Z; req_NumWant : Z;
    req_Type : PeerType; req_Compact : Z }.

Record AnnounceRequest := mkAnnounceRequest
  { req_http :> HttpAnnounceRequest; req_Source : Source; req_Offers : list Offer;
    req_Conn : connptr }.

(** The zero value of [HttpAnnounceRequest] and [AnnounceRequest]. *)
Definition zeroHttpRequest : HttpAnnounceRequest :=
  mkHttpAnnounceRequest None "" "" "" "" "" "" "" 0 0 0 0 0 0 0.
Definition zeroRequest : AnnounceRequest := mkAnnounceRequest zeroHttpRequest 0 [] None.

(** [model.Peer], the dictionary form of a peer. *)
Record Peer := mkPeer { p_ID : string; p_IP : string; p_Port : Z }.

Record AnnounceBasicResponse := mkAnnounceBasicResponse
  { abr_Interval : Z; abr_Peers : list Peer; abr_ExternalIp : string; abr_TrackerId : string;
    abr_Complete : Z; abr_Incomplete : Z }.

Record AnnounceCompactResponse := mkAnnounceCompactResponse
  { acr_Interval : Z; acr_Peers : bytes; acr_Peers6 : bytes; acr_ExternalIp : string;
    acr_TrackerId : string; acr_Complete : Z; acr_Incomplete : Z }.

Record ErrorResponse := mkErrorResponse
  { FailureReason : string; Retry : string; er_TrackerId : string }.

Record ScrapeFile := mkScrapeFile
  { Seeder : Z; Complete : Z; Incomplete : Z; Downloaded : Z }.
Record ScrapeResponse := mkScrapeResponse { Files : gmap string ScrapeFile }.
