(* ===== verification/Common.v ===== *)
(** Peers ([biz/services/peer/common]): the record kept per peer, the address
    it is reached at, whether it can be connected to, its events, and the
    compact encoding of peer lists. *)
From Stdlib Require Import ZArith Lia Bool Strings.String.
From stdpp Require Import base strings list.
From S2P Require Import Prelude GoStd Config Model.
Set Default Proof Using "Type*".
Local Open Scope Z_scope.

(** [PeerEvent] is an [int8]. *)
Abbreviation PeerEvent := Z (only parsing).
Definition PeerEvent_Unknown : PeerEvent := 0.
Definition PeerEvent_Started : PeerEvent := 1.
Definition PeerEvent_Stopped : PeerEvent := 2.
Definition PeerEvent_Completed : PeerEvent := 3.

Definition ParsePeerEvent (s : string) : PeerEvent :=
  if decide (s = "started"%string) then PeerEvent_Started
  else if decide (s = "stopped"%string) then PeerEvent_Stopped
  else if decide (s = "completed"%string) then PeerEvent_Completed
  else PeerEvent_Unknown.

Definition PeerEvent_String (e : PeerEvent) : string :=
  if e =? PeerEvent_Started then "started"
  else if e =? PeerEvent_Stopped then "stopped"
  else if e =? PeerEvent_Completed then "completed"
  else "unknown".

Record Peer := mkPeer
  { IP : netIP; IPv4 : netIP; IPv6 : netIP; ClientIP : netIP; LastSeen : Z;
    Offers : list Offer; ID : string; UserAgent : string; Port : Z; Left : Z;
    Uploaded : Z; Downloaded : Z; Conn : connptr; Type_ : PeerType; Event : PeerEvent;
    Source_ : Source }.

Record StatisticInfo := mkStatisticInfo
  { TotalPeers : Z; TotalTorrents : Z; Shards : list (string * (Z * Z)) }.

Definition ErrNotSupportedInRPCMode : string :=
  "this operation is not supported in RPC mode, configure on remote server".

Record IPFilterStats := mkIPFilterStats
  { TotalIPs : Z; PacketsDropped : Z; PacketsAllowed : Z; IsXDP : bool; InterfaceName : string }.

(** [useAnnounceIP] is [config.AppConfig.Tracker.UseAnnounceIP]. *)
Definition GetIP (useAnnounceIP : bool) (p : Peer) : netIP :=
  let fallback := match ClientIP p with Some ip => Some ip | None => Some [] end in
  if useAnnounceIP then
    match IP p with
    | Some ip => Some ip
    | None =>
        match IPv4 p with
        | Some ip => Some ip
        | None => match IPv6 p with Some ip => Some ip | None => fallback end
        end
    end
  else fallback.

Definition GetKey (p : Peer) : string := ID p.

Definition ToModel (useAnnounceIP : bool) (p : Peer) : Model.Peer :=
  {| p_ID := ID p; p_IP := IP_String (GetIP useAnnounceIP p); p_Port := Port p |}.

Definition IsPeerConnectable (useAnnounceIP : bool) (p : Peer) : bool :=
  if Type_ p =? PeerTypeBittorrent then
    let ip := GetIP useAnnounceIP p in
    negb (IsPrivate ip || IsLoopback ip || (Port p =? 0) || (Port p =? 1))
  else if Type_ p =? PeerTypeWebtorrent then (0 <? Z.of_nat (length (Offers p)))
  else false.

(** One iteration of the loop of [PeersToCompact]. *)
Definition compact_step (useAnnounceIP : bool) (acc : bytes * bytes) (p : Peer) : bytes * bytes :=
  let '(peers, peers6) := acc in
  match To4 (GetIP useAnnounceIP p) with
  | Some ip => (peers ++ ip ++ be_encode 2 (u16 (Port p)), peers6)
  | None =>
      match To16 (GetIP useAnnounceIP p) with
      | Some ip => (peers, peers6 ++ ip ++ be_encode 2 (u16 (Port p)))
      | None => (peers, peers6)
      end
  end.
Definition PeersToCompact (useAnnounceIP : bool) (peerList : list Peer) : bytes * bytes :=
  fold_left (compact_step useAnnounceIP) peerList ([], []).

(** ** What a client reads out of the compact form *)

(** BEP 23 / BEP 7: consecutive records of [k] address bytes and a big-endian port. *)
Fixpoint read_compact (fuel k : nat) (b : bytes) : option (list (bytes * Z)) :=
  match fuel with
  | O => if decide (b = []) then Some [] else None
  | S f =>
      if decide (b = []) then Some []
      else if decide (length b < k + 2)%nat then None
      else (cons (take k b, be_decode (take 2 (drop k b)))) <$> read_compact f k (drop (k + 2) b)
  end.

(** The endpoints of a list of peers, per address family. *)
Definition endpoint4 (u : bool) (p : Peer) : option (bytes * Z) :=
  (fun ip => (ip, u16 (Port p))) <$> To4 (GetIP u p).
Definition endpoint6 (u : bool) (p : Peer) : option (bytes * Z) :=
  match To4 (GetIP u p) with
  | Some _ => None
  | None => (fun ip => (ip, u16 (Port p))) <$> To16 (GetIP u p)
  end.

Definition record_of (e : bytes * Z) : bytes := e.1 ++ be_encode 2 e.2.

Lemma PeersToCompact_flat u ps :
  PeersToCompact u ps = (flat_map record_of (omap (endpoint4 u) ps), flat_map record_of (omap (endpoint6 u) ps)).
Proof.
  unfold PeersToCompact.
  assert (∀ l a b, fold_left (compact_step u) l (a, b) =
    (a ++ flat_map record_of (omap (endpoint4 u) l), b ++ flat_map record_of (omap (endpoint6 u) l))) as H.
  { induction l as [|p l IH]; intros a b; [by rewrite !app_nil_r|].
    cbn [fold_left]. unfold compact_step at 2. cbn [omap list_omap].
    unfold endpoint4 at 1, endpoint6 at 1.
    destruct (To4 (GetIP u p)) as [ip|]; [|destruct (To16 (GetIP u p)) as [ip|]];
      rewrite IH; cbn; unfold record_of at 1; simpl; by rewrite <- ?app_assoc. }
  apply (H ps [] []).
Qed.

Lemma read_compact_records k es fuel :
  Forall (fun e => length e.1 = k ∧ 0 ≤ e.2 < 65536) es → (length es ≤ fuel)%nat →
  read_compact fuel k (flat_map record_of es) = Some es.
Proof.
  revert fuel. induction es as [|[ip port] es IH]; intros fuel Hes Hf.
  - by destruct fuel.
  - destruct fuel as [|fuel]; [simpl in Hf; lia|].
    apply Forall_cons_iff in Hes as [[Hk Hp] Hes]. simpl in Hk, Hp, Hf.
    assert (be_decode (be_encode 2 port) = port) as Hport
      by (apply be_decode_encode_small; simpl; lia).
    cbn [flat_map]. unfold record_of at 1. cbn [fst snd read_compact].
    rewrite <- app_assoc.
    rewrite decide_False by (intros E; apply (f_equal length) in E;
      rewrite !length_app, length_be_encode in E; simpl in E; lia).
    rewrite decide_False by (rewrite !length_app, length_be_encode; lia).
    rewrite take_app_length' by done. rewrite !drop_app_ge by (rewrite ?length_app; lia).
    rewrite Hk, Nat.sub_diag, drop_0.
    rewrite take_app_length' by (by rewrite length_be_encode). rewrite Hport.
    rewrite drop_app_ge by lia. rewrite Hk. replace (k + 2 - k)%nat with 2%nat by lia.
    rewrite drop_app_length' by (by rewrite length_be_encode).
    rewrite IH by (done || lia). done.
Qed.

Lemma length_records k es :
  Forall (fun e : bytes * Z => length e.1 = k ∧ 0 ≤ e.2 < 65536) es →
  length (flat_map record_of es) = ((k + 2) * length es)%nat.
Proof.
  induction 1 as [|[ip port] es [Hk _] _ IH]; [simpl; lia|].
  cbn [flat_map]. rewrite length_app, IH. unfold record_of. simpl in *.
  rewrite length_app. simpl. lia.
Qed.

Lemma length_omap_le {A B} (f : A → option B) l : (length (omap f l) ≤ length l)%nat.
Proof. induction l as [|x l IH]; csimpl; [lia|]. destruct (f x); csimpl; lia. Qed.

Lemma endpoint4_ok u ps :
  Forall (fun e : bytes * Z => length e.1 = 4%nat ∧ 0 ≤ e.2 < 65536) (omap (endpoint4 u) ps).
Proof.
  apply Forall_forall. intros e He. apply list_elem_of_omap in He as (p & _ & He).
  unfold endpoint4 in He. destruct (To4 (GetIP u p)) as [ip|] eqn:E; [|done].
  simpl in He. injection He as <-. simpl. split; [by eapply To4_length|].
  by apply (wrap_u_range 16).
Qed.

Lemma endpoint6_ok u ps :
  Forall (fun e : bytes * Z => length e.1 = 16%nat ∧ 0 ≤ e.2 < 65536) (omap (endpoint6 u) ps).
Proof.
  apply Forall_forall. intros e He. apply list_elem_of_omap in He as (p & _ & He).
  unfold endpoint6 in He. destruct (To4 (GetIP u p)) as [?|] eqn:E4; [done|].
  destruct (To16 (GetIP u p)) as [ip|] eqn:E; [|done].
  simpl in He. injection He as <-. simpl. split; [by eapply To16_Some|].
  by apply (wrap_u_range 16).
Qed.

Lemma PeersToCompact_records u ps :
  let '(p4, p6) := PeersToCompact u ps in
  read_compact (length ps) 4 p4 = Some (omap (endpoint4 u) ps) ∧
  read_compact (length ps) 16 p6 = Some (omap (endpoint6 u) ps).
Proof.
  rewrite PeersToCompact_flat.
  split; apply read_compact_records; apply endpoint4_ok || apply endpoint6_ok || apply length_omap_le.
Qed.

(** C35: A client that splits the two compact strings into records reads back
    the IPv4 and the IPv6 endpoints of the peer list, in order; the strings are
    six and eighteen bytes per endpoint. *)
Theorem PeersToCompact_decode u ps :
  let '(p4, p6) := PeersToCompact u ps in
  read_compact (length ps) 4 p4 = Some (omap (endpoint4 u) ps) ∧
  read_compact (length ps) 16 p6 = Some (omap (endpoint6 u) ps) ∧
  length p4 = (6 * length (omap (endpoint4 u) ps))%nat ∧
  length p6 = (18 * length (omap (endpoint6 u) ps))%nat.
Proof.
  pose proof (PeersToCompact_records u ps) as Hr. rewrite PeersToCompact_flat in *. destruct Hr.
  split_and!; [done|done|..].
  - apply (length_records 4), endpoint4_ok.
  - apply (length_records 16), endpoint6_ok.
Qed.
