(* ===== verification/Samples.v ===== *)
(** Concrete configurations, peers and requests, used to run the definitions. *)
From Stdlib Require Import ZArith Strings.String.
From stdpp Require Import base strings list.
From S2P Require Import Prelude GoStd Config Model Common.
Set Default Proof Using "Type*".
Local Open Scope Z_scope.

(** The configuration of [Config.sample_config], with a given peer limit. *)
Definition sample_cfg (max_peers : Z) : Config :=
  {| Cache := mkRedisConfig false "" "";
     Tracker := {| Database := DatabaseConfig "" "" 0 "" "";
       Memory := MemoryConfig "persist.dat" max_peers 4 true;
       UDPServer := UdpConfig true "0.0.0.0:6969"; WSServer := WsConfig true 4;
       Mode := RunningModeMemory; RPC := RpcConfig false "" ""; XDP := XdpConfig false "";
       HostPorts := "0.0.0.0:8888"; MetricsHostPorts := "127.0.0.1:9091"; TTL := 900;
       IntervalTask := 60; UseUnixSocket := false; UseAnnounceIP := true;
       EnableEventProducer := true; EnableMetrics := false; TrackerId := "default";
       DebugPort := 0 |};
     RocketMq := mkRocketMqConfig "" "" |}.

Definition sample_time : Z := 1700000000 * Second.

(** An HTTP announce of peer [id] from address 203.0.113.[h]. *)
Definition sample_request (id ih event : string) (h : Byte.byte) (left num : Z) : AnnounceRequest :=
  {| req_http := {| req_ClientIP := Some [Byte.xcb; Byte.x00; Byte.x71; h]; req_InfoHash := ih;
       req_PeerID := id; req_Event := event; req_UserAgent := "client"; req_IP := "";
       req_IPv4 := ""; req_IPv6 := ""; req_Port := 6881; req_Uploaded := 0; req_Downloaded := 0;
       req_Left := left; req_NumWant := num; req_Type := PeerTypeBittorrent; req_Compact := 1 |};
     req_Source := SourceHTTP; req_Offers := []; req_Conn := None |}.

(** The peer that announce describes. *)
Definition sample_peer (id : string) (h : Byte.byte) (event left seen : Z) : Peer :=
  {| IP := None; IPv4 := None; IPv6 := None;
     ClientIP := Some [Byte.xcb; Byte.x00; Byte.x71; h]; LastSeen := seen; Offers := []; ID := id;
     UserAgent := "client"; Port := 6881; Left := left; Uploaded := 0; Downloaded := 0;
     Conn := None; Type_ := PeerTypeBittorrent; Event := event; Source_ := SourceHTTP |}.
