(* ===== verification/Bencode.v ===== *)
(** Bencoded replies ([biz/model/fast_bencode.go], [utils/bencode]): the
    hand-written encoders of the compact announce reply and of errors, the
    renderer that chooses them, and a reference codec for bencoded values
    (BEP 3) they are compared with. *)
From Stdlib Require Import ZArith Lia Bool Strings.String Sorting.Sorted.
From stdpp Require Import base strings list gmap.
From S2P Require Import Prelude GoStd Model.
Set Default Proof Using "Type*".
Local Open Scope Z_scope.

(** ** The encoders; an [io.Writer] is the bytes written so far. *)
Abbreviation writer := bytes (only parsing).
Definition Write (w : writer) (s : bytes) : writer := w ++ s.
Definition WriteLit (w : writer) (s : string) : writer := Write w (bytes_of_string s).

Definition writeString (w : writer) (s : string) : writer :=
  let w := Write w (Itoa_bytes (Z.of_nat (String.length s))) in
  let w := WriteLit w ":" in
  WriteLit w s.

Definition writeBytes (w : writer) (s : bytes) : writer :=
  let w := Write w (Itoa_bytes (Z.of_nat (length s))) in
  let w := WriteLit w ":" in
  Write w s.

Definition writeInt (w : writer) (i : Z) : writer :=
  let w := WriteLit w "i" in
  let w := Write w (Itoa_bytes i) in
  WriteLit w "e".

Definition ErrorResponse_Bencode (e : ErrorResponse) (w : writer) : writer :=
  let w := WriteLit w "d14:failure reason" in
  let w := writeString w (FailureReason e) in
  let w := WriteLit w "8:retry in" in
  let w := writeString w (Retry e) in
  let w := if (0 <? String.length (er_TrackerId e))%nat then
             let w := WriteLit w "10:tracker id" in writeString w (er_TrackerId e)
           else w in
  WriteLit w "e".

Definition AnnounceCompactResponse_Bencode (a : AnnounceCompactResponse) (w : writer) : writer :=
  let w := WriteLit w "d8:complete" in
  let w := writeInt w (acr_Complete a) in
  let w := WriteLit w "11:external ip" in
  let w := writeString w (acr_ExternalIp a) in
  let w := WriteLit w "10:incomplete" in
  let w := writeInt w (acr_Incomplete a) in
  let w := WriteLit w "8:interval" in
  let w := writeInt w (acr_Interval a) in
  let w := WriteLit w "5:peers" in
  let w := writeBytes w (acr_Peers a) in
  let w := if (0 <? length (acr_Peers6 a))%nat then
             let w := WriteLit w "6:peers6" in writeBytes w (acr_Peers6 a)
           else w in
  let w := if (0 <? String.length (acr_TrackerId a))%nat then
             let w := WriteLit w "10:tracker id" in writeString w (acr_TrackerId a)
           else w in
  WriteLit w "e".

(** ** Rendering ([utils/bencode/render.go], [bencode.go]) *)

(** The values a handler passes to [ResponseOk] and [ResponseErr]. *)
Inductive render_data :=
| RenderError (e : ErrorResponse)
| RenderCompact (a : AnnounceCompactResponse)
| RenderBasic (a : AnnounceBasicResponse)
| RenderScrape (s : ScrapeResponse).

Record http_reply := HttpReply { status : Z; body : bytes }.

Section Render.
(** [Marshal] is [bencode.Marshal] of github.com/cristalhq/bencode, used for
    the values without an encoder of their own. *)
Context (Marshal : render_data → result bytes).

Definition Render (d : render_data) (body : bytes) : result bytes :=
  match d with
  | RenderError e => Ok (ErrorResponse_Bencode e body)
  | RenderCompact a => Ok (AnnounceCompactResponse_Bencode a body)
  | _ => res_map (fun res => body ++ res) (Marshal d)
  end.

(** A marshalling error leaves the body empty. *)
Definition render_reply (code : Z) (d : render_data) : http_reply :=
  {| status := code; body := match Render d [] with Ok b => b | Err _ => [] end |}.

Definition ResponseOk (d : render_data) : http_reply := render_reply 200 d.
Definition ResponseErr (trackerId : string) (err : string) : http_reply :=
  render_reply 400 (RenderError {| FailureReason := err; Retry := "never"; er_TrackerId := trackerId |}).
Definition ResponseErrWithRetry (trackerId : string) (err : string) : http_reply :=
  render_reply 400 (RenderError {| FailureReason := err; Retry := "600"; er_TrackerId := trackerId |}).
End Render.

(** ** The reference codec *)
Inductive bval :=
| BInt (z : Z)
| BStr (s : bytes)
| BList (l : list bval)
| BDict (l : list (bytes * bval)).

Definition benc_str (s : bytes) : bytes := Itoa_bytes (Z.of_nat (length s)) ++ ch ":" :: s.

Fixpoint benc (v : bval) : bytes :=
  match v with
  | BInt z => ch "i" :: Itoa_bytes z ++ [ch "e"]
  | BStr s => benc_str s
  | BList l => ch "l" :: flat_map benc l ++ [ch "e"]
  | BDict l => ch "d" :: flat_map (fun '(k, v) => benc_str k ++ benc v) l ++ [ch "e"]
  end.

Fixpoint span_digits (s : bytes) : bytes * bytes :=
  match s with
  | c :: s' => if is_digit c then let '(d, r) := span_digits s' in (c :: d, r) else ([], s)
  | [] => ([], [])
  end.

Definition bdec_int (s : bytes) : option (Z * bytes) :=
  let '(neg, s1) := match s with
                    | c :: s' => if Byte.eqb c (ch "-") then (true, s') else (false, s)
                    | [] => (false, s)
                    end in
  match span_digits s1 with
  | (d :: ds, c :: r) =>
      if Byte.eqb c (ch "e") then
        Some ((if neg then - dec_value (d :: ds) else dec_value (d :: ds)), r)
      else None
  | _ => None
  end.

Definition bdec_str (s : bytes) : option (bytes * bytes) :=
  match span_digits s with
  | (d :: ds, c :: r) =>
      let n := Z.to_nat (dec_value (d :: ds)) in
      if Byte.eqb c (ch ":") && (n <=? length r)%nat then Some (take n r, drop n r) else None
  | _ => None
  end.

Fixpoint bdec (fuel : nat) (s : bytes) : option (bval * bytes) :=
  match fuel with
  | O => None
  | S f =>
      match s with
      | [] => None
      | c :: s' =>
          if Byte.eqb c (ch "i") then '(z, r) ← bdec_int s'; Some (BInt z, r)
          else if Byte.eqb c (ch "l") then '(l, r) ← bdec_list f s'; Some (BList l, r)
          else if Byte.eqb c (ch "d") then '(l, r) ← bdec_dict f s'; Some (BDict l, r)
          else '(b, r) ← bdec_str s; Some (BStr b, r)
      end
  end
with bdec_list (fuel : nat) (s : bytes) : option (list bval * bytes) :=
  match fuel with
  | O => None
  | S f =>
      match s with
      | [] => None
      | c :: s' =>
          if Byte.eqb c (ch "e") then Some ([], s')
          else '(v, r) ← bdec f s; '(l, r) ← bdec_list f r; Some (v :: l, r)
      end
  end
with bdec_dict (fuel : nat) (s : bytes) : option (list (bytes * bval) * bytes) :=
  match fuel with
  | O => None
  | S f =>
      match s with
      | [] => None
      | c :: s' =>
          if Byte.eqb c (ch "e") then Some ([], s')
          else '(k, r) ← bdec_str s; '(v, r) ← bdec f r; '(l, r) ← bdec_dict f r;
               Some ((k, v) :: l, r)
      end
  end.

(** Every nested value takes at least two bytes, so the length of the input is
    fuel enough ([bdec_benc]). *)
Definition bdecode (s : bytes) : option bval :=
  match bdec (length s) s with Some (v, []) => Some v | _ => None end.

(** ** Round trip of the reference codec *)
Lemma span_digits_app ds c r :
  Forall (fun c => is_digit c = true) ds → is_digit c = false →
  span_digits (ds ++ c :: r) = (ds, c :: r).
Proof.
  intros Hd Hc. induction Hd as [|d ds Hd _ IH]; cbn [app span_digits].
  - by rewrite Hc.
  - by rewrite Hd, IH.
Qed.

Lemma bdec_int_Itoa z r : bdec_int (Itoa_bytes z ++ ch "e" :: r) = Some (z, r).
Proof.
  unfold bdec_int, Itoa_bytes. destruct (Z.ltb_spec z 0).
  - cbn [app]. rewrite byte_eqb_refl.
    destruct (utoa_spec (- z) ltac:(lia)) as (Hv & Hd & Hne).
    rewrite span_digits_app by done. destruct (utoa (- z)) as [|d ds]; [done|].
    rewrite byte_eqb_refl, Hv. do 2 f_equal. lia.
  - destruct (utoa_spec z ltac:(lia)) as (Hv & Hd & Hne).
    destruct (utoa z) as [|d ds] eqn:E; [done|]. cbn [app].
    assert (Byte.eqb d (ch "-") = false) as ->.
    { apply Forall_cons_iff in Hd as [Hd _]. by destruct d. }
    pose proof (span_digits_app (d :: ds) (ch "e") r Hd eq_refl) as Hs. cbn [app] in Hs.
    rewrite Hs. by rewrite byte_eqb_refl, Hv.
Qed.

Lemma bdec_str_enc s r : bdec_str (benc_str s ++ r) = Some (s, r).
Proof.
  unfold bdec_str, benc_str, Itoa_bytes. rewrite (proj2 (Z.ltb_ge _ 0)) by lia.
  destruct (utoa_spec (Z.of_nat (length s)) ltac:(lia)) as (Hv & Hd & Hne).
  rewrite <- app_assoc. cbn [app]. rewrite span_digits_app by done.
  destruct (utoa (Z.of_nat (length s))) as [|d ds]; [done|].
  rewrite byte_eqb_refl, Hv, Nat2Z.id. cbn [andb].
  rewrite (proj2 (Nat.leb_le _ _)) by (rewrite length_app; lia).
  by rewrite take_app_length, drop_app_length.
Qed.

(** The first byte of an encoded string is a digit. *)
Lemma benc_str_head s : ∃ c t, benc_str s = c :: t ∧ is_digit c = true.
Proof.
  unfold benc_str, Itoa_bytes. rewrite (proj2 (Z.ltb_ge _ 0)) by lia.
  destruct (utoa_spec (Z.of_nat (length s)) ltac:(lia)) as (_ & Hd & Hne).
  destruct (utoa _) as [|d ds]; [done|]. apply Forall_cons_iff in Hd as [Hd _].
  eexists d, _. by split.
Qed.

Lemma digit_not_marker c :
  is_digit c = true →
  Byte.eqb c (ch "i") = false ∧ Byte.eqb c (ch "l") = false ∧ Byte.eqb c (ch "d") = false
  ∧ Byte.eqb c (ch "e") = false.
Proof. by destruct c. Qed.

Lemma benc_head v : ∃ c t, benc v = c :: t ∧ Byte.eqb c (ch "e") = false.
Proof.
  destruct v as [z|s|l|l]; cbn [benc]; try (eexists _, _; split; [reflexivity|done]).
  destruct (benc_str_head s) as (c & t & -> & Hc). eexists _, _. split; [done|].
  by apply digit_not_marker.
Qed.

Section bval_ind'.
Variable P : bval → Prop.
Hypothesis HI : ∀ z, P (BInt z).
Hypothesis HS : ∀ s, P (BStr s).
Hypothesis HL : ∀ l, Forall P l → P (BList l).
Hypothesis HD : ∀ l, Forall (fun kv => P kv.2) l → P (BDict l).
Fixpoint bval_nested_ind (v : bval) : P v :=
  match v with
  | BInt z => HI z
  | BStr s => HS s
  | BList l => HL l ((fix go l : Forall P l :=
      match l with [] => Forall_nil_2 _ | x :: l => Forall_cons_2 _ _ _ (bval_nested_ind x) (go l) end) l)
  | BDict l => HD l ((fix go l : Forall (fun kv => P kv.2) l :=
      match l with
      | [] => Forall_nil_2 _
      | x :: l => Forall_cons_2 (fun kv => P kv.2) _ _ (bval_nested_ind x.2) (go l)
      end) l)
  end.
End bval_ind'.

Definition reads (v : bval) : Prop :=
  ∀ r fuel, (length (benc v) ≤ fuel)%nat → bdec fuel (benc v ++ r) = Some (v, r).

Lemma bdec_list_benc l r fuel :
  Forall reads l → (length (flat_map benc l) < fuel)%nat →
  bdec_list fuel (flat_map benc l ++ ch "e" :: r) = Some (l, r).
Proof.
  intros Hl. revert fuel. induction Hl as [|v l Hv Hl IH]; intros fuel Hf;
    (destruct fuel as [|fuel]; [lia|]); [done|].
  cbn [flat_map] in *. rewrite length_app in Hf. rewrite <- app_assoc.
  pose proof (Hv (flat_map benc l ++ ch "e" :: r) fuel ltac:(lia)) as Hd.
  destruct (benc_head v) as (c & t & Ec & Hc). rewrite Ec in *. cbn [app length] in *.
  cbn [bdec_list]. rewrite Hc, Hd. cbn. rewrite IH by lia. done.
Qed.

Lemma bdec_dict_benc l r fuel :
  Forall (fun kv => reads kv.2) l →
  (length (flat_map (fun '(k, v) => benc_str k ++ benc v) l) < fuel)%nat →
  bdec_dict fuel (flat_map (fun '(k, v) => benc_str k ++ benc v) l ++ ch "e" :: r) = Some (l, r).
Proof.
  intros Hl. revert fuel. induction Hl as [|[k v] l Hv Hl IH]; intros fuel Hf;
    (destruct fuel as [|fuel]; [lia|]); [done|]. simpl in Hv.
  cbn [flat_map] in *. rewrite !length_app in Hf. rewrite <- !app_assoc.
  pose proof (bdec_str_enc k (benc v ++ flat_map (fun '(k, v) => benc_str k ++ benc v) l ++ ch "e" :: r)) as Hk.
  destruct (benc_str_head k) as (c & t & Ec & Hc). rewrite Ec in *. cbn [app length] in *.
  apply digit_not_marker in Hc as (_ & _ & _ & Hc).
  cbn [bdec_dict]. rewrite Hc, Hk. cbn. rewrite Hv by lia. cbn. rewrite IH by lia. done.
Qed.

Lemma bdec_benc v : reads v.
Proof.
  induction v as [z|s|l IH|l IH] using bval_nested_ind; intros r fuel Hf; cbn [benc] in *.
  - destruct fuel as [|fuel]; [simpl in Hf; lia|]. cbn [app bdec]. rewrite byte_eqb_refl.
    rewrite <- app_assoc. cbn [app]. by rewrite bdec_int_Itoa.
  - pose proof (bdec_str_enc s r) as Hs.
    destruct (benc_str_head s) as (c & t & Ec & Hc). rewrite Ec in *.
    apply digit_not_marker in Hc as (H1 & H2 & H3 & _).
    destruct fuel as [|fuel]; [simpl in Hf; lia|]. cbn [app bdec] in *. by rewrite H1, H2, H3, Hs.
  - destruct fuel as [|fuel]; [simpl in Hf; lia|]. cbn [app bdec].
    change (Byte.eqb (ch "l") (ch "i")) with false. rewrite byte_eqb_refl, <- app_assoc. cbn [app].
    cbn [length] in Hf. rewrite length_app in Hf. simpl in Hf.
    by rewrite bdec_list_benc by (done || lia).
  - destruct fuel as [|fuel]; [simpl in Hf; lia|]. cbn [app bdec].
    change (Byte.eqb (ch "d") (ch "i")) with false. change (Byte.eqb (ch "d") (ch "l")) with false.
    rewrite byte_eqb_refl, <- app_assoc. cbn [app].
    cbn [length] in Hf. rewrite length_app in Hf. simpl in Hf.
    by rewrite bdec_dict_benc by (done || lia).
Qed.

Lemma bdecode_benc v : bdecode (benc v) = Some v.
Proof.
  unfold bdecode. pose proof (bdec_benc v [] (length (benc v)) ltac:(lia)) as H.
  rewrite app_nil_r in H. by rewrite H.
Qed.

(** ** What the hand-written encoders write *)
Definition bstring (s : string) : bval := BStr (bytes_of_string s).
Definition key (s : string) (v : bval) : bytes * bval := (bytes_of_string s, v).

Definition ErrorResponse_dict (e : ErrorResponse) : bval :=
  BDict ([ key "failure reason" (bstring (FailureReason e)); key "retry in" (bstring (Retry e)) ]
         ++ (if decide (er_TrackerId e = ""%string) then []
             else [ key "tracker id" (bstring (er_TrackerId e)) ])).

Definition AnnounceCompactResponse_dict (a : AnnounceCompactResponse) : bval :=
  BDict ([ key "complete" (BInt (acr_Complete a)); key "external ip" (bstring (acr_ExternalIp a));
           key "incomplete" (BInt (acr_Incomplete a)); key "interval" (BInt (acr_Interval a));
           key "peers" (BStr (acr_Peers a)) ]
         ++ (if decide (acr_Peers6 a = []) then [] else [ key "peers6" (BStr (acr_Peers6 a)) ])
         ++ (if decide (acr_TrackerId a = ""%string) then []
             else [ key "tracker id" (bstring (acr_TrackerId a)) ])).

(** BEP 3: the keys of a dictionary are sorted as raw strings, without repetition. *)
Fixpoint bytes_ltb (a b : bytes) : bool :=
  match a, b with
  | _, [] => false
  | [], _ :: _ => true
  | x :: a, y :: b => (Z_of_byte x <? Z_of_byte y) || ((Z_of_byte x =? Z_of_byte y) && bytes_ltb a b)
  end.
Fixpoint strictly_sorted (ks : list bytes) : bool :=
  match ks with
  | k1 :: ks' =>
      match ks' with k2 :: _ => bytes_ltb k1 k2 && strictly_sorted ks' | [] => true end
  | [] => true
  end.
Definition canonical (v : bval) : bool :=
  match v with BDict l => strictly_sorted (map fst l) | _ => true end.

Lemma nonempty_ltb {A} (l : list A) : (0 <? length l)%nat = true ↔ l ≠ [].
Proof. destruct l; simpl; naive_solver. Qed.

Lemma string_nonempty_ltb s : (0 <? String.length s)%nat = true ↔ s ≠ ""%string.
Proof. destruct s; simpl; split; intros; done || congruence. Qed.

Lemma writeString_eq w s : writeString w s = w ++ benc_str (bytes_of_string s).
Proof.
  unfold writeString, WriteLit, Write, benc_str.
  by rewrite length_bytes_of_string, <- !app_assoc.
Qed.

Lemma writeBytes_eq w s : writeBytes w s = w ++ benc_str s.
Proof. unfold writeBytes, WriteLit, Write, benc_str. by rewrite <- !app_assoc. Qed.

Lemma writeInt_eq w i : writeInt w i = w ++ benc (BInt i).
Proof. unfold writeInt, WriteLit, Write. by rewrite <- !app_assoc. Qed.

(** The key literals of the encoders carry their length in front. *)
Lemma key_literals :
  benc_str (bytes_of_string "failure reason") = bytes_of_string "14:failure reason" ∧
  benc_str (bytes_of_string "retry in") = bytes_of_string "8:retry in" ∧
  benc_str (bytes_of_string "tracker id") = bytes_of_string "10:tracker id" ∧
  benc_str (bytes_of_string "complete") = bytes_of_string "8:complete" ∧
  benc_str (bytes_of_string "external ip") = bytes_of_string "11:external ip" ∧
  benc_str (bytes_of_string "incomplete") = bytes_of_string "10:incomplete" ∧
  benc_str (bytes_of_string "interval") = bytes_of_string "8:interval" ∧
  benc_str (bytes_of_string "peers") = bytes_of_string "5:peers" ∧
  benc_str (bytes_of_string "peers6") = bytes_of_string "6:peers6".
Proof. by vm_compute. Qed.

Ltac write_eq :=
  let K := fresh in pose proof key_literals as K;
  destruct K as (K1 & K2 & K3 & K4 & K5 & K6 & K7 & K8 & K9);
  rewrite ?writeString_eq, ?writeBytes_eq, ?writeInt_eq; unfold WriteLit, Write, key, bstring;
  cbn [benc flat_map app]; rewrite <- ?app_assoc;
  rewrite ?K1, ?K2, ?K3, ?K4, ?K5, ?K6, ?K7, ?K8, ?K9; reflexivity.

Lemma ErrorResponse_Bencode_eq e w :
  ErrorResponse_Bencode e w = w ++ benc (ErrorResponse_dict e).
Proof.
  unfold ErrorResponse_Bencode, ErrorResponse_dict. cbv zeta.
  destruct (0 <? String.length (er_TrackerId e))%nat eqn:E.
  - apply string_nonempty_ltb in E. rewrite decide_False by done. write_eq.
  - rewrite decide_True; [write_eq|]. destruct (decide (er_TrackerId e = ""%string)) as [|Hne]; [done|].
    apply string_nonempty_ltb in Hne. congruence.
Qed.

Lemma AnnounceCompactResponse_Bencode_eq a w :
  AnnounceCompactResponse_Bencode a w = w ++ benc (AnnounceCompactResponse_dict a).
Proof.
  unfold AnnounceCompactResponse_Bencode, AnnounceCompactResponse_dict. cbv zeta.
  assert ((0 <? length (acr_Peers6 a))%nat = negb (bool_decide (acr_Peers6 a = []))) as ->
    by by destruct (acr_Peers6 a).
  assert ((0 <? String.length (acr_TrackerId a))%nat = negb (bool_decide (acr_TrackerId a = ""%string))) as ->
    by by destruct (acr_TrackerId a).
  destruct (decide (acr_Peers6 a = [])) as [H6|H6], (decide (acr_TrackerId a = ""%string)) as [Ht|Ht];
    rewrite ?(bool_decide_true _ H6), ?(bool_decide_false _ H6),
      ?(bool_decide_true _ Ht), ?(bool_decide_false _ Ht); cbn [negb]; write_eq.
Qed.

(** C36: The compact announce reply is the canonical bencoding of the dictionary
    of its fields, and the reference decoder reads that dictionary back. *)
Theorem compact_reply_decodes a :
  bdecode (AnnounceCompactResponse_Bencode a []) = Some (AnnounceCompactResponse_dict a) ∧
  AnnounceCompactResponse_Bencode a [] = benc (AnnounceCompactResponse_dict a) ∧
  canonical (AnnounceCompactResponse_dict a) = true.
Proof.
  rewrite AnnounceCompactResponse_Bencode_eq. split_and!; [apply bdecode_benc|done|].
  unfold AnnounceCompactResponse_dict. by repeat case_decide.
Qed.

(** [ResponseErr] answers 400 with a canonical bencoded dictionary that
    decodes to the reason, "never" and the tracker id, whatever the reason. *)
Theorem error_reply_decodes marshal trackerId err :
  let r := ResponseErr marshal trackerId err in
  let e := {| FailureReason := err; Retry := "never"; er_TrackerId := trackerId |} in
  status r = 400 ∧ bdecode (body r) = Some (ErrorResponse_dict e) ∧
  canonical (ErrorResponse_dict e) = true.
Proof.
  cbv zeta. unfold ResponseErr, render_reply. cbn [status body Render].
  rewrite ErrorResponse_Bencode_eq. split_and!; [done|apply bdecode_benc|].
  unfold ErrorResponse_dict. by case_decide.
Qed.
