(* ===== verification/Mapx.v ===== *)
(** Concurrent string maps ([utils/collections/mapx]).

    [SyncStringMap] is the interface of [interface.go]; its laws describe each
    call by what it does to the finite map it stands for.  [Map] is the
    [sync.Map] wrapper of [sync.go] with its separate length counter; [Skip] is
    the meaning of the third-party skip map behind [NewSkipMap] that the laws
    ask for, an ordered map.  The last section runs the wrapper's methods in
    interleaved atomic steps. *)
From Stdlib Require Import ZArith Lia Bool Strings.String.
From stdpp Require Import base strings list gmap fin_maps relations.
From S2P Require Import Prelude.
Set Default Proof Using "Type*".

(** ** The interface *)
Class SyncStringMap (M : Type → Type) := {
  sm_new {V} : M V;
  sm_Delete {V} : string → M V → bool * M V;
  sm_Load {V} : string → M V → option V;
  sm_LoadAndDelete {V} : string → M V → option V * M V;
  (** the value present after the call, and whether it was there before *)
  sm_LoadOrStore {V} : string → V → M V → (V * bool) * M V;
  sm_LoadOrStoreLazy {V} : string → (unit → V) → M V → (V * bool) * M V;
  (** the entries in the order [Range] visits them *)
  sm_Range {V} : M V → list (string * V);
  sm_Store {V} : string → V → M V → M V;
  sm_Len {V} : M V → Z;
}.

(** What a map implementation promises: [sm_view m] is the finite map it holds. *)
Class SyncStringMapLaws (M : Type → Type) `{!SyncStringMap M} := {
  sm_view {V} : M V → gmap string V;
  sm_view_new {V} : sm_view (sm_new (V := V)) = ∅;
  sm_Delete_ret {V} k (m : M V) : (sm_Delete k m).1 = bool_decide (is_Some (sm_view m !! k));
  sm_Delete_view {V} k (m : M V) : sm_view (sm_Delete k m).2 = delete k (sm_view m);
  sm_Load_ret {V} k (m : M V) : sm_Load k m = sm_view m !! k;
  sm_LoadAndDelete_ret {V} k (m : M V) : (sm_LoadAndDelete k m).1 = sm_view m !! k;
  sm_LoadAndDelete_view {V} k (m : M V) : sm_view (sm_LoadAndDelete k m).2 = delete k (sm_view m);
  sm_LoadOrStore_ret {V} k (v : V) (m : M V) :
    (sm_LoadOrStore k v m).1
    = match sm_view m !! k with Some x => (x, true) | None => (v, false) end;
  sm_LoadOrStore_view {V} k (v : V) (m : M V) :
    sm_view (sm_LoadOrStore k v m).2
    = match sm_view m !! k with Some _ => sm_view m | None => <[k:=v]> (sm_view m) end;
  sm_LoadOrStoreLazy_ret {V} k f (m : M V) :
    (sm_LoadOrStoreLazy k f m).1
    = match sm_view m !! k with Some x => (x, true) | None => (f (), false) end;
  sm_LoadOrStoreLazy_view {V} k f (m : M V) :
    sm_view (sm_LoadOrStoreLazy k f m).2
    = match sm_view m !! k with Some _ => sm_view m | None => <[k:=f ()]> (sm_view m) end;
  sm_Range_perm {V} (m : M V) : sm_Range m ≡ₚ map_to_list (sm_view m);
  sm_Store_view {V} k (v : V) (m : M V) : sm_view (sm_Store k v m) = <[k:=v]> (sm_view m);
  sm_Len_ret {V} (m : M V) : sm_Len m = Z.of_nat (size (sm_view m));
}.

#[export] Hint Rewrite @sm_view_new @sm_Delete_view @sm_LoadAndDelete_view
  @sm_LoadOrStore_view @sm_LoadOrStoreLazy_view @sm_Store_view @sm_Len_ret @sm_Load_ret
  @sm_Delete_ret @sm_LoadAndDelete_ret @sm_LoadOrStore_ret @sm_LoadOrStoreLazy_ret
  using (typeclasses eauto) : trunker_bytes.

Section facts.
Context `{SyncStringMapLaws M} {V : Type}.
Implicit Types (m : M V) (k : string) (v : V).

Lemma sm_Range_elem m k v : (k, v) ∈ sm_Range m ↔ sm_view m !! k = Some v.
Proof. rewrite sm_Range_perm. apply elem_of_map_to_list. Qed.

Lemma sm_Range_NoDup m : NoDup (sm_Range m).*1.
Proof. rewrite sm_Range_perm. apply NoDup_fst_map_to_list. Qed.

Lemma sm_Range_length m : Z.of_nat (length (sm_Range m)) = sm_Len m.
Proof. by rewrite sm_Len_ret, sm_Range_perm, length_map_to_list. Qed.

Lemma sm_Range_empty m : sm_view m = ∅ → sm_Range m = [].
Proof.
  intros Hm. apply Permutation_nil. symmetry. rewrite sm_Range_perm, Hm.
  by rewrite map_to_list_empty.
Qed.
End facts.

(** ** [Range] with a callback that can stop the iteration *)
Fixpoint range_loop {V A} (f : A → string → V → A * bool) (l : list (string * V)) (a : A) : A :=
  match l with
  | [] => a
  | (k, v) :: l => let '(a', continue) := f a k v in if continue then range_loop f l a' else a'
  end.
Definition Range `{SyncStringMap M} {V A} (f : A → string → V → A * bool) (m : M V) (a : A) : A :=
  range_loop f (sm_Range m) a.

(** A callback that always continues is a fold. *)
Lemma range_loop_fold {V A} (g : A → string → V → A) l a :
  range_loop (fun a k v => (g a k v, true)) l a = fold_left (fun a e => g a e.1 e.2) l a.
Proof. revert a. induction l as [|[k v] l IH]; intros a; [done|]. apply IH. Qed.

(** ** The [sync.Map] wrapper *)
Module sync.
Section Map.
Local Open Scope Z_scope.
Context {K : Type} `{Countable K} {V : Type}.

(** [m] is the content of the [sync.Map], [length_] the [int64] counter. *)
Record Map := mkMap { m : gmap K V; length_ : Z }.

Definition NewSyncMap : Map := mkMap ∅ 0.

(** The [sync.Map] methods, on the content. *)
Definition m_LoadAndDelete (k : K) (c : gmap K V) : option V * gmap K V := (c !! k, delete k c).
Definition m_LoadOrStore (k : K) (v : V) (c : gmap K V) : (V * bool) * gmap K V :=
  match c !! k with Some x => ((x, true), c) | None => ((v, false), <[k:=v]> c) end.

Definition Delete (k : K) (s : Map) : bool * Map :=
  let '(v, c) := m_LoadAndDelete k (m s) in
  match v with
  | Some _ => (true, mkMap c (length_ s - 1))
  | None => (false, mkMap c (length_ s))
  end.
Definition Load (k : K) (s : Map) : option V := m s !! k.
Definition LoadAndDelete (k : K) (s : Map) : option V * Map :=
  let '(v, c) := m_LoadAndDelete k (m s) in
  match v with
  | Some x => (Some x, mkMap c (length_ s - 1))
  | None => (None, mkMap c (length_ s))
  end.
Definition LoadOrStore (k : K) (v : V) (s : Map) : (V * bool) * Map :=
  let '((a, loaded), c) := m_LoadOrStore k v (m s) in
  ((a, loaded), mkMap c (if loaded then length_ s else length_ s + 1)).
Definition Store (k : K) (v : V) (s : Map) : Map :=
  let '((_, loaded), c) := m_LoadOrStore k v (m s) in
  if loaded then mkMap (<[k:=v]> c) (length_ s) else mkMap c (length_ s + 1).
Definition LoadOrStoreLazy (k : K) (f : unit → V) (s : Map) : (V * bool) * Map :=
  match m s !! k with
  | Some v => ((v, true), s)
  | None =>
      let '((a, loaded), c) := m_LoadOrStore k (f ()) (m s) in
      ((a, loaded), mkMap c (if loaded then length_ s else length_ s + 1))
  end.
Definition RangeEntries (s : Map) : list (K * V) := map_to_list (m s).
Definition Len (s : Map) : Z := length_ s.

(** The counter agrees with the content. *)
Definition counted (s : Map) : Prop := length_ s = Z.of_nat (size (m s)).

Lemma counted_new : counted NewSyncMap.
Proof. done. Qed.

Lemma size_delete_Z (c : gmap K V) k x :
  c !! k = Some x → Z.of_nat (size (delete k c)) = Z.of_nat (size c) - 1.
Proof.
  intros Hk. rewrite map_size_delete, Hk.
  assert (size c ≠ 0)%nat; [|lia]. intros E%map_size_empty_inv. by rewrite E, lookup_empty in Hk.
Qed.

Lemma size_insert_Z (c : gmap K V) k v :
  c !! k = None → Z.of_nat (size (<[k:=v]> c)) = Z.of_nat (size c) + 1.
Proof. intros Hk. rewrite map_size_insert_None by done. lia. Qed.

Lemma counted_Delete k s : counted s → counted (Delete k s).2.
Proof.
  unfold counted, Delete, m_LoadAndDelete. intros Hs. destruct (m s !! k) eqn:E; simpl.
  - erewrite size_delete_Z by done. lia.
  - by rewrite delete_id.
Qed.
Lemma counted_LoadAndDelete k s : counted s → counted (LoadAndDelete k s).2.
Proof.
  unfold counted, LoadAndDelete, m_LoadAndDelete. intros Hs. destruct (m s !! k) eqn:E; simpl.
  - erewrite size_delete_Z by done. lia.
  - by rewrite delete_id.
Qed.
Lemma counted_LoadOrStore k v s : counted s → counted (LoadOrStore k v s).2.
Proof.
  unfold counted, LoadOrStore, m_LoadOrStore. intros Hs. destruct (m s !! k) eqn:E; simpl; [done|].
  rewrite size_insert_Z by done. lia.
Qed.
Lemma counted_LoadOrStoreLazy k f s : counted s → counted (LoadOrStoreLazy k f s).2.
Proof.
  unfold counted, LoadOrStoreLazy, m_LoadOrStore. intros Hs. destruct (m s !! k) eqn:E; simpl; [done|].
  rewrite size_insert_Z by done. lia.
Qed.
Lemma counted_Store k v s : counted s → counted (Store k v s).
Proof.
  unfold counted, Store, m_LoadOrStore. intros Hs. destruct (m s !! k) eqn:E; simpl.
  - by rewrite map_size_insert, E.
  - rewrite size_insert_Z by done. lia.
Qed.

(** *** Interleaved calls

    A call is a sequence of atomic accesses; [pc] is what a call that has
    done its first access still has to do. *)
Inductive pc :=
| AddLen (d : Z)               (* atomic.AddInt64(&m.length, d) *)
| StoreNow (k : K) (v : V)     (* the m.m.Store of Store *)
| LazyInsert (k : K) (v : V).  (* the m.m.LoadOrStore of LoadOrStoreLazy *)

Record config := Cfg { shared : Map; pcs : list pc }.

Definition set_m (c : gmap K V) (s : Map) : Map := mkMap c (length_ s).

Inductive call := CDelete (k : K) | CLoadOrStore (k : K) (v : V)
                | CLoadOrStoreLazy (k : K) (v : V) | CStore (k : K) (v : V).

(** First access of a call ([Delete] and [LoadAndDelete] do the same). *)
Definition start (c : call) (s : Map) : Map * list pc :=
  match c with
  | CDelete k =>
      let '(v, c) := m_LoadAndDelete k (m s) in
      (set_m c s, match v with Some _ => [AddLen (-1)] | None => [] end)
  | CLoadOrStore k v =>
      let '((_, loaded), c) := m_LoadOrStore k v (m s) in
      (set_m c s, if loaded then [] else [AddLen 1])
  | CLoadOrStoreLazy k v =>
      (s, match m s !! k with Some _ => [] | None => [LazyInsert k v] end)
  | CStore k v =>
      let '((_, loaded), c) := m_LoadOrStore k v (m s) in
      (set_m c s, if loaded then [StoreNow k v] else [AddLen 1])
  end.

(** A later access. *)
Definition resume (p : pc) (s : Map) : Map * list pc :=
  match p with
  | AddLen d => (mkMap (m s) (length_ s + d), [])
  | StoreNow k v => (set_m (<[k:=v]> (m s)) s, [])
  | LazyInsert k v =>
      let '((_, loaded), c) := m_LoadOrStore k v (m s) in
      (set_m c s, if loaded then [] else [AddLen 1])
  end.

Inductive step (allowed : call → Prop) : config → config → Prop :=
| step_start c s ps :
    allowed c → step allowed (Cfg s ps) (Cfg (start c s).1 (ps ++ (start c s).2))
| step_resume p s ps1 ps2 :
    step allowed (Cfg s (ps1 ++ p :: ps2)) (Cfg (resume p s).1 (ps1 ++ (resume p s).2 ++ ps2)).

(** The calls the program makes on this type: [Store] is not among them. *)
Definition no_Store (c : call) : Prop := match c with CStore _ _ => False | _ => True end.

Definition pending_delta (p : pc) : Z := match p with AddLen d => d | _ => 0 end.
Definition deltas (ps : list pc) : Z := foldr (fun p a => pending_delta p + a) 0 ps.
Definition is_StoreNow (p : pc) : bool := match p with StoreNow _ _ => true | _ => false end.

(** Content, counter and the increments still to be applied agree. *)
Definition accounted (c : config) : Prop :=
  Forall (fun p => is_StoreNow p = false) (pcs c) ∧
  length_ (shared c) + deltas (pcs c) = Z.of_nat (size (m (shared c))).

Lemma deltas_app ps1 ps2 : deltas (ps1 ++ ps2) = deltas ps1 + deltas ps2.
Proof. induction ps1 as [|p ps1 IH]; simpl; [done|]. rewrite IH. lia. Qed.

Lemma start_accounted c s :
  no_Store c →
  Forall (fun p => is_StoreNow p = false) (start c s).2 ∧
  length_ (start c s).1 = length_ s ∧
  deltas (start c s).2 = Z.of_nat (size (m (start c s).1)) - Z.of_nat (size (m s)).
Proof.
  destruct c as [k|k v|k v|k v]; intros Hc; [| | |done]; unfold start, m_LoadAndDelete, m_LoadOrStore;
    destruct (m s !! k) eqn:E; cbn; split_and!; auto; try lia.
  - erewrite size_delete_Z by done. lia.
  - rewrite delete_id by done. lia.
  - rewrite size_insert_Z by done. lia.
Qed.

Lemma resume_accounted p s :
  is_StoreNow p = false →
  Forall (fun p => is_StoreNow p = false) (resume p s).2 ∧
  length_ (resume p s).1 + deltas (resume p s).2
  = length_ s + pending_delta p + (Z.of_nat (size (m (resume p s).1)) - Z.of_nat (size (m s))).
Proof.
  destruct p as [d|k v|k v]; intros Hp; [|done|]; unfold resume, m_LoadOrStore;
    [cbn; split; [done|lia]|].
  destruct (m s !! k) eqn:E; cbn; (split; [auto|]); [lia|].
  rewrite size_insert_Z by done. lia.
Qed.

Lemma step_accounted c c' : step no_Store c c' → accounted c → accounted c'.
Proof.
  intros Hs [Hf Hl]. destruct Hs as [c s ps Hc|p s ps1 ps2]; unfold accounted in *; cbn [shared pcs] in *.
  - destruct (start_accounted c s Hc) as (H1 & H2 & H3).
    split; [by apply Forall_app|]. rewrite deltas_app. lia.
  - apply Forall_app in Hf as [Hf1 [Hp Hf2]%Forall_cons_iff].
    destruct (resume_accounted p s Hp) as (H1 & H2).
    split; [by rewrite !Forall_app|]. rewrite !deltas_app in *.
    change (deltas (p :: ps2)) with (pending_delta p + deltas ps2) in Hl. lia.
Qed.

Lemma reachable_accounted c : rtc (step no_Store) (Cfg NewSyncMap []) c → accounted c.
Proof.
  intros Hr. assert (accounted (Cfg NewSyncMap [])) as H0 by (split; [constructor|done]).
  revert H0. induction Hr; eauto using step_accounted.
Qed.

(** The counter is right whenever no call is in progress. *)
Lemma quiescent_counted s : rtc (step no_Store) (Cfg NewSyncMap []) (Cfg s []) → counted s.
Proof. intros [_ Hl]%reachable_accounted. cbn in Hl. unfold counted. lia. Qed.

(** A call that runs alone does what the method of the same name says. *)
Definition run_alone (c : call) (s : Map) : Map :=
  fold_left (fun s p => fold_left (fun s p => (resume p s).1) (resume p s).2 (resume p s).1)
    (start c s).2 (start c s).1.

Lemma run_alone_methods c s :
  run_alone c s = match c with
                  | CDelete k => (Delete k s).2
                  | CLoadOrStore k v => (LoadOrStore k v s).2
                  | CLoadOrStoreLazy k v => (LoadOrStoreLazy k (fun _ => v) s).2
                  | CStore k v => Store k v s
                  end.
Proof.
  destruct s as [c0 n], c as [k|k v|k v|k v];
    unfold run_alone, start, Delete, LoadOrStore, LoadOrStoreLazy, Store, m_LoadAndDelete, m_LoadOrStore, set_m;
    cbn; destruct (c0 !! k) eqn:E; cbn; unfold m_LoadOrStore; rewrite ?E; cbn; try done;
    f_equal; lia.
Qed.
End Map.
Arguments Map K {_ _} V.
Arguments config K {_ _} V.
Arguments pc K V : clear implicits.
Arguments call K V : clear implicits.
End sync.

(** The wrapper as a [SyncStringMap]: a map whose counter is right. *)
Definition CountedMap (V : Type) : Type := { s : sync.Map string V | sync.counted s }.

#[export] Instance sync_Map_ops : SyncStringMap CountedMap := {|
  sm_new V := sync.NewSyncMap ↾ sync.counted_new;
  sm_Delete V k m := ((sync.Delete k (`m)).1, (sync.Delete k (`m)).2 ↾ sync.counted_Delete k _ (proj2_sig m));
  sm_Load V k m := sync.Load k (`m);
  sm_LoadAndDelete V k m :=
    ((sync.LoadAndDelete k (`m)).1, (sync.LoadAndDelete k (`m)).2 ↾ sync.counted_LoadAndDelete k _ (proj2_sig m));
  sm_LoadOrStore V k v m :=
    ((sync.LoadOrStore k v (`m)).1, (sync.LoadOrStore k v (`m)).2 ↾ sync.counted_LoadOrStore k v _ (proj2_sig m));
  sm_LoadOrStoreLazy V k f m :=
    ((sync.LoadOrStoreLazy k f (`m)).1,
     (sync.LoadOrStoreLazy k f (`m)).2 ↾ sync.counted_LoadOrStoreLazy k f _ (proj2_sig m));
  sm_Range V m := sync.RangeEntries (`m);
  sm_Store V k v m := sync.Store k v (`m) ↾ sync.counted_Store k v _ (proj2_sig m);
  sm_Len V m := sync.Len (`m);
|}.

#[export] Program Instance sync_Map_laws : SyncStringMapLaws CountedMap := {|
  sm_view V m := sync.m (`m);
|}.
Solve All Obligations with
  intros; try destruct m as [[c n] Hc]; cbn in *;
  unfold sync.Delete, sync.Load, sync.LoadAndDelete, sync.LoadOrStore, sync.LoadOrStoreLazy,
    sync.Store, sync.m_LoadAndDelete, sync.m_LoadOrStore; cbn;
  try (destruct (c !! k) eqn:E; cbn; rewrite ?E; cbn; try done;
       first [by rewrite delete_id | by rewrite bool_decide_true | by rewrite bool_decide_false by (by intros [])]);
  done.

(** The meaning the laws give the skip map: a plain finite map. *)
Definition Skip (V : Type) : Type := gmap string V.
#[export] Instance Skip_ops : SyncStringMap Skip := {|
  sm_new V := (∅ : gmap string V);
  sm_Delete V k m := (bool_decide (is_Some ((m : gmap string V) !! k)), delete k (m : gmap string V));
  sm_Load V k m := (m : gmap string V) !! k;
  sm_LoadAndDelete V k m := ((m : gmap string V) !! k, delete k (m : gmap string V));
  sm_LoadOrStore V k v m :=
    match (m : gmap string V) !! k with Some x => ((x, true), m) | None => ((v, false), <[k:=v]> (m : gmap string V)) end;
  sm_LoadOrStoreLazy V k f m :=
    match (m : gmap string V) !! k with Some x => ((x, true), m) | None => ((f (), false), <[k:=f ()]> (m : gmap string V)) end;
  sm_Range V m := map_to_list (m : gmap string V);
  sm_Store V k v m := <[k:=v]> (m : gmap string V);
  sm_Len V m := Z.of_nat (size (m : gmap string V));
|}.
#[export] Program Instance Skip_laws : SyncStringMapLaws Skip := {| sm_view V m := m |}.
Solve All Obligations with intros; cbn; try done; by repeat case_match.

(** ** Observations through the interface *)
Inductive smop (V : Type) :=
| ODelete (k : string) | OLoad (k : string) | OLoadAndDelete (k : string)
| OLoadOrStore (k : string) (v : V) | OLoadOrStoreLazy (k : string) (v : V)
| OStore (k : string) (v : V) | OLen.
Arguments ODelete {V}. Arguments OLoad {V}. Arguments OLoadAndDelete {V}.
Arguments OLoadOrStore {V}. Arguments OLoadOrStoreLazy {V}. Arguments OStore {V}. Arguments OLen {V}.

Inductive smres (V : Type) :=
| RBool (b : bool) | ROpt (v : option V) | RLoaded (r : V * bool) | RUnit | RLen (n : Z).
Arguments RBool {V}. Arguments ROpt {V}. Arguments RLoaded {V}. Arguments RUnit {V}. Arguments RLen {V}.

Section observe.
Context `{SyncStringMap M} {V : Type}.
Definition sm_run (o : smop V) (m : M V) : smres V * M V :=
  match o with
  | ODelete k => let '(b, m) := sm_Delete k m in (RBool b, m)
  | OLoad k => (ROpt (sm_Load k m), m)
  | OLoadAndDelete k => let '(v, m) := sm_LoadAndDelete k m in (ROpt v, m)
  | OLoadOrStore k v => let '(r, m) := sm_LoadOrStore k v m in (RLoaded r, m)
  | OLoadOrStoreLazy k v => let '(r, m) := sm_LoadOrStoreLazy k (fun _ => v) m in (RLoaded r, m)
  | OStore k v => (RUnit, sm_Store k v m)
  | OLen => (RLen (sm_Len m), m)
  end.
Fixpoint sm_trace (os : list (smop V)) (m : M V) : list (smres V) :=
  match os with
  | [] => []
  | o :: os => let '(r, m) := sm_run o m in r :: sm_trace os m
  end.
End observe.

Lemma sm_run_sim `{SyncStringMapLaws M1} `{SyncStringMapLaws M2} {V} (o : smop V) (m1 : M1 V) (m2 : M2 V) :
  sm_view m1 = sm_view m2 →
  (sm_run o m1).1 = (sm_run o m2).1 ∧ sm_view (sm_run o m1).2 = sm_view (sm_run o m2).2.
Proof.
  intros E. destruct o; cbn;
    repeat match goal with |- context [let '(_, _) := ?e in _] => rewrite (surjective_pairing e) end;
    cbn; rewrite ?sm_Delete_ret, ?sm_Delete_view, ?sm_Load_ret, ?sm_LoadAndDelete_ret,
      ?sm_LoadAndDelete_view, ?sm_LoadOrStore_ret, ?sm_LoadOrStore_view, ?sm_LoadOrStoreLazy_ret,
      ?sm_LoadOrStoreLazy_view, ?sm_Store_view, ?sm_Len_ret, E; done.
Qed.

Lemma sm_trace_sim `{SyncStringMapLaws M1} `{SyncStringMapLaws M2} {V} (os : list (smop V))
    (m1 : M1 V) (m2 : M2 V) :
  sm_view m1 = sm_view m2 → sm_trace os m1 = sm_trace os m2.
Proof.
  revert m1 m2. induction os as [|o os IH]; intros m1 m2 E; [done|]. cbn.
  destruct (sm_run_sim o m1 m2 E) as [E1 E2].
  destruct (sm_run o m1) as [r1 m1'], (sm_run o m2) as [r2 m2']. cbn in *. f_equal; auto.
Qed.

(** C39: Any sequence of calls on the [sync.Map] wrapper returns what the same
    calls return on a plain finite map. *)
Theorem Map_refines_finite_map (V : Type) (os : list (smop V)) :
  sm_trace os (sm_new (M := CountedMap) (V := V)) = sm_trace os (sm_new (M := Skip) (V := V)).
Proof. by apply sm_trace_sim. Qed.

(** However [Delete], [LoadAndDelete], [LoadOrStore] and [LoadOrStoreLazy]
    calls interleave, whenever none is in progress [Len] is the number of
    entries. *)
Theorem Map_Len_quiescent (s : sync.Map Z nat) :
  rtc (sync.step sync.no_Store) (sync.Cfg sync.NewSyncMap []) (sync.Cfg s []) →
  sync.Len s = Z.of_nat (length (sync.RangeEntries s)).
Proof.
  intros Hr. unfold sync.RangeEntries. rewrite length_map_to_list.
  by apply sync.quiescent_counted.
Qed.

(** Two overlapping calls: a delete finds the entry a racing insertion made. *)
Definition race_trace : sync.Map Z nat := sync.mkMap ∅ 0.
Lemma Map_Len_quiescent_witness :
  sync.Len race_trace = Z.of_nat (length (sync.RangeEntries race_trace)).
Proof.
  apply Map_Len_quiescent.
  eapply rtc_l; [apply (sync.step_start _ (sync.CLoadOrStore 7%Z 1)); exact I|].
  eapply rtc_l; [apply (sync.step_start _ (sync.CDelete 7%Z)); exact I|].
  eapply rtc_l; [apply (sync.step_resume _ (sync.AddLen (-1)) _ [sync.AddLen 1] [])|].
  eapply rtc_l; [apply (sync.step_resume _ (sync.AddLen 1) _ [] [])|].
  apply rtc_refl.
Defined.

(** With [Store] in play the counter can end up wrong: a [Store] that found
    the key present writes it again after a racing [Delete] removed it, and no
    increment follows. *)
Theorem Map_Store_race :
  ∃ s : sync.Map Z nat,
    rtc (sync.step (fun _ => True)) (sync.Cfg sync.NewSyncMap []) (sync.Cfg s []) ∧
    sync.Load 7%Z s = Some 2 ∧ sync.Len s = 0%Z ∧ length (sync.RangeEntries s) = 1.
Proof.
  exists (sync.mkMap {[7%Z := 2]} 0). split; [|by vm_compute].
  eapply rtc_l; [apply (sync.step_start _ (sync.CStore 7%Z 1)); exact I|].
  eapply rtc_l; [apply (sync.step_resume _ (sync.AddLen 1) _ [] [])|].
  eapply rtc_l; [apply (sync.step_start _ (sync.CStore 7%Z 2)); exact I|].
  eapply rtc_l; [apply (sync.step_start _ (sync.CDelete 7%Z)); exact I|].
  eapply rtc_l; [apply (sync.step_resume _ (sync.AddLen (-1)) _ [sync.StoreNow 7%Z 2] [])|].
  eapply rtc_l; [apply (sync.step_resume _ (sync.StoreNow 7%Z 2) _ [] [])|].
  apply rtc_refl.
Qed.
