(* ===== verification/Local.v ===== *)
(** The in-memory peer store of one shard ([biz/services/peer/local]).

    A torrent ([InfoHashRoot]) keeps its peers in three maps: the one written
    to, the one written to before, and an empty one.  Peers, torrents and
    connections are shared objects, so the state holds a store for each and
    maps refer to them by index; the goroutines a handler starts are [task]s
    of the state, run later in any order. *)
From Stdlib Require Import ZArith Lia Bool Strings.String.
From stdpp Require Import base strings list gmap fin_maps relations.
From S2P Require Import Prelude GoStd Config Model Common Mapx.
Set Default Proof Using "Type*".
Local Open Scope Z_scope.

(** ** The event sent to the message queue ([biz/services/producer/send.go]) *)
Record eventIP := mkEventIP
  { ev_ClientIP : netIP; ev_ReportV4 : netIP; ev_ReportV6 : netIP; ev_ReportIP : netIP }.
Record eventBody := mkEventBody
  { ev_InfoHash : string; ev_IP : eventIP; ev_Port : Z; ev_Left : Z; ev_Uploaded : Z;
    ev_Downloaded : Z; ev_LastSeen : Z; ev_UserAgent : string; ev_Event : string }.

(** [SendPeerEvent]: nothing without a producer; the queue client's own errors
    are only logged. *)
Definition SendPeerEvent (producer : bool) (infoHash : string) (p : Peer) : list eventBody :=
  if negb producer then []
  else [ {| ev_InfoHash := infoHash;
            ev_IP := mkEventIP (ClientIP p) (IPv4 p) (IPv6 p) (IP p);
            ev_Port := Port p; ev_Left := Left p; ev_Uploaded := Uploaded p;
            ev_Downloaded := Downloaded p; ev_LastSeen := Unix (LastSeen p);
            ev_UserAgent := UserAgent p; ev_Event := PeerEvent_String (Event p) |} ].

(** ** State *)
(** [model.Conn] as far as this package uses it: the callback is the closure
    [root.LoadAndDelete(key)] of the last announce, as (root, key). *)
Record ConnObj := mkConn { CloseCallback : option (nat * string); closed : bool }.

(** A started goroutine that has not finished; [r] is a torrent, [p] a peer. *)
Inductive task :=
| TaskAnnounce (r p : nat) (ih : string)          (* "add to peer list", from its start *)
| TaskStore (r p : nat)                           (* the same, about to Store *)
| TaskInsert (r p : nat) (ih : string)            (* the same, about to LoadOrStore *)
| TaskExpire (r : nat) (ks : list string)         (* "clear expired peer" *)
| TaskSend (ih : string) (p : nat)                (* go producer.SendPeerEvent *)
| TaskRespond (r p : nat) (numWant : Z).          (* the rest of HandleAnnouncePeer *)

(** The assignments of a known peer's record when it announces again. *)
Definition update_peer (p k : Peer) : Peer :=
  {| IP := IP k; IPv4 := IPv4 k; IPv6 := IPv6 k; ClientIP := ClientIP k;
     LastSeen := LastSeen p; Offers := Offers k; ID := ID k; UserAgent := UserAgent k;
     Port := Port k; Left := Left p; Uploaded := Uploaded p; Downloaded := Downloaded p;
     Conn := Conn k; Type_ := Type_ k; Event := Event p; Source_ := Source_ k |}.

Definition clear_conn (k : Peer) : Peer :=
  {| IP := IP k; IPv4 := IPv4 k; IPv6 := IPv6 k; ClientIP := ClientIP k;
     LastSeen := LastSeen k; Offers := Offers k; ID := ID k; UserAgent := UserAgent k;
     Port := Port k; Left := Left k; Uploaded := Uploaded k; Downloaded := Downloaded k;
     Conn := None; Type_ := Type_ k; Event := Event k; Source_ := Source_ k |}.

(** The peer record an announce request describes. *)
Definition peer_of_request (now : Z) (req : AnnounceRequest) : Peer :=
  {| ID := req_PeerID req; IP := ParseIP (req_IP req); IPv4 := ParseIP (req_IPv4 req);
     IPv6 := ParseIP (req_IPv6 req); ClientIP := req_ClientIP req;
     Uploaded := if 0 <=? req_Uploaded req then u64 (req_Uploaded req) else 0;
     Left := if 0 <=? req_Left req then u64 (req_Left req) else MaxUint64;
     Port := req_Port req; Type_ := req_Type req;
     Downloaded := if 0 <=? req_Downloaded req then u64 (req_Downloaded req) else 0;
     Offers := req_Offers req; LastSeen := now; Event := ParsePeerEvent (req_Event req);
     UserAgent := req_UserAgent req; Conn := req_Conn req; Source_ := req_Source req |}.

(** The two address checks of [HandleAnnouncePeer]. *)
Definition invalid_address (p : Peer) : bool :=
  (match IPv4 p with Some _ => bool_decide (To4 (IPv4 p) = None) | None => false end)
  || (match IPv6 p with Some _ => bool_decide (To4 (IPv6 p) ≠ None) | None => false end).

(** [utils.Positive]. *)
Definition Positive (x : Z) : Z := if x <? 0 then 0 else x.

Section Local.
Context {M : Type → Type} `{SyncStringMap M}.

(** ** [InfoHashRoot] *)
Record InfoHashRoot := mkRoot
  { peerMap : list (M nat); lastClean : Z; infoHash : string; currentActive : Z }.

Definition NewInfoHashRoot (ih : string) (now : Z) : InfoHashRoot :=
  {| currentActive := 0; peerMap := [sm_new; sm_new; sm_new]; lastClean := now; infoHash := ih |}.

Definition set_peerMap (ms : list (M nat)) (i : InfoHashRoot) : InfoHashRoot :=
  mkRoot ms (lastClean i) (infoHash i) (currentActive i).
Definition active (i : InfoHashRoot) : nat := Z.to_nat (currentActive i).
(** [i.peerMap[i.currentActive]]; the index is below 3 ([root_ok]). *)
Definition active_map (i : InfoHashRoot) : M nat := default sm_new (peerMap i !! active i).

Definition Load (key : string) (i : InfoHashRoot) : option nat :=
  head (omap (M := list) (sm_Load key) (peerMap i)).

Definition seen (h : list Peer) (p : nat) : Z := default 0 (LastSeen <$> h !! p).
Definition newer (h : list Peer) (found : option nat) (v : nat) : option nat :=
  match found with
  | None => Some v
  | Some f => if After (seen h v) (seen h f) then Some v else found
  end.
Definition LoadAndDelete (h : list Peer) (key : string) (i : InfoHashRoot)
  : option nat * InfoHashRoot :=
  let res := map (sm_LoadAndDelete key) (peerMap i) in
  (fold_left (newer h) (omap (M := list) fst res) None, set_peerMap (map snd res) i).

(** [result = result || peerMap.Delete(key)]: no call once [result] is true. *)
Fixpoint delete_maps (key : string) (result : bool) (ms : list (M nat)) : bool * list (M nat) :=
  match ms with
  | [] => (result, [])
  | pm :: ms =>
      let '(result', pm') := if result then (true, pm) else sm_Delete key pm in
      let '(result'', ms') := delete_maps key result' ms in
      (result'', pm' :: ms')
  end.
Definition Delete (key : string) (i : InfoHashRoot) : bool * InfoHashRoot :=
  let '(result, ms) := delete_maps key false (peerMap i) in (result, set_peerMap ms i).

Definition LoadOrStore (key : string) (p : nat) (i : InfoHashRoot) : (nat * bool) * InfoHashRoot :=
  let '(r, pm) := sm_LoadOrStore key p (active_map i) in
  (r, set_peerMap (<[active i := pm]> (peerMap i)) i).
Definition Store (key : string) (p : nat) (i : InfoHashRoot) : InfoHashRoot :=
  set_peerMap (<[active i := sm_Store key p (active_map i)]> (peerMap i)) i.
Definition Len (i : InfoHashRoot) : Z := fold_left (fun count s => count + sm_Len s) (peerMap i) 0.
Definition root_Range {A} (f : A → string → nat → A * bool) (i : InfoHashRoot) (a : A) : A :=
  fold_left (fun a s => Range f s a) (peerMap i) a.
(** [utils.SkipMapToSlice] *)
Definition SkipMapToSlice (i : InfoHashRoot) : list nat :=
  root_Range (fun res _ v => (res ++ [v], true)) i [].

(** ** The manager *)
Record State := mkState
  { infoHashMap : M nat; roots : list InfoHashRoot; peers : list Peer;
    conns : list ConnObj; tasks : list task; sent : list eventBody }.

Definition NewLocalManger : State := mkState sm_new [] [] [] [] [].

Definition set_infoHashMap m st := mkState m (roots st) (peers st) (conns st) (tasks st) (sent st).
Definition set_roots rs st := mkState (infoHashMap st) rs (peers st) (conns st) (tasks st) (sent st).
Definition set_peers h st := mkState (infoHashMap st) (roots st) h (conns st) (tasks st) (sent st).
Definition set_conns cs st := mkState (infoHashMap st) (roots st) (peers st) cs (tasks st) (sent st).
Definition set_tasks ts st := mkState (infoHashMap st) (roots st) (peers st) (conns st) ts (sent st).
Definition set_sent es st := mkState (infoHashMap st) (roots st) (peers st) (conns st) (tasks st) es.
Definition spawn (t : task) (st : State) : State := set_tasks (tasks st ++ [t]) st.
Definition put_root (r : nat) (i : InfoHashRoot) (st : State) : State :=
  set_roots (<[r := i]> (roots st)) st.
Definition root_at (st : State) (r : nat) : InfoHashRoot :=
  default (mkRoot [] 0 "" 0) (roots st !! r).
Definition root_LoadAndDelete (r : nat) (key : string) (st : State) : option nat * State :=
  let '(v, i) := LoadAndDelete (peers st) key (root_at st r) in (v, put_root r i st).

(** The [CloseCallback] closure and [Conn.Close] ([biz/model/ws.go]). *)
Definition close_callback (cb : nat * string) (st : State) : State :=
  let '(v, st) := root_LoadAndDelete cb.1 cb.2 st in
  match v with Some v => set_peers (alter clear_conn v (peers st)) st | None => st end.
Definition conn_Close (c : nat) (st : State) : State :=
  match conns st !! c with
  | None => st
  | Some cn =>
      if closed cn then st
      else
        let st := match CloseCallback cn with Some cb => close_callback cb st | None => st end in
        set_conns (alter (fun cn => mkConn (CloseCallback cn) true) c (conns st)) st
  end.

(** [m.infoHashMap.LoadOrStoreLazy(ih, ... NewInfoHashRoot(ih))] *)
Definition get_or_create (now : Z) (ih : string) (st : State) : (nat * bool) * State :=
  let r_new := length (roots st) in
  let '((r, ok), m) := sm_LoadOrStoreLazy ih (fun _ => r_new) (infoHashMap st) in
  ((r, ok), mkState m (if ok then roots st else roots st ++ [NewInfoHashRoot ih now])
              (peers st) (conns st) (tasks st) (sent st)).

(** ** [HandleAnnouncePeer] *)
Section Handlers.
Context (cfg : Config).
Let ttl := TTL (Tracker cfg).
Let useAnnounceIP := UseAnnounceIP (Tracker cfg).

(** [time.Now().Add(time.Duration(-1*TTL) * time.Second)] *)
Definition expire_time (now : Z) : Z := Add now (seconds (-1 * ttl)).

(** What the handler has done up to the point where it starts reading the
    peers back: either it returned, or [Respond] says with what it goes on. *)
Inductive outcome :=
| Done (res : result (list nat))
| Respond (r p : nat) (numWant : Z).

Definition announce_begin (now : Z) (req : AnnounceRequest) (st : State) : outcome * State :=
  let peer := peer_of_request now req in
  if invalid_address peer then (Done (Err "invalid address"), st)
  else
    let p := length (peers st) in
    let st := set_peers (peers st ++ [peer]) st in
    let '((r, ok), st) := get_or_create now (req_InfoHash req) st in
    let st := match Conn peer with
              | Some c => if Type_ peer =? PeerTypeWebtorrent
                          then set_conns (alter (fun cn => mkConn (Some (r, req_PeerID req)) (closed cn)) c (conns st)) st
                          else st
              | None => st
              end in
    if negb ok then
      let st := if IsPeerConnectable useAnnounceIP peer && negb (Event peer =? PeerEvent_Stopped)
                then put_root r (LoadOrStore (GetKey peer) p (root_at st r)).2 st else st in
      (Done (Ok []), spawn (TaskSend (req_InfoHash req) p) st)
    else if Event peer =? PeerEvent_Stopped then
      (Done (Ok []), (root_LoadAndDelete r (GetKey peer) st).2)
    else
      (Respond r p (req_NumWant req), spawn (TaskAnnounce r p (req_InfoHash req)) st).

(** The callback of the [Range] that collects the answer: (resp, expiredPeer). *)
Definition collect (h : list Peer) (expireTime : Z) (peer : Peer) (numWant : Z)
    (acc : list nat * list string) (k : string) (p : nat) : (list nat * list string) * bool :=
  let '(resp, expired) := acc in
  match h !! p with
  | None => (acc, true)
  | Some value =>
      if After expireTime (LastSeen value) then ((resp, expired ++ [k]), true)
      else if negb (Type_ value =? Type_ peer) then (acc, true)
      else if (Type_ value =? PeerTypeWebtorrent) && bool_decide (Conn value = None) then (acc, true)
      else if Event value =? PeerEvent_Stopped then (acc, true)
      else if numWant <=? Z.of_nat (length resp) then (acc, false)
      else if decide (ID value = ID peer) then (acc, true)
      else ((resp ++ [p], expired), true)
  end.

(** The write head moves on when the active map is over half the limit, and
    the oldest map is emptied. *)
Definition rotate (i : InfoHashRoot) : InfoHashRoot :=
  if sm_Len (active_map i) >? Z.quot (MaxPeersPerTorrent (Memory (Tracker cfg))) 2 then
    let current := currentActive i in
    mkRoot (<[Z.to_nat ((current + 2) mod 3) := sm_new]> (peerMap i)) (lastClean i) (infoHash i)
      ((current + 1) mod 3)
  else i.

Definition announce_respond (now : Z) (r p : nat) (numWant : Z) (st : State) : list nat * State :=
  match peers st !! p with
  | None => ([], st)
  | Some peer =>
      let '(resp, expired) :=
        root_Range (collect (peers st) (expire_time now) peer numWant) (root_at st r) ([], []) in
      let st := if (0 <? length expired)%nat then spawn (TaskExpire r expired) st else st in
      (resp, put_root r (rotate (root_at st r)) st)
  end.

(** The handler run without interruption; [now] and [now'] are the two
    readings of the clock. *)
Definition HandleAnnouncePeer (now now' : Z) (req : AnnounceRequest) (st : State)
  : result (list nat) * State :=
  match announce_begin now req st with
  | (Done res, st) => (res, st)
  | (Respond r p numWant, st) =>
      let '(resp, st) := announce_respond now' r p numWant st in (Ok resp, st)
  end.

(** ** The goroutines *)
Definition run_task (now : Z) (t : task) (st : State) : State :=
  match t with
  | TaskAnnounce r p ih =>
      match peers st !! p with
      | None => st
      | Some peer =>
          let '(known, st) := root_LoadAndDelete r (GetKey peer) st in
          match known with
          | Some k =>
              match peers st !! k with
              | None => st
              | Some knownPeer =>
                  let st := if (negb (Left knownPeer =? 0) && (Left peer =? 0))
                               || negb (Event knownPeer =? Event peer)
                            then spawn (TaskSend ih p) st else st in
                  spawn (TaskStore r k) (set_peers (alter (update_peer peer) k (peers st)) st)
              end
          | None =>
              if IsPeerConnectable useAnnounceIP peer then spawn (TaskInsert r p ih) st else st
          end
      end
  | TaskStore r p =>
      match peers st !! p with
      | None => st
      | Some peer => put_root r (Store (GetKey peer) p (root_at st r)) st
      end
  | TaskInsert r p ih =>
      match peers st !! p with
      | None => st
      | Some peer =>
          spawn (TaskSend ih p) (put_root r (LoadOrStore (GetKey peer) p (root_at st r)).2 st)
      end
  | TaskExpire r ks =>
      match ks with
      | [] => st
      | k :: ks =>
          let st := put_root r (Delete k (root_at st r)).2 st in
          match ks with [] => st | _ => spawn (TaskExpire r ks) st end
      end
  | TaskSend ih p =>
      match peers st !! p with
      | None => st
      | Some peer =>
          set_sent (sent st ++ SendPeerEvent (EnableEventProducer (Tracker cfg)) ih peer) st
      end
  | TaskRespond r p numWant => (announce_respond now r p numWant st).2
  end.

(** Run the oldest goroutine; [run_all] keeps doing so. *)
Definition run_next (now : Z) (st : State) : State :=
  match tasks st with
  | [] => st
  | t :: ts => run_task now t (set_tasks ts st)
  end.
Fixpoint run_all (fuel : nat) (now : Z) (st : State) : State :=
  match fuel with
  | O => st
  | S fuel => match tasks st with [] => st | _ => run_all fuel now (run_next now st) end
  end.

(** ** The other operations *)
Definition live (now : Z) (x : Peer) : bool := negb (After (expire_time now) (LastSeen x)).

(** The callback of [Scrape]'s [Range]. *)
Definition scrape_visit (h : list Peer) (expireTime : Z)
    (acc : ScrapeFile * list string) (k : string) (p : nat) : (ScrapeFile * list string) * bool :=
  let '(f, expired) := acc in
  match h !! p with
  | None => (acc, true)
  | Some value =>
      if After expireTime (LastSeen value) then ((f, expired ++ [k]), true)
      else if Left value =? 0 then
        ((mkScrapeFile (if negb (Event value =? PeerEvent_Stopped) then Seeder f + 1 else Seeder f)
            (Complete f + 1) (Incomplete f) (Model.Downloaded f + 1), expired), true)
      else if Event value =? PeerEvent_Completed then
        ((mkScrapeFile (Seeder f) (Complete f + 1) (Incomplete f) (Model.Downloaded f), expired), true)
      else
        ((mkScrapeFile (Seeder f) (Complete f) (Incomplete f + 1) (Model.Downloaded f), expired), true)
  end.

Definition zeroScrape : ScrapeFile := mkScrapeFile 0 0 0 0.

(** [cached] is what [cache.Get] returns for the key "scrape_"+infoHash; the
    last component is what [cache.Set] is given. *)
Definition Scrape (now : Z) (cached : option ScrapeFile) (ih : string) (st : State)
  : ScrapeFile * State * option ScrapeFile :=
  match sm_Load ih (infoHashMap st) with
  | None => (zeroScrape, st, None)
  | Some r =>
      match (if redis_Enable (Cache cfg) then cached else None) with
      | Some v => (v, st, None)
      | None =>
          let '(ret, expired) :=
            root_Range (scrape_visit (peers st) (expire_time now)) (root_at st r) (zeroScrape, []) in
          let st := if (0 <? length expired)%nat then spawn (TaskExpire r expired) st else st in
          (ret, st, if redis_Enable (Cache cfg) then Some ret else None)
      end
  end.

Definition GetStatistic (st : State) : StatisticInfo :=
  let peerCount := Range (fun n _ r => (n + Len (root_at st r), true)) (infoHashMap st) 0 in
  {| TotalTorrents := u64 (sm_Len (infoHashMap st)); TotalPeers := u64 peerCount; Shards := [] |}.

(** [DirectStore]: no check. *)
Definition DirectStore (now : Z) (ih : string) (peer : Peer) (st : State) : State :=
  let p := length (peers st) in
  let st := set_peers (peers st ++ [peer]) st in
  let '((r, _), st) := get_or_create now ih st in
  put_root r (Store (GetKey peer) p (root_at st r)) st.

Definition BanInfoHash (ih : string) (st : State) : result unit * State :=
  (Ok tt, set_infoHashMap (sm_Delete ih (infoHashMap st)).2 st).
Definition DeleteInfoHash (ih : string) (st : State) : result unit * State :=
  (Ok tt, set_infoHashMap (sm_Delete ih (infoHashMap st)).2 st).
(** "let its ttl end" *)
Definition BanPeer (peerID : string) (st : State) : result unit * State := (Ok tt, st).

Definition GetPeers (ih : string) (st : State) : result (list nat) :=
  match sm_Load ih (infoHashMap st) with
  | None => Ok []
  | Some r => Ok (SkipMapToSlice (root_at st r))
  end.

(** ** [Clean] ([clean.go]) *)
(** One visit of [cleanUp]'s [Range]; an entry a close callback has removed
    meanwhile is not visited. *)
Definition clean_visit (r j : nat) (expireTime : Z) (acc : State * list string) (k : string) (p : nat)
  : (State * list string) * bool :=
  let '(st, toClean) := acc in
  if negb (bool_decide ((peerMap (root_at st r) !! j ≫= sm_Load k) = Some p)) then (acc, true)
  else match peers st !! p with
  | None => (acc, true)
  | Some value =>
      if After expireTime (LastSeen value) then
        let st := match Conn value with
                  | Some c => if Type_ value =? PeerTypeWebtorrent
                              then let st := conn_Close c st in
                                   set_peers (alter clear_conn p (peers st)) st
                              else st
                  | None => st
                  end in
        ((st, toClean ++ [k]), true)
      else (acc, true)
  end.

(** [now1], [now2], [now3] are its three readings of the clock. *)
Definition cleanUp (now1 now2 now3 : Z) (r : nat) (st : State) : Z * State :=
  if After (Add (lastClean (root_at st r)) (seconds ttl)) now1 then (0, st)
  else
    let ms := peerMap (root_at st r) in
    let '(st, toClean) :=
      fold_left (fun acc jm => Range (clean_visit r jm.1 (expire_time now2)) jm.2 acc)
        (combine (seq 0 (length ms)) ms) (st, []) in
    let st := fold_left (fun st k => (root_LoadAndDelete r k st).2) toClean st in
    let i := root_at st r in
    let st := put_root r (mkRoot (peerMap i) now3 (infoHash i) (currentActive i)) st in
    let st := if Len (root_at st r) =? 0
              then set_infoHashMap (sm_Delete (infoHash (root_at st r)) (infoHashMap st)).2 st
              else st in
    (Z.of_nat (length toClean), st).

Definition Clean (now : Z) (st : State) : Z * State :=
  fold_left (fun '(count, st) kr =>
    let '(n, st) := cleanUp now now now kr.2 st in (count + n, st))
    (sm_Range (infoHashMap st)) (0, st).
End Handlers.
End Local.
Arguments InfoHashRoot : clear implicits.
Arguments State : clear implicits.
