(* ===== verification/LocalInv.v ===== *)
(** The invariant of the in-memory store, kept by every operation and by every
    goroutine, whatever the order they run in. *)
From Stdlib Require Import ZArith Lia Bool Strings.String.
From stdpp Require Import base strings list gmap fin_maps relations.
From S2P Require Import Prelude GoStd Config Model Common Mapx Local.
Set Default Proof Using "Type*".
Local Open Scope Z_scope.

Create HintDb local.

Section Inv.
Context `{SyncStringMapLaws M}.
Context (cfg : Config).
Let u := UseAnnounceIP (Tracker cfg).
Implicit Types (st : State M) (i : InfoHashRoot M) (h : list Peer).

(** ** The invariant *)
Definition good (x : Peer) : Prop :=
  Event x ≠ PeerEvent_Stopped ∧ IsPeerConnectable u x = true.
Definition entry_ok h (k : string) (p : nat) : Prop :=
  ∃ x, h !! p = Some x ∧ ID x = k ∧ good x.
Definition map_ok h (pm : M nat) : Prop := map_Forall (entry_ok h) (sm_view pm).

(** The map the write head will move to. *)
Definition next_idx i : nat := Z.to_nat ((currentActive i + 1) mod 3).

Record root_ok h i : Prop := {
  root_three : length (peerMap i) = 3%nat;
  root_active : 0 ≤ currentActive i < 3;
  root_entries : Forall (map_ok h) (peerMap i);
  root_next_empty : ∀ pm, peerMap i !! next_idx i = Some pm → sm_view pm = ∅;
}.

Definition task_ok (n : nat) h (t : task) : Prop :=
  match t with
  | TaskAnnounce r p _ => (r < n)%nat ∧ ∃ x, h !! p = Some x ∧ Event x ≠ PeerEvent_Stopped
  | TaskStore r p | TaskInsert r p _ => (r < n)%nat ∧ ∃ x, h !! p = Some x ∧ good x
  | TaskExpire r _ => (r < n)%nat
  | TaskSend _ p => ∃ x, h !! p = Some x
  | TaskRespond r p _ => (r < n)%nat ∧ ∃ x, h !! p = Some x
  end.

Definition map_entry_ok (rs : list (InfoHashRoot M)) (ih : string) (r : nat) : Prop :=
  ∃ i, rs !! r = Some i ∧ infoHash i = ih.
Definition conn_ok (n : nat) (cn : ConnObj) : Prop :=
  ∀ r k, CloseCallback cn = Some (r, k) → (r < n)%nat.

Record state_ok st : Prop := {
  ok_roots : Forall (root_ok (peers st)) (roots st);
  ok_map : map_Forall (map_entry_ok (roots st)) (sm_view (infoHashMap st));
  ok_tasks : Forall (task_ok (length (roots st)) (peers st)) (tasks st);
  ok_conns : Forall (conn_ok (length (roots st))) (conns st);
}.

(** ** How the peer records may change *)
Definition peer_le (x x' : Peer) : Prop :=
  ID x' = ID x ∧ (Event x ≠ PeerEvent_Stopped → Event x' ≠ PeerEvent_Stopped) ∧
  IsPeerConnectable u x' = IsPeerConnectable u x.
Definition heap_le h h' : Prop := ∀ p x, h !! p = Some x → ∃ x', h' !! p = Some x' ∧ peer_le x x'.

#[local] Instance heap_le_preorder : PreOrder heap_le.
Proof.
  split.
  - intros h p x Hx. exists x. unfold peer_le. auto.
  - intros h1 h2 h3 H12 H23 p x Hx.
    destruct (H12 p x Hx) as (x2 & Hx2 & E1 & E2 & E3).
    destruct (H23 p x2 Hx2) as (x3 & Hx3 & F1 & F2 & F3).
    exists x3. unfold peer_le. rewrite F1, F3. naive_solver.
Qed.

Lemma heap_le_app h l : heap_le h (h ++ l).
Proof. intros p x Hx. exists x. split; [by apply lookup_app_l_Some|]. unfold peer_le. auto. Qed.

Lemma heap_le_alter f p h : (∀ x, h !! p = Some x → peer_le x (f x)) → heap_le h (alter f p h).
Proof.
  intros Hf q x Hx. destruct (decide (p = q)) as [->|Hne].
  - exists (f x). rewrite list_lookup_alter_eq, Hx. split; [done|]. auto.
  - exists x. rewrite list_lookup_alter_ne by done. split; [done|]. unfold peer_le. auto.
Qed.

Lemma update_peer_le p k : Event p ≠ PeerEvent_Stopped → peer_le k (update_peer p k).
Proof. intros Hp. by split_and!. Qed.
Lemma clear_conn_le k : peer_le k (clear_conn k).
Proof. by split_and!. Qed.

Lemma good_le x x' : peer_le x x' → good x → good x'.
Proof. intros (_ & He & Hc) [H1 H2]. split; [auto|congruence]. Qed.

Lemma entry_ok_le h h' k p : heap_le h h' → entry_ok h k p → entry_ok h' k p.
Proof.
  intros Hh (x & Hx & Hk & Hg). destruct (Hh _ _ Hx) as (x' & Hx' & Hle).
  exists x'. split_and!; [done| |by eapply good_le]. destruct Hle as [-> _]. done.
Qed.

Lemma map_ok_le h h' pm : heap_le h h' → map_ok h pm → map_ok h' pm.
Proof. intros Hh Hm k p Hk. eapply entry_ok_le; eauto. Qed.

Lemma root_ok_le h h' i : heap_le h h' → root_ok h i → root_ok h' i.
Proof.
  intros Hh [H1 H2 H3 H4]. split; try done. eapply Forall_impl; [exact H3|].
  intros pm. by apply map_ok_le.
Qed.

Lemma task_ok_le n n' h h' t :
  heap_le h h' → (n ≤ n')%nat → task_ok n h t → task_ok n' h' t.
Proof.
  intros Hh Hn.
  assert (∀ p (P : Peer → Prop), (∀ x x', peer_le x x' → P x → P x') →
    (∃ x, h !! p = Some x ∧ P x) → ∃ x, h' !! p = Some x ∧ P x) as Hlift.
  { intros p P HP (x & Hx & Hp). destruct (Hh _ _ Hx) as (x' & Hx' & Hle). eauto. }
  destruct t as [r p ih|r p|r p ih|r ks|ih p|r p n0]; simpl; try lia.
  - intros [Hr Hx]. split; [lia|]. eapply Hlift; [|done]. intros x x' (_ & He & _). exact He.
  - intros [Hr Hx]. split; [lia|]. eapply Hlift; [|done]. apply good_le.
  - intros [Hr Hx]. split; [lia|]. eapply Hlift; [|done]. apply good_le.
  - intros [x Hx]. destruct (Hh _ _ Hx) as (x' & Hx' & _). eauto.
  - intros [Hr [x Hx]]. split; [lia|]. destruct (Hh _ _ Hx) as (x' & Hx' & _). eauto.
Qed.

(** ** One torrent *)
Lemma next_idx_ne_active i : 0 ≤ currentActive i < 3 → next_idx i ≠ active i.
Proof.
  intros Hi. unfold next_idx, active.
  assert (currentActive i = 0 ∨ currentActive i = 1 ∨ currentActive i = 2) as [E|[E|E]] by lia;
    rewrite E; discriminate.
Qed.

Lemma active_lt i : length (peerMap i) = 3%nat → 0 ≤ currentActive i < 3 → (active i < length (peerMap i))%nat.
Proof. unfold active. lia. Qed.

Lemma active_lookup h i : root_ok h i → peerMap i !! active i = Some (active_map i).
Proof.
  intros [H1 H2 _ _]. unfold active_map.
  destruct (lookup_lt_is_Some_2 (peerMap i) (active i)) as [x Hx]; [by apply active_lt|].
  by rewrite Hx.
Qed.

Lemma active_map_ok h i : root_ok h i → map_ok h (active_map i).
Proof.
  intros Hi. eapply (Forall_lookup_1 _ _ (active i)); [by apply root_entries|by eapply active_lookup].
Qed.

Lemma root_ok_new h ih now : root_ok h (NewInfoHashRoot ih now).
Proof.
  split; simpl; [done|lia| |].
  - repeat constructor; unfold map_ok; rewrite sm_view_new; apply map_Forall_empty.
  - intros pm. unfold next_idx. simpl. change (Z.to_nat (1 mod 3)) with 1%nat. simpl.
    intros [= <-]. apply sm_view_new.
Qed.

(** Removing entries, map by map, keeps a torrent well formed. *)
Lemma root_ok_shrink h i (ms : list (M nat)) :
  root_ok h i → Forall2 (fun pm pm' => sm_view pm' ⊆ sm_view pm) (peerMap i) ms →
  root_ok h (set_peerMap ms i).
Proof.
  intros [H1 H2 H3 H4] Hms. split; simpl; [by rewrite <- (Forall2_length _ _ _ Hms)|done| |].
  - clear H1 H4. induction Hms as [|pm pm' l l' Hpm _ IH]; [constructor|].
    apply Forall_cons_iff in H3 as [H3 H3']. constructor; [|auto].
    intros k p Hk. apply H3. by eapply lookup_weaken.
  - intros pm' Hpm'. change (next_idx (set_peerMap ms i)) with (next_idx i) in Hpm'.
    destruct (Forall2_lookup_r _ _ _ _ _ Hms Hpm') as (pm & Hpm & Hsub).
    rewrite (H4 pm Hpm) in Hsub. by apply map_subseteq_empty.
Qed.

Lemma root_ok_LoadAndDelete h h' key i : root_ok h i → root_ok h (LoadAndDelete h' key i).2.
Proof.
  intros Hi. apply root_ok_shrink; [done|]. rewrite map_map. apply Forall2_fmap_r, Forall_Forall2_diag.
  apply Forall_true. intros pm. change (sm_view (sm_LoadAndDelete key pm).2 ⊆ sm_view pm).
  rewrite sm_LoadAndDelete_view. apply delete_subseteq.
Qed.

Lemma delete_maps_shrink key b (ms : list (M nat)) :
  Forall2 (fun pm pm' => sm_view pm' ⊆ sm_view pm) ms (delete_maps key b ms).2.
Proof.
  revert b. induction ms as [|pm ms IH]; intros b; [constructor|]. cbn [delete_maps].
  destruct b.
  - specialize (IH true). destruct (delete_maps key true ms). by constructor.
  - pose proof (sm_Delete_view key pm) as Hv. destruct (sm_Delete key pm) as [b' pm']. simpl in Hv.
    specialize (IH b'). destruct (delete_maps key b' ms). constructor; [|done].
    rewrite Hv. apply delete_subseteq.
Qed.

Lemma root_ok_Delete h key i : root_ok h i → root_ok h (Delete key i).2.
Proof.
  intros Hi. unfold Delete. pose proof (delete_maps_shrink key false (peerMap i)) as Hs.
  destruct (delete_maps key false (peerMap i)). by apply root_ok_shrink.
Qed.

(** Writing to the active map. *)
Lemma root_ok_set_active h i pm :
  root_ok h i → map_ok h pm → root_ok h (set_peerMap (<[active i := pm]> (peerMap i)) i).
Proof.
  intros Hi Hpm. pose proof Hi as [H1 H2 H3 H4]. split; simpl; [by rewrite length_insert|done| |].
  - by apply Forall_insert.
  - intros pm'. change (next_idx (set_peerMap _ i)) with (next_idx i).
    rewrite list_lookup_insert_ne by (symmetry; by apply next_idx_ne_active). apply H4.
Qed.

Lemma map_ok_insert h pm k p v :
  map_ok h pm → entry_ok h k p → sm_view v = <[k:=p]> (sm_view pm) → map_ok h v.
Proof. intros Hm He Hv. unfold map_ok. rewrite Hv. by apply map_Forall_insert_2. Qed.

Lemma root_ok_Store h key p i : root_ok h i → entry_ok h key p → root_ok h (Store key p i).
Proof.
  intros Hi He. apply root_ok_set_active; [done|].
  eapply map_ok_insert; [by apply active_map_ok|done|apply sm_Store_view].
Qed.

Lemma root_ok_LoadOrStore h key p i : root_ok h i → entry_ok h key p → root_ok h (LoadOrStore key p i).2.
Proof.
  intros Hi He. unfold LoadOrStore.
  pose proof (sm_LoadOrStore_view key p (active_map i)) as Hv.
  destruct (sm_LoadOrStore key p (active_map i)) as [rr pm]. simpl in *.
  apply root_ok_set_active; [done|]. pose proof (active_map_ok _ _ Hi) as Ha.
  destruct (sm_view (active_map i) !! key); [|by eapply map_ok_insert].
  unfold map_ok. by rewrite Hv.
Qed.

Lemma root_ok_rotate h i : root_ok h i → root_ok h (rotate cfg i).
Proof.
  intros Hi. unfold rotate. destruct (_ >? _); [|done].
  destruct Hi as [H1 H2 H3 H4]. split; simpl.
  - by rewrite length_insert.
  - apply Z.mod_pos_bound. lia.
  - apply Forall_insert; [done|]. unfold map_ok. rewrite sm_view_new. apply map_Forall_empty.
  - intros pm. unfold next_idx. simpl.
    assert (((currentActive i + 1) mod 3 + 1) mod 3 = (currentActive i + 2) mod 3) as ->.
    { rewrite Z.add_mod_idemp_l by lia. f_equal. lia. }
    pose proof (Z.mod_pos_bound (currentActive i + 2) 3).
    rewrite list_lookup_insert_eq by lia. intros [= <-]. apply sm_view_new.
Qed.
(** ** The whole state *)
Lemma root_at_lookup st r : (r < length (roots st))%nat → roots st !! r = Some (root_at st r).
Proof.
  intros Hr. unfold root_at. destruct (lookup_lt_is_Some_2 _ _ Hr) as [i Hi]. by rewrite Hi.
Qed.

Lemma root_at_ok st r : state_ok st → (r < length (roots st))%nat → root_ok (peers st) (root_at st r).
Proof.
  intros Hok Hr. eapply (Forall_lookup_1 _ _ r); [apply (ok_roots st Hok)|by apply root_at_lookup].
Qed.

Lemma ok_put_root st r i :
  state_ok st → root_ok (peers st) i → infoHash i = infoHash (root_at st r) →
  state_ok (put_root r i st).
Proof.
  intros [H1 H2 H3 H4] Hi Hih. unfold put_root, set_roots. split; simpl.
  - by apply Forall_insert.
  - intros ih r' Hr'. destruct (H2 ih r' Hr') as (i' & Hi' & Hinf). unfold map_entry_ok.
    destruct (decide (r = r')) as [->|Hne].
    + exists i. rewrite list_lookup_insert_eq by (by eapply lookup_lt_Some). split; [done|].
      rewrite Hih. unfold root_at. by rewrite Hi'.
    + exists i'. by rewrite list_lookup_insert_ne.
  - by rewrite length_insert.
  - by rewrite length_insert.
Qed.

Lemma ok_set_peers st h : state_ok st → heap_le (peers st) h → state_ok (set_peers h st).
Proof.
  intros [H1 H2 H3 H4] Hh. split; simpl; [| done | | done].
  - eapply Forall_impl; [exact H1|]. intros i. by apply root_ok_le.
  - eapply Forall_impl; [exact H3|]. intros t. by apply task_ok_le.
Qed.

Lemma ok_spawn st t :
  state_ok st → task_ok (length (roots st)) (peers st) t → state_ok (spawn t st).
Proof.
  intros [H1 H2 H3 H4] Ht. split; simpl; try done. apply Forall_app. split; [done|by constructor].
Qed.

Lemma ok_set_tasks st ts :
  state_ok st → Forall (task_ok (length (roots st)) (peers st)) ts → state_ok (set_tasks ts st).
Proof. intros [H1 H2 H3 H4] Hts. by split. Qed.

Lemma ok_set_sent st es : state_ok st → state_ok (set_sent es st).
Proof. intros [H1 H2 H3 H4]. by split. Qed.

Lemma ok_set_conns st cs :
  state_ok st → Forall (conn_ok (length (roots st))) cs → state_ok (set_conns cs st).
Proof. intros [H1 H2 H3 H4] Hcs. by split. Qed.

Lemma ok_delete_torrent st ih :
  state_ok st → state_ok (set_infoHashMap (sm_Delete ih (infoHashMap st)).2 st).
Proof.
  intros [H1 H2 H3 H4]. split; simpl; try done. rewrite sm_Delete_view.
  by apply map_Forall_delete.
Qed.

Lemma ok_root_LoadAndDelete st r key :
  state_ok st → (r < length (roots st))%nat → state_ok (root_LoadAndDelete r key st).2.
Proof.
  intros Hok Hr. unfold root_LoadAndDelete.
  pose proof (root_ok_LoadAndDelete (peers st) (peers st) key _ (root_at_ok st r Hok Hr)) as Hi.
  assert (infoHash (LoadAndDelete (peers st) key (root_at st r)).2 = infoHash (root_at st r)) by done.
  destruct (LoadAndDelete (peers st) key (root_at st r)). by apply ok_put_root.
Qed.

Lemma root_LoadAndDelete_frame st r key :
  let st' := (root_LoadAndDelete r key st).2 in
  peers st' = peers st ∧ length (roots st') = length (roots st) ∧ conns st' = conns st
  ∧ tasks st' = tasks st ∧ infoHashMap st' = infoHashMap st.
Proof.
  unfold root_LoadAndDelete. destruct (LoadAndDelete _ _ _). simpl. by rewrite length_insert.
Qed.

(** [LoadAndDelete] returns an entry of one of the maps. *)
Lemma newer_fold h l found :
  ∀ v, fold_left (newer h) l found = Some v → v ∈ l ∨ found = Some v.
Proof.
  revert found. induction l as [|w l IH]; intros found v; simpl; [auto|].
  intros [Hv|Hv]%IH; [set_solver|]. unfold newer in Hv.
  destruct found as [f|]; [destruct (After _ _)|]; injection Hv as ->; set_solver.
Qed.

Lemma LoadAndDelete_entry st r key v :
  (root_LoadAndDelete r key st).1 = Some v →
  ∃ pm, pm ∈ peerMap (root_at st r) ∧ sm_view pm !! key = Some v.
Proof.
  unfold root_LoadAndDelete, LoadAndDelete. simpl.
  intros [Hv|Hv]%newer_fold; [|discriminate].
  apply list_elem_of_omap in Hv as (res & Hres & Hv).
  apply list_elem_of_In, in_map_iff in Hres as (pm & <- & Hpm).
  exists pm. split; [by apply list_elem_of_In|].
  by rewrite <- sm_LoadAndDelete_ret.
Qed.

Lemma ok_get_or_create st now ih :
  state_ok st →
  let '((r, ok), st') := get_or_create now ih st in
  state_ok st' ∧ (r < length (roots st'))%nat ∧ peers st' = peers st
  ∧ (ok = false → root_at st' r = NewInfoHashRoot ih now).
Proof.
  intros [H1 H2 H3 H4]. unfold get_or_create.
  pose proof (sm_LoadOrStoreLazy_ret ih (fun _ => length (roots st)) (infoHashMap st)) as Hr.
  pose proof (sm_LoadOrStoreLazy_view ih (fun _ => length (roots st)) (infoHashMap st)) as Hv.
  destruct (sm_LoadOrStoreLazy _ _ _) as [[r ok] m']. simpl in Hr, Hv.
  destruct (sm_view (infoHashMap st) !! ih) as [r0|] eqn:E; injection Hr as -> ->; simpl.
  - destruct (H2 ih r0 E) as (i & Hi & _).
    split_and!; [split; simpl; by rewrite ?Hv|by eapply lookup_lt_Some|done|done].
  - split_and!; [|rewrite length_app; simpl; lia|done|].
    + split; simpl.
      * apply Forall_app. split; [done|]. constructor; [apply root_ok_new|constructor].
      * rewrite Hv. apply map_Forall_insert_2.
        -- exists (NewInfoHashRoot ih now). split; [|done].
           rewrite lookup_app_r by lia. by rewrite Nat.sub_diag.
        -- intros k r Hk. destruct (H2 k r Hk) as (i & Hi & Hinf). exists i.
           split; [by apply lookup_app_l_Some|done].
      * eapply Forall_impl; [exact H3|]. intros t. apply task_ok_le; [reflexivity|].
        rewrite length_app. lia.
      * eapply Forall_impl; [exact H4|]. intros cn Hcn r k Hrk. rewrite length_app.
        specialize (Hcn r k Hrk). lia.
    + intros _. unfold root_at; simpl. rewrite lookup_app_r by lia. by rewrite Nat.sub_diag.
Qed.
End Inv.

#[export] Hint Resolve root_ok_new root_ok_LoadAndDelete root_ok_Delete root_ok_Store
  root_ok_LoadOrStore root_ok_rotate heap_le_app clear_conn_le update_peer_le : local.
