(* ===== verification/LocalSafety.v ===== *)
(** Every operation of the in-memory store keeps its invariant; reachability
    under arbitrary interleavings of requests and goroutines, and the safety
    properties that follow. *)
From Stdlib Require Import ZArith Lia Bool Strings.String.
From stdpp Require Import base strings list gmap fin_maps relations.
From S2P Require Import Prelude GoStd Config Model Common Samples Mapx Local LocalInv.
Set Default Proof Using "Type*".
Local Open Scope Z_scope.

Lemma fold_left_ind {A B} (P : A → Prop) (f : A → B → A) l a :
  P a → (∀ a b, b ∈ l → P a → P (f a b)) → P (fold_left f l a).
Proof.
  revert a. induction l as [|b l IH]; intros a Ha Hf; [done|]. simpl.
  apply IH; [apply Hf; [set_solver|done]|]. intros a' b' Hb'. apply Hf. set_solver.
Qed.

Lemma range_loop_ind {V A} (P : A → Prop) (f : A → string → V → A * bool) l a :
  P a → (∀ a k v, (k, v) ∈ l → P a → P (f a k v).1) → P (range_loop f l a).
Proof.
  revert a. induction l as [|[k v] l IH]; intros a Ha Hf; [done|]. simpl.
  pose proof (Hf a k v (list_elem_of_here _ _) Ha) as Hn. destruct (f a k v) as [a' []]; [|done].
  apply IH; [done|]. intros a'' k' v' Hin. apply Hf. by right.
Qed.

Section Safety.
Context `{SyncStringMapLaws M}.
Context (cfg : Config).
Let u := UseAnnounceIP (Tracker cfg).
Implicit Types (st : State M) (i : InfoHashRoot M).
Abbreviation ok := (state_ok cfg).
Abbreviation hle := (heap_le cfg).
#[local] Existing Instance heap_le_preorder.

(** A request is accepted up to the point where the handler reads back. *)
Definition announce_start (now : Z) (req : AnnounceRequest) st : State M :=
  match announce_begin cfg now req st with
  | (Respond r p n, st) => spawn (TaskRespond r p n) st
  | (Done _, st) => st
  end.

Lemma ok_entry_of st p (x : Peer) :
  peers st !! p = Some x → good cfg x → entry_ok cfg (peers st) (GetKey x) p.
Proof. intros Hx Hg. by exists x. Qed.

Lemma LoadOrStore_infoHash key p i : infoHash (LoadOrStore key p i).2 = infoHash i.
Proof. unfold LoadOrStore. by destruct (sm_LoadOrStore _ _ _). Qed.

Lemma conn_ok_le n n' cn : (n ≤ n')%nat → conn_ok n cn → conn_ok n' cn.
Proof. intros Hn Hc r k Hr. specialize (Hc r k Hr). lia. Qed.

Lemma ok_set_callback st r key c :
  ok st → (r < length (roots st))%nat →
  ok (set_conns (alter (fun cn => mkConn (Some (r, key)) (closed cn)) c (conns st)) st).
Proof.
  intros Hok Hr. apply ok_set_conns; [done|]. apply Forall_alter; [apply Hok|].
  intros cn Hcn Hc r' k'. simpl. by intros [= <- <-].
Qed.

Lemma announce_begin_ok now req st :
  ok st →
  let '(o, st') := announce_begin cfg now req st in
  ok st' ∧ match o with
           | Done _ => True
           | Respond r p _ => (r < length (roots st'))%nat ∧ ∃ x, peers st' !! p = Some x
           end.
Proof.
  intros Hok. unfold announce_begin. set (x := peer_of_request now req).
  destruct (invalid_address x); [done|].
  pose proof (ok_set_peers _ st _ Hok (heap_le_app cfg (peers st) [x])) as Hok1.
  pose proof (ok_get_or_create cfg _ now (req_InfoHash req) Hok1) as Hg.
  destruct (get_or_create now (req_InfoHash req) _) as [[r b] st1].
  destruct Hg as (Hok2 & Hr & Hp & _).
  assert (peers st1 !! length (peers st) = Some x) as Hx.
  { rewrite Hp. simpl. rewrite lookup_app_r by lia. by rewrite Nat.sub_diag. }
  set (st2 := match Conn x with Some _ => _ | None => _ end).
  assert (ok st2 ∧ peers st2 = peers st1 ∧ roots st2 = roots st1 ∧ tasks st2 = tasks st1) as (Hok3 & E1 & E2 & _).
  { unfold st2. destruct (Conn x); [|done]. destruct (_ =? _); [|done].
    split_and!; [|done..]. by apply ok_set_callback. }
  clearbody st2. rewrite <- E1 in Hx. rewrite <- E2 in Hr.
  assert (root_ok cfg (peers st2) (root_at st2 r)) as Hroot by by apply root_at_ok.
  destruct b; cbn [negb].
  - destruct (Z.eqb_spec (Event x) PeerEvent_Stopped) as [Hs|Hs].
    + split; [|done]. by apply ok_root_LoadAndDelete.
    + split; [|by simpl; eauto]. apply ok_spawn; [done|]. simpl. eauto.
  - split; [|done]. apply ok_spawn.
    + destruct (IsPeerConnectable _ x) eqn:Hc; cbn [andb]; [|done].
      destruct (Z.eqb_spec (Event x) PeerEvent_Stopped) as [Hs|Hs]; cbn [negb]; [done|].
      apply ok_put_root; [done| |by apply LoadOrStore_infoHash].
      apply root_ok_LoadOrStore; [done|]. by apply ok_entry_of.
    + simpl. destruct (_ && _); simpl; eauto.
Qed.

Lemma announce_respond_ok now r p n st :
  ok st → (r < length (roots st))%nat → ok (announce_respond cfg now r p n st).2.
Proof.
  intros Hok Hr. unfold announce_respond. destruct (peers st !! p) as [x|]; [|done].
  destruct (root_Range _ _ _) as [resp expired]. cbn [snd].
  set (st1 := if (0 <? length expired)%nat then _ else _).
  assert (ok st1 ∧ (r < length (roots st1))%nat) as [Hok1 Hr1].
  { unfold st1. destruct (0 <? _)%nat; [|done]. split; [|done]. by apply ok_spawn. }
  apply ok_put_root; [done| |].
  - apply root_ok_rotate. by apply root_at_ok.
  - unfold rotate. by destruct (_ >? _).
Qed.

Lemma run_task_ok now t st :
  ok st → task_ok cfg (length (roots st)) (peers st) t → ok (run_task cfg now t st).
Proof.
  intros Hok. destruct t as [r p ih|r p|r p ih|r ks|ih p|r p n]; cbn [run_task task_ok].
  - intros (Hr & x & Hx & He). rewrite Hx.
    pose proof (ok_root_LoadAndDelete cfg st r (GetKey x) Hok Hr) as Hok1.
    pose proof (root_LoadAndDelete_frame st r (GetKey x)) as (E1 & E2 & _).
    pose proof (LoadAndDelete_entry st r (GetKey x)) as Hfound.
    destruct (root_LoadAndDelete r (GetKey x) st) as [known st1]. cbn [fst snd] in *.
    destruct known as [k|].
    + destruct (Hfound k eq_refl) as (pm & Hpm & Hk).
      destruct (proj1 (Forall_forall _ _) (root_entries _ _ _ (root_at_ok cfg st r Hok Hr)) pm Hpm _ _ Hk)
        as (y & Hy & Hid & Hgood).
      rewrite E1, Hy. set (st2 := if _ || _ then _ else _).
      assert (ok st2 ∧ peers st2 = peers st ∧ length (roots st2) = length (roots st)) as (Hok2 & F1 & F2).
      { unfold st2. destruct (_ || _); [|done]. split_and!; [|done|done].
        apply ok_spawn; [done|]. simpl. rewrite E1. eauto. }
      assert (hle (peers st2) (alter (update_peer x) k (peers st2))) as Hle.
      { apply heap_le_alter. intros z Hz. by apply update_peer_le. }
      apply ok_spawn; [by apply ok_set_peers|]. simpl. split; [lia|].
      rewrite F1, list_lookup_alter_eq, Hy. eexists. split; [done|].
      eapply good_le; [by apply update_peer_le|done].
    + destruct (IsPeerConnectable _ x) eqn:Hc; [|done]. apply ok_spawn; [done|].
      simpl. split; [lia|]. rewrite E1. by exists x.
  - intros (Hr & x & Hx & Hg). rewrite Hx. apply ok_put_root; [done| |done].
    apply root_ok_Store; [by apply root_at_ok|by apply ok_entry_of].
  - intros (Hr & x & Hx & Hg). rewrite Hx. apply ok_spawn.
    + apply ok_put_root; [done| |].
      * apply root_ok_LoadOrStore; [by apply root_at_ok|by apply ok_entry_of].
      * apply LoadOrStore_infoHash.
    + simpl. eauto.
  - intros Hr. destruct ks as [|k ks]; [done|].
    assert (ok (put_root r (Delete k (root_at st r)).2 st)) as Hok1.
    { apply ok_put_root; [done| |].
      - apply root_ok_Delete. by apply root_at_ok.
      - unfold Delete. by destruct (delete_maps _ _ _). }
    destruct ks; [done|]. apply ok_spawn; [done|]. simpl. by rewrite length_insert.
  - intros (x & Hx). rewrite Hx. by apply ok_set_sent.
  - intros (Hr & _). by apply announce_respond_ok.
Qed.

(** Bounds that only grow: what the operations below keep besides [ok]. *)
Definition ext st st' : Prop :=
  hle (peers st) (peers st') ∧ length (roots st') = length (roots st).
#[local] Instance ext_preorder : PreOrder ext.
Proof.
  split.
  - by intros st.
  - intros st1 st2 st3 [H1 L1] [H2 L2]. split; [by etrans|congruence].
Qed.

Lemma ok_root_LoadAndDelete_ext st r key :
  ok st → (r < length (roots st))%nat →
  ok (root_LoadAndDelete r key st).2 ∧ ext st (root_LoadAndDelete r key st).2.
Proof.
  intros Hok Hr. split; [by apply ok_root_LoadAndDelete|].
  destruct (root_LoadAndDelete_frame st r key) as (E1 & E2 & _). split; [by rewrite E1|done].
Qed.

Lemma ok_clear_conn st p :
  ok st → ok (set_peers (alter clear_conn p (peers st)) st) ∧ ext st (set_peers (alter clear_conn p (peers st)) st).
Proof.
  intros Hok. assert (hle (peers st) (alter clear_conn p (peers st))) as Hle.
  { apply heap_le_alter. intros x _. apply clear_conn_le. }
  split; [by apply ok_set_peers|by split].
Qed.

Lemma close_callback_ok st cb :
  ok st → (cb.1 < length (roots st))%nat → ok (close_callback cb st) ∧ ext st (close_callback cb st).
Proof.
  intros Hok Hr. destruct (ok_root_LoadAndDelete_ext st cb.1 cb.2 Hok Hr) as [Hok1 He1].
  unfold close_callback. destruct (root_LoadAndDelete _ _ _) as [v st1]. cbn [snd] in *.
  destruct v as [v|]; [|done]. destruct (ok_clear_conn st1 v Hok1) as [Hok2 He2].
  split; [done|]. by etrans.
Qed.

Lemma conn_Close_ok st c : ok st → ok (conn_Close c st) ∧ ext st (conn_Close c st).
Proof.
  intros Hok. unfold conn_Close. destruct (conns st !! c) as [cn|] eqn:Hc; [|done].
  destruct (closed cn); [done|].
  set (st1 := match CloseCallback cn with Some cb => _ | None => _ end).
  assert (ok st1 ∧ ext st st1) as [Hok1 He1].
  { unfold st1. destruct (CloseCallback cn) as [[r k]|] eqn:E; [|done]. apply close_callback_ok; [done|].
    simpl. exact (Forall_lookup_1 _ _ _ _ (ok_conns cfg st Hok) Hc r k E). }
  clearbody st1. split; [|by etrans; [exact He1|split]].
  apply ok_set_conns; [done|]. apply Forall_alter; [apply Hok1|]. intros cn' Hcn' Hok' r k. apply Hok'.
Qed.

Lemma clean_visit_ok r j t acc k p :
  ok acc.1 → ok (clean_visit r j t acc k p).1.1 ∧ ext acc.1 (clean_visit r j t acc k p).1.1.
Proof.
  destruct acc as [st toClean]. cbn [fst]. intros Hok. unfold clean_visit.
  destruct (negb _); [done|]. destruct (peers st !! p) as [x|]; [|done].
  destruct (After _ _); [|done]. cbn [fst]. destruct (Conn x) as [c|]; [|done].
  destruct (_ =? _); [|done]. destruct (conn_Close_ok st c Hok) as [Hok1 He1].
  destruct (ok_clear_conn _ p Hok1) as [Hok2 He2]. split; [done|]. by etrans.
Qed.

Lemma cleanUp_ok n1 n2 n3 r st :
  ok st → (r < length (roots st))%nat → ok (cleanUp cfg n1 n2 n3 r st).2 ∧ ext st (cleanUp cfg n1 n2 n3 r st).2.
Proof.
  intros Hok Hr. unfold cleanUp. destruct (After _ _); [done|].
  set (acc := fold_left _ (combine _ _) (st, [])).
  assert (ok acc.1 ∧ ext st acc.1) as [Hok1 He1].
  { apply (fold_left_ind (fun acc : State M * list string => ok acc.1 ∧ ext st acc.1)); [done|].
    intros a jm _ Ha. apply (range_loop_ind (fun acc : State M * list string => ok acc.1 ∧ ext st acc.1)); [done|].
    intros a' k v _ [Ha' He']. destruct (clean_visit_ok r jm.1 (expire_time cfg n2) a' k v Ha') as [H1 H2].
    split; [done|]. by etrans. }
  destruct acc as [st1 toClean]. cbn [fst snd] in *.
  set (st2 := fold_left _ toClean st1).
  assert (ok st2 ∧ ext st st2) as [Hok2 He2].
  { apply (fold_left_ind (fun s => ok s ∧ ext st s)); [done|]. intros s k _ [Hs Hes].
    destruct (ok_root_LoadAndDelete_ext s r k Hs) as [H1 H2]; [destruct Hes; lia|].
    split; [done|]. by etrans. }
  clearbody st2. assert (r < length (roots st2))%nat as Hr2 by (destruct He2; lia).
  set (i := mkRoot _ _ _ _).
  assert (ok (put_root r i st2)) as Hok3.
  { apply ok_put_root; [done| |done]. by apply (root_at_ok cfg st2 r Hok2) in Hr2 as []. }
  split.
  - destruct (_ =? 0); [|done]. by apply ok_delete_torrent.
  - destruct He2 as [E1 E2]. destruct (_ =? 0); (split; [done|]); simpl; by rewrite length_insert.
Qed.

Lemma Clean_ok now st : ok st → ok (Clean cfg now st).2 ∧ ext st (Clean cfg now st).2.
Proof.
  intros Hok. unfold Clean.
  apply (fold_left_ind (fun a : Z * State M => ok a.2 ∧ ext st a.2)); [done|].
  intros [n s] [k r] Hkr [Hs He]. cbn [fst snd] in *.
  assert (r < length (roots s))%nat as Hr.
  { apply sm_Range_elem in Hkr. destruct (ok_map cfg st Hok _ _ Hkr) as (i & Hi & _).
    apply lookup_lt_Some in Hi. destruct He; lia. }
  destruct (cleanUp_ok now now now r s Hs Hr) as [H1 H2].
  destruct (cleanUp _ _ _ _ _ _) as [m s']. cbn [fst snd] in *. split; [done|]. by etrans.
Qed.

Lemma Scrape_ok now cached ih st : ok st → ok (Scrape cfg now cached ih st).1.2.
Proof.
  intros Hok. unfold Scrape. destruct (sm_Load ih (infoHashMap st)) as [r|] eqn:E; [|done].
  destruct (if redis_Enable _ then _ else _); [done|].
  destruct (root_Range _ _ _) as [f expired]. cbn [fst snd].
  destruct (0 <? _)%nat; [|done]. apply ok_spawn; [done|]. simpl.
  rewrite sm_Load_ret in E. destruct (ok_map cfg st Hok _ _ E) as (i & Hi & _). by eapply lookup_lt_Some.
Qed.

Lemma DirectStore_ok now ih x st : ok st → good cfg x → ok (DirectStore now ih x st).
Proof.
  intros Hok Hx. unfold DirectStore.
  pose proof (ok_set_peers _ st _ Hok (heap_le_app cfg (peers st) [x])) as Hok1.
  pose proof (ok_get_or_create cfg _ now ih Hok1) as Hg.
  destruct (get_or_create now ih _) as [[r b] st1]. destruct Hg as (Hok2 & Hr & Hp & _).
  apply ok_put_root; [done| |done]. apply root_ok_Store; [by apply root_at_ok|].
  apply ok_entry_of; [|done]. rewrite Hp. simpl. rewrite lookup_app_r by lia. by rewrite Nat.sub_diag.
Qed.

Lemma HandleAnnouncePeer_ok now now' req st : ok st → ok (HandleAnnouncePeer cfg now now' req st).2.
Proof.
  intros Hok. pose proof (announce_begin_ok now req st Hok) as Ha. unfold HandleAnnouncePeer.
  destruct (announce_begin cfg now req st) as [[res|r p n] st1]; destruct Ha as [Hok1 Ht]; [done|].
  pose proof (announce_respond_ok now' r p n st1 Hok1 (proj1 Ht)) as Hr. by destruct (announce_respond _ _ _ _ _ _).
Qed.

Lemma run_all_ok n now st : ok st → ok (run_all cfg n now st).
Proof.
  revert st. induction n as [|n IH]; intros st Hok; [done|]. simpl.
  destruct (tasks st) as [|t ts] eqn:Ht; [done|]. apply IH. unfold run_next. rewrite Ht.
  pose proof (ok_tasks cfg st Hok) as Hts. rewrite Ht in Hts. apply Forall_cons_iff in Hts as [H1 H2].
  apply run_task_ok; [by apply ok_set_tasks|done].
Qed.

(** ** Reachability

    One atomic step of the store: a request up to its read-back, any started
    goroutine (in any order), or one of the other operations.  A restored peer
    is one the store held when it was dumped. *)
Inductive step st : State M → Prop :=
| step_announce now req : step st (announce_start now req st)
| step_task now t ts1 ts2 :
    tasks st = ts1 ++ t :: ts2 → step st (run_task cfg now t (set_tasks (ts1 ++ ts2) st))
| step_Scrape now cached ih : step st (Scrape cfg now cached ih st).1.2
| step_Clean now : step st (Clean cfg now st).2
| step_BanInfoHash ih : step st (BanInfoHash ih st).2
| step_DeleteInfoHash ih : step st (DeleteInfoHash ih st).2
| step_restore now ih x : good cfg x → step st (DirectStore now ih x st)
| step_accept cn : CloseCallback cn = None → step st (set_conns (conns st ++ [cn]) st)
| step_Close c : step st (conn_Close c st).

Definition reachable : State M → Prop := rtc step NewLocalManger.

Lemma ok_new : ok NewLocalManger.
Proof. split; simpl; try constructor. rewrite sm_view_new. apply map_Forall_empty. Qed.

Lemma step_ok st st' : step st st' → ok st → ok st'.
Proof.
  intros Hs Hok. destruct Hs as [now req|now t ts1 ts2 Ht|now cached ih|now|ih|ih|now ih x Hx|cn Hcn|c].
  - pose proof (announce_begin_ok now req st Hok) as Ha. unfold announce_start.
    destruct (announce_begin cfg now req st) as [[res|r p n] st']; destruct Ha as [Ha Ht]; [done|].
    apply ok_spawn; [done|]. by destruct Ht.
  - pose proof (ok_tasks cfg st Hok) as Hts. rewrite Ht in Hts.
    apply Forall_app in Hts as [H1 [H2 H3]%Forall_cons_iff].
    apply run_task_ok; [apply ok_set_tasks; [done|by apply Forall_app]|done].
  - by apply Scrape_ok.
  - by apply Clean_ok.
  - by apply ok_delete_torrent.
  - by apply ok_delete_torrent.
  - by apply DirectStore_ok.
  - apply ok_set_conns; [done|]. apply Forall_app. split; [apply Hok|].
    constructor; [|constructor]. intros r k. by rewrite Hcn.
  - by apply conn_Close_ok.
Qed.

Lemma reachable_ok st : reachable st → ok st.
Proof. intros Hr. refine (rtc_ind_r (fun s => ok s) _ ok_new _ st Hr). eauto using step_ok. Qed.

(** C7: Whatever the interleaving of requests, goroutines, clean-ups and closing
    connections, an entry of a torrent is filed under its peer's id, the peer
    is reachable from outside, and it has not left. *)
Theorem stored_peers_good st i pm k p :
  reachable st → i ∈ roots st → pm ∈ peerMap i → sm_Load k pm = Some p →
  ∃ x, peers st !! p = Some x ∧ GetKey x = k ∧ IsPeerConnectable u x = true
       ∧ Event x ≠ PeerEvent_Stopped.
Proof.
  intros Hr Hi Hpm Hk. apply reachable_ok in Hr.
  assert (root_ok cfg (peers st) i) as [_ _ He _] by by eapply Forall_forall; [apply Hr|].
  rewrite Forall_forall in He. rewrite sm_Load_ret in Hk.
  destruct (He pm Hpm k p Hk) as (x & Hx & Hid & Hg1 & Hg2). eauto.
Qed.

(** C8: In every reachable state a torrent has three maps, its write index is in
    range and the map after it is empty; the index of torrents files each under
    its own info hash; and no pending goroutine, of whatever kind, nor handler
    that has still to answer refers to a torrent or peer that does not exist. *)
Theorem reachable_well_formed st :
  reachable st →
  (∀ i, i ∈ roots st → length (peerMap i) = 3%nat ∧ 0 ≤ currentActive i < 3 ∧
        ∃ pm, peerMap i !! Z.to_nat ((currentActive i + 1) mod 3) = Some pm ∧ sm_Len pm = 0) ∧
  (∀ ih r, sm_Load ih (infoHashMap st) = Some r → infoHash <$> roots st !! r = Some ih) ∧
  (∀ t, t ∈ tasks st →
     match t with
     | TaskAnnounce r p _ | TaskStore r p | TaskInsert r p _ | TaskRespond r p _ =>
         (r < length (roots st))%nat ∧ (p < length (peers st))%nat
     | TaskExpire r _ => (r < length (roots st))%nat
     | TaskSend _ p => (p < length (peers st))%nat
     end).
Proof.
  intros Hr%reachable_ok. split_and!.
  - intros i Hi. assert (root_ok cfg (peers st) i) as [H1 H2 _ H4] by by eapply Forall_forall; [apply Hr|].
    split_and!; [done|lia|lia|]. unfold next_idx in H4.
    pose proof (Z.mod_pos_bound (currentActive i + 1) 3).
    destruct (lookup_lt_is_Some_2 (peerMap i) (Z.to_nat ((currentActive i + 1) mod 3))) as [pm Hpm]; [lia|].
    exists pm. split; [done|]. rewrite sm_Len_ret, (H4 pm Hpm). by rewrite map_size_empty.
  - intros ih r Hih. rewrite sm_Load_ret in Hih. destruct (ok_map cfg st Hr _ _ Hih) as (i & Hi & Hinf).
    by rewrite Hi, <- Hinf.
  - intros t Ht. pose proof (proj1 (Forall_forall _ _) (ok_tasks cfg st Hr) _ Ht) as Hok.
    assert (∀ p x, peers st !! p = Some x → (p < length (peers st))%nat) as Hp by (intros p x; apply lookup_lt_Some).
    destruct t as [r p ih|r p|r p ih|r ks|ih p|r p n]; cbn [task_ok] in Hok.
    + destruct Hok as (Hl & x & Hx & _). split; [done|by eapply Hp].
    + destruct Hok as (Hl & x & Hx & _). split; [done|by eapply Hp].
    + destruct Hok as (Hl & x & Hx & _). split; [done|by eapply Hp].
    + done.
    + destruct Hok as (x & Hx). by eapply Hp.
    + destruct Hok as (Hl & x & Hx). split; [done|by eapply Hp].
Qed.
End Safety.

(** Two announces of one torrent, and the goroutines of the second: the store
    then holds both peers. *)
Definition run_state : State Skip :=
  let ann id h st := announce_start (sample_cfg 400) sample_time (sample_request id "T" "started" h 0 50) st in
  let st := ann "A"%string Byte.x01 NewLocalManger in
  let st := ann "B"%string Byte.x02 st in
  let st := run_task (sample_cfg 400) sample_time (TaskAnnounce 0 1 "T") (set_tasks [TaskSend "T" 0; TaskRespond 0 1 50] st) in
  run_task (sample_cfg 400) sample_time (TaskInsert 0 1 "T") (set_tasks [TaskSend "T" 0; TaskRespond 0 1 50] st).

Lemma run_state_reachable : reachable (sample_cfg 400) run_state.
Proof.
  unfold reachable, run_state. cbv zeta.
  eapply rtc_l; [apply (step_announce (sample_cfg 400) _ sample_time (sample_request "A" "T" "started" Byte.x01 0 50))|].
  eapply rtc_l; [apply (step_announce (sample_cfg 400) _ sample_time (sample_request "B" "T" "started" Byte.x02 0 50))|].
  eapply rtc_l.
  { apply (step_task (sample_cfg 400) _ sample_time (TaskAnnounce 0 1 "T") [TaskSend "T" 0] [TaskRespond 0 1 50]).
    vm_compute. reflexivity. }
  eapply rtc_l.
  { apply (step_task (sample_cfg 400) _ sample_time (TaskInsert 0 1 "T") [TaskSend "T" 0; TaskRespond 0 1 50] []).
    vm_compute. reflexivity. }
  apply rtc_refl.
Qed.

Lemma stored_peers_good_witness :
  ∃ x, peers run_state !! 1%nat = Some x ∧ GetKey x = "B"%string
       ∧ IsPeerConnectable true x = true ∧ Event x ≠ PeerEvent_Stopped.
Proof.
  apply (stored_peers_good (sample_cfg 400) run_state (root_at run_state 0)
           ({["A"%string := 0%nat; "B"%string := 1%nat]} : gmap string nat) "B"%string 1%nat run_state_reachable).
  - apply list_elem_of_lookup. exists 0%nat. vm_compute. reflexivity.
  - apply list_elem_of_lookup. exists 0%nat. vm_compute. reflexivity.
  - vm_compute. reflexivity.
Defined.

Lemma reachable_well_formed_witness :
  length (peerMap (root_at run_state 0)) = 3%nat ∧ infoHash (root_at run_state 0) = "T"%string.
Proof.
  destruct (reachable_well_formed (sample_cfg 400) run_state run_state_reachable) as (H1 & _ & _).
  split; [|vm_compute; reflexivity].
  apply (H1 (root_at run_state 0)). apply list_elem_of_lookup. exists 0%nat. vm_compute. reflexivity.
Defined.
