(* ===== verification/LocalSpec.v ===== *)
(** The answer to an announce: exactly which entries of the torrent are handed
    out, and what is true of them in every reachable state. *)
From Stdlib Require Import ZArith Lia Bool Strings.String.
From stdpp Require Import base strings list gmap fin_maps relations.
From S2P Require Import Prelude GoStd Config Model Common Samples Mapx Local LocalInv LocalSafety.
Set Default Proof Using "Type*".
Local Open Scope Z_scope.

Section Spec.
Context `{SyncStringMapLaws M}.
Context (cfg : Config).
Implicit Types (st : State M) (i : InfoHashRoot M) (h : list Peer).

(** The entries of a torrent in the order [Range] visits them. *)
Definition entries i : list (string * nat) := flat_map sm_Range (peerMap i).

Lemma entries_elem i k p :
  (k, p) ∈ entries i ↔ ∃ pm, pm ∈ peerMap i ∧ sm_Load k pm = Some p.
Proof.
  unfold entries. rewrite list_elem_of_In, in_flat_map. setoid_rewrite <- list_elem_of_In.
  setoid_rewrite sm_Range_elem. setoid_rewrite sm_Load_ret. done.
Qed.

(** Iteration with a callback that never stops is a fold over the entries. *)
Lemma range_loop_continue {V A} (f : A → string → V → A * bool) l a :
  (∀ a k v, (f a k v).2 = true) → range_loop f l a = fold_left (fun a e => (f a e.1 e.2).1) l a.
Proof.
  intros Hf. revert a. induction l as [|[k v] l IH]; intros a; [done|]. simpl.
  specialize (Hf a k v). destruct (f a k v) as [a' b]. simpl in *. subst b. apply IH.
Qed.

Lemma root_Range_continue {A} (f : A → string → nat → A * bool) i a :
  (∀ a k p, (f a k p).2 = true) →
  root_Range f i a = fold_left (fun a e => (f a e.1 e.2).1) (entries i) a.
Proof.
  intros Hf. unfold root_Range, entries, Range. revert a.
  induction (peerMap i) as [|pm ms IH]; intros a; [done|].
  simpl. by rewrite IH, fold_left_app, range_loop_continue.
Qed.

(** ** The answer to an announce *)

(** The peers that may be returned to [peer]. *)
Definition eligible h (now : Z) (peer : Peer) (p : nat) : bool :=
  match h !! p with
  | None => false
  | Some value =>
      live cfg now value && (Type_ value =? Type_ peer)
      && negb ((Type_ value =? PeerTypeWebtorrent) && bool_decide (Conn value = None))
      && negb (Event value =? PeerEvent_Stopped) && bool_decide (ID value ≠ ID peer)
  end.

(** The first [numWant] of them. *)
Definition selected h (now : Z) (peer : Peer) (numWant : Z) i : list nat :=
  take (Z.to_nat numWant) (List.filter (eligible h now peer) (entries i).*2).

Lemma eligible_spec h now peer p :
  eligible h now peer p = true →
  ∃ x, h !! p = Some x ∧ live cfg now x = true ∧ Type_ x = Type_ peer ∧
       (Type_ x = PeerTypeWebtorrent → Conn x ≠ None) ∧ Event x ≠ PeerEvent_Stopped ∧ ID x ≠ ID peer.
Proof.
  unfold eligible. destruct (h !! p) as [x|]; [|done]. intros Hx.
  repeat apply andb_true_iff in Hx as [Hx ?]. exists x.
  rewrite bool_decide_eq_true in *. rewrite negb_true_iff in *. rewrite Z.eqb_eq, Z.eqb_neq in *.
  split_and!; try done. intros Ht Hc. rewrite Ht, Hc in *. done.
Qed.

Lemma collect_loop h now peer n l resp ex :
  (length resp ≤ Z.to_nat n)%nat →
  (range_loop (collect h (expire_time cfg now) peer n) l (resp, ex)).1
  = take (Z.to_nat n) (resp ++ List.filter (eligible h now peer) l.*2).
Proof.
  revert resp ex. induction l as [|[k p] l IH]; intros resp ex Hlen; simpl.
  - by rewrite app_nil_r, take_ge.
  - unfold eligible at 1, live. destruct (h !! p) as [x|]; [|by apply IH].
    destruct (After _ _); [by apply IH|]. cbn [negb andb].
    destruct (Type_ x =? Type_ peer); [|by apply IH]. cbn [negb andb].
    destruct (_ && bool_decide (Conn x = None)); [by apply IH|]. cbn [negb andb].
    destruct (Event x =? PeerEvent_Stopped); [by apply IH|]. cbn [negb andb].
    destruct (Z.leb_spec n (Z.of_nat (length resp))) as [Hn|Hn]; simpl.
    + rewrite take_app_le by lia. by rewrite take_ge by lia.
    + destruct (decide (ID x = ID peer)) as [Hid|Hid].
      * rewrite bool_decide_eq_false_2 by tauto. by apply IH.
      * rewrite bool_decide_eq_true_2 by done. rewrite IH by (rewrite length_app; simpl; lia).
        by rewrite <- app_assoc.
Qed.

Lemma collect_root h now peer n i :
  (root_Range (collect h (expire_time cfg now) peer n) i ([], [])).1 = selected h now peer n i.
Proof.
  unfold root_Range, selected, entries, Range.
  assert (∀ (ms : list (M nat)) resp ex, (length resp ≤ Z.to_nat n)%nat →
    (fold_left (fun a s => range_loop (collect h (expire_time cfg now) peer n) (sm_Range s) a) ms (resp, ex)).1
    = take (Z.to_nat n) (resp ++ List.filter (eligible h now peer) (flat_map sm_Range ms).*2)) as Hms.
  { induction ms as [|pm ms IH]; intros resp ex Hlen; simpl.
    - by rewrite app_nil_r, take_ge.
    - pose proof (collect_loop h now peer n (sm_Range pm) resp ex Hlen) as Hc.
      destruct (range_loop _ _ _) as [resp' ex']. simpl in Hc. rewrite IH.
      + rewrite Hc, fmap_app, List.filter_app, (app_assoc resp). set (l1 := resp ++ _). set (l2 := List.filter _ _).
        destruct (decide (length l1 ≤ Z.to_nat n)%nat).
        * by rewrite (take_ge l1).
        * rewrite (take_app_le l1) by lia. rewrite take_app_le by (rewrite length_take; lia).
          by rewrite take_take, Nat.min_id.
      + rewrite Hc, length_take. lia. }
  apply (Hms (peerMap i) [] []). simpl. lia.
Qed.

(** Only keys of expired entries are queued for removal. *)
Lemma root_Range_ind {A} (P : A → Prop) (f : A → string → nat → A * bool) i a :
  P a → (∀ a k p, (k, p) ∈ entries i → P a → P (f a k p).1) → P (root_Range f i a).
Proof.
  intros Ha Hf. unfold root_Range. apply fold_left_ind; [done|]. intros a' pm Hpm Ha'.
  unfold Range. apply range_loop_ind; [done|]. intros a'' k p Hk. apply Hf, entries_elem. exists pm.
  split; [done|]. by rewrite sm_Load_ret, <- sm_Range_elem.
Qed.

Lemma collect_expired h now peer n i k :
  k ∈ (root_Range (collect h (expire_time cfg now) peer n) i ([], [])).2 →
  ∃ p x, (k, p) ∈ entries i ∧ h !! p = Some x ∧ live cfg now x = false.
Proof.
  set (Q := fun k => ∃ p x, (k, p) ∈ entries i ∧ h !! p = Some x ∧ live cfg now x = false).
  apply (root_Range_ind (fun acc : list nat * list string => k ∈ acc.2 → Q k)); simpl.
  { intros Hk. by apply not_elem_of_nil in Hk. }
  intros [resp ex] k' p Hp IH. unfold collect. destruct (h !! p) as [x|] eqn:Hx; [|done].
  destruct (After _ _) eqn:Ha; simpl.
  - intros [Hk|Hk]%elem_of_app; [auto|]. apply list_elem_of_singleton in Hk as ->.
    exists p, x. split_and!; [done|done|]. unfold live. by rewrite Ha.
  - by repeat case_match.
Qed.

Lemma announce_respond_selected now r p n st peer :
  peers st !! p = Some peer →
  (announce_respond cfg now r p n st).1 = selected (peers st) now peer n (root_at st r).
Proof.
  intros Hp. unfold announce_respond. rewrite Hp, <- collect_root.
  by destruct (root_Range _ _ _).
Qed.

Lemma get_or_create_known st now ih r :
  sm_view (infoHashMap st) !! ih = Some r →
  ∃ m', get_or_create now ih st = ((r, true), set_infoHashMap m' st) ∧ sm_view m' = sm_view (infoHashMap st).
Proof.
  intros Hih. unfold get_or_create.
  pose proof (sm_LoadOrStoreLazy_ret ih (fun _ => length (roots st)) (infoHashMap st)) as Hr.
  pose proof (sm_LoadOrStoreLazy_view ih (fun _ => length (roots st)) (infoHashMap st)) as Hv.
  rewrite Hih in Hr, Hv. destruct (sm_LoadOrStoreLazy _ _ _) as [[r' b] m']. simpl in Hr, Hv.
  injection Hr as -> ->. exists m'. by split.
Qed.

Lemma get_or_create_unknown st now ih :
  sm_view (infoHashMap st) !! ih = None →
  ∃ m', get_or_create now ih st
        = ((length (roots st), false),
           mkState m' (roots st ++ [NewInfoHashRoot ih now]) (peers st) (conns st) (tasks st) (sent st))
        ∧ sm_view m' = <[ih := length (roots st)]> (sm_view (infoHashMap st)).
Proof.
  intros Hih. unfold get_or_create.
  pose proof (sm_LoadOrStoreLazy_ret ih (fun _ => length (roots st)) (infoHashMap st)) as Hr.
  pose proof (sm_LoadOrStoreLazy_view ih (fun _ => length (roots st)) (infoHashMap st)) as Hv.
  rewrite Hih in Hr, Hv. destruct (sm_LoadOrStoreLazy _ _ _) as [[r' b] m']. simpl in Hr, Hv.
  injection Hr as -> ->. exists m'. by split.
Qed.

(** The callback assignment touches only the connection objects. *)
Definition with_callback (x : Peer) (r : nat) (key : string) st : State M :=
  match Conn x with
  | Some c => if Type_ x =? PeerTypeWebtorrent
              then set_conns (alter (fun cn => mkConn (Some (r, key)) (closed cn)) c (conns st)) st
              else st
  | None => st
  end.
Lemma with_callback_frame x r key st :
  let st' := with_callback x r key st in
  infoHashMap st' = infoHashMap st ∧ roots st' = roots st ∧ peers st' = peers st ∧
  tasks st' = tasks st ∧ sent st' = sent st.
Proof. unfold with_callback. destruct (Conn x); [|done]. by destruct (_ =? _). Qed.

(** [announce_begin] on a torrent the store has. *)
Lemma announce_begin_known now req st r :
  let x := peer_of_request now req in
  invalid_address x = false → sm_view (infoHashMap st) !! req_InfoHash req = Some r →
  ∃ st1,
    sm_view (infoHashMap st1) = sm_view (infoHashMap st) ∧ roots st1 = roots st ∧
    peers st1 = peers st ++ [x] ∧ tasks st1 = tasks st ∧ sent st1 = sent st ∧
    announce_begin cfg now req st =
      if Event x =? PeerEvent_Stopped
      then (Done (Ok []), (root_LoadAndDelete r (GetKey x) st1).2)
      else (Respond r (length (peers st)) (req_NumWant req),
            spawn (TaskAnnounce r (length (peers st)) (req_InfoHash req)) st1).
Proof.
  intros x Hx Hih. unfold announce_begin. fold x. rewrite Hx.
  destruct (get_or_create_known (set_peers (peers st ++ [x]) st) now (req_InfoHash req) r Hih) as (m' & -> & Hm').
  set (st1 := with_callback x r (req_PeerID req) (set_infoHashMap m' (set_peers (peers st ++ [x]) st))).
  exists st1. destruct (with_callback_frame x r (req_PeerID req) (set_infoHashMap m' (set_peers (peers st ++ [x]) st)))
    as (E1 & E2 & E3 & E4 & E5). fold st1 in E1, E2, E3, E4, E5.
  rewrite E1. split_and!; [exact Hm'|done..|].
  change (match Conn x with Some _ => _ | None => _ end) with st1. done.
Qed.

(** The answer on a known torrent. *)
Lemma announce_known now now' req st r :
  let x := peer_of_request now req in
  invalid_address x = false → Event x ≠ PeerEvent_Stopped →
  sm_Load (req_InfoHash req) (infoHashMap st) = Some r →
  (HandleAnnouncePeer cfg now now' req st).1
  = Ok (selected (peers st ++ [x]) now' x (req_NumWant req) (root_at st r)).
Proof.
  intros x Hx He Hih. rewrite sm_Load_ret in Hih. unfold HandleAnnouncePeer.
  destruct (announce_begin_known now req st r Hx Hih) as (st1 & E1 & E2 & E3 & E4 & E5 & ->). fold x.
  rewrite (proj2 (Z.eqb_neq _ _)) by done.
  set (st2 := spawn _ st1).
  assert (peers st2 !! length (peers st) = Some x) as Hp.
  { simpl. rewrite E3, lookup_app_r by lia. by rewrite Nat.sub_diag. }
  pose proof (announce_respond_selected now' r _ (req_NumWant req) st2 x Hp) as Hr.
  destruct (announce_respond _ _ _ _ _ _) as [resp st3]. simpl in *. rewrite Hr, E3.
  unfold root_at. simpl. by rewrite E2.
Qed.

(** C9: On a torrent the store has, an announce of a peer that is not leaving, with
    no address of the wrong family, is answered with exactly the first [numWant]
    entries, in iteration order, that are not expired, of the caller's type,
    holding a connection (closed or not) if they are WebTorrent peers, not
    stopped, and not the caller. *)
Theorem announce_answer now now' req st r :
  let x := peer_of_request now req in
  invalid_address x = false → Event x ≠ PeerEvent_Stopped →
  sm_Load (req_InfoHash req) (infoHashMap st) = Some r →
  (HandleAnnouncePeer cfg now now' req st).1
  = Ok (selected (peers st ++ [x]) now' x (req_NumWant req) (root_at st r)).
Proof. apply announce_known. Qed.

(** The answers an announce can get. *)
Lemma announce_cases now now' req st :
  let x := peer_of_request now req in
  let out := HandleAnnouncePeer cfg now now' req st in
  (invalid_address x = true ∧ out = (Err "invalid address"%string, st)) ∨ out.1 = Ok [] ∨
  ∃ r, sm_view (infoHashMap st) !! req_InfoHash req = Some r ∧
       out.1 = Ok (selected (peers st ++ [x]) now' x (req_NumWant req) (root_at st r)).
Proof.
  intros x out. subst out. destruct (invalid_address x) eqn:Hx.
  { left. unfold HandleAnnouncePeer, announce_begin. fold x. by rewrite Hx. }
  right. destruct (sm_view (infoHashMap st) !! req_InfoHash req) as [r|] eqn:Hih.
  - destruct (Z.eqb_spec (Event x) PeerEvent_Stopped) as [He|He].
    + left. unfold HandleAnnouncePeer.
      destruct (announce_begin_known now req st r Hx Hih) as (st1 & _ & _ & _ & _ & _ & E). fold x in E.
      by rewrite E, He.
    + right. exists r. split; [done|]. apply announce_known; [done..|]. by rewrite sm_Load_ret.
  - left. unfold HandleAnnouncePeer, announce_begin. fold x. rewrite Hx.
    destruct (get_or_create_unknown (set_peers (peers st ++ [x]) st) now (req_InfoHash req) Hih) as (m' & -> & _).
    done.
Qed.

Lemma entries_lookup h i k p : root_ok cfg h i → (k, p) ∈ entries i → entry_ok cfg h k p.
Proof.
  intros Hi (pm & Hpm & Hk)%entries_elem. rewrite sm_Load_ret in Hk.
  exact (proj1 (Forall_forall _ _) (root_entries _ _ _ Hi) pm Hpm k p Hk).
Qed.

Lemma selected_elem h now peer n i p :
  p ∈ selected h now peer n i → eligible h now peer p = true ∧ ∃ k, (k, p) ∈ entries i.
Proof.
  intros Hp. apply subseteq_take in Hp. apply list_elem_of_In, filter_In in Hp as [Hp Hel].
  split; [done|]. apply list_elem_of_In, list_elem_of_fmap in Hp as ([k q] & -> & Hkq). by exists k.
Qed.

(** What an announce can be answered with. *)
Lemma answer_safe now now' req st resp st' :
  reachable cfg st → HandleAnnouncePeer cfg now now' req st = (resp, st') →
  (resp = Err "invalid address"%string ∧ st' = st) ∨
  ∃ ps, resp = Ok ps ∧ Z.of_nat (length ps) ≤ Z.max 0 (req_NumWant req) ∧
    ∀ p, p ∈ ps → ∃ r x,
      sm_Load (req_InfoHash req) (infoHashMap st) = Some r ∧ (GetKey x, p) ∈ entries (root_at st r) ∧
      peers st !! p = Some x ∧ GetKey x ≠ req_PeerID req ∧
      IsPeerConnectable (UseAnnounceIP (Tracker cfg)) x = true ∧ live cfg now' x = true ∧
      Event x ≠ PeerEvent_Stopped ∧ Type_ x = req_Type req.
Proof.
  intros Hok%reachable_ok Hh. pose proof (announce_cases now now' req st) as Hc. rewrite Hh in Hc.
  destruct Hc as [[_ [= -> ->]]|[Hc|(r & Hih & Hc)]]; [by left|right..]; simpl in Hc; subst resp.
  { exists []. split_and!; [done|simpl; lia|]. intros p Hp. by apply not_elem_of_nil in Hp. }
  eexists. split; [done|]. split; [unfold selected; rewrite length_take; lia|].
  intros p [Hel [k Hk]]%selected_elem.
  destruct (ok_map cfg st Hok _ _ Hih) as (i & Hi & _).
  destruct (entries_lookup (peers st) (root_at st r) k p) as (y & Hy & Hid & _ & Hg);
    [apply root_at_ok; [done|by eapply lookup_lt_Some]|done|].
  apply eligible_spec in Hel as (y' & Hy' & ? & ? & _ & ? & ?).
  rewrite (lookup_app_l_Some _ _ _ _ Hy) in Hy'. injection Hy' as <-. exists r, y. subst k.
  split_and!; try done. by rewrite sm_Load_ret.
Qed.

(** C6: In every reachable state an announce either fails with "invalid address"
    and changes nothing, or answers with at most [numWant] peers, each of them an
    entry of the torrent asked about, filed under its own id, that is not the
    caller, connectable, not expired, not stopped and of the caller's type. *)
Theorem announce_answer_safe now now' req st resp st' :
  reachable cfg st → HandleAnnouncePeer cfg now now' req st = (resp, st') →
  (resp = Err "invalid address"%string ∧ st' = st) ∨
  ∃ ps, resp = Ok ps ∧ Z.of_nat (length ps) ≤ Z.max 0 (req_NumWant req) ∧
    ∀ p, p ∈ ps → ∃ r x,
      sm_Load (req_InfoHash req) (infoHashMap st) = Some r ∧ (GetKey x, p) ∈ entries (root_at st r) ∧
      peers st !! p = Some x ∧ GetKey x ≠ req_PeerID req ∧
      IsPeerConnectable (UseAnnounceIP (Tracker cfg)) x = true ∧ live cfg now' x = true ∧
      Event x ≠ PeerEvent_Stopped ∧ Type_ x = req_Type req.
Proof. apply answer_safe. Qed.
End Spec.

(** A third peer asks for one, and for fifty, of the two peers of [run_state]. *)
Lemma announce_answer_witness :
  (HandleAnnouncePeer (sample_cfg 400) sample_time sample_time
     (sample_request "C" "T" "started" Byte.x03 7 50) run_state).1 = Ok [0; 1]%nat ∧
  (HandleAnnouncePeer (sample_cfg 400) sample_time sample_time
     (sample_request "C" "T" "started" Byte.x03 7 1) run_state).1 = Ok [0]%nat.
Proof.
  split.
  - rewrite (announce_answer (sample_cfg 400) sample_time sample_time
      (sample_request "C" "T" "started" Byte.x03 7 50) run_state 0); [vm_compute; reflexivity..|discriminate|reflexivity].
  - rewrite (announce_answer (sample_cfg 400) sample_time sample_time
      (sample_request "C" "T" "started" Byte.x03 7 1) run_state 0); [vm_compute; reflexivity..|discriminate|reflexivity].
Defined.

Lemma announce_answer_safe_witness :
  ∃ ps : list nat, Ok [0; 1]%nat = Ok ps ∧ Z.of_nat (length ps) ≤ 50 ∧
    ∀ p, p ∈ ps → ∃ x, (GetKey x, p) ∈ entries (root_at run_state 0) ∧ peers run_state !! p = Some x ∧
      GetKey x ≠ "C"%string ∧ live (sample_cfg 400) sample_time x = true.
Proof.
  destruct (announce_answer_safe (sample_cfg 400) sample_time sample_time
    (sample_request "C" "T" "started" Byte.x03 7 50) run_state
    (HandleAnnouncePeer (sample_cfg 400) sample_time sample_time
       (sample_request "C" "T" "started" Byte.x03 7 50) run_state).1
    (HandleAnnouncePeer (sample_cfg 400) sample_time sample_time
       (sample_request "C" "T" "started" Byte.x03 7 50) run_state).2
    run_state_reachable) as [[Hr _]|(ps & Hr & Hl & Hp)].
  - apply surjective_pairing.
  - vm_compute in Hr. discriminate Hr.
  - exists ps. split; [|split].
    + rewrite <- Hr. vm_compute. reflexivity.
    + etransitivity; [exact Hl|]. vm_compute. discriminate.
    + intros p Hin. destruct (Hp p Hin) as (r & x & Hr0 & He & H1 & H2 & H3 & H4 & _). exists x.
      vm_compute in Hr0. injection Hr0 as <-. split; [exact He|]. split; [exact H1|].
      split; [exact H2|exact H4].
Defined.
