(* ===== verification/LocalScrape.v ===== *)
(** Scrape counters and the removal of expired peers. *)
From Stdlib Require Import ZArith Lia Bool Strings.String.
From stdpp Require Import base strings list gmap fin_maps relations.
From S2P Require Import Prelude GoStd Config Model Common Samples Mapx Local LocalInv LocalSafety LocalSpec.
Set Default Proof Using "Type*".
Local Open Scope Z_scope.

(** How many elements of [l] satisfy [f]. *)
Definition count {A} (f : A → bool) (l : list A) : Z := Z.of_nat (length (List.filter f l)).

Lemma count_cons {A} (f : A → bool) x l : count f (x :: l) = (if f x then 1 else 0) + count f l.
Proof. unfold count. simpl. destruct (f x); simpl; lia. Qed.

Lemma count_nil {A} (f : A → bool) : count f [] = 0.
Proof. done. Qed.

Lemma count_le {A} (f g : A → bool) l : (∀ x, f x = true → g x = true) → count f l ≤ count g l.
Proof.
  intros Hfg. induction l as [|x l IH]; [done|]. rewrite !count_cons.
  destruct (f x) eqn:Hf; [rewrite (Hfg x Hf); lia|]. destruct (g x); lia.
Qed.

Lemma count_negb {A} (f : A → bool) l : count f l + count (fun x => negb (f x)) l = Z.of_nat (length l).
Proof.
  induction l as [|x l IH]; [done|]. rewrite !count_cons. simpl length. destruct (f x); cbn [negb]; lia.
Qed.

Section Scrape.
Context `{SyncStringMapLaws M}.
Context (cfg : Config).
Implicit Types (st : State M) (i : InfoHashRoot M) (h : list Peer).

(** The peers of a list of entries, and those of a torrent that have not
    expired. *)
Fixpoint values h (l : list (string * nat)) : list Peer :=
  match l with
  | [] => []
  | (_, p) :: l => match h !! p with Some x => x :: values h l | None => values h l end
  end.
Definition live_peers h (now : Z) i : list Peer := List.filter (live cfg now) (values h (entries i)).
Definition entry_expired h (now : Z) (e : string * nat) : bool :=
  match h !! e.2 with Some x => negb (live cfg now x) | None => false end.

Definition is_complete (x : Peer) : bool := (Left x =? 0) || (Event x =? PeerEvent_Completed).
Definition is_seeder (x : Peer) : bool := (Left x =? 0) && negb (Event x =? PeerEvent_Stopped).

Definition add_counts (f : ScrapeFile) (l : list Peer) : ScrapeFile :=
  mkScrapeFile (Seeder f + count is_seeder l) (Complete f + count is_complete l)
    (Incomplete f + count (fun x => negb (is_complete x)) l)
    (Model.Downloaded f + count (fun x => Left x =? 0) l).

Lemma values_elem h l x : x ∈ values h l ↔ ∃ k p, (k, p) ∈ l ∧ h !! p = Some x.
Proof.
  induction l as [|[k p] l IH]; simpl.
  - split; [by intros ?%not_elem_of_nil|]. by intros (? & ? & ?%not_elem_of_nil & _).
  - assert ((∃ k' p', (k', p') ∈ (k, p) :: l ∧ h !! p' = Some x)
      ↔ h !! p = Some x ∨ ∃ k' p', (k', p') ∈ l ∧ h !! p' = Some x) as ->.
    { split.
      - intros (k' & p' & [Heq|Hin]%elem_of_cons & Hx); [injection Heq as -> ->; by left|right; eauto].
      - intros [Hx|(k' & p' & Hin & Hx)]; [exists k, p|exists k', p']; (split; [|done]);
          apply elem_of_cons; auto. }
    rewrite <- IH. destruct (h !! p) as [y|].
    + rewrite elem_of_cons. split; (intros [Hx|?]; [left; congruence|by right]).
    + split; [by right|]. by intros [?|?].
Qed.

Lemma scrape_fold h now l f ex :
  fold_left (fun a e => (scrape_visit h (expire_time cfg now) a e.1 e.2).1) l (f, ex)
  = (add_counts f (List.filter (live cfg now) (values h l)),
     ex ++ (List.filter (entry_expired h now) l).*1).
Proof.
  revert f ex. induction l as [|[k p] l IH]; intros f ex; simpl.
  - unfold add_counts, count. destruct f. simpl. rewrite app_nil_r, !Z.add_0_r. done.
  - unfold entry_expired at 1. simpl. destruct (h !! p) as [x|]; simpl; [|apply IH].
    assert (After (expire_time cfg now) (LastSeen x) = negb (live cfg now x)) as ->
      by (unfold live; by rewrite negb_involutive).
    destruct (live cfg now x); cbn [negb]; [|simpl; rewrite IH; by rewrite <- app_assoc].
    { assert (add_counts f (x :: List.filter (live cfg now) (values h l))
        = add_counts (add_counts f [x]) (List.filter (live cfg now) (values h l))) as ->.
      { unfold add_counts. simpl. rewrite !count_cons, !count_nil. f_equal; lia. }
      assert ((if Left x =? 0 then
         (mkScrapeFile (if negb (Event x =? PeerEvent_Stopped) then Seeder f + 1 else Seeder f)
            (Complete f + 1) (Incomplete f) (Model.Downloaded f + 1), ex, true)
       else if Event x =? PeerEvent_Completed then
         (mkScrapeFile (Seeder f) (Complete f + 1) (Incomplete f) (Model.Downloaded f), ex, true)
       else (mkScrapeFile (Seeder f) (Complete f) (Incomplete f + 1) (Model.Downloaded f), ex, true))
       = (add_counts f [x], ex, true)) as ->; [|apply IH].
      unfold add_counts, is_seeder, is_complete. rewrite !count_cons, !count_nil.
      destruct (Left x =? 0), (Event x =? PeerEvent_Completed), (Event x =? PeerEvent_Stopped); simpl;
        repeat f_equal; lia. }
Qed.

Lemma expired_elem h now l k :
  k ∈ (List.filter (entry_expired h now) l).*1
  ↔ ∃ p x, (k, p) ∈ l ∧ h !! p = Some x ∧ live cfg now x = false.
Proof.
  rewrite list_elem_of_fmap. setoid_rewrite list_elem_of_In. setoid_rewrite filter_In.
  setoid_rewrite <- list_elem_of_In. unfold entry_expired. split.
  - intros ([k' p] & -> & Hin & He). simpl in *. destruct (h !! p) as [x|] eqn:Hp; [|done].
    exists p, x. by rewrite negb_true_iff in He.
  - intros (p & x & Hin & Hp & Hl). exists (k, p). simpl. by rewrite Hp, Hl.
Qed.

Lemma scrape_visit_continue h t acc k p : (scrape_visit h t acc k p).2 = true.
Proof. unfold scrape_visit. destruct acc. by repeat case_match. Qed.

(** What a scrape of a torrent that is not answered from the cache does. *)
Lemma Scrape_eq now cached ih st r :
  sm_Load ih (infoHashMap st) = Some r → redis_Enable (Cache cfg) = false ∨ cached = None →
  let ret := add_counts zeroScrape (live_peers (peers st) now (root_at st r)) in
  let expired := (List.filter (entry_expired (peers st) now) (entries (root_at st r))).*1 in
  Scrape cfg now cached ih st
  = (ret, if (0 <? length expired)%nat then spawn (TaskExpire r expired) st else st,
     if redis_Enable (Cache cfg) then Some ret else None).
Proof.
  intros Hr Hc ret expired. unfold Scrape. rewrite Hr.
  assert ((if redis_Enable (Cache cfg) then cached else None) = None) as -> by (destruct Hc as [->| ->]; by destruct (redis_Enable (Cache cfg))).
  rewrite root_Range_continue by apply scrape_visit_continue. by rewrite scrape_fold.
Qed.

(** C21: A scrape counts each unexpired entry once, as complete or incomplete;
    complete are those with nothing left or whose last event was "completed",
    downloaded those with nothing left, seeder those of them not stopped.  In
    a reachable state no stored peer has stopped, so the seeders are the
    downloaded.  The keys of the expired entries are queued for removal, and a
    torrent the store does not have gives zeros. *)
Theorem Scrape_counts now cached ih st :
  reachable cfg st → redis_Enable (Cache cfg) = false ∨ cached = None →
  let f := (Scrape cfg now cached ih st).1.1 in
  let st' := (Scrape cfg now cached ih st).1.2 in
  match sm_Load ih (infoHashMap st) with
  | None => f = zeroScrape ∧ st' = st
  | Some r =>
      let l := live_peers (peers st) now (root_at st r) in
      Complete f = count is_complete l ∧ Complete f + Incomplete f = Z.of_nat (length l) ∧
      Model.Downloaded f = count (fun x => Left x =? 0) l ∧ Seeder f = Model.Downloaded f ∧
      Model.Downloaded f ≤ Complete f ∧
      (∀ k, (∃ ks, tasks st' = tasks st ++ [TaskExpire r ks] ∧ k ∈ ks) ↔
            ∃ p x, (k, p) ∈ entries (root_at st r) ∧ peers st !! p = Some x ∧ live cfg now x = false)
  end.
Proof.
  intros Hok%reachable_ok Hc. destruct (sm_Load ih (infoHashMap st)) as [r|] eqn:Hr; cbv zeta.
  2: { unfold Scrape. by rewrite Hr. }
  rewrite (Scrape_eq now cached ih st r Hr Hc). set (l := live_peers _ _ _). cbn [fst snd].
  assert (Forall (fun x => Event x ≠ PeerEvent_Stopped) l) as Hl.
  { apply Forall_forall. intros x Hx. apply list_elem_of_In, filter_In in Hx as [Hx _].
    apply list_elem_of_In, values_elem in Hx as (k & p & Hk & Hx). rewrite sm_Load_ret in Hr.
    destruct (ok_map cfg st Hok _ _ Hr) as (i & Hi & _).
    destruct (entries_lookup cfg (peers st) (root_at st r) k p) as (y & Hy & _ & He & _);
      [apply root_at_ok; [done|by eapply lookup_lt_Some]|done|]. congruence. }
  split_and!; simpl; rewrite ?Z.add_0_l; [done|apply count_negb|done| | |].
  - clearbody l. induction Hl as [|x l0 Hx _ IH]; [done|]. rewrite !count_cons. unfold is_seeder at 1.
    rewrite (proj2 (Z.eqb_neq _ _) Hx), andb_true_r. lia.
  - apply count_le. intros x Hx. unfold is_complete. by rewrite Hx.
  - intros k. set (ex := (List.filter _ _).*1).
    assert (k ∈ ex ↔ ∃ p x, (k, p) ∈ entries (root_at st r) ∧ peers st !! p = Some x ∧ live cfg now x = false) as <-
      by apply expired_elem.
    destruct ex as [|k0 ex]; simpl.
    + split; [|by intros ?%not_elem_of_nil]. intros (ks & Hks & _).
      apply (f_equal length) in Hks. rewrite length_app in Hks. simpl in Hks. lia.
    + split; [|by eauto]. intros (ks & Hks & Hk). apply app_inv_head in Hks. by injection Hks as <-.
Qed.
End Scrape.

(** The two seeding peers of [run_state]; a thousand seconds later both have
    expired. *)
Lemma Scrape_counts_witness :
  Complete (Scrape (sample_cfg 400) sample_time None "T" run_state).1.1 = 2 ∧
  Incomplete (Scrape (sample_cfg 400) sample_time None "T" run_state).1.1 = 0 ∧
  ∃ ks, tasks (Scrape (sample_cfg 400) (sample_time + 1000 * Second) None "T" run_state).1.2
        = tasks run_state ++ [TaskExpire 0 ks] ∧ "A"%string ∈ ks.
Proof.
  assert (sm_Load "T" (infoHashMap run_state) = Some 0%nat) as Hr by (vm_compute; reflexivity).
  pose proof (Scrape_counts (sample_cfg 400) sample_time None "T" run_state run_state_reachable (or_intror eq_refl)) as H1.
  pose proof (Scrape_counts (sample_cfg 400) (sample_time + 1000 * Second) None "T" run_state
    run_state_reachable (or_intror eq_refl)) as H3.
  cbv zeta in H1, H3. rewrite Hr in H1, H3.
  destruct H1 as (H1 & H2 & _). destruct H3 as (_ & _ & _ & _ & _ & H3).
  assert (Complete (Scrape (sample_cfg 400) sample_time None "T" run_state).1.1 = 2) as E.
  { etransitivity; [exact H1|]. vm_compute. reflexivity. }
  split; [exact E|]. split.
  - rewrite E in H2. apply (Z.add_reg_l 2 _ 0). etransitivity; [exact H2|]. vm_compute. reflexivity.
  - apply H3. exists 0%nat, (sample_peer "A" Byte.x01 PeerEvent_Started 0 sample_time).
    split; [vm_compute; left|]. split; vm_compute; reflexivity.
Defined.
