(* ===== verification/LocalTable.v ===== *)
(** A torrent's three maps seen as one table of peers, and the announce as an
    update of that table. *)
From Stdlib Require Import ZArith Lia Bool Strings.String.
From stdpp Require Import base strings list gmap fin_maps relations.
From S2P Require Import Prelude GoStd Config Model Common Samples Mapx Local LocalInv LocalSafety LocalSpec.
Set Default Proof Using "Type*".
Local Open Scope Z_scope.

(** ** The abstract tracker: a torrent is a table of peers *)
Definition upsert (u : bool) (x : Peer) (t : gmap string Peer) : gmap string Peer :=
  match t !! GetKey x with
  | Some k => <[GetKey x := update_peer x k]> t
  | None => if IsPeerConnectable u x then <[GetKey x := x]> t else t
  end.
Definition spec_announce (u : bool) (x : Peer) (t : gmap string Peer) : gmap string Peer :=
  if Event x =? PeerEvent_Stopped then delete (GetKey x) t else upsert u x t.

Section Views.
Context `{SyncStringMapLaws M}.
Implicit Types (st : State M) (i : InfoHashRoot M) (h : list Peer) (ms : list (M nat)).

Definition views ms : gmap string nat := ⋃ (map (fun pm => sm_view pm) ms).
Definition contents i : gmap string nat := views (peerMap i).
Definition table h i : gmap string Peer := omap (fun p => h !! p) (contents i).

(** No key is in two of the maps. *)
Definition separated_maps ms : Prop :=
  ∀ a b pma pmb k, ms !! a = Some pma → ms !! b = Some pmb →
    is_Some (sm_view pma !! k) → is_Some (sm_view pmb !! k) → a = b.
Definition separated i : Prop := separated_maps (peerMap i).

Lemma views_None ms k : views ms !! k = None ↔ ∀ pm, pm ∈ ms → sm_view pm !! k = None.
Proof.
  unfold views. induction ms as [|pm ms IH]; simpl.
  - rewrite lookup_empty. split; [|done]. intros _ pm Hpm. by apply not_elem_of_nil in Hpm.
  - rewrite lookup_union_None, IH. setoid_rewrite elem_of_cons. naive_solver.
Qed.

Lemma views_Some ms k p : views ms !! k = Some p → ∃ pm, pm ∈ ms ∧ sm_view pm !! k = Some p.
Proof.
  unfold views. induction ms as [|pm ms IH]; simpl; [by rewrite lookup_empty|].
  intros [Hk|[_ Hk]]%lookup_union_Some_raw.
  - exists pm. split; [left|done].
  - destruct (IH Hk) as (pm' & ? & ?). exists pm'. split; [by right|done].
Qed.

Lemma views_Some_sep ms k p pm :
  separated_maps ms → pm ∈ ms → sm_view pm !! k = Some p → views ms !! k = Some p.
Proof.
  intros Hs Hpm Hk. destruct (views ms !! k) as [q|] eqn:Hq.
  - apply views_Some in Hq as (pm' & Hpm' & Hq).
    apply list_elem_of_lookup in Hpm as [a Ha]. apply list_elem_of_lookup in Hpm' as [b Hb].
    assert (a = b) as -> by (eapply (Hs a b pm pm' k); eauto). congruence.
  - rewrite views_None in Hq. specialize (Hq pm Hpm). congruence.
Qed.

Lemma views_delete (f : M nat → M nat) key ms :
  (∀ pm, sm_view (f pm) = delete key (sm_view pm)) → views (map f ms) = delete key (views ms).
Proof.
  intros Hf. unfold views. induction ms as [|pm ms IH]; simpl; [by rewrite delete_empty|].
  by rewrite Hf, IH, delete_union.
Qed.

Lemma views_insert ms n pm pm' key p :
  ms !! n = Some pm → sm_view pm' = <[key := p]> (sm_view pm) → views ms !! key = None →
  views (<[n := pm']> ms) = <[key := p]> (views ms).
Proof.
  intros Hn Hv. revert n Hn. unfold views. induction ms as [|pm0 ms IH]; intros [|n] Hn Hk; simpl in *; try done.
  - injection Hn as ->. by rewrite Hv, insert_union_l.
  - apply lookup_union_None in Hk as [Hk1 Hk2]. rewrite IH by done. by rewrite insert_union_r.
Qed.

Lemma separated_subset ms ms' :
  separated_maps ms → Forall2 (fun pm pm' => sm_view pm' ⊆ sm_view pm) ms ms' → separated_maps ms'.
Proof.
  intros Hs Hms a b pma pmb k Ha Hb [pa Hka] [pb Hkb].
  destruct (Forall2_lookup_r _ _ _ _ _ Hms Ha) as (pma' & Ha' & Hsa).
  destruct (Forall2_lookup_r _ _ _ _ _ Hms Hb) as (pmb' & Hb' & Hsb).
  apply (Hs a b pma' pmb' k Ha' Hb').
  - exists pa. by apply (lookup_weaken _ _ _ _ Hka).
  - exists pb. by apply (lookup_weaken _ _ _ _ Hkb).
Qed.

Lemma separated_insert ms n pm pm' key p :
  separated_maps ms → ms !! n = Some pm → sm_view pm' = <[key := p]> (sm_view pm) →
  views ms !! key = None → separated_maps (<[n := pm']> ms).
Proof.
  intros Hs Hn Hv Hk a b pma pmb k Ha Hb Hka Hkb. rewrite views_None in Hk.
  assert (∀ c pmc, <[n := pm']> ms !! c = Some pmc → is_Some (sm_view pmc !! k) →
    ∃ pmc', ms !! c = Some pmc' ∧ (is_Some (sm_view pmc' !! k) ∨ (k = key ∧ c = n))) as Hold.
  { intros c pmc Hc Hkc. destruct (decide (c = n)) as [->|Hne].
    - exists pm. split; [done|]. rewrite list_lookup_insert_eq in Hc by (by eapply lookup_lt_Some).
      injection Hc as <-. rewrite Hv in Hkc. apply lookup_insert_is_Some in Hkc as [<-|[_ ?]]; auto.
    - rewrite list_lookup_insert_ne in Hc by done. eauto. }
  destruct (Hold a pma Ha Hka) as (pma' & Ha' & [Hka'|[-> ->]]), (Hold b pmb Hb Hkb) as (pmb' & Hb' & [Hkb'|[E ->]]).
  - by eapply (Hs a b pma' pmb' k).
  - subst k. apply list_elem_of_lookup_2 in Ha'. rewrite (Hk _ Ha') in Hka'. by destruct Hka'.
  - apply list_elem_of_lookup_2 in Hb'. rewrite (Hk _ Hb') in Hkb'. by destruct Hkb'.
  - done.
Qed.
End Views.

Section Operations.
Context `{SyncStringMapLaws M}.
Context (cfg : Config).
Implicit Types (st : State M) (i : InfoHashRoot M) (h : list Peer) (ms : list (M nat)).

Lemma table_lookup h i k : table h i !! k = contents i !! k ≫= fun p => h !! p.
Proof. apply lookup_omap. Qed.

Lemma table_change h h' i i' :
  contents i' = contents i → (∀ k p, contents i !! k = Some p → h' !! p = h !! p) →
  table h' i' = table h i.
Proof.
  intros Hc Hp. apply map_eq. intros k. rewrite !table_lookup, Hc.
  destruct (contents i !! k) eqn:E; [|done]. simpl. eauto.
Qed.

(** *** One torrent's operations on its table *)
Lemma contents_LoadAndDelete h key i :
  contents (LoadAndDelete h key i).2 = delete key (contents i).
Proof.
  unfold contents, LoadAndDelete. simpl. rewrite map_map. apply views_delete.
  intros pm. apply sm_LoadAndDelete_view.
Qed.

Lemma separated_LoadAndDelete h key i : separated i → separated (LoadAndDelete h key i).2.
Proof.
  intros Hs. eapply separated_subset; [exact Hs|]. simpl. rewrite map_map.
  apply Forall2_fmap_r, Forall_Forall2_diag, Forall_true. intros pm.
  change (sm_view (sm_LoadAndDelete key pm).2 ⊆ sm_view pm).
  rewrite sm_LoadAndDelete_view. apply delete_subseteq.
Qed.

Lemma newer_fold_None h l : fold_left (newer h) l None = None → l = [].
Proof.
  destruct l as [|v l]; [done|]. simpl.
  assert (∀ l f, fold_left (newer h) l (Some f) ≠ None) as Hsome.
  { clear. induction l as [|v l IH]; intros f; simpl; [done|]. destruct (After _ _); apply IH. }
  intros Hf. by apply Hsome in Hf.
Qed.

Lemma LoadAndDelete_found h key i : separated i → (LoadAndDelete h key i).1 = contents i !! key.
Proof.
  intros Hs. simpl. set (l := omap _ _).
  assert (∀ v, v ∈ l ↔ ∃ pm, pm ∈ peerMap i ∧ sm_view pm !! key = Some v) as Hl.
  { intros v. unfold l. rewrite list_elem_of_omap. split.
    - intros (res & Hres & Hv). apply list_elem_of_In, in_map_iff in Hres as (pm & <- & Hpm).
      exists pm. split; [by apply list_elem_of_In|]. by rewrite <- sm_LoadAndDelete_ret.
    - intros (pm & Hpm & Hv). exists (sm_LoadAndDelete key pm). rewrite sm_LoadAndDelete_ret. split; [|done].
      apply list_elem_of_In, in_map, list_elem_of_In, Hpm. }
  destruct (fold_left (newer h) l None) as [v|] eqn:E.
  - apply newer_fold in E as [E|]; [|done]. apply Hl in E as (pm & Hpm & Hv). symmetry.
    by eapply views_Some_sep.
  - apply newer_fold_None in E. symmetry. apply views_None. intros pm Hpm.
    destruct (sm_view pm !! key) as [v|] eqn:Hv; [|done].
    assert (v ∈ l) as Hin by (apply Hl; eauto). rewrite E in Hin. by apply not_elem_of_nil in Hin.
Qed.

Lemma contents_LoadOrStore h key p i :
  root_ok cfg h i → separated i → contents i !! key = None →
  contents (LoadOrStore key p i).2 = <[key := p]> (contents i) ∧ separated (LoadOrStore key p i).2.
Proof.
  intros Hi Hs Hk. pose proof (active_lookup _ _ _ Hi) as Ha. unfold LoadOrStore.
  pose proof (sm_LoadOrStore_view key p (active_map i)) as Hv.
  rewrite (proj1 (views_None _ _) Hk _ (list_elem_of_lookup_2 _ _ _ Ha)) in Hv.
  destruct (sm_LoadOrStore key p (active_map i)) as [res pm]. simpl in *.
  split; [by eapply views_insert|by eapply separated_insert].
Qed.

Lemma contents_Store h key p i :
  root_ok cfg h i → separated i → contents i !! key = None →
  contents (Store key p i) = <[key := p]> (contents i) ∧ separated (Store key p i).
Proof.
  intros Hi Hs Hk. pose proof (active_lookup _ _ _ Hi) as Ha.
  pose proof (sm_Store_view key p (active_map i)) as Hv.
  split; [by eapply views_insert|by eapply separated_insert].
Qed.

Lemma contents_new ih now : contents (NewInfoHashRoot (M := M) ih now) = ∅.
Proof. unfold contents, views. simpl. rewrite sm_view_new. by rewrite !(left_id_L ∅ (∪)). Qed.

Lemma separated_new ih now : separated (NewInfoHashRoot (M := M) ih now).
Proof.
  intros a b pma pmb k Ha Hb [p Hp] _. exfalso.
  assert (sm_view pma = ∅) as E; [|by rewrite E, lookup_empty in Hp].
  destruct a as [|[|[|a]]]; simpl in Ha; try discriminate; injection Ha as <-; apply sm_view_new.
Qed.

(** An entry's key is its peer's id, so at most one key leads to a peer. *)
Lemma contents_entry h i k p : root_ok cfg h i → contents i !! k = Some p → entry_ok cfg h k p.
Proof.
  intros Hi (pm & Hpm & Hk)%views_Some.
  exact (proj1 (Forall_forall _ _) (root_entries _ _ _ Hi) pm Hpm k p Hk).
Qed.

Lemma contents_inj h i k k' p :
  root_ok cfg h i → contents i !! k = Some p → contents i !! k' = Some p → k = k'.
Proof.
  intros Hi Hk Hk'. destruct (contents_entry _ _ _ _ Hi Hk) as (x & Hx & <- & _).
  destruct (contents_entry _ _ _ _ Hi Hk') as (x' & Hx' & <- & _). congruence.
Qed.
End Operations.

Section Refine.
Context `{SyncStringMapLaws M}.
Context (cfg : Config).
Let u := UseAnnounceIP (Tracker cfg).
Implicit Types (st : State M) (i : InfoHashRoot M) (h : list Peer).

Lemma root_at_put r i st : (r < length (roots st))%nat → root_at (put_root r i st) r = i.
Proof. intros Hr. unfold root_at. simpl. by rewrite list_lookup_insert_eq. Qed.

Lemma run_all_cons n now st t ts :
  tasks st = t :: ts → run_all cfg (S n) now st = run_all cfg n now (run_task cfg now t (set_tasks ts st)).
Proof. intros Ht. simpl. rewrite Ht. unfold run_next. by rewrite Ht. Qed.

Lemma run_all_done n now st : tasks st = [] → run_all cfg n now st = st.
Proof. intros Ht. destruct n; simpl; [done|]. by rewrite Ht. Qed.

(** Sending an event changes nothing but the events sent. *)
Lemma run_all_send n now st ih p ts :
  tasks st = TaskSend ih p :: ts →
  ∃ es, run_all cfg (S n) now st = run_all cfg n now (set_sent es (set_tasks ts st)).
Proof.
  intros Ht. rewrite (run_all_cons _ _ _ _ _ Ht). simpl. destruct (peers st !! p).
  - by eexists.
  - exists (sent st). by destruct st.
Qed.

(** What the announce goroutine, run to its end, leaves of torrent [r]. *)
Definition announced (x : Peer) (t : gmap string Peer) r st st' : Prop :=
  tasks st' = [] ∧ separated (root_at st' r) ∧
  table (peers st') (root_at st' r) = upsert u x t ∧ infoHashMap st' = infoHashMap st.

(** Taking an entry out, changing its record and filing it again. *)
Lemma table_restore h i key k x y :
  root_ok cfg h i → separated i → contents i !! key = Some k → h !! k = Some y →
  Event x ≠ PeerEvent_Stopped →
  let h' := alter (update_peer x) k h in
  let i' := Store key k (LoadAndDelete h key i).2 in
  table h' i' = <[key := update_peer x y]> (table h i) ∧ separated i'.
Proof.
  intros Hi Hs Hk Hy He h' i'.
  assert (root_ok cfg h' (LoadAndDelete h key i).2) as Hi1.
  { eapply root_ok_le; [|by apply root_ok_LoadAndDelete]. apply heap_le_alter.
    intros z _. by apply update_peer_le. }
  destruct (contents_Store cfg h' key k _ Hi1) as [Hc Hs'].
  { by apply separated_LoadAndDelete. }
  { rewrite contents_LoadAndDelete. apply lookup_delete_eq. }
  split; [|done]. apply map_eq. intros k'. rewrite table_lookup. unfold i'. rewrite Hc, contents_LoadAndDelete.
  destruct (decide (key = k')) as [<-|Hne].
  - rewrite !lookup_insert_eq. simpl. unfold h'. by rewrite list_lookup_alter_eq, Hy.
  - rewrite !lookup_insert_ne, lookup_delete_ne, table_lookup by done.
    destruct (contents i !! k') as [q|] eqn:Hq; [|done]. simpl.
    unfold h'. rewrite list_lookup_alter_ne; [done|]. intros <-.
    by apply Hne, (contents_inj cfg h i _ _ k).
Qed.

Lemma run_store n now r p st x ts :
  tasks st = TaskStore r p :: ts → peers st !! p = Some x →
  run_all cfg (S n) now st
  = run_all cfg n now (put_root r (Store (GetKey x) p (root_at st r)) (set_tasks ts st)).
Proof. intros Ht Hx. rewrite (run_all_cons _ _ _ _ _ Ht). simpl. by rewrite Hx. Qed.

Lemma run_insert n now r p ih st x ts :
  tasks st = TaskInsert r p ih :: ts → peers st !! p = Some x →
  run_all cfg (S n) now st
  = run_all cfg n now
      (spawn (TaskSend ih p) (put_root r (LoadOrStore (GetKey x) p (root_at st r)).2 (set_tasks ts st))).
Proof. intros Ht Hx. rewrite (run_all_cons _ _ _ _ _ Ht). simpl. by rewrite Hx. Qed.

(** The first step of the goroutine. *)
Lemma run_announce_step n now r p ih st x :
  tasks st = [TaskAnnounce r p ih] → peers st !! p = Some x → separated (root_at st r) →
  let i := root_at st r in
  let st1 := put_root r (LoadAndDelete (peers st) (GetKey x) i).2 (set_tasks [] st) in
  run_all cfg (S n) now st = run_all cfg n now
    match contents i !! GetKey x with
    | Some k =>
        match peers st !! k with
        | None => st1
        | Some y =>
            spawn (TaskStore r k) (set_peers (alter (update_peer x) k (peers st))
              (if (negb (Left y =? 0) && (Left x =? 0)) || negb (Event y =? Event x)
               then spawn (TaskSend ih p) st1 else st1))
        end
    | None => if IsPeerConnectable u x then spawn (TaskInsert r p ih) st1 else st1
    end.
Proof.
  intros Ht Hx Hs i st1. rewrite (run_all_cons _ _ _ _ _ Ht). cbn [run_task peers set_tasks]. rewrite Hx.
  pose proof (LoadAndDelete_found (peers st) (GetKey x) i Hs) as Hf.
  unfold root_LoadAndDelete. change (root_at (set_tasks [] st) r) with i. cbn [peers set_tasks].
  rewrite (surjective_pairing (LoadAndDelete (peers st) (GetKey x) i)), Hf.
  destruct (contents i !! GetKey x) as [k|]; [|done].
  change (peers (put_root r _ _)) with (peers st). destruct (peers st !! k); [|done]. by destruct (_ || _).
Qed.

Lemma root_at_frame st st' r : roots st' = roots st → root_at st' r = root_at st r.
Proof. unfold root_at. by intros ->. Qed.

Lemma run_known now r p k ih st x y :
  state_ok cfg st → (r < length (roots st))%nat → peers st !! p = Some x → Event x ≠ PeerEvent_Stopped →
  separated (root_at st r) → tasks st = [TaskAnnounce r p ih] →
  contents (root_at st r) !! GetKey x = Some k → peers st !! k = Some y →
  announced x (table (peers st) (root_at st r)) r st (run_all cfg 4 now st).
Proof.
  intros Hok Hr Hx He Hs Ht Hk Hy. set (i := root_at st r) in *.
  assert (root_ok cfg (peers st) i) as Hi by by apply root_at_ok.
  destruct (contents_entry _ _ _ _ _ Hi Hk) as (y' & Hy' & Hid & _). assert (y' = y) as -> by congruence.
  destruct (table_restore (peers st) i (GetKey x) k x y Hi Hs Hk Hy He) as [Htab Hsep].
  set (i1 := (LoadAndDelete (peers st) (GetKey x) i).2) in *.
  set (h1 := alter (update_peer x) k (peers st)) in *.
  rewrite (run_announce_step _ _ _ _ _ _ _ Ht Hx Hs). fold i. rewrite Hk, Hy. cbv zeta. fold i1 h1.
  set (st1 := put_root r i1 (set_tasks [] st)).
  assert (∀ n st2, tasks st2 = [TaskStore r k] → peers st2 = h1 → roots st2 = roots st1 →
    infoHashMap st2 = infoHashMap st →
    announced x (table (peers st) i) r st (run_all cfg (S n) now st2)) as Hfin.
  { intros n st2 Ht2 Hp2 Hr2 Hm2.
    assert (peers st2 !! k = Some (update_peer x y)) as Hk2.
    { rewrite Hp2. unfold h1. by rewrite list_lookup_alter_eq, Hy. }
    rewrite (run_store _ _ _ _ _ _ _ Ht2 Hk2), run_all_done by done.
    change (GetKey (update_peer x y)) with (ID y). rewrite Hid, (root_at_frame st1 _ _ Hr2).
    unfold st1. rewrite root_at_put by done. unfold announced.
    rewrite root_at_put by (simpl; rewrite Hr2; simpl; by rewrite length_insert).
    simpl. rewrite Hp2, Htab. split_and!; [done|done| |done].
    unfold upsert. rewrite table_lookup, Hk. simpl. by rewrite Hy. }
  destruct (_ || _); [|by apply (Hfin 2%nat)].
  edestruct (run_all_send 2 now) as [es ->]; [reflexivity|]. by apply (Hfin 1%nat).
Qed.

Lemma run_unknown now r p ih st x :
  state_ok cfg st → (r < length (roots st))%nat → peers st !! p = Some x → Event x ≠ PeerEvent_Stopped →
  separated (root_at st r) → tasks st = [TaskAnnounce r p ih] →
  contents (root_at st r) !! GetKey x = None →
  announced x (table (peers st) (root_at st r)) r st (run_all cfg 4 now st).
Proof.
  intros Hok Hr Hx He Hs Ht Hk. set (i := root_at st r) in *.
  assert (root_ok cfg (peers st) i) as Hi by by apply root_at_ok.
  rewrite (run_announce_step _ _ _ _ _ _ _ Ht Hx Hs). fold i. rewrite Hk. cbv zeta.
  set (i1 := (LoadAndDelete (peers st) (GetKey x) i).2).
  set (st1 := put_root r i1 (set_tasks [] st)).
  assert (contents i1 = contents i) as Hc1.
  { unfold i1. rewrite contents_LoadAndDelete. by apply delete_id. }
  assert (root_at st1 r = i1) as Er by by apply root_at_put.
  assert (upsert u x (table (peers st) i)
    = if IsPeerConnectable u x then <[GetKey x := x]> (table (peers st) i) else table (peers st) i) as Hup.
  { unfold upsert. by rewrite table_lookup, Hk. }
  unfold announced. rewrite Hup. destruct (IsPeerConnectable u x) eqn:Hcn.
  - rewrite (run_insert 2 now r p ih _ x []) by done.
    destruct (contents_LoadOrStore cfg (peers st) (GetKey x) p i1) as [Hc2 Hs2];
      [by apply root_ok_LoadAndDelete|by apply separated_LoadAndDelete|congruence|].
    edestruct (run_all_send 1 now) as [es ->]; [reflexivity|]. rewrite run_all_done by done.
    change (root_at (spawn _ st1) r) with (root_at st1 r). rewrite Er.
    match goal with |- tasks ?s = _ ∧ _ => assert (root_at s r = (LoadOrStore (GetKey x) p i1).2) as E end.
    { match goal with |- root_at (set_sent _ (set_tasks _ (spawn _ (put_root _ ?j ?s)))) _ = _ =>
        apply (root_at_put r j s) end. simpl. by rewrite length_insert. }
    rewrite E. split_and!; [done|done| |done].
    apply map_eq. intros k. rewrite table_lookup, Hc2, Hc1.
    destruct (decide (GetKey x = k)) as [<-|Hne].
    + by rewrite !lookup_insert_eq.
    + by rewrite !lookup_insert_ne, table_lookup by done.
  - rewrite run_all_done by done. rewrite Er.
    split_and!; [done|by apply separated_LoadAndDelete| |done]. by apply table_change.
Qed.

(** *** Rotation *)
Definition oldest i : M nat := default sm_new (peerMap i !! Z.to_nat ((currentActive i + 2) mod 3)).
(** What is left of a torrent's table after the capacity check. *)
Definition kept i : gmap string nat :=
  if sm_Len (active_map i) >? Z.quot (MaxPeersPerTorrent (Memory (Tracker cfg))) 2
  then contents i ∖ sm_view (oldest i) else contents i.

Lemma insert_shrink (ms : list (M nat)) n pm' :
  (∀ pm, ms !! n = Some pm → sm_view pm' ⊆ sm_view pm) →
  Forall2 (fun pm pm' => sm_view pm' ⊆ sm_view pm) ms (<[n := pm']> ms).
Proof.
  revert n. induction ms as [|pm ms IH]; intros [|n] Hn; simpl; constructor; try done.
  - by apply Hn.
  - by apply Forall_Forall2_diag, Forall_true.
  - by apply IH.
Qed.

Lemma views_clear (ms : list (M nat)) n pm k :
  ms !! n = Some pm → sm_view pm !! k = None → views (<[n := sm_new]> ms) !! k = views ms !! k.
Proof.
  unfold views. revert n. induction ms as [|pm0 ms IH]; intros [|n] Hn Hk; simpl in *; try done.
  - injection Hn as ->. rewrite sm_view_new, (left_id_L ∅ (∪)). by rewrite lookup_union_r.
  - rewrite !lookup_union. by erewrite IH.
Qed.

Lemma views_remove (ms : list (M nat)) n pm :
  separated_maps ms → ms !! n = Some pm → views (<[n := sm_new]> ms) = views ms ∖ sm_view pm.
Proof.
  intros Hs Hn. apply map_eq. intros k. rewrite lookup_difference.
  destruct (sm_view pm !! k) as [p|] eqn:Hk; [|by eapply views_clear].
  apply views_None. intros pm' [b Hb]%list_elem_of_lookup.
  destruct (decide (b = n)) as [->|Hne].
  - rewrite list_lookup_insert_eq in Hb by (by eapply lookup_lt_Some). injection Hb as <-.
    by rewrite sm_view_new, lookup_empty.
  - rewrite list_lookup_insert_ne in Hb by done. destruct (sm_view pm' !! k) eqn:Hk'; [|done].
    destruct Hne. by eapply (Hs b n pm' pm k).
Qed.

Lemma oldest_lookup h i :
  root_ok cfg h i → peerMap i !! Z.to_nat ((currentActive i + 2) mod 3) = Some (oldest i).
Proof.
  intros [Hl _ _ _]. unfold oldest. pose proof (Z.mod_pos_bound (currentActive i + 2) 3).
  destruct (lookup_lt_is_Some_2 (peerMap i) (Z.to_nat ((currentActive i + 2) mod 3))) as [pm Hpm]; [lia|].
  by rewrite Hpm.
Qed.

Lemma rotate_kept h i :
  root_ok cfg h i → separated i → contents (rotate cfg i) = kept i ∧ separated (rotate cfg i).
Proof.
  intros Hi Hs. pose proof (oldest_lookup h i Hi) as Ho. unfold kept, rotate. destruct (_ >? _); [|done].
  split.
  - unfold contents. cbn [peerMap]. by apply views_remove.
  - eapply separated_subset; [exact Hs|]. cbn [peerMap]. apply insert_shrink.
    intros pm _. rewrite sm_view_new. apply map_empty_subseteq.
Qed.

Lemma kept_subseteq i : kept i ⊆ contents i.
Proof. unfold kept. destruct (_ >? _); [|done]. apply map_subseteq_difference_l. done. Qed.

Lemma table_rotate h l i :
  root_ok cfg h i → separated i → table (h ++ l) (rotate cfg i) = omap (fun p => h !! p) (kept i).
Proof.
  intros Hi Hs. apply map_eq. intros k. rewrite table_lookup, lookup_omap.
  rewrite (proj1 (rotate_kept h i Hi Hs)). destruct (kept i !! k) as [q|] eqn:Hq; [|done]. simpl.
  assert (contents i !! k = Some q) as Hc by by apply (lookup_weaken _ _ _ _ Hq), kept_subseteq.
  destruct (contents_entry _ _ _ _ _ Hi Hc) as (y & Hy & _). rewrite Hy. by apply lookup_app_l_Some.
Qed.

(** *** The handler followed by its goroutine *)
(** The table of the torrent filed under [ih], empty if there is none. *)
Definition torrent_of st (ih : string) : gmap string Peer :=
  match sm_Load ih (infoHashMap st) with
  | Some r => table (peers st) (root_at st r)
  | None => ∅
  end.
(** The same after the capacity check of a non-stopping announce. *)
Definition torrent_kept st (ih : string) : gmap string Peer :=
  match sm_Load ih (infoHashMap st) with
  | Some r => omap (fun p => peers st !! p) (kept (root_at st r))
  | None => ∅
  end.
Definition separated_at st (ih : string) : Prop :=
  ∀ r, sm_Load ih (infoHashMap st) = Some r → separated (root_at st r).
(** No entry of the torrent has expired. *)
Definition all_live (now : Z) st (ih : string) : Prop :=
  ∀ r k p x, sm_Load ih (infoHashMap st) = Some r → (k, p) ∈ entries (root_at st r) →
    peers st !! p = Some x → live cfg now x = true.

Lemma table_heap_app h l i : root_ok cfg h i → table (h ++ l) i = table h i.
Proof.
  intros Hi. apply table_change; [done|]. intros k p Hk.
  destruct (contents_entry _ _ _ _ _ Hi Hk) as (x & Hx & _). rewrite Hx. by apply lookup_app_l_Some.
Qed.

Lemma run_announced now r p ih st x :
  state_ok cfg st → (r < length (roots st))%nat → peers st !! p = Some x → Event x ≠ PeerEvent_Stopped →
  separated (root_at st r) → tasks st = [TaskAnnounce r p ih] →
  announced x (table (peers st) (root_at st r)) r st (run_all cfg 4 now st).
Proof.
  intros Hok Hr Hx He Hs Ht.
  destruct (contents (root_at st r) !! GetKey x) as [k|] eqn:Hk; [|by apply run_unknown with p ih].
  destruct (contents_entry cfg (peers st) (root_at st r) _ _ (root_at_ok cfg st r Hok Hr) Hk) as (y & Hy & _).
  by apply run_known with p k ih y.
Qed.

(** The announce refines [spec_announce] on the torrent's table. *)
Definition refined (x : Peer) (t : gmap string Peer) (ih : string) st' : Prop :=
  tasks st' = [] ∧ separated_at st' ih ∧ torrent_of st' ih = spec_announce u x t.

Lemma respond_all_live now r p n st :
  (∀ k q y, (k, q) ∈ entries (root_at st r) → peers st !! q = Some y → live cfg now y = true) →
  is_Some (peers st !! p) →
  (announce_respond cfg now r p n st).2 = put_root r (rotate cfg (root_at st r)) st.
Proof.
  intros Hl [x Hx]. unfold announce_respond. rewrite Hx.
  pose proof (collect_expired cfg (peers st) now x n (root_at st r)) as Hex.
  destruct (root_Range _ _ _) as [resp ex]. simpl in *. destruct ex as [|k ex]; [done|].
  destruct (Hex k) as (q & y & Hq & Hy & Hlive); [by left|]. by rewrite (Hl k q y) in Hlive.
Qed.

(** The store when the handler of a known peer's announce returns: the capacity
    check is done, the rest is left to one goroutine. *)
Lemma responded_known now now' req st r :
  let x := peer_of_request now req in
  let ih := req_InfoHash req in
  let out := (HandleAnnouncePeer cfg now now' req st).2 in
  state_ok cfg st → tasks st = [] → sm_Load ih (infoHashMap st) = Some r →
  separated (root_at st r) → invalid_address x = false → Event x ≠ PeerEvent_Stopped →
  all_live now' st ih →
  (r < length (roots out))%nat ∧ tasks out = [TaskAnnounce r (length (peers st)) ih] ∧
  peers out = peers st ++ [x] ∧ sm_Load ih (infoHashMap out) = Some r ∧
  separated (root_at out r) ∧ table (peers out) (root_at out r) = torrent_kept st ih.
Proof.
  intros x ih out Hok Ht Hih Hs Hx He Hlive. pose proof Hih as Hv. rewrite sm_Load_ret in Hv. unfold out, HandleAnnouncePeer.
  destruct (announce_begin_known cfg now req st r Hx Hv) as (st1 & Em & Er & Ep & Et & _ & E). fold x in E.
  rewrite E, (proj2 (Z.eqb_neq _ _) He).
  set (p := length (peers st)) in *. set (st2 := spawn (TaskAnnounce r p (req_InfoHash req)) st1) in *.
  assert (peers st2 !! p = Some x) as Hp.
  { simpl. rewrite Ep, lookup_app_r by lia. unfold p. by rewrite Nat.sub_diag. }
  assert (root_at st2 r = root_at st r) as Ei by by apply root_at_frame.
  destruct (ok_map cfg st Hok _ _ Hv) as (j & Hj & _). apply lookup_lt_Some in Hj.
  pose proof (root_at_ok cfg st r Hok Hj) as Hi.
  assert ((announce_respond cfg now' r p (req_NumWant req) st2).2
    = put_root r (rotate cfg (root_at st2 r)) st2) as Er3.
  { apply respond_all_live; [|by eexists]. rewrite Ei. intros k q y Hq Hy. eapply (Hlive r k q y); [done..|].
    destruct (entries_lookup cfg _ _ _ _ Hi Hq) as (y' & Hy' & _).
    simpl in Hy. rewrite Ep, (lookup_app_l_Some _ _ _ _ Hy') in Hy. congruence. }
  destruct (announce_respond _ _ _ _ _ _) as [resp st3]. cbn [snd] in *. subst st3. rewrite Ei.
  assert (r < length (roots st2))%nat as Hr2 by (simpl; by rewrite Er).
  rewrite root_at_put by done. destruct (rotate_kept _ _ Hi Hs) as [_ Hsep]. split_and!.
  - simpl. by rewrite length_insert.
  - simpl. by rewrite Et, Ht.
  - done.
  - rewrite sm_Load_ret. simpl. by rewrite Em.
  - done.
  - unfold torrent_kept. fold ih in Hih. rewrite Hih. simpl. rewrite Ep. by apply table_rotate.
Qed.

Lemma refined_known now now' req st r :
  let x := peer_of_request now req in
  state_ok cfg st → tasks st = [] → sm_Load (req_InfoHash req) (infoHashMap st) = Some r →
  separated (root_at st r) → invalid_address x = false → Event x ≠ PeerEvent_Stopped →
  all_live now' st (req_InfoHash req) →
  refined x (torrent_kept st (req_InfoHash req)) (req_InfoHash req)
    (run_all cfg 4 now' (HandleAnnouncePeer cfg now now' req st).2).
Proof.
  intros x Hok Ht Hih Hs Hx He Hlive.
  destruct (responded_known now now' req st r Hok Ht Hih Hs Hx He Hlive) as (Hr & Ht' & Hp & Hl & Hsep & Htab).
  pose proof (HandleAnnouncePeer_ok cfg now now' req st Hok) as Hok'.
  set (out := (HandleAnnouncePeer cfg now now' req st).2) in *.
  destruct (run_announced now' r (length (peers st)) (req_InfoHash req) out x) as (F1 & F2 & F3 & F4); try done.
  { rewrite Hp, lookup_app_r by lia. by rewrite Nat.sub_diag. }
  assert (sm_Load (req_InfoHash req) (infoHashMap (run_all cfg 4 now' out)) = Some r) as Hl'
    by by rewrite F4.
  split; [exact F1|]. split; [intros r' Hr'; rewrite Hl' in Hr'; by injection Hr' as <-|].
  unfold torrent_of, spec_announce. by rewrite Hl', F3, Htab, (proj2 (Z.eqb_neq _ _) He).
Qed.

Lemma refined_stopped now now' req st r :
  let x := peer_of_request now req in
  state_ok cfg st → tasks st = [] → sm_Load (req_InfoHash req) (infoHashMap st) = Some r →
  separated (root_at st r) → invalid_address x = false → Event x = PeerEvent_Stopped →
  refined x (torrent_of st (req_InfoHash req)) (req_InfoHash req)
    (HandleAnnouncePeer cfg now now' req st).2.
Proof.
  intros x Hok Ht Hih Hs Hx He. pose proof Hih as Hv. rewrite sm_Load_ret in Hv. unfold HandleAnnouncePeer.
  destruct (announce_begin_known cfg now req st r Hx Hv) as (st1 & Em & Er & Ep & Et & _ & E). fold x in E.
  rewrite E, (proj2 (Z.eqb_eq _ _) He). cbn [snd].
  destruct (ok_map cfg st Hok _ _ Hv) as (j & Hj & _). apply lookup_lt_Some in Hj.
  pose proof (root_at_ok cfg st r Hok Hj) as Hi.
  set (i' := (LoadAndDelete (peers st1) (GetKey x) (root_at st1 r)).2).
  change ((root_LoadAndDelete r (GetKey x) st1).2) with (put_root r i' st1).
  assert (root_at (put_root r i' st1) r = i') as Ei by (apply root_at_put; by rewrite Er).
  assert (root_at st1 r = root_at st r) as Ei1 by by apply root_at_frame.
  assert (sm_Load (req_InfoHash req) (infoHashMap (put_root r i' st1)) = Some r) as Hl.
  { rewrite sm_Load_ret. simpl. by rewrite Em. }
  split; [by rewrite <- Ht, <- Et|]. split.
  - intros r' Hr'. rewrite Hl in Hr'. injection Hr' as <-. rewrite Ei. apply separated_LoadAndDelete.
    by rewrite Ei1.
  - unfold torrent_of, spec_announce. rewrite Hl, Hih, Ei, (proj2 (Z.eqb_eq _ _) He).
    apply map_eq. intros k. rewrite table_lookup. unfold i'. rewrite contents_LoadAndDelete, Ei1.
    destruct (decide (GetKey x = k)) as [<-|Hne]; [by rewrite !lookup_delete_eq|].
    rewrite !lookup_delete_ne by done. simpl. rewrite Ep. rewrite <- table_lookup. by rewrite table_heap_app.
Qed.

(** A torrent's first announce files the peer before the handler returns; only
    the event is left to a goroutine. *)
Lemma responded_first now now' req st :
  let x := peer_of_request now req in
  let ih := req_InfoHash req in
  let out := (HandleAnnouncePeer cfg now now' req st).2 in
  state_ok cfg st → tasks st = [] → sm_Load ih (infoHashMap st) = None → invalid_address x = false →
  tasks out = [TaskSend ih (length (peers st))] ∧ separated_at out ih ∧ torrent_of out ih = spec_announce u x ∅.
Proof.
  intros x ih out Hok Ht Hih Hx. rewrite sm_Load_ret in Hih. unfold out, HandleAnnouncePeer, announce_begin. fold x ih. rewrite Hx.
  destruct (get_or_create_unknown (set_peers (peers st ++ [x]) st) now ih Hih) as (m' & -> & Hm').
  cbn [negb]. set (r := length _) in *. set (st0 := mkState m' _ _ _ _ _).
  change (match Conn x with Some _ => _ | None => _ end) with (with_callback x r (req_PeerID req) st0).
  set (st1 := with_callback x r (req_PeerID req) st0).
  destruct (with_callback_frame x r (req_PeerID req) st0) as (E1 & E2 & E3 & E4 & _). fold st1 in E1, E2, E3, E4.
  set (i0 := NewInfoHashRoot (M := M) ih now).
  assert (contents i0 = ∅) as Hi0 by apply contents_new.
  assert (root_at st1 r = i0) as Ei.
  { unfold root_at. rewrite E2. simpl. rewrite lookup_app_r by done. by rewrite Nat.sub_diag. }
  assert (peers st1 !! length (peers st) = Some x) as Hp.
  { rewrite E3. simpl. rewrite lookup_app_r by lia. by rewrite Nat.sub_diag. }
  destruct (contents_LoadOrStore cfg [] (GetKey x) (length (peers st)) i0) as [Hc Hsep];
    [apply root_ok_new|apply separated_new|unfold i0; by rewrite contents_new|].
  rewrite Ei. set (i1 := (LoadOrStore (GetKey x) (length (peers st)) i0).2) in *.
  set (st2 := if _ && _ then put_root r i1 st1 else st1).
  assert (tasks st2 = [] ∧ peers st2 = peers st1 ∧ infoHashMap st2 = infoHashMap st1) as (F1 & F2 & F3).
  { unfold st2. destruct (_ && _); simpl; by rewrite E4. }
  assert (sm_Load ih (infoHashMap st2) = Some r) as Hl.
  { rewrite F3, E1, sm_Load_ret. simpl. rewrite Hm'. apply lookup_insert_eq. }
  assert (root_at st2 r = if IsPeerConnectable u x && negb (Event x =? PeerEvent_Stopped) then i1 else i0) as Er2.
  { unfold st2. fold u. destruct (_ && _); [|done]. apply root_at_put. rewrite E2. simpl. rewrite length_app. simpl. unfold r. simpl. lia. }
  cbn [snd]. set (st3 := spawn _ st2). assert (root_at st3 r = root_at st2 r) as Er by done.
  assert (sm_Load ih (infoHashMap st3) = Some r) as Hl3 by done.
  split; [simpl; by rewrite F1|]. split.
  - intros r' Hr'. rewrite Hl3 in Hr'. injection Hr' as <-. rewrite Er, Er2.
    destruct (_ && _); [done|apply separated_new].
  - unfold torrent_of. rewrite Hl3, Er, Er2. change (peers st3) with (peers st2). rewrite F2. apply map_eq. intros k.
    rewrite table_lookup. unfold spec_announce, upsert. rewrite lookup_empty.
    destruct (IsPeerConnectable u x), (Event x =? PeerEvent_Stopped); simpl;
      rewrite ?Hi0, ?delete_empty, ?lookup_empty; try done.
    rewrite Hc, Hi0. destruct (decide (GetKey x = k)) as [<-|Hne].
    + by rewrite !lookup_insert_eq.
    + by rewrite !lookup_insert_ne, lookup_empty by done.
Qed.

Lemma refined_first now now' req st :
  let x := peer_of_request now req in
  state_ok cfg st → tasks st = [] → sm_Load (req_InfoHash req) (infoHashMap st) = None →
  invalid_address x = false →
  refined x ∅ (req_InfoHash req) (run_all cfg 4 now' (HandleAnnouncePeer cfg now now' req st).2).
Proof.
  intros x Hok Ht Hih Hx. destruct (responded_first now now' req st Hok Ht Hih Hx) as (Ht' & Hs & Htab).
  destruct (run_all_send 3 now' _ _ _ _ Ht') as [es ->]. by rewrite run_all_done.
Qed.

(** What the announce and its goroutines do to the torrent's table. *)
Lemma announce_refined now now' req st :
  let x := peer_of_request now req in
  let ih := req_InfoHash req in
  state_ok cfg st → tasks st = [] → separated_at st ih → all_live now' st ih →
  invalid_address x = false →
  refined x (if Event x =? PeerEvent_Stopped then torrent_of st ih else torrent_kept st ih) ih
    (run_all cfg 4 now' (HandleAnnouncePeer cfg now now' req st).2).
Proof.
  intros x ih Hok Ht Hs Hl Hx.
  destruct (sm_Load ih (infoHashMap st)) as [r|] eqn:Hih.
  - destruct (Z.eqb_spec (Event x) PeerEvent_Stopped) as [He|He].
    + destruct (refined_stopped now now' req st r) as (H1 & H2 & H3); [done..|by apply Hs|done|done|].
      by rewrite run_all_done.
    + apply (refined_known now now' req st r); [done..|by apply Hs|done|done|done].
  - unfold torrent_of, torrent_kept. rewrite Hih.
    assert ((if Event x =? PeerEvent_Stopped then ∅ else ∅) = (∅ : gmap string Peer)) as -> by by destruct (_ =? _).
    by apply refined_first.
Qed.

(** C4: Refinement. On an idle store whose torrent has no duplicated key and no
    expired entry, an announce followed by the goroutines it starts (four steps
    are enough to finish them) does to the torrent's table exactly what the
    abstract tracker does: a stopping peer is removed; a known peer keeps its
    record and its address, with the new counters, event and time; a new peer
    is added if it is connectable.  A non-stopping announce first drops the
    oldest map when the active one is over half the limit. *)
Theorem announce_refines now now' req st :
  let x := peer_of_request now req in
  let ih := req_InfoHash req in
  state_ok cfg st → tasks st = [] → separated_at st ih → all_live now' st ih →
  invalid_address x = false →
  let st' := run_all cfg 4 now' (HandleAnnouncePeer cfg now now' req st).2 in
  tasks st' = [] ∧ separated_at st' ih ∧
  torrent_of st' ih
  = spec_announce u x (if Event x =? PeerEvent_Stopped then torrent_of st ih else torrent_kept st ih).
Proof. intros x ih Hok Ht Hs Hl Hx. by apply announce_refined. Qed.
End Refine.

(** Peer A creates the torrent, peer B joins it, and A comes back completed. *)
Definition seq_announce_at (now : Z) (req : AnnounceRequest) (st : State Skip) : State Skip :=
  run_all (sample_cfg 400) 4 now (HandleAnnouncePeer (sample_cfg 400) now now req st).2.
Definition seq_announce := seq_announce_at sample_time.
Definition seq_state1 : State Skip :=
  seq_announce (sample_request "A" "T" "started" Byte.x01 7 50) NewLocalManger.
Definition seq_state2 : State Skip :=
  seq_announce (sample_request "B" "T" "started" Byte.x02 7 50) seq_state1.
Definition seq_state3 : State Skip :=
  seq_announce (sample_request "A" "T" "completed" Byte.x03 0 50) seq_state2.

Lemma seq_announce_ok now req st :
  state_ok (sample_cfg 400) st → state_ok (sample_cfg 400) (seq_announce_at now req st).
Proof. intros Hok. apply run_all_ok, HandleAnnouncePeer_ok, Hok. Qed.

Lemma announce_refines_witness :
  torrent_of seq_state2 "T"
  = {["A"%string := sample_peer "A" Byte.x01 PeerEvent_Started 7 sample_time;
      "B"%string := sample_peer "B" Byte.x02 PeerEvent_Started 7 sample_time]}
  ∧ torrent_of seq_state3 "T"
  = {["A"%string := sample_peer "A" Byte.x01 PeerEvent_Completed 0 sample_time;
      "B"%string := sample_peer "B" Byte.x02 PeerEvent_Started 7 sample_time]}.
Proof.
  assert (state_ok (sample_cfg 400) (NewLocalManger (M := Skip))) as H0 by apply ok_new.
  pose proof (seq_announce_ok sample_time (sample_request "A" "T" "started" Byte.x01 7 50) _ H0) as H1.
  pose proof (seq_announce_ok sample_time (sample_request "B" "T" "started" Byte.x02 7 50) _ H1) as H2.
  destruct (announce_refines (sample_cfg 400) sample_time sample_time
    (sample_request "A" "T" "started" Byte.x01 7 50) (NewLocalManger (M := Skip)) H0) as (T1 & S1 & _);
    [reflexivity|intros r Hr; discriminate|intros r k p x Hr; discriminate|reflexivity|].
  destruct (announce_refines (sample_cfg 400) sample_time sample_time
    (sample_request "B" "T" "started" Byte.x02 7 50) seq_state1 H1 T1 S1) as (T2 & S2 & E2).
  { intros r k p x Hr Hk Hx. vm_compute in Hr. injection Hr as <-. vm_compute in Hk.
    apply list_elem_of_singleton in Hk. injection Hk as -> ->. vm_compute in Hx. injection Hx as <-. reflexivity. }
  { reflexivity. }
  destruct (announce_refines (sample_cfg 400) sample_time sample_time
    (sample_request "A" "T" "completed" Byte.x03 0 50) seq_state2 H2 T2 S2) as (_ & _ & E3).
  { intros r k p x Hr Hk Hx. assert (live (sample_cfg 400) sample_time <$> peers seq_state2
      = [true; true]) as Hl by (vm_compute; reflexivity).
    apply (f_equal (fun l => l !! p)) in Hl. rewrite list_lookup_fmap, Hx in Hl.
    destruct p as [|[|p]]; [by injection Hl|by injection Hl|discriminate]. }
  { reflexivity. }
  split.
  - etransitivity; [exact E2|]. vm_compute. reflexivity.
  - etransitivity; [exact E3|]. vm_compute. reflexivity.
Defined.
