(* ===== verification/LocalFrame.v ===== *)
(** What an announce leaves alone: the handler and the goroutines it starts
    touch one torrent and the peers of that torrent, and nothing else of the
    store. *)
From Stdlib Require Import ZArith Lia Bool Strings.String.
From stdpp Require Import base strings list gmap fin_maps relations.
From S2P Require Import Prelude GoStd Config Model Common Mapx Local LocalInv LocalSafety LocalSpec LocalScrape LocalTable.
Set Default Proof Using "Type*".
Local Open Scope Z_scope.

Section Entries.
Context `{SyncStringMapLaws M}.
Implicit Types (i : InfoHashRoot M) (ms : list (M nat)) (st : State M).

(** *** How one torrent's operations change its entries *)
Lemma entries_view i k p : (k, p) ∈ entries i ↔ ∃ pm, pm ∈ peerMap i ∧ sm_view pm !! k = Some p.
Proof. rewrite entries_elem. by setoid_rewrite sm_Load_ret. Qed.

Lemma entries_shrink i ms k p :
  Forall2 (fun pm pm' => sm_view pm' ⊆ sm_view pm) (peerMap i) ms →
  (k, p) ∈ entries (set_peerMap ms i) → (k, p) ∈ entries i.
Proof.
  intros Hms. rewrite !entries_view. intros (pm' & [n Hn]%list_elem_of_lookup & Hk).
  destruct (Forall2_lookup_r _ _ _ _ _ Hms Hn) as (pm & Hpm & Hs).
  exists pm. split; [by eapply list_elem_of_lookup_2|by eapply lookup_weaken].
Qed.

Lemma entries_LoadAndDelete h key i k p : (k, p) ∈ entries (LoadAndDelete h key i).2 → (k, p) ∈ entries i.
Proof.
  apply entries_shrink. rewrite map_map. apply Forall2_fmap_r, Forall_Forall2_diag, Forall_true. intros pm.
  change (sm_view (sm_LoadAndDelete key pm).2 ⊆ sm_view pm).
  rewrite sm_LoadAndDelete_view. apply delete_subseteq.
Qed.

Lemma entries_Delete key i k p : (k, p) ∈ entries (Delete key i).2 → (k, p) ∈ entries i.
Proof.
  unfold Delete. pose proof (delete_maps_shrink key false (peerMap i)) as Hs.
  destruct (delete_maps key false (peerMap i)). by apply entries_shrink.
Qed.

(** Writing a map in which only [key] may be new. *)
Lemma entries_write n key q pm pm' i k p :
  (sm_view pm' = <[key := q]> (sm_view pm) ∨ sm_view pm' = sm_view pm) →
  (peerMap i !! n = Some pm ∨ sm_view pm = ∅) →
  (k, p) ∈ entries (set_peerMap (<[n := pm']> (peerMap i)) i) → (k, p) ∈ entries i ∨ p = q.
Proof.
  intros Hv Hn. rewrite !entries_view. intros (pm0 & Hpm & Hk).
  apply list_elem_of_lookup in Hpm as [j Hj]. simpl in Hj.
  apply list_lookup_insert_Some in Hj as [(-> & <- & Hl)|[_ Hj]].
  2: { left. exists pm0. split; [by eapply list_elem_of_lookup_2|done]. }
  assert (sm_view pm !! k = Some p → ∃ pm0, pm0 ∈ peerMap i ∧ sm_view pm0 !! k = Some p) as Hold.
  { intros Ho. destruct Hn as [Hn|Hn]; [|by rewrite Hn, lookup_empty in Ho].
    exists pm. split; [by eapply list_elem_of_lookup_2|done]. }
  destruct Hv as [Hv|Hv]; rewrite Hv in Hk; [|by left; apply Hold].
  apply lookup_insert_Some in Hk as [[_ ->]|[_ Hk]]; [by right|by left; apply Hold].
Qed.

Lemma active_map_at i : peerMap i !! active i = Some (active_map i) ∨ sm_view (active_map i) = ∅.
Proof. unfold active_map. destruct (peerMap i !! active i); [by left|right; apply sm_view_new]. Qed.

Lemma entries_Store key q i k p : (k, p) ∈ entries (Store key q i) → (k, p) ∈ entries i ∨ p = q.
Proof. eapply entries_write; [left; apply sm_Store_view|apply active_map_at]. Qed.

Lemma entries_LoadOrStore key q i k p : (k, p) ∈ entries (LoadOrStore key q i).2 → (k, p) ∈ entries i ∨ p = q.
Proof.
  unfold LoadOrStore. pose proof (sm_LoadOrStore_view key q (active_map i)) as Hv.
  destruct (sm_LoadOrStore key q (active_map i)) as [res pm']. simpl in Hv.
  apply (entries_write (active i) key q (active_map i)); [|apply active_map_at]. destruct (sm_view (active_map i) !! key); auto.
Qed.

Lemma entries_rotate cfg i k p : (k, p) ∈ entries (rotate cfg i) → (k, p) ∈ entries i.
Proof.
  unfold rotate. destruct (_ >? _); [|done]. intros Hk.
  apply (entries_shrink i (<[Z.to_nat ((currentActive i + 2) mod 3):=sm_new]> (peerMap i))); [|exact Hk].
  apply insert_shrink. intros pm _. rewrite sm_view_new. apply map_empty_subseteq.
Qed.

Lemma entries_new ih now k p : (k, p) ∉ entries (NewInfoHashRoot (M := M) ih now).
Proof.
  rewrite entries_view. intros (pm & Hpm & Hk).
  assert (sm_view pm = ∅) as E; [|by rewrite E, lookup_empty in Hk].
  simpl in Hpm. rewrite !elem_of_cons in Hpm.
  destruct Hpm as [->|[->|[->|Hpm]]]; [apply sm_view_new..|by apply not_elem_of_nil in Hpm].
Qed.

(** *** Entries and table *)
Lemma NoDup_flat_map {A B} (f : A → list B) l :
  (∀ x, x ∈ l → NoDup (f x)) →
  (∀ a b x y z, l !! a = Some x → l !! b = Some y → z ∈ f x → z ∈ f y → a = b) → NoDup (flat_map f l).
Proof.
  induction l as [|x l IH]; intros Hn Hd; simpl; [apply NoDup_nil_2|].
  apply NoDup_app. split_and!.
  - apply Hn. by left.
  - intros z Hz Hin. apply list_elem_of_In, in_flat_map in Hin as (y & Hy & Hz').
    apply list_elem_of_In, list_elem_of_lookup in Hy as [b Hb]. apply list_elem_of_In in Hz'.
    by specialize (Hd 0%nat (Datatypes.S b) x y z eq_refl Hb Hz Hz').
  - apply IH; [intros y Hy; apply Hn; by right|]. intros a b y y' z Ha Hb Hz Hz'.
    by pose proof (Hd (Datatypes.S a) (Datatypes.S b) y y' z Ha Hb Hz Hz') as [= ->].
Qed.

(** On separated maps, iteration visits each key once. *)
Lemma entries_perm i : separated i → entries i ≡ₚ map_to_list (contents i).
Proof.
  intros Hs. apply NoDup_Permutation.
  - apply NoDup_flat_map.
    + intros pm _. rewrite sm_Range_perm. apply NoDup_map_to_list.
    + intros a b pma pmb [k p] Ha Hb Hka%sm_Range_elem Hkb%sm_Range_elem.
      apply (Hs a b pma pmb k); [done|done|by eexists..].
  - apply NoDup_map_to_list.
  - intros [k p]. rewrite elem_of_map_to_list, entries_view. split.
    + intros (pm & Hpm & Hk). by eapply views_Some_sep.
    + intros Hk. by apply views_Some in Hk.
Qed.
End Entries.

Section Frame.
Context `{SyncStringMapLaws M}.
Context (cfg : Config).
Implicit Types (i : InfoHashRoot M) (st : State M).

(** The writes of a torrent leave the time of its last clean-up. *)
Lemma lastClean_Delete key i : lastClean (Delete key i).2 = lastClean i.
Proof. unfold Delete. by destruct (delete_maps _ _ _). Qed.
Lemma lastClean_LoadOrStore key p i : lastClean (LoadOrStore key p i).2 = lastClean i.
Proof. unfold LoadOrStore. by destruct (sm_LoadOrStore _ _ _). Qed.
Lemma lastClean_rotate i : lastClean (rotate cfg i) = lastClean i.
Proof. unfold rotate. by destruct (_ >? _). Qed.

(** *** Work confined to one torrent *)
Section Confined.
(** The torrent, and the peers it may touch. *)
Context (r : nat) (P : nat → Prop).

Definition task_in (t : task) : Prop :=
  match t with
  | TaskAnnounce r' p _ | TaskStore r' p | TaskInsert r' p _ => r' = r ∧ P p
  | TaskExpire r' _ | TaskRespond r' _ _ => r' = r
  | TaskSend _ _ => True
  end.

Record confined st0 st : Prop := {
  cf_index : sm_view (infoHashMap st) = sm_view (infoHashMap st0);
  cf_roots : ∀ r', r' ≠ r → root_at st r' = root_at st0 r';
  cf_peers : ∀ p, ¬ P p → peers st !! p = peers st0 !! p;
  cf_entries : ∀ k p, (k, p) ∈ entries (root_at st r) → P p;
  cf_tasks : Forall task_in (tasks st);
  cf_clean : lastClean (root_at st r) = lastClean (root_at st0 r);
}.

Lemma confined_refl st : (∀ k p, (k, p) ∈ entries (root_at st r) → P p) → Forall task_in (tasks st) → confined st st.
Proof. by split. Qed.

Lemma confined_tasks st0 st ts : Forall task_in ts → confined st0 st → confined st0 (set_tasks ts st).
Proof. intros Hts [H1 H2 H3 H4 _ H6]. by split. Qed.

Lemma confined_spawn st0 st t : task_in t → confined st0 st → confined st0 (spawn t st).
Proof. intros Ht Hc. apply confined_tasks; [|done]. apply Forall_app. split; [apply Hc|by apply Forall_singleton]. Qed.

Lemma confined_sent st0 st es : confined st0 st → confined st0 (set_sent es st).
Proof. by intros [H1 H2 H3 H4 H5 H6]. Qed.

Lemma confined_peer st0 st f p : P p → confined st0 st → confined st0 (set_peers (alter f p (peers st)) st).
Proof.
  intros Hp [H1 H2 H3 H4 H5 H6]. split; try done. intros q Hq. simpl.
  rewrite list_lookup_alter_ne by (by intros ->). by apply H3.
Qed.

Lemma root_at_put_cases st i r' :
  root_at (put_root r i st) r' = root_at st r' ∨ r' = r ∧ root_at (put_root r i st) r' = i.
Proof.
  unfold root_at. simpl. destruct (decide (r' = r)) as [->|Hne]; [|left; by rewrite list_lookup_insert_ne].
  destruct (decide (r < length (roots st))%nat) as [Hr|Hr].
  - right. by rewrite list_lookup_insert_eq.
  - left. by rewrite list_insert_ge by lia.
Qed.

Lemma confined_root st0 st i :
  (∀ k p, (k, p) ∈ entries i → (k, p) ∈ entries (root_at st r) ∨ P p) → lastClean i = lastClean (root_at st r) →
  confined st0 st → confined st0 (put_root r i st).
Proof.
  intros Hi Hc [H1 H2 H3 H4 H5 H6]. split; try done.
  - intros r' Hne. rewrite <- (H2 r' Hne). unfold root_at. simpl. by rewrite list_lookup_insert_ne.
  - intros k p. destruct (root_at_put_cases st i r) as [->|[_ ->]]; [apply H4|].
    intros [Hk|Hk]%Hi; [by eapply H4|done].
  - destruct (root_at_put_cases st i r) as [->|[_ ->]]; congruence.
Qed.

Lemma confined_LoadAndDelete st0 st key :
  confined st0 st → confined st0 (root_LoadAndDelete r key st).2 ∧ ∀ k, (root_LoadAndDelete r key st).1 = Some k → P k.
Proof.
  intros Hc. split.
  - pose proof (entries_LoadAndDelete (peers st) key (root_at st r)) as He. unfold root_LoadAndDelete.
    assert (lastClean (LoadAndDelete (peers st) key (root_at st r)).2 = lastClean (root_at st r)) as Hl by done.
    destruct (LoadAndDelete _ _ _) as [v i]. apply confined_root; [|done..]. intros k p Hk. left. by apply He.
  - intros k (pm & Hpm & Hk)%LoadAndDelete_entry. eapply (cf_entries _ _ Hc key), entries_view. by exists pm.
Qed.

Lemma confined_respond now p n st0 st : confined st0 st → confined st0 (announce_respond cfg now r p n st).2.
Proof.
  intros Hc. unfold announce_respond. destruct (peers st !! p); [|done]. destruct (root_Range _ _ _) as [resp ex].
  cbn [snd]. apply confined_root; [|apply lastClean_rotate|by case_match; [apply confined_spawn|]].
  intros k q Hk. left. assert (root_at (if (0 <? length ex)%nat then spawn (TaskExpire r ex) st else st) r = root_at st r) as E
    by by case_match. rewrite E in Hk |- *. by eapply entries_rotate.
Qed.

Lemma confined_run_task now t st0 st : task_in t → confined st0 st → confined st0 (run_task cfg now t st).
Proof.
  intros Ht Hc.
  destruct t as [r' p ih|r' p|r' p ih|r' ks|ih p|r' p n]; cbn [task_in] in Ht; cbn [run_task].
  - destruct Ht as [-> Hp]. destruct (peers st !! p) as [x|]; [|done].
    destruct (confined_LoadAndDelete st0 st (GetKey x) Hc) as [Hc' Hk].
    destruct (root_LoadAndDelete r (GetKey x) st) as [[k|] st1]; cbn [fst snd] in *.
    + destruct (peers st1 !! k) as [y|]; [|done]. specialize (Hk k eq_refl). apply confined_spawn; [done|].
      apply confined_peer; [done|]. case_match; [by apply confined_spawn|done].
    + case_match; [by apply confined_spawn|done].
  - destruct Ht as [-> Hp]. destruct (peers st !! p) as [x|]; [|done]. apply confined_root; [|done..].
    intros k q [Hk| ->]%entries_Store; auto.
  - destruct Ht as [-> Hp]. destruct (peers st !! p) as [x|]; [|done]. apply confined_spawn; [done|].
    apply confined_root; [|apply lastClean_LoadOrStore|done]. intros k q [Hk| ->]%entries_LoadOrStore; auto.
  - subst r'. destruct ks as [|k ks]; [done|].
    assert (confined st0 (put_root r (Delete k (root_at st r)).2 st)) as Hd.
    { apply confined_root; [|apply lastClean_Delete|done]. intros k' q Hk. left. by eapply entries_Delete. }
    destruct ks; [done|by apply confined_spawn].
  - destruct (peers st !! p); [by apply confined_sent|done].
  - subst r'. by apply confined_respond.
Qed.

Lemma confined_run_all n now st0 st : confined st0 st → confined st0 (run_all cfg n now st).
Proof.
  revert st. induction n as [|n IH]; intros st Hc; [done|]. simpl. destruct (tasks st) as [|t ts] eqn:E; [done|].
  apply IH. unfold run_next. rewrite E. pose proof (cf_tasks _ _ Hc) as Ht. rewrite E in Ht.
  apply Forall_cons in Ht as [Ht Hts]. apply confined_run_task; [done|by apply confined_tasks].
Qed.
End Confined.

(** *** A store at rest, and an announce on it *)
(** No peer record is in two torrents. *)
Definition disjoint_torrents st : Prop :=
  ∀ ih1 ih2 r1 r2 k1 k2 p,
    sm_view (infoHashMap st) !! ih1 = Some r1 → sm_view (infoHashMap st) !! ih2 = Some r2 →
    (k1, p) ∈ entries (root_at st r1) → (k2, p) ∈ entries (root_at st r2) → ih1 = ih2.

Record idle st : Prop := {
  idle_ok : state_ok cfg st;
  idle_tasks : tasks st = [];
  idle_separated : ∀ ih, separated_at st ih;
  idle_disjoint : disjoint_torrents st;
}.

Lemma idle_new : idle NewLocalManger.
Proof.
  split; [apply ok_new|done| |].
  - intros ih r. rewrite sm_Load_ret. simpl. by rewrite sm_view_new, lookup_empty.
  - intros ih1 ih2 r1 r2 k1 k2 p. simpl. by rewrite sm_view_new, lookup_empty.
Qed.

Lemma torrent_of_eq st ih r :
  sm_view (infoHashMap st) !! ih = Some r → torrent_of st ih = table (peers st) (root_at st r).
Proof. intros Hr. unfold torrent_of. by rewrite sm_Load_ret, Hr. Qed.

Lemma indexed_root_ok st ih r :
  state_ok cfg st → sm_view (infoHashMap st) !! ih = Some r →
  (r < length (roots st))%nat ∧ root_ok cfg (peers st) (root_at st r).
Proof.
  intros Hok Hr. destruct (ok_map cfg st Hok _ _ Hr) as (j & Hj & _). apply lookup_lt_Some in Hj.
  split; [done|by apply root_at_ok].
Qed.

(** Two info hashes never share a torrent. *)
Lemma indexed_inj st ih1 ih2 r :
  state_ok cfg st → sm_view (infoHashMap st) !! ih1 = Some r → sm_view (infoHashMap st) !! ih2 = Some r → ih1 = ih2.
Proof.
  intros Hok H1 H2. destruct (ok_map cfg st Hok _ _ H1) as (i & Hi & <-).
  destruct (ok_map cfg st Hok _ _ H2) as (j & Hj & <-). congruence.
Qed.

(** What is true of the other torrents of [st] in [st']. *)
Definition others_kept ih st st' : Prop :=
  disjoint_torrents st' ∧
  ∀ ih', ih' ≠ ih → torrent_of st' ih' = torrent_of st ih' ∧ separated_at st' ih'.

Lemma confined_others ih r (P : nat → Prop) st st0 st' :
  idle st →
  (∀ ih', ih' ≠ ih → sm_view (infoHashMap st0) !! ih' = sm_view (infoHashMap st) !! ih') →
  sm_view (infoHashMap st0) !! ih = Some r →
  (∀ ih' r', ih' ≠ ih → sm_view (infoHashMap st) !! ih' = Some r' → r' ≠ r ∧ root_at st0 r' = root_at st r') →
  (∃ l, peers st0 = peers st ++ l) →
  (∀ p, P p → (length (peers st) ≤ p)%nat ∨
     ∃ k, sm_view (infoHashMap st) !! ih = Some r ∧ (k, p) ∈ entries (root_at st r)) →
  confined r P st0 st' → others_kept ih st st'.
Proof.
  intros [Hok Ht Hsep Hdis] Hidx Hih Hroots [l Hl] HP [C1 C2 C3 C4 C5].
  assert (∀ ih' r', ih' ≠ ih → sm_view (infoHashMap st') !! ih' = Some r' →
    sm_view (infoHashMap st) !! ih' = Some r' ∧ root_at st' r' = root_at st r') as Ho.
  { intros ih' r' Hne. rewrite C1, Hidx by done. intros Hr. split; [done|].
    destruct (Hroots ih' r' Hne Hr) as [Hr' <-]. by apply C2. }
  assert (∀ ih' r' k p, ih' ≠ ih → sm_view (infoHashMap st) !! ih' = Some r' → (k, p) ∈ entries (root_at st r') →
    ¬ P p ∧ peers st' !! p = peers st !! p) as Hp.
  { intros ih' r' k p Hne Hr Hk. destruct (indexed_root_ok st ih' r' Hok Hr) as [_ Hi].
    destruct (entries_lookup cfg _ _ _ _ Hi Hk) as (y & Hy & _). assert (¬ P p) as HnP.
    { intros [Hlen|(k' & Hr' & Hk')]%HP; [apply lookup_lt_Some in Hy; lia|].
      by apply Hne, (Hdis ih' ih r' r k k' p). }
    split; [done|]. rewrite (C3 p HnP), Hl. rewrite Hy. by apply lookup_app_l_Some. }
  split.
  - intros ih1 ih2 r1 r2 k1 k2 p H1 H2 Hk1 Hk2.
    destruct (decide (ih1 = ih)) as [->|Hn1], (decide (ih2 = ih)) as [->|Hn2]; [done|..].
    + destruct (Ho ih2 r2 Hn2 H2) as [H2' E2]. rewrite E2 in Hk2. rewrite C1, Hih in H1. injection H1 as <-.
      destruct (Hp ih2 r2 k2 p Hn2 H2' Hk2) as [HnP _]. by destruct HnP; eapply C4.
    + destruct (Ho ih1 r1 Hn1 H1) as [H1' E1]. rewrite E1 in Hk1. rewrite C1, Hih in H2. injection H2 as <-.
      destruct (Hp ih1 r1 k1 p Hn1 H1' Hk1) as [HnP _]. by destruct HnP; eapply C4.
    + destruct (Ho ih1 r1 Hn1 H1) as [H1' E1], (Ho ih2 r2 Hn2 H2) as [H2' E2]. rewrite E1 in Hk1. rewrite E2 in Hk2.
      by apply (Hdis ih1 ih2 r1 r2 k1 k2 p).
  - intros ih' Hne. destruct (sm_view (infoHashMap st') !! ih') as [r'|] eqn:Hr.
    + destruct (Ho ih' r' Hne Hr) as [Hr' E]. rewrite (torrent_of_eq _ _ _ Hr), (torrent_of_eq _ _ _ Hr'), E. split.
      * apply table_change; [done|]. intros k p Hk. apply (Hp ih' r' k p Hne Hr').
        apply entries_view. apply views_Some in Hk. done.
      * intros r2. rewrite sm_Load_ret, Hr. intros [= <-]. rewrite E. apply (Hsep ih'). by rewrite sm_Load_ret.
    + pose proof Hr as Hr'. rewrite C1, Hidx in Hr' by done. unfold torrent_of. rewrite !sm_Load_ret, Hr, Hr'.
      split; [done|]. intros r2. by rewrite sm_Load_ret, Hr.
Qed.

(** The peers an announce of a known torrent may touch: the new one and those
    of the torrent. *)
Definition touched st r (p : nat) : Prop := p = length (peers st) ∨ ∃ k, (k, p) ∈ entries (root_at st r).

Lemma announce_confined_known now now' req st r n :
  let x := peer_of_request now req in
  tasks st = [] → invalid_address x = false → sm_view (infoHashMap st) !! req_InfoHash req = Some r →
  ∃ st0, sm_view (infoHashMap st0) = sm_view (infoHashMap st) ∧ roots st0 = roots st ∧
    peers st0 = peers st ++ [x] ∧
    confined r (touched st r) st0 (run_all cfg n now' (HandleAnnouncePeer cfg now now' req st).2).
Proof.
  intros x Ht Hx Hih. unfold HandleAnnouncePeer.
  destruct (announce_begin_known cfg now req st r Hx Hih) as (st1 & Em & Er & Ep & Et & _ & E). fold x in E. rewrite E.
  assert (confined r (touched st r) st1 st1) as Hc.
  { apply confined_refl; [|by rewrite Et, Ht]. intros k p Hk. right. exists k.
    by rewrite (root_at_frame _ _ _ Er) in Hk. }
  exists st1. split_and!; [done..|]. apply confined_run_all. destruct (_ =? _).
  - by apply (confined_LoadAndDelete r _ st1 st1).
  - pose proof (confined_respond r (touched st r) now' (length (peers st)) (req_NumWant req) st1
      (spawn (TaskAnnounce r (length (peers st)) (req_InfoHash req)) st1)) as Hr.
    destruct (announce_respond _ _ _ _ _ _) as [resp st2]. apply Hr. apply confined_spawn; [|done].
    split; [done|by left].
Qed.

Lemma announce_confined_new now now' req st n :
  let x := peer_of_request now req in
  tasks st = [] → invalid_address x = false → sm_view (infoHashMap st) !! req_InfoHash req = None →
  ∃ st0, sm_view (infoHashMap st0) = <[req_InfoHash req := length (roots st)]> (sm_view (infoHashMap st)) ∧
    roots st0 = roots st ++ [NewInfoHashRoot (req_InfoHash req) now] ∧ peers st0 = peers st ++ [x] ∧
    confined (length (roots st)) (eq (length (peers st))) st0
      (run_all cfg n now' (HandleAnnouncePeer cfg now now' req st).2).
Proof.
  intros x Ht Hx Hih. unfold HandleAnnouncePeer, announce_begin. fold x. rewrite Hx.
  destruct (get_or_create_unknown (set_peers (peers st ++ [x]) st) now (req_InfoHash req) Hih) as (m' & -> & Hm').
  cbn [negb]. set (st0 := mkState m' _ _ _ _ _).
  change (match Conn x with Some _ => _ | None => _ end) with (with_callback x (length (roots st)) (req_PeerID req) st0).
  set (st1 := with_callback _ _ _ st0).
  destruct (with_callback_frame x (length (roots st)) (req_PeerID req) st0) as (E1 & E2 & E3 & E4 & _).
  fold st1 in E1, E2, E3, E4. exists st1. rewrite E1, E2, E3. split_and!; [exact Hm'|done..|].
  assert (root_at st1 (length (roots st)) = NewInfoHashRoot (req_InfoHash req) now) as Ei.
  { unfold root_at. rewrite E2. simpl. rewrite lookup_app_r by done. by rewrite Nat.sub_diag. }
  apply confined_run_all. cbn [snd]. apply confined_spawn; [done|].
  assert (confined (length (roots st)) (eq (length (peers st))) st1 st1) as Hc.
  { apply confined_refl; [|by rewrite E4; simpl; rewrite Ht]. intros k p. rewrite Ei. by intros ?%entries_new. }
  change (length (roots (set_peers (peers st ++ [x]) st))) with (length (roots st)).
  destruct (_ && _); [|done]. apply confined_root; [|apply lastClean_LoadOrStore|done]. intros k p [Hk| ->]%entries_LoadOrStore; [by left|by right].
Qed.

(** When the torrent filed under [ih] was last cleaned up, if there is one. *)
Definition cleaned_of st (ih : string) : option Z :=
  (fun r => lastClean (root_at st r)) <$> sm_Load ih (infoHashMap st).

Lemma cleaned_frame st0 st ih :
  sm_view (infoHashMap st) = sm_view (infoHashMap st0) → (∀ r, lastClean (root_at st r) = lastClean (root_at st0 r)) →
  cleaned_of st ih = cleaned_of st0 ih.
Proof.
  intros E Hr. unfold cleaned_of. rewrite !sm_Load_ret, E. destruct (sm_view _ !! ih) as [r|]; [|done]. cbn [fmap option_fmap option_map].
  by rewrite Hr.
Qed.

Lemma confined_cleaned r (P : nat → Prop) st0 st ih : confined r P st0 st → cleaned_of st ih = cleaned_of st0 ih.
Proof.
  intros Hc. apply cleaned_frame; [apply Hc|]. intros r'. destruct (decide (r' = r)) as [->|Hne]; [apply Hc|].
  by rewrite (cf_roots _ _ _ _ Hc r' Hne).
Qed.

(** An announce dates a new torrent and leaves the date of the others. *)
Lemma announce_cleaned now now' req st n ih :
  state_ok cfg st → tasks st = [] → invalid_address (peer_of_request now req) = false →
  cleaned_of (run_all cfg n now' (HandleAnnouncePeer cfg now now' req st).2) ih
  = if decide (ih = req_InfoHash req) then Some (default now (cleaned_of st ih)) else cleaned_of st ih.
Proof.
  intros Hok Ht Hx. destruct (sm_view (infoHashMap st) !! req_InfoHash req) as [r|] eqn:Hr.
  - destruct (announce_confined_known now now' req st r n Ht Hx Hr) as (st0 & E1 & E2 & _ & Hc).
    rewrite (confined_cleaned _ _ _ _ ih Hc), (cleaned_frame st st0 ih E1) by (intros q; by rewrite (root_at_frame _ _ q E2)).
    case_decide as E; [|done]. subst ih. unfold cleaned_of. by rewrite sm_Load_ret, Hr.
  - destruct (announce_confined_new now now' req st n Ht Hx Hr) as (st0 & E1 & E2 & _ & Hc).
    rewrite (confined_cleaned _ _ _ _ ih Hc). unfold cleaned_of. rewrite !sm_Load_ret, E1. case_decide as E.
    + subst ih. rewrite lookup_insert_eq, Hr. cbn [fmap option_fmap option_map]. unfold root_at. rewrite E2, lookup_app_r by done.
      by rewrite Nat.sub_diag.
    + rewrite lookup_insert_ne by done. destruct (sm_view _ !! ih) as [q|] eqn:Hq; [|done]. cbn [fmap option_fmap option_map].
      destruct (indexed_root_ok st ih q Hok Hq) as [Hlt _]. unfold root_at. by rewrite E2, lookup_app_l.
Qed.

(** *** An announce of a torrent with room for it *)
(** No entry of the table has expired, and none of the torrent's maps can be
    over half the limit. *)
Definition fits (now : Z) (t : gmap string Peer) : bool :=
  (Z.of_nat (size t) <=? Z.quot (MaxPeersPerTorrent (Memory (Tracker cfg))) 2)
  && forallb (live cfg now) (map_to_list t).*2.

Lemma fits_spec now t :
  fits now t = true ↔
  Z.of_nat (size t) ≤ Z.quot (MaxPeersPerTorrent (Memory (Tracker cfg))) 2 ∧ ∀ k x, t !! k = Some x → live cfg now x = true.
Proof.
  unfold fits. rewrite andb_true_iff, Z.leb_le, forallb_forall. setoid_rewrite <- list_elem_of_In.
  setoid_rewrite list_elem_of_fmap. split; intros [Hs Hl]; (split; [done|]).
  - intros k x Hk. apply Hl. exists (k, x). by rewrite elem_of_map_to_list.
  - intros x ([k y] & -> & Hk). apply elem_of_map_to_list in Hk. by apply (Hl k).
Qed.

Lemma size_table h i : root_ok cfg h i → size (table h i) = size (contents i).
Proof.
  intros Hi. rewrite <- !(size_dom (D := gset string)). f_equal. apply set_eq. intros k.
  rewrite !elem_of_dom, table_lookup. split; [by intros (x & (p & Hp & _)%bind_Some); exists p|].
  intros [p Hp]. destruct (contents_entry _ _ _ _ _ Hi Hp) as (x & Hx & _). exists x. by rewrite Hp.
Qed.

Lemma entry_in_table h i k p x :
  separated i → (k, p) ∈ entries i → h !! p = Some x → table h i !! k = Some x.
Proof.
  intros Hs Hk Hx. rewrite (entries_perm i Hs), elem_of_map_to_list in Hk. by rewrite table_lookup, Hk.
Qed.

Lemma fits_live st ih now : separated_at st ih → fits now (torrent_of st ih) = true → all_live cfg now st ih.
Proof.
  intros Hs [_ Hl]%fits_spec r k p x Hr Hk Hx. apply (Hl k). rewrite (torrent_of_eq st ih r) by by rewrite <- sm_Load_ret.
  apply entry_in_table with p; [by apply Hs|done|done].
Qed.

Lemma fits_kept st ih now :
  state_ok cfg st → separated_at st ih → fits now (torrent_of st ih) = true → torrent_kept cfg st ih = torrent_of st ih.
Proof.
  intros Hok Hs [Hsz _]%fits_spec. unfold torrent_kept, torrent_of in *. destruct (sm_Load ih (infoHashMap st)) as [r|] eqn:Hr; [|done].
  pose proof Hr as Hv. rewrite sm_Load_ret in Hv. destruct (indexed_root_ok st ih r Hok Hv) as [_ Hi].
  unfold kept. rewrite size_table in Hsz by done. assert (sm_Len (active_map (root_at st r)) ≤ Z.of_nat (size (contents (root_at st r)))) as Hle.
  { rewrite sm_Len_ret. apply Nat2Z.inj_le, map_subseteq_size, map_subseteq_spec. intros k p Hk.
    eapply views_Some_sep; [by apply Hs| |exact Hk]. by eapply list_elem_of_lookup_2, active_lookup. }
  assert ((sm_Len (active_map (root_at st r)) >? Z.quot (MaxPeersPerTorrent (Memory (Tracker cfg))) 2) = false) as -> by lia.
  done.
Qed.

(** What an announce and its goroutines do to a store at rest: the torrent is
    updated as the abstract tracker says, and the store is again at rest with
    every other torrent as it was. *)
Lemma announce_idle now now' req st :
  let x := peer_of_request now req in
  let ih := req_InfoHash req in
  idle st → invalid_address x = false → fits now' (torrent_of st ih) = true →
  let st' := run_all cfg 4 now' (HandleAnnouncePeer cfg now now' req st).2 in
  idle st' ∧ ∀ ih', torrent_of st' ih'
    = if decide (ih' = ih) then spec_announce (UseAnnounceIP (Tracker cfg)) x (torrent_of st ih) else torrent_of st ih'.
Proof.
  intros x ih Hi Hx Hf st'. pose proof Hi as [Hok Ht Hsep Hdis].
  destruct (announce_refined cfg now now' req st Hok Ht (Hsep ih) (fits_live _ _ _ (Hsep ih) Hf) Hx) as (R1 & R2 & R3).
  fold x ih st' in R1, R2, R3. rewrite (fits_kept _ _ _ Hok (Hsep ih) Hf) in R3.
  assert (spec_announce (UseAnnounceIP (Tracker cfg)) x (torrent_of st ih) = torrent_of st' ih) as Hih
    by by rewrite R3; destruct (_ =? _).
  assert (others_kept ih st st') as [Hd Ho].
  { destruct (sm_view (infoHashMap st) !! ih) as [r|] eqn:Hr.
    - destruct (announce_confined_known now now' req st r 4 Ht Hx Hr) as (st0 & E1 & E2 & E3 & Hc).
      apply confined_others with r (touched st r) st0; [done|by rewrite E1|by rewrite E1| | | |done].
      + intros ih' r' Hne Hr'. split; [|by apply root_at_frame]. intros ->. by apply Hne, (indexed_inj st ih' ih r).
      + by eexists.
      + intros p [->|[k Hk]]; [by left|]. right. by exists k.
    - destruct (announce_confined_new now now' req st 4 Ht Hx Hr) as (st0 & E1 & E2 & E3 & Hc).
      apply confined_others with (length (roots st)) (eq (length (peers st))) st0; [done| | | | | |done].
      + intros ih' Hne. rewrite E1. by apply lookup_insert_ne.
      + rewrite E1. apply lookup_insert_eq.
      + intros ih' r' Hne Hr'. destruct (indexed_root_ok st ih' r' Hok Hr') as [Hlt _]. split; [lia|].
        unfold root_at. by rewrite E2, lookup_app_l.
      + by eexists.
      + intros p <-. by left. }
  split.
  - split; [by apply run_all_ok, HandleAnnouncePeer_ok|done| |done].
    intros ih'. destruct (decide (ih' = ih)) as [->|Hne]; [done|by apply Ho].
  - intros ih'. case_decide as E; [by rewrite E|by apply Ho].
Qed.

(** *** Dropping a torrent *)
Lemma delete_idle ih st :
  idle st →
  let st' := set_infoHashMap (sm_Delete ih (infoHashMap st)).2 st in
  idle st' ∧ (∀ ih', torrent_of st' ih' = if decide (ih' = ih) then ∅ else torrent_of st ih') ∧
  ∀ ih', cleaned_of st' ih' = if decide (ih' = ih) then None else cleaned_of st ih'.
Proof.
  intros [Hok Ht Hsep Hdis] st'.
  assert (∀ ih', sm_view (infoHashMap st') !! ih' = if decide (ih' = ih) then None else sm_view (infoHashMap st) !! ih') as Hv.
  { intros ih'. simpl. rewrite sm_Delete_view. case_decide as E; [subst; apply lookup_delete_eq|by apply lookup_delete_ne]. }
  assert (∀ ih' r, sm_view (infoHashMap st') !! ih' = Some r → sm_view (infoHashMap st) !! ih' = Some r) as Hsub.
  { intros ih' r. rewrite Hv. by case_decide. }
  split.
  - split; [by apply ok_delete_torrent|done| |].
    + intros ih' r. rewrite sm_Load_ret. intros Hr%Hsub. apply (Hsep ih'). by rewrite sm_Load_ret.
    + intros ih1 ih2 r1 r2 k1 k2 p H1%Hsub H2%Hsub. by apply (Hdis ih1 ih2 r1 r2).
  - split; intros ih'; [unfold torrent_of|unfold cleaned_of]; rewrite !sm_Load_ret, Hv; by case_decide.
Qed.
End Frame.
