(* ===== verification/LocalClean.v ===== *)
(** The periodic clean-up ([local/clean.go]). *)
From Stdlib Require Import ZArith Lia Bool Strings.String.
From stdpp Require Import base strings list gmap fin_maps relations.
From S2P Require Import Prelude GoStd Config Model Common Samples Mapx Local LocalInv LocalSafety LocalSpec LocalScrape LocalTable.
Set Default Proof Using "Type*".
Local Open Scope Z_scope.

Section Clean.
Context `{SyncStringMapLaws M}.
Context (cfg : Config) (r : nat).
Implicit Types (st : State M) (i : InfoHashRoot M) (h : list Peer).

(** [(k, p)] is in map [j] of the torrent. *)
Definition at_map st (j : nat) (k : string) (p : nat) : Prop :=
  ∃ pm, peerMap (root_at st r) !! j = Some pm ∧ sm_view pm !! k = Some p.

Lemma at_map_lookup st j k p : at_map st j k p ↔ (peerMap (root_at st r) !! j ≫= sm_Load k) = Some p.
Proof.
  unfold at_map. rewrite bind_Some. by setoid_rewrite sm_Load_ret.
Qed.

Lemma entries_at_map st k p : (k, p) ∈ entries (root_at st r) ↔ ∃ j, at_map st j k p.
Proof.
  rewrite entries_elem. setoid_rewrite list_elem_of_lookup. setoid_rewrite sm_Load_ret. unfold at_map.
  naive_solver.
Qed.

(** Entries only disappear; peers keep their time. *)
Definition shrinks st st' : Prop :=
  (∀ j k p, at_map st' j k p → at_map st j k p) ∧
  LastSeen <$> peers st' = LastSeen <$> peers st ∧
  infoHashMap st' = infoHashMap st ∧
  (infoHash (root_at st' r), lastClean (root_at st' r)) = (infoHash (root_at st r), lastClean (root_at st r)) ∧
  length (roots st') = length (roots st).
#[export] Instance shrinks_preorder : PreOrder shrinks.
Proof.
  split.
  - by intros st.
  - intros st1 st2 st3 (H1 & L1 & M1 & I1 & N1) (H2 & L2 & M2 & I2 & N2). split_and!; [eauto|congruence..].
Qed.

Lemma shrinks_LoadAndDelete st r' key : shrinks st (root_LoadAndDelete r' key st).2.
Proof.
  set (i' := (LoadAndDelete (peers st) key (root_at st r')).2).
  change (root_LoadAndDelete r' key st).2 with (put_root r' i' st).
  destruct (decide (r < length (roots st) ∧ r' = r)%nat) as [[Hr ->]|Hne].
  - unfold shrinks, at_map. rewrite root_at_put by done. split_and!; [|done..|by simpl; rewrite length_insert].
    intros j k p (pm' & Hpm' & Hk). unfold i', LoadAndDelete in Hpm'. simpl in Hpm'.
    rewrite map_map, list_lookup_fmap in Hpm'. apply fmap_Some in Hpm' as (pm & Hpm & ->).
    exists pm. split; [done|]. change (sm_view (sm_LoadAndDelete key pm).2 !! k = Some p) in Hk.
    rewrite sm_LoadAndDelete_view in Hk. by apply lookup_delete_Some in Hk as [_ ?].
  - assert (root_at (put_root r' i' st) r = root_at st r) as E.
    { unfold root_at. simpl. destruct (decide (r' = r)) as [->|]; [|by rewrite list_lookup_insert_ne].
      rewrite list_insert_ge by lia. done. }
    unfold shrinks, at_map. rewrite E. split_and!; [done..|]. simpl. by rewrite length_insert.
Qed.

Lemma shrinks_clear st p : shrinks st (set_peers (alter clear_conn p (peers st)) st).
Proof.
  split_and!; [done| |done..]. simpl. apply list_eq. intros q. rewrite !list_lookup_fmap.
  destruct (decide (p = q)) as [->|]; [|by rewrite list_lookup_alter_ne].
  rewrite list_lookup_alter_eq. by destruct (peers st !! q).
Qed.

Lemma shrinks_conn_Close st c : shrinks st (conn_Close c st).
Proof.
  unfold conn_Close. destruct (conns st !! c) as [cn|]; [|done]. destruct (closed cn); [done|].
  destruct (CloseCallback cn) as [cb|]; [|done].
  etrans; [|by instantiate (1 := close_callback cb st)]. unfold close_callback.
  pose proof (shrinks_LoadAndDelete st cb.1 cb.2) as Hs. destruct (root_LoadAndDelete _ _ _) as [[v|] st1]; [|done].
  etrans; [exact Hs|]. apply shrinks_clear.
Qed.

(** One visit keeps what earlier visits achieved. *)
Definition handled (j : nat) (k : string) (p : nat) (acc : State M * list string) : Prop :=
  k ∈ acc.2 ∨ ¬ at_map acc.1 j k p.
Definition visit_le (a a' : State M * list string) : Prop := shrinks a.1 a'.1 ∧ a.2 ⊆ a'.2.
#[local] Instance visit_le_preorder : PreOrder visit_le.
Proof.
  split.
  - by intros a.
  - intros a b c [H1 L1] [H2 L2]. split; [by etrans|set_solver].
Qed.

Lemma handled_le j k p a a' : visit_le a a' → handled j k p a → handled j k p a'.
Proof.
  intros [(Hs & _) Hl] [Hk|Hk]; [left; set_solver|right]. contradict Hk. by apply Hs.
Qed.

Definition expired_at (h : list Peer) (t : Z) (p : nat) : Prop := ∃ x, h !! p = Some x ∧ After t (LastSeen x) = true.

Lemma expired_seen h h' t p : LastSeen <$> h' = LastSeen <$> h → expired_at h t p → expired_at h' t p.
Proof.
  intros Hs (x & Hx & Ha). apply (f_equal (fun l => l !! p)) in Hs. rewrite !list_lookup_fmap, Hx in Hs.
  destruct (h' !! p) as [y|] eqn:Hy; [|done]. injection Hs as Hs. exists y. split; [done|]. by rewrite Hs.
Qed.

Lemma clean_visit_le t j a k p : visit_le a (clean_visit r j t a k p).1.
Proof.
  destruct a as [st tc]. unfold clean_visit. destruct (negb _); [done|].
  destruct (peers st !! p) as [x|]; [|done]. destruct (After _ _); [|done]. split; simpl; [|set_solver].
  destruct (Conn x) as [c|]; [|done]. destruct (_ =? _); [|done].
  etrans; [apply shrinks_conn_Close|apply shrinks_clear].
Qed.

Lemma clean_visit_handled t j a k p :
  expired_at (peers a.1) t p → handled j k p (clean_visit r j t a k p).1.
Proof.
  destruct a as [st tc]. intros (x & Hx & Ha). unfold clean_visit. simpl in Hx.
  case_bool_decide as Hb; cbn [negb].
  - rewrite Hx, Ha. left. simpl. set_solver.
  - right. simpl. by rewrite at_map_lookup.
Qed.

Lemma clean_visit_continue t j a k p : (clean_visit r j t a k p).2 = true.
Proof. unfold clean_visit. destruct a. by repeat case_match. Qed.

(** *** The whole sweep *)
Definition sweep (t : Z) (l : list (nat * M nat)) (acc : State M * list string) : State M * list string :=
  fold_left (fun acc jm => Range (clean_visit r jm.1 t) jm.2 acc) l acc.

Lemma fold_handled {B} (f : State M * list string → B → State M * list string)
    (Q : B → nat → string → nat → Prop) t l a :
  (∀ a b, visit_le a (f a b)) →
  (∀ a b j k p, Q b j k p → expired_at (peers a.1) t p → handled j k p (f a b)) →
  visit_le a (fold_left f l a) ∧
  ∀ b j k p, b ∈ l → Q b j k p → expired_at (peers a.1) t p → handled j k p (fold_left f l a).
Proof.
  intros Hle Hq. revert a. induction l as [|b l IH]; intros a; simpl.
  { split; [done|]. by intros b j k p ?%not_elem_of_nil. }
  destruct (IH (f a b)) as [IH1 IH2]. split; [etrans; [apply Hle|done]|].
  intros b' j k p [->|Hb]%elem_of_cons HQ He.
  - eapply handled_le; [exact IH1|]. by apply Hq.
  - apply (IH2 b'); [done..|]. eapply expired_seen; [|exact He]. apply Hle.
Qed.

Lemma Range_visits t j pm a :
  visit_le a (Range (clean_visit r j t) pm a) ∧
  ∀ k p, sm_view pm !! k = Some p → expired_at (peers a.1) t p → handled j k p (Range (clean_visit r j t) pm a).
Proof.
  unfold Range. rewrite range_loop_continue by apply clean_visit_continue.
  destruct (fold_handled (fun a e => (clean_visit r j t a e.1 e.2).1) (fun e j' k p => j' = j ∧ e = (k, p)) t (sm_Range pm) a)
    as [H1 H2].
  - intros a' e. apply clean_visit_le.
  - intros a' e j' k p [-> ->]. apply clean_visit_handled.
  - split; [done|]. intros k p Hk. apply (H2 (k, p)); [|done]. by apply sm_Range_elem.
Qed.

Lemma sweep_visits t l a :
  visit_le a (sweep t l a) ∧
  ∀ j pm k p, (j, pm) ∈ l → sm_view pm !! k = Some p → expired_at (peers a.1) t p → handled j k p (sweep t l a).
Proof.
  destruct (fold_handled (fun acc jm => Range (clean_visit r jm.1 t) jm.2 acc)
    (fun jm j k p => j = jm.1 ∧ sm_view jm.2 !! k = Some p) t l a) as [H1 H2].
  - intros a' [j pm]. apply Range_visits.
  - intros a' [j pm] j' k p [-> Hk]. by apply Range_visits.
  - split; [done|]. intros j pm k p Hin Hk. by apply (H2 (j, pm)).
Qed.

Definition numbered (ms : list (M nat)) : list (nat * M nat) := combine (seq 0 (length ms)) ms.
Lemma numbered_lookup n (ms : list (M nat)) j :
  combine (seq n (length ms)) ms !! j = (fun pm => ((n + j)%nat, pm)) <$> ms !! j.
Proof.
  revert n j. induction ms as [|pm ms IH]; intros n [|j]; simpl; try done.
  - by rewrite Nat.add_0_r.
  - rewrite IH. by rewrite Nat.add_succ_r.
Qed.
Lemma numbered_elem (ms : list (M nat)) j pm : (j, pm) ∈ numbered ms ↔ ms !! j = Some pm.
Proof.
  unfold numbered. rewrite list_elem_of_lookup. setoid_rewrite numbered_lookup. split.
  - intros (j' & Hj). apply fmap_Some in Hj as (pm' & Hpm & [= -> ->]). done.
  - intros Hj. exists j. by rewrite Hj.
Qed.

(** The removals after the sweep. *)
Definition remove_all (ks : list string) st : State M :=
  fold_left (fun st k => (root_LoadAndDelete r k st).2) ks st.

Lemma LoadAndDelete_gone st key j p : (r < length (roots st))%nat → ¬ at_map (root_LoadAndDelete r key st).2 j key p.
Proof.
  intros Hr (pm' & Hpm' & Hk). change (root_LoadAndDelete r key st).2
    with (put_root r (LoadAndDelete (peers st) key (root_at st r)).2 st) in Hpm'.
  rewrite root_at_put in Hpm' by done. unfold LoadAndDelete in Hpm'. simpl in Hpm'.
  rewrite map_map, list_lookup_fmap in Hpm'. apply fmap_Some in Hpm' as (pm & Hpm & ->).
  change (sm_view (sm_LoadAndDelete key pm).2 !! key = Some p) in Hk.
  by rewrite sm_LoadAndDelete_view, lookup_delete_eq in Hk.
Qed.

Lemma remove_all_spec ks st :
  (r < length (roots st))%nat →
  shrinks st (remove_all ks st) ∧ ∀ j k p, k ∈ ks → ¬ at_map (remove_all ks st) j k p.
Proof.
  unfold remove_all. revert st. induction ks as [|key ks IH]; intros st Hr; cbn [fold_left].
  { split; [done|]. by intros j k p ?%not_elem_of_nil. }
  destruct (root_LoadAndDelete_frame st r key) as (_ & Hl & _).
  destruct (IH (root_LoadAndDelete r key st).2) as (H1 & H3); [by rewrite Hl|].
  pose proof (shrinks_LoadAndDelete st r key) as Hs. split; [by etrans|].
  intros j k p [->|Hk]%elem_of_cons; [|by apply H3].
  intros Hat. apply H1 in Hat. by eapply LoadAndDelete_gone.
Qed.

Lemma Len_entries i : Len i = Z.of_nat (length (entries i)).
Proof.
  unfold Len, entries. assert (∀ (ms : list (M nat)) n,
    fold_left (fun count s => count + sm_Len s) ms n = n + Z.of_nat (length (flat_map sm_Range ms))) as Hms.
  { induction ms as [|pm ms IH]; intros n; simpl; [lia|].
    rewrite IH, length_app, <- sm_Range_length. lia. }
  by rewrite Hms.
Qed.

(** A clean-up that is due, in three parts. *)
Definition swept (now2 : Z) st : State M * list string :=
  sweep (expire_time cfg now2) (numbered (peerMap (root_at st r))) (st, []).
Definition finish (now3 : Z) st : State M :=
  let i := root_at st r in
  let st := put_root r (mkRoot (peerMap i) now3 (infoHash i) (currentActive i)) st in
  if Len i =? 0 then set_infoHashMap (sm_Delete (infoHash i) (infoHashMap st)).2 st else st.

Lemma cleanUp_due now1 now2 now3 st :
  (r < length (roots st))%nat →
  After (Add (lastClean (root_at st r)) (seconds (TTL (Tracker cfg)))) now1 = false →
  cleanUp cfg now1 now2 now3 r st
  = (Z.of_nat (length (swept now2 st).2), finish now3 (remove_all (swept now2 st).2 (swept now2 st).1)).
Proof.
  intros Hr Hd. unfold cleanUp. rewrite Hd. cbv zeta.
  change (fold_left _ (combine _ _) (st, [])) with (swept now2 st).
  destruct (sweep_visits (expire_time cfg now2) (numbered (peerMap (root_at st r))) (st, [])) as [[Hs _] _].
  fold (swept now2 st) in Hs. destruct (swept now2 st) as [st1 ks]. cbn [fst snd] in *.
  change (fold_left _ ks st1) with (remove_all ks st1).
  assert (r < length (roots st1))%nat as Hr1 by (destruct Hs as (_ & _ & _ & _ & ->); done).
  destruct (remove_all_spec ks st1 Hr1) as [(_ & _ & _ & _ & Hl) _].
  unfold finish. rewrite root_at_put by by rewrite Hl. done.
Qed.

Lemma root_at_finish now3 st :
  (r < length (roots st))%nat → peerMap (root_at (finish now3 st) r) = peerMap (root_at st r).
Proof.
  intros Hr. unfold finish. set (i := mkRoot _ _ _ _).
  assert (∀ st', roots st' = roots (put_root r i st) → root_at st' r = i) as Hi.
  { intros st' Hst'. rewrite (root_at_frame _ _ _ Hst'). by apply root_at_put. }
  destruct (_ =? 0); by rewrite Hi.
Qed.

Lemma entries_finish now3 st :
  (r < length (roots st))%nat → entries (root_at (finish now3 st) r) = entries (root_at st r).
Proof. intros Hr. unfold entries. by rewrite root_at_finish. Qed.

(** What a clean-up leaves. *)
Lemma cleanUp_rest now1 now2 now3 st :
  state_ok cfg st → (r < length (roots st))%nat →
  After (Add (lastClean (root_at st r)) (seconds (TTL (Tracker cfg)))) now1 = false →
  let st' := (cleanUp cfg now1 now2 now3 r st).2 in
  (∀ k p, (k, p) ∈ entries (root_at st' r) →
     (k, p) ∈ entries (root_at st r) ∧ ∃ x, peers st !! p = Some x ∧ live cfg now2 x = true) ∧
  (∀ ih, sm_Load ih (infoHashMap st')
         = if decide (ih = infoHash (root_at st r) ∧ entries (root_at st' r) = [])
           then None else sm_Load ih (infoHashMap st)).
Proof.
  intros Hok Hr Hd st'. unfold st'. rewrite cleanUp_due by done. cbn [snd].
  destruct (sweep_visits (expire_time cfg now2) (numbered (peerMap (root_at st r))) (st, [])) as [[Hs _] Hh].
  fold (swept now2 st) in Hs, Hh. destruct (swept now2 st) as [st1 ks]. cbn [fst snd] in *.
  assert (r < length (roots st1))%nat as Hr1 by (destruct Hs as (_ & _ & _ & _ & ->); done).
  destruct (remove_all_spec ks st1 Hr1) as [Hs2 Hgone]. set (st2 := remove_all ks st1) in *.
  assert (shrinks st st2) as Hs12 by by etrans.
  assert (r < length (roots st2))%nat as Hr2 by (destruct Hs12 as (_ & _ & _ & _ & ->); done).
  rewrite entries_finish by done. split.
  - intros k p Hkp. apply entries_at_map in Hkp as [j Hj].
    assert (at_map st j k p) as Hj0 by by apply Hs12.
    split; [apply entries_at_map; eauto|].
    destruct (entries_lookup cfg (peers st) (root_at st r) k p) as (x & Hx & _);
      [by apply root_at_ok|apply entries_at_map; eauto|].
    exists x. split; [done|]. unfold live. destruct (After (expire_time cfg now2) (LastSeen x)) eqn:Ha; [|done]. exfalso.
    destruct Hj0 as (pm & Hpm & Hk). apply numbered_elem in Hpm.
    destruct (Hh j pm k p Hpm Hk) as [Hin|Hnot]; [by exists x|by apply (Hgone j k p)|].
    apply Hnot. simpl. by apply Hs2.
  - intros ih. destruct Hs12 as (_ & _ & Hm & [= Hi _] & _). unfold finish. rewrite Len_entries.
    destruct (Z.eqb_spec (Z.of_nat (length (entries (root_at st2 r)))) 0) as [Hz|Hz].
    + assert (entries (root_at st2 r) = []) as -> by (apply length_zero_iff_nil; lia).
      simpl. rewrite !sm_Load_ret, sm_Delete_view, Hm, Hi.
      case_decide as Hc.
      * destruct Hc as [-> _]. apply lookup_delete_eq.
      * apply lookup_delete_ne. intros E. apply Hc. by rewrite E.
    + simpl. rewrite Hm. case_decide as Hc; [|done]. destruct Hc as [_ E]. by rewrite E in Hz.
Qed.

(** After a clean-up that was due, whatever connections it closed on the
    way, every entry left was there before and had not expired, and the torrent
    has left the index exactly if nothing remains of it. *)
Theorem cleanUp_no_expired now1 now2 now3 st :
  state_ok cfg st → (r < length (roots st))%nat →
  After (Add (lastClean (root_at st r)) (seconds (TTL (Tracker cfg)))) now1 = false →
  let st' := (cleanUp cfg now1 now2 now3 r st).2 in
  (∀ k p, (k, p) ∈ entries (root_at st' r) →
     (k, p) ∈ entries (root_at st r) ∧ ∃ x, peers st !! p = Some x ∧ live cfg now2 x = true) ∧
  (∀ ih, sm_Load ih (infoHashMap st')
         = if decide (ih = infoHash (root_at st r) ∧ entries (root_at st' r) = [])
           then None else sm_Load ih (infoHashMap st)).
Proof. apply cleanUp_rest. Qed.

(** *** The exact effect when no connection has to be closed *)

(** No expired entry holds an open WebTorrent connection. *)
Definition no_open_conn (now : Z) st : Prop :=
  ∀ k p x, (k, p) ∈ entries (root_at st r) → peers st !! p = Some x → live cfg now x = false →
    Conn x = None ∨ Type_ x ≠ PeerTypeWebtorrent.

Lemma clean_visit_quiet now j st tc k p :
  no_open_conn now st → at_map st j k p →
  (clean_visit r j (expire_time cfg now) (st, tc) k p).1
  = (st, tc ++ (List.filter (entry_expired cfg (peers st) now) [(k, p)]).*1).
Proof.
  intros Hq Hat. pose proof (proj1 (at_map_lookup _ _ _ _) Hat) as Hl. unfold clean_visit.
  rewrite bool_decide_eq_true_2 by done. cbn [negb List.filter]. unfold entry_expired. simpl.
  destruct (peers st !! p) as [x|] eqn:Hx; [|by rewrite app_nil_r].
  assert (After (expire_time cfg now) (LastSeen x) = negb (live cfg now x)) as ->
    by (unfold live; by rewrite negb_involutive).
  destruct (live cfg now x) eqn:Hlive; simpl; [by rewrite app_nil_r|].
  destruct (Hq k p x) as [->|Ht]; [apply entries_at_map; eauto|done|done|done|].
  destruct (Conn x); [|done]. by rewrite (proj2 (Z.eqb_neq _ _) Ht).
Qed.

Lemma Range_quiet now j pm st tc :
  no_open_conn now st → peerMap (root_at st r) !! j = Some pm →
  Range (clean_visit r j (expire_time cfg now)) pm (st, tc)
  = (st, tc ++ (List.filter (entry_expired cfg (peers st) now) (sm_Range pm)).*1).
Proof.
  intros Hq Hpm. unfold Range. rewrite range_loop_continue by apply clean_visit_continue.
  assert (∀ e, e ∈ sm_Range pm → at_map st j e.1 e.2) as Hl.
  { intros [k p] Hk. exists pm. split; [done|]. by apply sm_Range_elem. }
  revert tc Hl. generalize (sm_Range pm) as l. induction l as [|[k p] l IH]; intros tc Hl.
  - simpl. by rewrite app_nil_r.
  - cbn [fold_left]. rewrite clean_visit_quiet by (done || apply (Hl (k, p)); left).
    rewrite IH by (intros e He; apply Hl; by right). f_equal. rewrite <- app_assoc. f_equal.
    simpl. by destruct (entry_expired cfg (peers st) now (k, p)).
Qed.

Lemma swept_quiet now st :
  no_open_conn now st →
  swept now st = (st, (List.filter (entry_expired cfg (peers st) now) (entries (root_at st r))).*1).
Proof.
  intros Hq. unfold swept, sweep, entries.
  assert (∀ (ms : list (M nat)) n tc,
    (∀ j pm, ms !! j = Some pm → peerMap (root_at st r) !! (n + j)%nat = Some pm) →
    fold_left (fun acc jm => Range (clean_visit r jm.1 (expire_time cfg now)) jm.2 acc)
      (combine (seq n (length ms)) ms) (st, tc)
    = (st, tc ++ (List.filter (entry_expired cfg (peers st) now) (flat_map sm_Range ms)).*1)) as Hms.
  { induction ms as [|pm ms IH]; intros n tc Hl; simpl; [by rewrite app_nil_r|].
    rewrite Range_quiet; [|done|rewrite <- (Hl 0%nat pm) by done; by rewrite Nat.add_0_r].
    rewrite IH.
    - by rewrite List.filter_app, fmap_app, app_assoc.
    - intros j pm' Hj. rewrite Nat.add_succ_l, <- Nat.add_succ_r. by apply Hl. }
  unfold numbered. rewrite Hms; [done|]. intros j pm Hj. by rewrite Nat.add_0_l.
Qed.

(** Removing other keys leaves an entry alone. *)
Lemma remove_all_keeps ks st j k p :
  (r < length (roots st))%nat → k ∉ ks → at_map st j k p → at_map (remove_all ks st) j k p.
Proof.
  unfold remove_all. revert st. induction ks as [|key ks IH]; intros st Hr Hk Hat; cbn [fold_left]; [done|].
  apply not_elem_of_cons in Hk as [Hne Hk]. destruct Hat as (pm & Hpm & Hp).
  apply IH; [destruct (root_LoadAndDelete_frame st r key) as (_ & -> & _); done|done|].
  change (root_LoadAndDelete r key st).2
    with (put_root r (LoadAndDelete (peers st) key (root_at st r)).2 st).
  exists (sm_LoadAndDelete key pm).2. rewrite root_at_put by done. split.
  - unfold LoadAndDelete. simpl. by rewrite map_map, list_lookup_fmap, Hpm.
  - rewrite sm_LoadAndDelete_view. by rewrite lookup_delete_ne.
Qed.

Lemma cleanUp_entries now1 now2 now3 st :
  state_ok cfg st → (r < length (roots st))%nat → separated (root_at st r) → no_open_conn now2 st →
  After (Add (lastClean (root_at st r)) (seconds (TTL (Tracker cfg)))) now1 = false →
  let st' := (cleanUp cfg now1 now2 now3 r st).2 in
  peers st' = peers st ∧
  ∀ k p, (k, p) ∈ entries (root_at st' r) ↔
    (k, p) ∈ entries (root_at st r) ∧ ∃ x, peers st !! p = Some x ∧ live cfg now2 x = true.
Proof.
  intros Hok Hr Hsep Hq Hd st'. unfold st'. pose proof (cleanUp_rest now1 now2 now3 st Hok Hr Hd) as [Hlive _].
  rewrite cleanUp_due in Hlive |- * by done. rewrite swept_quiet in Hlive |- * by done. cbn [fst snd] in *.
  set (ks := (List.filter _ _).*1) in *.
  destruct (remove_all_spec ks st Hr) as [(_ & _ & _ & _ & Hl) _].
  split.
  - unfold finish. assert (peers (remove_all ks st) = peers st) as Hp.
    { unfold remove_all. apply (fold_left_ind (fun s => peers s = peers st)); [done|].
      intros s k _ <-. by destruct (root_LoadAndDelete_frame s r k). }
    by destruct (_ =? 0).
  - intros k p. split; [apply Hlive|]. intros [Hkp (x & Hx & Hlx)].
    rewrite entries_finish by by rewrite Hl. apply entries_at_map.
    pose proof (proj1 (entries_at_map _ _ _) Hkp) as [j Hj]. exists j.
    apply remove_all_keeps; [done| |done]. intros Hin. apply expired_elem in Hin as (p' & x' & Hkp' & Hx' & Hl').
    apply entries_at_map in Hkp' as [j' (pm' & Hpm' & Hk')]. destruct Hj as (pm & Hpm & Hk).
    assert (j = j') as <- by (eapply (Hsep j j' pm pm' k); eauto). congruence.
Qed.

(** When no expired entry holds an open WebTorrent connection and no key is
    filed twice, a clean-up that is due removes exactly the expired entries and
    reports how many there were; before the time is up it does nothing. *)
Theorem cleanUp_exact now1 now2 now3 st :
  state_ok cfg st → (r < length (roots st))%nat → separated (root_at st r) → no_open_conn now2 st →
  let '(n, st') := cleanUp cfg now1 now2 now3 r st in
  if After (Add (lastClean (root_at st r)) (seconds (TTL (Tracker cfg)))) now1
  then n = 0 ∧ st' = st
  else n = count (entry_expired cfg (peers st) now2) (entries (root_at st r)) ∧
       peers st' = peers st ∧
       ∀ k p, (k, p) ∈ entries (root_at st' r) ↔
         (k, p) ∈ entries (root_at st r) ∧ ∃ x, peers st !! p = Some x ∧ live cfg now2 x = true.
Proof.
  intros Hok Hr Hsep Hq.
  destruct (After (Add (lastClean (root_at st r)) (seconds (TTL (Tracker cfg)))) now1) eqn:Hd.
  { unfold cleanUp. by rewrite Hd. }
  destruct (cleanUp_entries now1 now2 now3 st Hok Hr Hsep Hq Hd) as [Hp He].
  rewrite cleanUp_due in Hp, He |- * by done. rewrite swept_quiet in Hp, He |- * by done. cbn [fst snd] in *.
  split_and!; [|exact Hp|exact He]. unfold count. by rewrite length_fmap.
Qed.
End Clean.

(** Peer A is last seen at the start, peer B 800 seconds later; the clean-up
    runs 1000 seconds after the start, with a time to live of 900 seconds. *)
Definition clean_time : Z := sample_time + 1000 * Second.
Definition stale_state : State Skip :=
  seq_announce_at (sample_time + 800 * Second) (sample_request "B" "T" "started" Byte.x02 7 50) seq_state1.

Lemma stale_state_ok : state_ok (sample_cfg 400) stale_state.
Proof. apply seq_announce_ok, seq_announce_ok, ok_new. Qed.

Lemma stale_state_table : separated (root_at stale_state 0).
Proof.
  intros a b pma pmb k Ha Hb Hka Hkb.
  assert (∀ c pmc, peerMap (root_at stale_state 0) !! c = Some pmc → is_Some (sm_view pmc !! k) → c = 0%nat) as H0.
  { clear. intros c pmc Hc [p Hp]. destruct c as [|[|[|c]]]; [done| | |]; vm_compute in Hc; try discriminate Hc;
      injection Hc as <-; discriminate Hp. }
  by rewrite (H0 a pma), (H0 b pmb).
Qed.

Lemma cleanUp_no_expired_witness :
  (∀ p, ("A"%string, p) ∉ entries (root_at (cleanUp (sample_cfg 400) clean_time clean_time clean_time 0 stale_state).2 0)) ∧
  sm_Load "T" (infoHashMap (cleanUp (sample_cfg 400) clean_time clean_time clean_time 0 stale_state).2) = Some 0%nat.
Proof.
  destruct (cleanUp_no_expired (sample_cfg 400) 0 clean_time clean_time clean_time stale_state stale_state_ok)
    as [H1 H2]; [apply Nat.ltb_lt; vm_compute; reflexivity|vm_compute; reflexivity|].
  split.
  - intros p Hp. destruct (H1 _ _ Hp) as [Hin (x & Hx & Hl)]. vm_compute in Hin.
    apply elem_of_cons in Hin as [Hin|Hin].
    + injection Hin as ->. vm_compute in Hx. injection Hx as <-. discriminate Hl.
    + apply list_elem_of_singleton in Hin. discriminate Hin.
  - rewrite H2. vm_compute. reflexivity.
Defined.

Lemma cleanUp_exact_witness :
  (cleanUp (sample_cfg 400) clean_time clean_time clean_time 0 stale_state).1 = 1 ∧
  entries (root_at stale_state 0) = [("A"%string, 0%nat); ("B"%string, 1%nat)].
Proof.
  pose proof (cleanUp_exact (sample_cfg 400) 0 clean_time clean_time clean_time stale_state stale_state_ok) as Hc.
  destruct (cleanUp (sample_cfg 400) clean_time clean_time clean_time 0 stale_state) as [n st'].
  split; [|vm_compute; reflexivity].
  assert (After (Add (lastClean (root_at stale_state 0)) (seconds (TTL (Tracker (sample_cfg 400))))) clean_time = false) as Hd
    by (vm_compute; reflexivity).
  rewrite Hd in Hc. destruct Hc as [Hn _]; [| | |rewrite Hn].
  - apply Nat.ltb_lt. vm_compute. reflexivity.
  - exact stale_state_table.
  - intros k p x _ Hx _. left. assert (Conn <$> peers stale_state = [None; None]) as E by (vm_compute; reflexivity).
    apply (f_equal (fun l => l !! p)) in E. rewrite list_lookup_fmap, Hx in E.
    destruct p as [|[|p]]; [injection E as ->|injection E as ->|discriminate E]; reflexivity.
  - vm_compute. reflexivity.
Defined.
