(* ===== verification/LocalSweep.v ===== *)
(** The clean-up of a whole shard ([Clean] of [local/clean.go]): torrent after
    torrent, where closing a WebTorrent connection in one may take a peer out of
    another. *)
From Stdlib Require Import ZArith Lia Bool Strings.String.
From stdpp Require Import base strings list gmap fin_maps relations.
From S2P Require Import Prelude GoStd Config Model Common Samples Mapx Local LocalInv LocalSafety LocalSpec LocalScrape LocalTable LocalClean.
Set Default Proof Using "Type*".
Local Open Scope Z_scope.

Section Sweep.
Context `{SyncStringMapLaws M}.
Context (cfg : Config).
Implicit Types (st : State M).

Definition due (now : Z) st (r : nat) : Prop :=
  After (Add (lastClean (root_at st r)) (seconds (TTL (Tracker cfg)))) now = false.
(** Only unexpired peers are in torrent [r]. *)
Definition only_live (now : Z) (r : nat) st : Prop :=
  ∀ k p, (k, p) ∈ entries (root_at st r) → ∃ x, peers st !! p = Some x ∧ live cfg now x = true.

(** Entries only disappear, in every torrent; a torrent leaves the index only
    when nothing remains of it. *)
Record fades st st' : Prop := mkFades {
  fa_entries r k p : (k, p) ∈ entries (root_at st' r) → (k, p) ∈ entries (root_at st r);
  fa_seen : LastSeen <$> peers st' = LastSeen <$> peers st;
  fa_roots : length (roots st') = length (roots st);
  fa_index ih :
    sm_Load ih (infoHashMap st') = sm_Load ih (infoHashMap st) ∨
    sm_Load ih (infoHashMap st') = None ∧
    ∀ r, sm_Load ih (infoHashMap st) = Some r → entries (root_at st' r) = [];
}.

Lemma entries_nil_le st st' r : fades st st' → entries (root_at st r) = [] → entries (root_at st' r) = [].
Proof.
  intros Hf E. destruct (entries (root_at st' r)) as [|[k p] l] eqn:E'; [done|].
  pose proof (fa_entries _ _ Hf r k p) as Hin. rewrite E, E' in Hin. exfalso. apply (not_elem_of_nil (k, p)), Hin. left.
Qed.

#[local] Instance fades_preorder : PreOrder fades.
Proof.
  split; [by intros st; split; auto|]. intros st1 st2 st3 H12 H23. split.
  - intros r k p Hin. by apply (fa_entries _ _ H12), (fa_entries _ _ H23).
  - by rewrite (fa_seen _ _ H23), (fa_seen _ _ H12).
  - by rewrite (fa_roots _ _ H23), (fa_roots _ _ H12).
  - intros ih. destruct (fa_index _ _ H23 ih) as [E|[E Hn]].
    + rewrite E. destruct (fa_index _ _ H12 ih) as [|[? Hn]]; [by left|right]. split; [done|].
      intros r Hr. by eapply entries_nil_le, Hn.
    + destruct (fa_index _ _ H12 ih) as [E1|[E1 Hn1]]; right; (split; [done|]); intros r Hr.
      * apply Hn. by rewrite E1.
      * by eapply entries_nil_le, Hn1.
Qed.

Lemma seen_live now st st' p :
  fades st st' → (∃ x, peers st !! p = Some x ∧ live cfg now x = true) → ∃ x, peers st' !! p = Some x ∧ live cfg now x = true.
Proof.
  intros Hf (x & Hx & Hlx). pose proof (fa_seen _ _ Hf) as Hs.
  apply (f_equal (fun l => l !! p)) in Hs. rewrite !list_lookup_fmap, Hx in Hs.
  destruct (peers st' !! p) as [y|]; [|done]. injection Hs as Hs. exists y. split; [done|]. unfold live in *. by rewrite Hs.
Qed.

Lemma only_live_fades now r st st' : fades st st' → only_live now r st → only_live now r st'.
Proof. intros Hf Hl k p Hkp%(fa_entries _ _ Hf)%Hl. by eapply seen_live. Qed.

(** Cleaning torrent [r] up, seen from any torrent [r']. *)
Lemma sweep_shrinks r r' t l a : shrinks r' a.1 (sweep r t l a).1.
Proof.
  unfold sweep. apply (fold_left_ind (fun b => shrinks r' a.1 b.1)); [done|]. intros b jm _ Hb.
  etrans; [exact Hb|]. unfold Range. rewrite range_loop_continue by apply clean_visit_continue.
  apply (fold_left_ind (fun c => shrinks r' b.1 c.1)); [done|]. intros [s tc] [k p] _ Hc. etrans; [exact Hc|]. cbn [fst snd].
  unfold clean_visit. destruct (negb _); [done|]. destruct (peers s !! p) as [x|]; [|done]. destruct (After _ _); [|done]. cbn [fst].
  destruct (Conn x) as [c|]; [|done]. destruct (_ =? _); [|done]. etrans; [apply shrinks_conn_Close|apply shrinks_clear].
Qed.

Lemma remove_all_shrinks r r' ks st : shrinks r' st (remove_all r ks st).
Proof.
  unfold remove_all. apply (fold_left_ind (fun s => shrinks r' st s)); [done|].
  intros s k _ Hs. etrans; [exact Hs|apply shrinks_LoadAndDelete].
Qed.

Lemma cleanUp_seen_from now r r' st :
  (r < length (roots st))%nat → due now st r →
  ∃ st2, shrinks r' st st2 ∧ (r < length (roots st2))%nat ∧ (cleanUp cfg now now now r st).2 = finish r now st2.
Proof.
  intros Hr Hd. rewrite cleanUp_due by done. cbn [snd]. set (a := swept _ _ _ _).
  exists (remove_all r a.2 a.1). assert (∀ q, shrinks q st (remove_all r a.2 a.1)) as Hs.
  { intros q. etrans; [|apply remove_all_shrinks]. apply (sweep_shrinks r q _ _ (st, [])). }
  split_and!; [apply Hs| |done]. destruct (Hs r) as (_ & _ & _ & _ & ->). done.
Qed.

Lemma finish_other now r r' st :
  (r < length (roots st))%nat →
  peerMap (root_at (finish r now st) r') = peerMap (root_at st r') ∧
  peers (finish r now st) = peers st ∧ length (roots (finish r now st)) = length (roots st) ∧
  (r' ≠ r → root_at (finish r now st) r' = root_at st r').
Proof.
  intros Hr. assert (r' ≠ r → root_at (finish r now st) r' = root_at st r') as Hne.
  { intros Hne. unfold finish. by destruct (_ =? 0); unfold root_at; simpl; rewrite list_lookup_insert_ne. }
  split_and!; [|unfold finish; by destruct (_ =? 0)|unfold finish; destruct (_ =? 0); simpl; by rewrite length_insert|done].
  destruct (decide (r' = r)) as [->|]; [by apply root_at_finish|by rewrite Hne].
Qed.

Lemma cleanUp_fades now r ih st :
  state_ok cfg st → (r < length (roots st))%nat → due now st r → ih = infoHash (root_at st r) →
  (∀ r0, sm_Load ih (infoHashMap st) = Some r0 → r0 = r) →
  let st' := (cleanUp cfg now now now r st).2 in
  fades st st' ∧ only_live now r st' ∧ ∀ r', r' ≠ r → due now st r' → due now st' r'.
Proof.
  intros Hok Hr Hd Hih Hinj st'.
  assert (∀ r' k p, (k, p) ∈ entries (root_at st' r') → (k, p) ∈ entries (root_at st r')) as Hent.
  { intros r' k p. destruct (cleanUp_seen_from now r r' st Hr Hd) as (st2 & Hs & Hr2 & E). unfold st'. rewrite E.
    unfold entries. rewrite (proj1 (finish_other now r r' st2 Hr2)). fold (entries (root_at st2 r')) (entries (root_at st r')).
    rewrite !entries_at_map. intros [j Hj]. exists j. by apply Hs. }
  destruct (cleanUp_rest cfg r now now now st Hok Hr Hd) as [Hlive Hidx]. fold st' in Hlive, Hidx.
  destruct (cleanUp_seen_from now r r st Hr Hd) as (st2 & (_ & Hseen & _ & _ & Hlen) & Hr2 & E).
  destruct (finish_other now r r st2 Hr2) as (_ & Hp & Hl & _). rewrite <- E in Hp, Hl. fold st' in Hp, Hl.
  assert (fades st st') as Hf.
  { split; [done|by rewrite Hp|by rewrite Hl|]. intros ih'. rewrite Hidx. case_decide as Hc; [right|by left].
    split; [done|]. destruct Hc as [-> Hnil]. intros r0. rewrite <- Hih. by intros ->%Hinj. }
  split_and!; [done| |].
  - intros k p [_ Hx]%Hlive. by eapply seen_live.
  - intros r' Hne. unfold due. destruct (cleanUp_seen_from now r r' st Hr Hd) as (st3 & (_ & _ & _ & [= _ Hlc] & _) & Hr3 & E3).
    unfold st'. rewrite E3. destruct (finish_other now r r' st3 Hr3) as (_ & _ & _ & Hq). by rewrite (Hq Hne), Hlc.
Qed.

Lemma cleanUp_hash now r st :
  (r < length (roots st))%nat → due now st r →
  ∀ r', infoHash (root_at (cleanUp cfg now now now r st).2 r') = infoHash (root_at st r').
Proof.
  intros Hr Hd r'. destruct (cleanUp_seen_from now r r' st Hr Hd) as (st2 & (_ & _ & _ & [= Hh _] & _) & Hr2 & ->).
  rewrite <- Hh. destruct (decide (r' = r)) as [->|Hne]; [|by rewrite (proj2 (proj2 (proj2 (finish_other now r r' st2 Hr2))))].
  unfold finish. by destruct (_ =? 0); unfold root_at; simpl; rewrite list_lookup_insert_eq.
Qed.

(** The torrents of a list, one after another. *)
Lemma fold_clean now (l : list (string * nat)) n st :
  state_ok cfg st → NoDup l.*2 →
  (∀ e, e ∈ l → (e.2 < length (roots st))%nat ∧ due now st e.2 ∧ e.1 = infoHash (root_at st e.2) ∧
     ∀ r0, sm_Load e.1 (infoHashMap st) = Some r0 → r0 = e.2) →
  let st' := (fold_left (fun '(count, st) kr =>
    let '(n, st) := cleanUp cfg now now now kr.2 st in (count + n, st)) l (n, st)).2 in
  fades st st' ∧ ∀ e, e ∈ l → only_live now e.2 st'.
Proof.
  revert n st. induction l as [|[ih r] l IH]; intros n st Hok Hnd Hl; cbn [fold_left].
  { split; [done|]. by intros e ?%not_elem_of_nil. }
  apply NoDup_cons in Hnd as [Hr Hnd]. destruct (Hl (ih, r)) as (Hlt & Hd & Hih & Hinj); [left|]. cbn [fst snd] in *.
  destruct (cleanUp_fades now r ih st Hok Hlt Hd Hih Hinj) as (Hf & Hlive & Hdue).
  destruct (cleanUp_ok cfg now now now r st Hok Hlt) as [Hok1 _].
  pose proof (cleanUp_hash now r st Hlt Hd) as Hhash.
  destruct (cleanUp cfg now now now r st) as [m st1]. cbn [snd] in *.
  destruct (IH (n + m) st1 Hok1 Hnd) as [Hf2 Hlive2].
  { intros e He. destruct (Hl e) as (H1 & H2 & H3 & H4); [by right|]. split_and!.
    - by rewrite (fa_roots _ _ Hf).
    - apply Hdue; [|done]. intros E. apply Hr. rewrite <- E. by apply list_elem_of_fmap_2.
    - by rewrite Hhash.
    - intros r0 E. apply H4. destruct (fa_index _ _ Hf e.1) as [<-|[E' _]]; [done|congruence]. }
  split; [by etrans|]. intros e [->|He]%elem_of_cons; [|by apply Hlive2]. by eapply only_live_fades.
Qed.

(** C11: When the clean-up of every torrent is due, then after [Clean], whatever
    connections it closed and whatever their callbacks took out of other
    torrents, no torrent of the shard holds an expired peer, every entry left
    was there before, and a torrent has left the index only if nothing remains of it. *)
Theorem Clean_no_expired now st :
  state_ok cfg st → (∀ ih r, sm_Load ih (infoHashMap st) = Some r → due now st r) →
  let st' := (Clean cfg now st).2 in
  ∀ ih r, sm_Load ih (infoHashMap st) = Some r →
    (∀ k p, (k, p) ∈ entries (root_at st' r) →
       (k, p) ∈ entries (root_at st r) ∧ ∃ x, peers st' !! p = Some x ∧ live cfg now x = true) ∧
    (sm_Load ih (infoHashMap st') = Some r ∨ sm_Load ih (infoHashMap st') = None ∧ entries (root_at st' r) = []).
Proof.
  intros Hok Hd st' ih r Hih. destruct (fold_clean now (sm_Range (infoHashMap st)) 0 st Hok) as [Hf Hlive].
  - apply NoDup_fmap_2_strong; [|apply (NoDup_fmap_1 fst), sm_Range_NoDup].
    intros [k1 r1] [k2 r2] H1 H2 E. cbn in E. subst r2. f_equal.
    apply sm_Range_elem in H1, H2. destruct (ok_map cfg st Hok _ _ H1) as (i1 & Hi1 & E1).
    destruct (ok_map cfg st Hok _ _ H2) as (i2 & Hi2 & E2). congruence.
  - intros [k r0] Hin%sm_Range_elem. destruct (ok_map cfg st Hok _ _ Hin) as (i & Hi & E).
    rewrite <- sm_Load_ret in Hin. cbn [fst snd]. split_and!.
    + by eapply lookup_lt_Some.
    + by eapply Hd.
    + unfold root_at. by rewrite Hi.
    + intros r1 Hr1. congruence.
  - fold (Clean cfg now st) in Hf, Hlive. change (Clean cfg now st).2 with st' in Hf, Hlive. split.
    + intros k p Hkp. split; [by apply (fa_entries _ _ Hf)|]. apply (Hlive (ih, r)) in Hkp; [done|].
      apply sm_Range_elem. by rewrite <- sm_Load_ret.
    + destruct (fa_index _ _ Hf ih) as [->|[? Hn]]; [by left|right]. split; [done|by apply Hn].
Qed.
End Sweep.

(** Peer A of [stale_state] has expired and goes; its torrent stays for peer B. *)
Lemma Clean_no_expired_witness :
  let st' := (Clean (sample_cfg 400) clean_time stale_state).2 in
  is_Some (torrent_of stale_state "T" !! "A"%string) ∧ (∀ p, ("A"%string, p) ∉ entries (root_at st' 0)) ∧
  sm_Load "T" (infoHashMap st') = Some 0%nat.
Proof.
  split; [vm_compute; by eexists|].
  destruct (Clean_no_expired (sample_cfg 400) clean_time stale_state stale_state_ok) with (ih := "T"%string) (r := 0%nat) as [H1 _].
  - intros ih r Hr. rewrite sm_Load_ret in Hr.
    assert (r = 0%nat) as ->; [|vm_compute; reflexivity].
    apply (ok_map _ _ stale_state_ok) in Hr as (i & Hi & _). apply lookup_lt_Some in Hi.
    assert (length (roots stale_state) = 1%nat) as El by (vm_compute; reflexivity). lia.
  - vm_compute. reflexivity.
  - split; [|vm_compute; reflexivity]. intros p Hp. destruct (H1 _ _ Hp) as [_ (x & Hx & Hl)].
    apply H1 in Hp as [Hin _]. vm_compute in Hin.
    apply elem_of_cons in Hin as [Hin|Hin].
    + injection Hin as ->. vm_compute in Hx. injection Hx as <-. discriminate Hl.
    + apply list_elem_of_singleton in Hin. discriminate Hin.
Defined.
