(* ===== verification/LocalRest.v ===== *)
(** The clean-up of a store at rest, on its tables: the torrents whose turn it is
    lose exactly their expired peers, and leave the index if none remains. *)
From Stdlib Require Import ZArith Lia Bool Strings.String.
From stdpp Require Import base strings list gmap fin_maps relations.
From S2P Require Import Prelude GoStd Config Model Common Samples Mapx Local LocalInv LocalSafety LocalSpec LocalScrape LocalTable LocalFrame LocalClean LocalSweep.
Set Default Proof Using "Type*".
Local Open Scope Z_scope.

Section Rest.
Context `{SyncStringMapLaws M}.
Context (cfg : Config).
Implicit Types (i : InfoHashRoot M) (st : State M).

(** A peer whose removal closes no connection. *)
Definition quiet_peer (x : Peer) : bool := bool_decide (Conn x = None) || negb (Type_ x =? PeerTypeWebtorrent).
Definition quiet st : Prop := ∀ ih k x, torrent_of st ih !! k = Some x → quiet_peer x = true.

(** Whose turn it is, and what is left of its table. *)
Definition is_due (now c : Z) : bool := negb (After (Add c (seconds (TTL (Tracker cfg)))) now).
Definition unexpired (now : Z) (t : gmap string Peer) : gmap string Peer := filter (fun kx => live cfg now kx.2 = true) t.

(** A torrent's table and the time of its last clean-up, if it is indexed. *)
Definition dated : Type := gmap string Peer * option Z.
Definition dated_of st (ih : string) : dated := (torrent_of st ih, cleaned_of st ih).
Definition clean_table (now : Z) (d : dated) : dated :=
  match d.2 with
  | Some c =>
      if is_due now c
      then let t := unexpired now d.1 in (t, if decide (t = ∅) then None else Some now)
      else d
  | None => d
  end.

(** ** One torrent *)
Lemma contents_entries i k p : separated i → contents i !! k = Some p ↔ (k, p) ∈ entries i.
Proof. intros Hs. by rewrite (entries_perm i Hs), elem_of_map_to_list. Qed.

Lemma table_Some h i k x :
  separated i → table h i !! k = Some x ↔ ∃ p, (k, p) ∈ entries i ∧ h !! p = Some x.
Proof.
  intros Hs. rewrite table_lookup, bind_Some. by setoid_rewrite (contents_entries i k _ Hs).
Qed.

Lemma remove_all_frame r ks st :
  let st' := remove_all r ks st in
  peers st' = peers st ∧ tasks st' = tasks st ∧ (∀ r', r' ≠ r → root_at st' r' = root_at st r') ∧
  (separated (root_at st r) → separated (root_at st' r)).
Proof.
  unfold remove_all. apply (fold_left_ind (fun s => peers s = peers st ∧ tasks s = tasks st ∧
    (∀ r', r' ≠ r → root_at s r' = root_at st r') ∧ (separated (root_at st r) → separated (root_at s r)))); [done|].
  intros s k _ (E1 & E2 & E3 & E4). set (i' := (LoadAndDelete (peers s) k (root_at s r)).2).
  change (root_LoadAndDelete r k s).2 with (put_root r i' s). split_and!; [done|done| |].
  - intros r' Hne. rewrite <- (E3 r' Hne). unfold root_at. simpl. by rewrite list_lookup_insert_ne.
  - intros Hs. destruct (root_at_put_cases r s i' r) as [->|[_ ->]]; [by apply E4|]. apply separated_LoadAndDelete. by apply E4.
Qed.

Lemma finish_frame r now st :
  (r < length (roots st))%nat →
  tasks (finish r now st) = tasks st ∧ lastClean (root_at (finish r now st) r) = now.
Proof. intros Hr. unfold finish. destruct (_ =? 0); (split; [done|]); unfold root_at; simpl; by rewrite list_lookup_insert_eq. Qed.

(** What a clean-up that is due does to the store. *)
Lemma cleanUp_frame now r st :
  state_ok cfg st → (r < length (roots st))%nat → separated (root_at st r) → no_open_conn cfg r now st →
  is_due now (lastClean (root_at st r)) = true →
  let st' := (cleanUp cfg now now now r st).2 in
  peers st' = peers st ∧ tasks st' = tasks st ∧ (∀ r', r' ≠ r → root_at st' r' = root_at st r') ∧
  separated (root_at st' r) ∧ lastClean (root_at st' r) = now ∧
  ∀ k p, (k, p) ∈ entries (root_at st' r) ↔ (k, p) ∈ entries (root_at st r) ∧ ∃ x, peers st !! p = Some x ∧ live cfg now x = true.
Proof.
  intros Hok Hr Hsep Hq Hd st'. apply negb_true_iff in Hd.
  pose proof (cleanUp_entries cfg r now now now st Hok Hr Hsep Hq Hd) as [Hp He]. fold st' in Hp, He.
  unfold st' in *. clear st'. rewrite cleanUp_due in * by done. rewrite swept_quiet in * by done. cbn [fst snd] in *.
  set (ks := (List.filter _ _).*1) in *.
  destruct (remove_all_frame r ks st) as (E1 & E2 & E3 & E4). specialize (E4 Hsep).
  destruct (remove_all_spec r ks st Hr) as [(_ & _ & _ & _ & Hl) _].
  set (st2 := remove_all r ks st) in *. rewrite <- Hl in Hr.
  destruct (finish_frame r now st2 Hr) as [F1 F2]. split_and!; [done|by rewrite F1| |by unfold separated; rewrite root_at_finish|done|done].
  intros r' Hne. rewrite <- (E3 r' Hne). by apply (finish_other now r r' st2 Hr).
Qed.

(** The torrent of an info hash in a quiet store. *)
Lemma quiet_no_open now r st ih :
  idle cfg st → quiet st → sm_Load ih (infoHashMap st) = Some r → no_open_conn cfg r now st.
Proof.
  intros Hi Hq Hih k p x Hk Hx _. rewrite sm_Load_ret in Hih.
  assert (quiet_peer x = true) as Hp.
  { apply (Hq ih k). rewrite (torrent_of_eq st ih r Hih). apply table_Some; [|by exists p].
    apply (idle_separated _ _ Hi ih). by rewrite sm_Load_ret. }
  unfold quiet_peer in Hp. apply orb_true_iff in Hp as [Hp%bool_decide_eq_true|Hp]; [by left|right].
  by apply negb_true_iff, Z.eqb_neq in Hp.
Qed.

Section Due.
Context (now : Z) (r : nat) st (ih : string).
Hypothesis at_rest : idle cfg st.
Hypothesis no_conns : quiet st.
Hypothesis filed : sm_Load ih (infoHashMap st) = Some r.
Hypothesis due : is_due now (lastClean (root_at st r)) = true.
Let st' := (cleanUp cfg now now now r st).2.
Let left := unexpired now (torrent_of st ih).

Lemma due_frame :
  (r < length (roots st))%nat ∧ peers st' = peers st ∧ tasks st' = tasks st ∧ (∀ r', r' ≠ r → root_at st' r' = root_at st r') ∧
  separated (root_at st' r) ∧ lastClean (root_at st' r) = now ∧
  ∀ k p, (k, p) ∈ entries (root_at st' r) ↔ (k, p) ∈ entries (root_at st r) ∧ ∃ x, peers st !! p = Some x ∧ live cfg now x = true.
Proof.
  assert (sm_view (infoHashMap st) !! ih = Some r) as Hv by by rewrite <- sm_Load_ret.
  destruct (indexed_root_ok cfg st ih r (idle_ok _ _ at_rest) Hv) as [Hr _]. split; [done|].
  apply cleanUp_frame; [apply at_rest|done|by apply (idle_separated _ _ at_rest ih)|by apply quiet_no_open with ih|done].
Qed.

Lemma due_table : table (peers st') (root_at st' r) = left.
Proof.
  destruct due_frame as (_ & Ep & _ & _ & Hs & _ & He).
  assert (separated (root_at st r)) as Hs0 by by apply (idle_separated _ _ at_rest ih).
  apply map_eq. intros k. apply option_eq. intros x. unfold left, unexpired. rewrite map_lookup_filter_Some.
  rewrite (torrent_of_eq st ih r) by by rewrite <- sm_Load_ret. rewrite !table_Some, Ep by done. setoid_rewrite He. cbn [snd]. split.
  - intros (p & [Hk (y & Hy & Hly)] & Hx). rewrite Hy in Hx. injection Hx as <-. by split; [exists p|].
  - intros [(p & Hk & Hx) Hl]. exists p. by eauto.
Qed.

Lemma due_index ih' :
  sm_Load ih' (infoHashMap st') = if decide (ih' = ih ∧ left = ∅) then None else sm_Load ih' (infoHashMap st).
Proof.
  destruct due_frame as (Hr & Ep & _ & _ & Hs & _ & He).
  assert (sm_view (infoHashMap st) !! ih = Some r) as Hv by by rewrite <- sm_Load_ret.
  destruct (ok_map cfg st (idle_ok _ _ at_rest) _ _ Hv) as (i & Hi & Eih).
  assert (infoHash (root_at st r) = ih) as Eh by (unfold root_at; by rewrite Hi).
  destruct (cleanUp_rest cfg r now now now st (idle_ok _ _ at_rest) Hr) as [_ Hidx]; [by apply negb_true_iff|].
  fold st' in Hidx. rewrite Hidx, Eh. apply decide_ext.
  assert (entries (root_at st' r) = [] ↔ left = ∅) as ->; [|done]. rewrite <- due_table. split; intros E.
  - apply map_eq. intros k. apply option_eq. intros x. rewrite table_Some by done. rewrite E, lookup_empty. split; [|done].
    by intros (p & ?%not_elem_of_nil & _).
  - destruct (entries (root_at st' r)) as [|[k p] l] eqn:El; [done|]. exfalso.
    assert ((k, p) ∈ entries (root_at st' r)) as Hin by (rewrite El; left). rewrite <- El in He.
    destruct (proj1 (He k p) Hin) as [_ (x & Hx & _)]. rewrite <- Ep in Hx.
    assert (table (peers st') (root_at st' r) !! k = Some x) as Hk by (apply table_Some; eauto). by rewrite E, lookup_empty in Hk.
Qed.

Lemma due_idle : idle cfg st'.
Proof.
  destruct due_frame as (Hr & Ep & Et & Hne & Hs & _ & He).
  assert (∀ ih' r', sm_view (infoHashMap st') !! ih' = Some r' → sm_view (infoHashMap st) !! ih' = Some r') as Hsub.
  { intros ih' r'. rewrite <- !sm_Load_ret, due_index. by case_decide. }
  assert (∀ r' k p, (k, p) ∈ entries (root_at st' r') → (k, p) ∈ entries (root_at st r')) as Hent.
  { intros r' k p. destruct (decide (r' = r)) as [->|Hn]; [by intros [? _]%He|by rewrite Hne]. }
  split; [by apply cleanUp_ok, Hr; apply at_rest|by rewrite Et; apply at_rest| |].
  - intros ih' r'. rewrite sm_Load_ret. intros Hr'%Hsub. destruct (decide (r' = r)) as [->|Hn]; [done|].
    rewrite Hne by done. apply (idle_separated _ _ at_rest ih'). by rewrite sm_Load_ret.
  - intros ih1 ih2 r1 r2 k1 k2 p H1%Hsub H2%Hsub Hk1%Hent Hk2%Hent.
    by apply (idle_disjoint _ _ at_rest ih1 ih2 r1 r2 k1 k2 p).
Qed.

Lemma due_dated ih' : dated_of st' ih' = if decide (ih' = ih) then (left, if decide (left = ∅) then None else Some now) else dated_of st ih'.
Proof.
  destruct due_frame as (Hr & Ep & _ & Hne & _ & Hc & _). unfold dated_of, torrent_of, cleaned_of. rewrite due_index.
  destruct (decide (ih' = ih)) as [->|Hn].
  - destruct (decide (left = ∅)) as [E|E].
    + rewrite decide_True by done. by rewrite E.
    + rewrite decide_False by naive_solver. rewrite filed, due_table. cbn [fmap option_fmap option_map]. by rewrite Hc.
  - rewrite decide_False by naive_solver. destruct (sm_Load ih' (infoHashMap st)) as [r'|] eqn:E; [|done]. cbn [fmap option_fmap option_map].
    rewrite Ep, Hne; [done|]. intros ->. rewrite sm_Load_ret in E. pose proof filed as E'. rewrite sm_Load_ret in E'.
    by apply Hn, (indexed_inj cfg st ih' ih r (idle_ok _ _ at_rest)).
Qed.
End Due.

(** One turn of [Clean]. *)
Lemma cleanUp_idle now r st ih :
  idle cfg st → quiet st → sm_Load ih (infoHashMap st) = Some r →
  let st' := (cleanUp cfg now now now r st).2 in
  idle cfg st' ∧ quiet st' ∧ (∀ ih', ih' ≠ ih → sm_Load ih' (infoHashMap st') = sm_Load ih' (infoHashMap st)) ∧
  ∀ ih', dated_of st' ih' = if decide (ih' = ih) then clean_table now (dated_of st ih) else dated_of st ih'.
Proof.
  intros Hi Hq Hih st'. assert (cleaned_of st ih = Some (lastClean (root_at st r))) as Hc by (unfold cleaned_of; by rewrite Hih).
  unfold clean_table. cbn [snd dated_of]. rewrite Hc. destruct (is_due now (lastClean (root_at st r))) eqn:Hd.
  - pose proof (due_dated now r st ih Hi Hq Hih Hd) as Hdat. split_and!; [by apply due_idle with ih| | |done].
    + intros ih' k x. specialize (Hdat ih'). fold st' in Hdat. apply (f_equal fst) in Hdat. cbn [fst dated_of] in Hdat. rewrite Hdat.
      case_decide; cbn [fst dated_of]; [|by apply Hq]. intros [Hk _]%map_lookup_filter_Some. by apply (Hq ih k).
    + intros ih' Hne. unfold st'. rewrite (due_index now r st ih Hi Hq Hih Hd). by rewrite decide_False by naive_solver.
  - assert (st' = st) as ->; [|by split_and!; [..|intros ih'; case_decide; subst]].
    unfold st', cleanUp. apply negb_false_iff in Hd. by rewrite Hd.
Qed.

(** ** The shard *)
Lemma fold_cleanUp now (l : list (string * nat)) n st :
  idle cfg st → quiet st → NoDup l.*1 → (∀ e, e ∈ l → sm_Load e.1 (infoHashMap st) = Some e.2) →
  let st' := (fold_left (fun '(count, st) kr =>
    let '(n, st) := cleanUp cfg now now now kr.2 st in (count + n, st)) l (n, st)).2 in
  idle cfg st' ∧ ∀ ih, dated_of st' ih = if decide (ih ∈ l.*1) then clean_table now (dated_of st ih) else dated_of st ih.
Proof.
  revert n st. induction l as [|[ih r] l IH]; intros n st Hi Hq Hnd Hl; cbn [fold_left].
  { split; [done|]. intros ih. by rewrite decide_False by apply not_elem_of_nil. }
  apply NoDup_cons in Hnd as [Hn Hnd].
  destruct (cleanUp_idle now r st ih Hi Hq (Hl (ih, r) ltac:(left))) as (Hi1 & Hq1 & Hidx & Hd). cbn [fst snd] in *.
  destruct (cleanUp cfg now now now r st) as [m st1]. cbn [snd] in *.
  destruct (IH (n + m) st1 Hi1 Hq1 Hnd) as [Hi2 Hd2].
  { intros [k q] He. cbn [fst snd]. rewrite Hidx; [by apply (Hl (k, q)); right|]. intros ->. apply Hn, list_elem_of_fmap.
    by exists (ih, q). }
  split; [done|]. intros ih'. rewrite Hd2, !Hd. destruct (decide (ih' = ih)) as [->|Hne].
  - rewrite decide_False by done. by rewrite decide_True by by left.
  - apply decide_ext. csimpl. rewrite elem_of_cons. naive_solver.
Qed.

(** [Clean] of a quiet store at rest. *)
Lemma Clean_idle now st :
  idle cfg st → quiet st →
  idle cfg (Clean cfg now st).2 ∧ ∀ ih, dated_of (Clean cfg now st).2 ih = clean_table now (dated_of st ih).
Proof.
  intros Hi Hq. destruct (fold_cleanUp now (sm_Range (infoHashMap st)) 0 st Hi Hq) as [Hi' Hd].
  - apply sm_Range_NoDup.
  - intros [ih r] Hin%sm_Range_elem. by rewrite sm_Load_ret.
  - split; [exact Hi'|]. intros ih. fold (Clean cfg now st) in Hd. rewrite Hd. case_decide as Hin; [done|].
    assert (sm_Load ih (infoHashMap st) = None) as E.
    { rewrite sm_Load_ret. destruct (sm_view _ !! ih) as [r|] eqn:E; [|done]. destruct Hin.
      apply list_elem_of_fmap. exists (ih, r). split; [done|]. by apply sm_Range_elem. }
    unfold clean_table, dated_of, cleaned_of. by rewrite E.
Qed.
End Rest.
