(* ===== verification/LocalExpire.v ===== *)
(** Expired peers leave: the goroutine a scrape starts removes every peer it
    found expired, and nothing else, and then ends. *)
From Stdlib Require Import ZArith Lia Bool Strings.String.
From stdpp Require Import base strings list gmap fin_maps relations.
From S2P Require Import Prelude GoStd Config Model Common Samples Mapx Local LocalInv LocalSafety LocalSpec LocalScrape LocalTable LocalClean.
Set Default Proof Using "Type*".
Local Open Scope Z_scope.

Section Expire.
Context `{SyncStringMapLaws M}.
Context (cfg : Config).
Implicit Types (st : State M) (i : InfoHashRoot M) (ms : list (M nat)).

Lemma separated_cons pm ms :
  separated_maps (pm :: ms) →
  separated_maps ms ∧ ∀ k, is_Some (sm_view pm !! k) → views ms !! k = None.
Proof.
  intros Hs. split.
  - intros a b pma pmb k Ha Hb Hka Hkb. assert (S a = S b) by (by apply (Hs (S a) (S b) pma pmb k)). lia.
  - intros k Hk. destruct (views ms !! k) as [p|] eqn:Hv; [|done].
    apply views_Some in Hv as (pm' & [b Hb]%list_elem_of_lookup & Hp).
    by specialize (Hs 0%nat (S b) pm pm' k eq_refl Hb Hk (mk_is_Some _ _ Hp)).
Qed.

(** On maps without a common key, one [Delete] is enough. *)
Lemma views_delete_maps key ms :
  separated_maps ms → views (delete_maps key false ms).2 = delete key (views ms).
Proof.
  assert (∀ ms : list (M nat), (delete_maps key true ms).2 = ms) as Ht.
  { induction ms0 as [|pm ms0 IH]; [done|]. simpl in *. destruct (delete_maps key true ms0). simpl in *. by rewrite IH. }
  induction ms as [|pm ms IH]; intros Hs; [unfold views; simpl; by rewrite delete_empty|].
  destruct (separated_cons _ _ Hs) as [Hs' Hd]. simpl.
  pose proof (sm_Delete_ret key pm) as Hr. pose proof (sm_Delete_view key pm) as Hv.
  destruct (sm_Delete key pm) as [b pm']. simpl in Hr, Hv. subst b. case_bool_decide as Hk.
  - specialize (Ht ms). destruct (delete_maps key true ms) as [b ms']. simpl in *. subst ms'. unfold views. simpl.
    rewrite Hv, delete_union. f_equal. symmetry. by apply delete_id, Hd.
  - specialize (IH Hs'). destruct (delete_maps key false ms) as [b ms']. simpl in *. unfold views in *. simpl.
    by rewrite Hv, IH, delete_union.
Qed.

Lemma contents_Delete key i : separated i → contents (Delete key i).2 = delete key (contents i).
Proof.
  intros Hs. unfold contents, Delete. pose proof (views_delete_maps key (peerMap i) Hs) as Hv.
  by destruct (delete_maps key false (peerMap i)).
Qed.

Lemma delete_maps_subset key b ms : Forall2 (fun pm pm' => sm_view pm' ⊆ sm_view pm) ms (delete_maps key b ms).2.
Proof.
  revert b. induction ms as [|pm ms IH]; intros b; [constructor|]. simpl. destruct b.
  - specialize (IH true). destruct (delete_maps key true ms). by constructor.
  - pose proof (sm_Delete_view key pm) as Hv. destruct (sm_Delete key pm) as [b pm']. simpl in Hv.
    specialize (IH b). destruct (delete_maps key b ms). simpl. constructor; [|done]. rewrite Hv. apply delete_subseteq.
Qed.

Lemma separated_Delete key i : separated i → separated (Delete key i).2.
Proof.
  intros Hs. unfold Delete. pose proof (delete_maps_subset key false (peerMap i)) as Hf.
  destruct (delete_maps key false (peerMap i)). by eapply separated_subset.
Qed.

(** Deleting a list of keys. *)
Definition delete_all (ks : list string) i : InfoHashRoot M := fold_left (fun i k => (Delete k i).2) ks i.

Lemma delete_all_contents ks i :
  separated i →
  separated (delete_all ks i) ∧
  ∀ k, contents (delete_all ks i) !! k = if decide (k ∈ ks) then None else contents i !! k.
Proof.
  unfold delete_all. revert i. induction ks as [|key ks IH]; intros i Hs; cbn [fold_left].
  { split; [done|]. intros k. rewrite decide_False; [done|]. apply not_elem_of_nil. }
  destruct (IH _ (separated_Delete key i Hs)) as [Hs' Hk]. split; [done|].
  intros k. rewrite Hk, contents_Delete by done. destruct (decide (k ∈ ks)) as [Hin|Hin].
  - rewrite decide_True; [done|]. by right.
  - destruct (decide (k = key)) as [->|Hne].
    + rewrite decide_True by left. apply lookup_delete_eq.
    + rewrite lookup_delete_ne by done. rewrite decide_False; [done|]. by intros [?|?]%elem_of_cons.
Qed.

(** The goroutine, run to its end. *)
Lemma run_expire ks r now st n :
  (r < length (roots st))%nat → tasks st = [TaskExpire r ks] → (0 < length ks ≤ n)%nat →
  run_all cfg n now st = set_tasks [] (put_root r (delete_all ks (root_at st r)) st).
Proof.
  revert st n. induction ks as [|k ks IH]; intros st n Hr Ht Hn; [simpl in Hn; lia|].
  destruct n as [|n]; [simpl in Hn; lia|]. rewrite (run_all_cons _ _ _ _ _ _ Ht). cbn [run_task].
  set (st1 := put_root r _ _). destruct ks as [|k' ks].
  - rewrite run_all_done by done. unfold st1. by destruct st.
  - rewrite IH; [|simpl; by rewrite length_insert|done|simpl in *; lia].
    assert (root_at (spawn (TaskExpire r (k' :: ks)) st1) r = (Delete k (root_at st r)).2) as ->.
    { change (root_at st1 r = (Delete k (root_at st r)).2). unfold st1. by rewrite root_at_put. }
    unfold delete_all at 2. cbn [fold_left]. unfold st1. destruct st. unfold put_root, set_roots, set_tasks, spawn. cbn.
    by rewrite list_insert_insert_eq.
Qed.

(** The expired keys of a torrent, as the scrape collects them. *)
Lemma torrent_live now st r ih :
  state_ok cfg st → sm_Load ih (infoHashMap st) = Some r → separated (root_at st r) →
  table (peers st) (delete_all (List.filter (entry_expired cfg (peers st) now) (entries (root_at st r))).*1 (root_at st r))
  = filter (fun e => live cfg now e.2 = true) (torrent_of st ih).
Proof.
  intros Hok Hih Hs. unfold torrent_of. rewrite Hih. set (i := root_at st r) in *.
  set (ks := (List.filter _ _).*1). destruct (delete_all_contents ks i Hs) as [_ Hc].
  apply map_eq. intros k. rewrite table_lookup, Hc, map_lookup_filter, table_lookup.
  assert (∀ p x, contents i !! k = Some p → peers st !! p = Some x → k ∈ ks ↔ live cfg now x = false) as Hl.
  { intros p x Hp Hx. unfold ks. rewrite expired_elem. setoid_rewrite entries_elem. setoid_rewrite sm_Load_ret. split.
    - intros (p' & x' & (pm & Hpm & Hk) & Hx' & Hl). assert (contents i !! k = Some p') by (by eapply views_Some_sep).
      congruence.
    - intros Hl. apply views_Some in Hp. exists p, x. naive_solver. }
  destruct (contents i !! k) as [p|] eqn:Hp; [|by destruct (decide _)]. cbn [mbind option_bind].
  destruct (peers st !! p) as [x|] eqn:Hx; cbn; [|destruct (decide (k ∈ ks)); cbn; [done|by rewrite Hx]].
  specialize (Hl p x eq_refl Hx). destruct (decide (k ∈ ks)) as [Hk|Hk]; cbn.
  - apply Hl in Hk. by rewrite option_guard_False by (cbn; congruence).
  - rewrite Hx, option_guard_True; [done|]. cbn. destruct (live cfg now x); [done|]. by destruct Hk; apply Hl.
Qed.

(** C10: From a quiet store, a scrape that is not answered from the cache lets
    every expired peer of its torrent leave: the goroutine it starts ends, after
    at most as many steps as the torrent has entries, and what it leaves of the
    torrent is exactly its unexpired peers; nothing else of the store changes. *)
Theorem expired_leave now now' cached ih st n :
  state_ok cfg st → tasks st = [] → separated_at st ih →
  redis_Enable (Cache cfg) = false ∨ cached = None →
  (∀ r, sm_Load ih (infoHashMap st) = Some r → Len (root_at st r) ≤ Z.of_nat n) →
  let st' := run_all cfg n now' (Scrape cfg now cached ih st).1.2 in
  tasks st' = [] ∧ torrent_of st' ih = filter (fun e => live cfg now e.2 = true) (torrent_of st ih) ∧
  (∀ ih', ih' ≠ ih → torrent_of st' ih' = torrent_of st ih') ∧ peers st' = peers st ∧ infoHashMap st' = infoHashMap st.
Proof.
  intros Hok Ht Hs Hc Hn st'. unfold st'. destruct (sm_Load ih (infoHashMap st)) as [r|] eqn:Hr.
  2: { unfold Scrape. rewrite Hr. cbn [fst snd]. rewrite run_all_done by done. split_and!; [done| |done..].
       unfold torrent_of. by rewrite Hr, map_filter_empty. }
  specialize (Hs r Hr). specialize (Hn r eq_refl). rewrite Len_entries in Hn.
  rewrite (Scrape_eq cfg now cached ih st r Hr Hc). cbn [fst snd].
  pose proof (torrent_live now st r ih Hok Hr Hs) as Hlive. set (ks := (List.filter _ _).*1) in *.
  assert (length ks ≤ length (entries (root_at st r)))%nat as Hks by (unfold ks; rewrite length_fmap; apply filter_length_le).
  pose proof Hr as Hv. rewrite sm_Load_ret in Hv. destruct (ok_map cfg st Hok _ _ Hv) as (i & Hi & Hih).
  assert (r < length (roots st))%nat as Hlt by by eapply lookup_lt_Some.
  destruct ks as [|k ks'] eqn:Eks.
  - cbn [length Nat.ltb Nat.leb]. rewrite run_all_done by done. split_and!; [done| |done..].
    rewrite <- Hlive. unfold torrent_of. by rewrite Hr.
  - cbn [length Nat.ltb Nat.leb]. erewrite run_expire; [|done|simpl; by rewrite Ht|simpl in *; lia].
    change (root_at (spawn (TaskExpire r (k :: ks')) st) r) with (root_at st r).
    split_and!; [done| | |done|done].
    + rewrite <- Hlive. unfold torrent_of at 1. cbn [set_tasks put_root set_roots spawn infoHashMap peers]. rewrite Hr.
      f_equal. change (root_at (put_root r (delete_all (k :: ks') (root_at st r)) st) r = delete_all (k :: ks') (root_at st r)).
      by apply root_at_put.
    + intros ih' Hne. unfold torrent_of. cbn [set_tasks put_root set_roots spawn infoHashMap peers].
      destruct (sm_Load ih' (infoHashMap st)) as [r'|] eqn:Hr'; [|done]. f_equal.
      rewrite sm_Load_ret in Hr'. destruct (ok_map cfg st Hok _ _ Hr') as (i' & Hi' & Hih').
      unfold root_at. simpl. rewrite list_lookup_insert_ne; [done|]. intros ->. congruence.
Qed.
End Expire.

(** Peer A of [stale_state] has expired, peer B has not. *)
Lemma expired_leave_witness :
  let st' := run_all (sample_cfg 400) 2 clean_time (Scrape (sample_cfg 400) clean_time None "T" stale_state).1.2 in
  is_Some (torrent_of stale_state "T" !! "A"%string) ∧ tasks st' = [] ∧ (map_to_list (torrent_of st' "T")).*1 = ["B"%string].
Proof.
  split; [vm_compute; by eexists|].
  destruct (expired_leave (sample_cfg 400) clean_time clean_time None "T" stale_state 2 stale_state_ok) as (H1 & H2 & _).
  - vm_compute. reflexivity.
  - intros r Hr. vm_compute in Hr. injection Hr as <-. exact stale_state_table.
  - right. reflexivity.
  - intros r Hr. vm_compute in Hr. injection Hr as <-. vm_compute. discriminate.
  - split; [exact H1|]. rewrite H2. vm_compute. reflexivity.
Defined.
