(* ===== verification/Cache.v ===== *)
(** The scrape cache ([service/cache/utils.go]) and scrapes through it.

    The redis client and the msgpack codec are classes.  A cached answer is a
    recent one: whatever the store has been doing meanwhile, it is what a scrape
    of that torrent counted less than five minutes ago. *)
From Stdlib Require Import ZArith Lia Bool Strings.String.
From stdpp Require Import base strings list gmap.
From S2P Require Import Prelude GoStd Config Model Common Samples Mapx Local LocalScrape LocalTable.
Set Default Proof Using "Type*".
Local Open Scope Z_scope.

(** [Client.Get(..).Result()] ([Ok None] is [redis.Nil]), [Client.Set(..).Err()],
    and the codec of [ScrapeFile].  [rd_Set now key str expired]. *)
Class Redis (R : Type) := {
  rd_Get : Z → string → R → result (option string);
  rd_Set : Z → string → string → Z → R → option string * R;
}.
Class Msgpack (V : Type) := { mp_Marshal : V → result string; mp_Unmarshal : string → result V }.

(** A value that is read is the one last set, and its time is not over; a server
    may forget values at any time. *)
Class RedisLaws (R : Type) `{Redis R} := {
  rd_Set_same now now' k v e r x :
    rd_Get now' k (rd_Set now k v e r).2 = Ok (Some x) →
    (x = v ∧ now' < now + e) ∨ (is_Some (rd_Set now k v e r).1 ∧ rd_Get now' k r = Ok (Some x));
  rd_Set_other now now' k k' v e r x :
    k ≠ k' → rd_Get now' k' (rd_Set now k v e r).2 = Ok (Some x) → rd_Get now' k' r = Ok (Some x);
}.
(** [Client.Del(..).Err()]; a deletion that succeeds leaves nothing under the key. *)
Class RedisDel (R : Type) := { rd_Del : string → R → option string * R }.
Class RedisDelLaws (R : Type) `{Redis R} `{!RedisDel R} := {
  rd_Del_same now k r x : (rd_Del k r).1 = None → rd_Get now k (rd_Del k r).2 ≠ Ok (Some x);
  rd_Del_other now k k' r x : rd_Get now k' (rd_Del k r).2 = Ok (Some x) → rd_Get now k' r = Ok (Some x);
}.
Class MsgpackLaws (V : Type) `{Msgpack V} := {
  mp_roundtrip v s : mp_Marshal v = Ok s → mp_Unmarshal s = Ok v;
}.

Section Cache.
Context {R : Type} `{Redis R}.

Definition Get {V} `{Msgpack V} (now : Z) (key : string) (r : R) : option V :=
  match rd_Get now key r with
  | Ok None => None
  | Err _ => None
  | Ok (Some str) =>
      if bool_decide (str = ""%string) then None
      else match mp_Unmarshal str with Err _ => None | Ok value => Some value end
  end.
Definition Set_ {V} `{Msgpack V} (now : Z) (key : string) (value : V) (expired : Z) (r : R) : option string * R :=
  match mp_Marshal value with
  | Err err => (Some err, r)
  | Ok str => rd_Set now key str expired r
  end.

(** A list read back; [Val] gives "" for an error or a key that is not there. *)
Definition GetList {V} `{Msgpack (list V)} (now : Z) (key : string) (r : R) : option (list V) :=
  let str := match rd_Get now key r with Ok (Some str) => str | _ => ""%string end in
  if bool_decide (str = ""%string) then None
  else match mp_Unmarshal str with Err _ => None | Ok value => Some value end.
Definition Del `{!RedisDel R} (key : string) (r : R) : option string * R := rd_Del key r.

Lemma GetList_Get {V} `{Msgpack (list V)} now key r : GetList now key r = Get (V := list V) now key r.
Proof using Type. unfold GetList, Get. destruct (rd_Get now key r) as [[str|]|]; [|done..]. by case_bool_decide. Qed.

(** A deleted value is not read again. *)
Lemma Get_Del `{!RedisDel R, !RedisDelLaws R} {V} `{Msgpack V} now key r : (Del key r).1 = None → Get (V := V) now key (Del key r).2 = None.
Proof using Type.
  intros Hd. unfold Get, Del. destruct (rd_Get now key (rd_Del key r).2) as [[str|]|] eqn:E; [|done..].
  by apply rd_Del_same in E.
Qed.

(** The options of the client. *)
Record redis_options := mkRedisOptions
  { ro_Addr : string; ro_Network : string; ro_DialTimeout : Z; ro_WriteTimeout : Z; ro_ReadTimeout : Z; ro_Password : string; ro_DB : Z }.
Definition Init (cfg : Config) : redis_options :=
  mkRedisOptions (redis_Addr (Cache cfg)) (redis_Network (Cache cfg)) (Second / 10) (-2) (-2) "" 0.

(** A scrape of the in-memory store with its cache; a failed [Set] is ignored. *)
Context {M : Type → Type} `{SyncStringMap M} `{Msgpack ScrapeFile} (cfg : Config).
Definition scrape_key (ih : string) : string := ("scrape_" ++ ih)%string.
Definition scrape_expiry : Z := 5 * Minute.
Definition Scrape_cached (now : Z) (ih : string) (st : State M) (r : R) : ScrapeFile * State M * R :=
  let '(f, st, put) := Local.Scrape cfg now (Get now (scrape_key ih) r) ih st in
  (f, st, match put with Some f => (Set_ now (scrape_key ih) f scrape_expiry r).2 | None => r end).
End Cache.

(** ** Calls answered through a cache

    [A] are calls: when one is made, the key it looks under, what it would count,
    and what it does with the cache. *)
Section Calls.
Context {R : Type} `{RedisLaws R} `{MsgpackLaws ScrapeFile} {A : Type}.
Context (at_now : A → Z) (at_key : A → string) (counts : A → ScrapeFile) (answer : A → R → ScrapeFile * R).
Implicit Types (r : R) (a : A) (l : list A).

(** It takes what it finds, or counts, and may put what it counted. *)
Definition answers_through : Prop := ∀ a r,
  (∃ f, Get (at_now a) (at_key a) r = Some f ∧ answer a r = (f, r)) ∨
  ((answer a r).1 = counts a ∧
   ((answer a r).2 = r ∨ (answer a r).2 = (Set_ (at_now a) (at_key a) (counts a) scrape_expiry r).2)).
Hypothesis answer_spec : answers_through.

(** Calls one after another; the answers, latest first. *)
Fixpoint answers l r : list ScrapeFile * R :=
  match l with
  | [] => ([], r)
  | a :: l => let '(fs, r) := answers l r in let '(f, r) := answer a r in (f :: fs, r)
  end.

Definition fresh (now : Z) a : Prop := now < at_now a + scrape_expiry.
(** Every readable entry of the cache was put there by one of the calls. *)
Definition cache_ok l r : Prop :=
  ∀ now a f, Get now (at_key a) r = Some f → ∃ b, b ∈ l ∧ at_key b = at_key a ∧ f = counts b ∧ fresh now b.

Lemma Get_Set now now' k k' (f g : ScrapeFile) e r :
  Get now' k' (Set_ now k f e r).2 = Some g → (k' = k ∧ g = f ∧ now' < now + e) ∨ Get now' k' r = Some g.
Proof using H0 H2.
  unfold Set_. destruct (mp_Marshal f) as [s|] eqn:Hf; [|by right]. unfold Get at 1.
  destruct (rd_Get now' k' _) as [[x|]|] eqn:Hx; [|done..]. case_bool_decide as Hne; [done|].
  destruct (mp_Unmarshal x) as [g'|] eqn:Hg; [|done]. intros [= ->].
  assert (rd_Get now' k' r = Ok (Some x) → Get now' k' r = Some g) as Hold.
  { intros E. unfold Get. by rewrite E, bool_decide_eq_false_2, Hg by done. }
  destruct (decide (k' = k)) as [->|Hk]; [|right; apply Hold; by eapply rd_Set_other].
  destruct (rd_Set_same _ _ _ _ _ _ _ Hx) as [[-> Hn]|[_ ?]]; [|by right; apply Hold].
  left. apply mp_roundtrip in Hf. split_and!; [done|congruence|done].
Qed.

Lemma answer_step a l r :
  cache_ok l r → cache_ok (a :: l) (answer a r).2 ∧
  ∃ b, (b = a ∨ b ∈ l ∧ fresh (at_now a) b) ∧ at_key b = at_key a ∧ (answer a r).1 = counts b.
Proof using Type*.
  intros Hr. assert (cache_ok (a :: l) r) as Hr'.
  { intros now' c f (b & Hb & ?)%Hr. exists b. split; [by right|done]. }
  destruct (answer_spec a r) as [(f & Hf & ->)|[Hc [->| ->]]].
  - split; [done|]. destruct (Hr _ _ _ Hf) as (b & Hb & ? & ? & ?). exists b. split_and!; [by right|done..].
  - split; [done|]. exists a. split_and!; [by left|done..].
  - split; [|exists a; split_and!; [by left|done..]].
    intros now' c f [(Hk & -> & Hn)|Hf]%Get_Set; [|by apply (Hr' now')]. exists a. split_and!; [left|done..].
Qed.

Lemma answers_recent l r fs r' n f a :
  (∀ now a, Get (V := ScrapeFile) now (at_key a) r = None) →
  answers l r = (fs, r') → fs !! n = Some f → l !! n = Some a →
  ∃ b, (b = a ∨ b ∈ drop (S n) l ∧ fresh (at_now a) b) ∧ at_key b = at_key a ∧ f = counts b.
Proof using Type*.
  intros Hr0. revert fs r' n f a.
  assert (∀ l fs r', answers l r = (fs, r') → cache_ok l r' ∧
    ∀ n f a, fs !! n = Some f → l !! n = Some a →
      ∃ b, (b = a ∨ b ∈ drop (S n) l ∧ fresh (at_now a) b) ∧ at_key b = at_key a ∧ f = counts b) as Hall.
  2: { intros fs r' n f a Hs. by apply (Hall l fs r' Hs). }
  induction l0 as [|a0 l0 IH]; intros fs r'; cbn [answers].
  { intros [= <- <-]. split; [|done]. intros now a f Hg. by rewrite Hr0 in Hg. }
  destruct (answers l0 r) as [fs0 r0] eqn:Hs. destruct (IH fs0 r0 eq_refl) as [Hok Hans].
  destruct (answer_step a0 l0 r0 Hok) as [Hok1 Hf0]. destruct (answer a0 r0) as [f0 r1].
  intros [= <- <-]. split; [done|]. intros [|n] f a Hf Ha; cbn in Hf, Ha; [by simplify_eq|by apply (Hans n)].
Qed.
End Calls.

Section Fresh.
Context {R : Type} `{RedisLaws R} {M : Type → Type} `{SyncStringMapLaws M} `{MsgpackLaws ScrapeFile} (cfg : Config).
Implicit Types (st : State M) (r : R).

(** A scrape that was made: when, of which torrent, of which store. *)
Record scrape_at := mkScrapeAt { sa_now : Z; sa_ih : string; sa_st : State M }.
(** What it counts without a cache. *)
Definition counts (a : scrape_at) : ScrapeFile := (Local.Scrape cfg (sa_now a) None (sa_ih a) (sa_st a)).1.1.
Definition recent (now : Z) (a : scrape_at) : Prop := now < sa_now a + scrape_expiry.
Definition sa_key (a : scrape_at) : string := scrape_key (sa_ih a).
Definition sa_answer (a : scrape_at) (r : R) : ScrapeFile * R :=
  let '(f, _, r) := Scrape_cached cfg (sa_now a) (sa_ih a) (sa_st a) r in (f, r).
(** Scrapes one after another, of whatever states the store is in; the answers,
    latest first. *)
Definition scrapes : list scrape_at → R → list ScrapeFile * R := answers sa_answer.

Lemma scrape_key_inj ih ih' : scrape_key ih = scrape_key ih' → ih = ih'.
Proof. intros E. by injection E. Qed.

Lemma sa_answers_through : redis_Enable (Cache cfg) = true → answers_through sa_now sa_key counts sa_answer.
Proof.
  intros He [now ih st] r. unfold sa_answer, sa_key, counts, Scrape_cached. cbn [sa_now sa_ih sa_st].
  destruct (sm_Load ih (infoHashMap st)) as [rt|] eqn:Hih.
  2: { right. unfold Local.Scrape. rewrite Hih. split; [done|by left]. }
  destruct (Get now (scrape_key ih) r) as [f|] eqn:Hg.
  - left. exists f. unfold Local.Scrape. by rewrite Hih, He.
  - right. rewrite (Scrape_eq cfg now None ih st rt Hih) by by right. rewrite He. split; [done|by right].
Qed.

(** With the cache on, whatever the store does between scrapes and whatever
    the cache loses, every scrape is answered with what a scrape of that torrent
    really counted, either at this moment or at an earlier scrape less than five
    minutes ago; entries of other torrents are never taken for it. *)
Theorem cached_scrapes_recent l r fs r' n f a :
  redis_Enable (Cache cfg) = true → (∀ now ih, Get (V := ScrapeFile) now (scrape_key ih) r = None) →
  scrapes l r = (fs, r') → fs !! n = Some f → l !! n = Some a →
  ∃ b, (b = a ∨ b ∈ drop (S n) l ∧ recent (sa_now a) b) ∧ sa_ih b = sa_ih a ∧ f = counts b.
Proof.
  intros He Hr0 Hs Hf Ha. destruct (answers_recent _ _ _ _ (sa_answers_through He) l r fs r' n f a) as (b & Hb & Hk & ->);
    [intros; apply Hr0|done..|]. exists b. split; [exact Hb|]. split; [by apply scrape_key_inj|done].
Qed.
End Fresh.
Arguments scrape_at : clear implicits.

(** ** A cache that forgets nothing before its time *)
Definition sample_redis : Type := gmap string (string * Z).
#[export] Instance sample_redis_ops : Redis sample_redis := {|
  rd_Get now k (r : gmap string (string * Z)) :=
    Ok (match r !! k with Some (v, t) => if now <? t then Some v else None | None => None end);
  rd_Set now k v e (r : gmap string (string * Z)) := (None, <[k := (v, now + e)]> r : gmap string (string * Z)) |}.
#[export] Instance sample_redis_laws : RedisLaws sample_redis.
Proof.
  split.
  - intros now now' k v e r x. unfold rd_Get, rd_Set, sample_redis_ops. cbn [snd fst]. rewrite lookup_insert_eq.
    destruct (Z.ltb_spec now' (now + e)); [|done]. intros [= ->]. by left.
  - intros now now' k k' v e r x Hk. unfold rd_Get, rd_Set, sample_redis_ops. cbn [snd fst]. by rewrite lookup_insert_ne.
Qed.

#[export] Instance sample_redis_del : RedisDel sample_redis := {|
  rd_Del k (r : gmap string (string * Z)) := (None, delete k r : gmap string (string * Z)) |}.
#[export] Instance sample_redis_del_laws : RedisDelLaws sample_redis.
Proof.
  split.
  - intros now k r x _. unfold rd_Del, rd_Get, sample_redis_del, sample_redis_ops. cbn [snd]. by rewrite lookup_delete_eq.
  - intros now k k' r x. unfold rd_Del, rd_Get, sample_redis_del, sample_redis_ops. cbn [snd].
    destruct (decide (k = k')) as [->|]; [by rewrite lookup_delete_eq|by rewrite lookup_delete_ne].
Qed.

(** Counts as four big-endian words. *)
Definition scrape_word (s : bytes) (n : nat) : Z := i64 (be_decode (take 8 (drop (8 * n) s))).
#[export] Instance sample_msgpack : Msgpack ScrapeFile := {|
  mp_Marshal f :=
    let b := be_encode 8 (u64 (Seeder f)) ++ be_encode 8 (u64 (Complete f)) ++ be_encode 8 (u64 (Incomplete f))
             ++ be_encode 8 (u64 (Model.Downloaded f)) in
    let g := mkScrapeFile (scrape_word b 0) (scrape_word b 1) (scrape_word b 2) (scrape_word b 3) in
    if decide ((Seeder g, Complete g, Incomplete g, Model.Downloaded g) = (Seeder f, Complete f, Incomplete f, Model.Downloaded f))
    then Ok (string_of_bytes b) else Err "out of range"%string;
  mp_Unmarshal s :=
    let b := bytes_of_string s in
    Ok (mkScrapeFile (scrape_word b 0) (scrape_word b 1) (scrape_word b 2) (scrape_word b 3)) |}.
Lemma ScrapeFile_ext f g :
  (Seeder g, Complete g, Incomplete g, Model.Downloaded g) = (Seeder f, Complete f, Incomplete f, Model.Downloaded f) → g = f.
Proof. destruct f, g. cbn. by intros [= -> -> -> ->]. Qed.
#[export] Instance sample_msgpack_laws : MsgpackLaws ScrapeFile.
Proof.
  split. intros f s. unfold mp_Marshal, mp_Unmarshal, sample_msgpack. cbv zeta.
  set (b := be_encode 8 _ ++ _). case_decide as E; [|done]. intros [= <-]. rewrite bytes_of_string_of_bytes.
  f_equal. by apply ScrapeFile_ext.
Qed.

Definition cached_cfg : Config :=
  {| Cache := mkRedisConfig true "" ""; Tracker := Tracker (sample_cfg 400); RocketMq := RocketMq (sample_cfg 400) |}.
(** Peer A is there at the first scrape; the second, a second later, finds peer B
    too but answers one leecher from the cache; the third, ten minutes later, counts both. *)
Definition three_scrapes : list (scrape_at Skip) :=
  [ mkScrapeAt (sample_time + 10 * Minute) "T" seq_state2; mkScrapeAt (sample_time + Second) "T" seq_state2;
    mkScrapeAt sample_time "T" seq_state1 ].
Lemma cached_scrapes_recent_witness :
  map Incomplete (scrapes cached_cfg three_scrapes (∅ : sample_redis)).1 = [2; 1; 1] ∧
  ∃ b, (b = mkScrapeAt (sample_time + Second) "T" seq_state2 ∨
        b ∈ [mkScrapeAt (M := Skip) sample_time "T" seq_state1] ∧ recent (sample_time + Second) b) ∧
    Incomplete (counts cached_cfg b) = 1.
Proof.
  split; [vm_compute; reflexivity|].
  destruct (cached_scrapes_recent cached_cfg three_scrapes (∅ : sample_redis)
    (scrapes cached_cfg three_scrapes (∅ : sample_redis)).1 (scrapes cached_cfg three_scrapes (∅ : sample_redis)).2 1%nat (mkScrapeFile 0 0 1 0)
    (mkScrapeAt (sample_time + Second) "T" seq_state2) eq_refl) as (b & Hb & _ & Hf).
  - intros now ih. reflexivity.
  - apply surjective_pairing.
  - vm_compute. reflexivity.
  - reflexivity.
  - exists b. split; [exact Hb|]. by rewrite <- Hf.
Defined.
