(* ===== verification/LocalBounds.v ===== *)
(** The work left to the goroutines of a handler, and the bound on the size of
    a torrent that is served one request at a time. *)
From Stdlib Require Import ZArith Lia Bool Strings.String.
From stdpp Require Import base strings list gmap fin_maps relations.
From S2P Require Import Prelude GoStd Config Model Common Samples Mapx Local LocalInv LocalSafety LocalSpec LocalTable.
Set Default Proof Using "Type*".
Local Open Scope Z_scope.

(** ** Termination *)

(** How many steps a goroutine can still take, the ones it starts included; a
    handler that has not read back yet is not a goroutine. *)
Definition weight (t : task) : nat :=
  match t with
  | TaskAnnounce _ _ _ => 3
  | TaskInsert _ _ _ => 2
  | TaskExpire _ ks => 1 + length ks
  | TaskStore _ _ | TaskSend _ _ | TaskRespond _ _ _ => 1
  end.
Definition is_goroutine (t : task) : bool := match t with TaskRespond _ _ _ => false | _ => true end.
Definition work (ts : list task) : nat := sum_list_with weight ts.

Lemma work_app ts1 ts2 : work (ts1 ++ ts2) = (work ts1 + work ts2)%nat.
Proof. apply sum_list_with_app. Qed.

Section Bounds.
Context `{SyncStringMapLaws M}.
Context (cfg : Config).
Implicit Types (st : State M) (i : InfoHashRoot M) (h : list Peer).

(** What a step adds to the tasks. *)
Ltac spawn_these new :=
  exists new; simpl; rewrite ?app_nil_r, <- ?app_assoc; split_and!;
  [done|unfold work; simpl; lia|repeat constructor].
Lemma run_task_spawns now t st :
  is_goroutine t = true →
  ∃ new, tasks (run_task cfg now t st) = tasks st ++ new ∧ (S (work new) ≤ weight t)%nat ∧
    Forall (fun t => is_goroutine t = true) new.
Proof.
  destruct t as [r p ih|r p|r p ih|r ks|ih p|r p n]; intros Ht; [| | | | |done];
    cbn [run_task]; try (destruct (peers st !! p) as [x|]; [|by spawn_these (@nil task)]).
  - destruct (root_LoadAndDelete_frame st r (GetKey x)) as (_ & _ & _ & Ets & _).
    destruct (root_LoadAndDelete r (GetKey x) st) as [known st1]. cbn [snd] in Ets.
    rewrite <- Ets. destruct known as [k|].
    + destruct (peers st1 !! k); [|by spawn_these (@nil task)].
      destruct (_ || _); [spawn_these [TaskSend ih p; TaskStore r k]|spawn_these [TaskStore r k]].
    + destruct (IsPeerConnectable _ x); [spawn_these [TaskInsert r p ih]|spawn_these (@nil task)].
  - spawn_these (@nil task).
  - spawn_these [TaskSend ih p].
  - destruct ks as [|k [|k' ks]]; [spawn_these (@nil task)..|spawn_these [TaskExpire r (k' :: ks)]].
  - spawn_these (@nil task).
Qed.

(** Enough steps finish all goroutines. *)
Lemma run_all_finishes now st :
  Forall (fun t => is_goroutine t = true) (tasks st) →
  tasks (run_all cfg (work (tasks st)) now st) = [].
Proof.
  remember (work (tasks st)) as n eqn:Hn.
  assert (work (tasks st) ≤ n)%nat as Hle by lia. clear Hn. revert st Hle.
  induction n as [|n IH]; intros st Hle Hg; simpl; destruct (tasks st) as [|t ts] eqn:Ht; [done| |done|].
  - exfalso. unfold work in Hle. simpl in Hle. by destruct t; simpl in Hle; lia.
  - apply Forall_cons_iff in Hg as [Hgt Hgs]. unfold run_next. rewrite Ht.
    destruct (run_task_spawns now t (set_tasks ts st) Hgt) as (new & E & Hw & Hn).
    apply IH; rewrite E; simpl.
    + rewrite work_app. unfold work in Hle |- * at 1. simpl in Hle. unfold work in Hw |- *. lia.
    + by apply Forall_app.
Qed.

(** ** Size of a torrent *)
Definition half : Z := Z.quot (MaxPeersPerTorrent (Memory (Tracker cfg))) 2.

(** A task that will still add an entry to torrent [r]. *)
Definition adds (r : nat) (t : task) : Z :=
  match t with
  | TaskAnnounce r' _ _ | TaskStore r' _ | TaskInsert r' _ _ => if (r' =? r)%nat then 1 else 0
  | _ => 0
  end.
Definition pending (r : nat) (ts : list task) : Z := foldr (fun t n => adds r t + n) 0 ts.

(** Every map holds at most [half] + 1 entries, pending additions included. *)
Definition roomy (n : Z) i : Prop :=
  ∀ j pm, peerMap i !! j = Some pm → sm_Len pm + (if (j =? active i)%nat then n else 0) ≤ half + 1.
Definition bounded st : Prop :=
  ∀ r, (r < length (roots st))%nat → roomy (pending r (tasks st)) (root_at st r).

Lemma pending_app r ts1 ts2 : pending r (ts1 ++ ts2) = pending r ts1 + pending r ts2.
Proof. induction ts1 as [|t ts1 IH]; simpl; [done|]. rewrite IH. lia. Qed.

Lemma pending_nonneg r ts : 0 ≤ pending r ts.
Proof. induction ts as [|t ts IH]; simpl; [done|]. destruct t; simpl; try lia; destruct (_ =? _)%nat; lia. Qed.

Lemma Len_mono (pm pm' : M nat) : sm_view pm' ⊆ sm_view pm → sm_Len pm' ≤ sm_Len pm.
Proof. intros Hs. rewrite !sm_Len_ret. apply Nat2Z.inj_le. by apply map_subseteq_size. Qed.

Lemma roomy_le n n' i : n' ≤ n → roomy n i → roomy n' i.
Proof. intros Hn Hi j pm Hj. specialize (Hi j pm Hj). destruct (_ =? _)%nat; lia. Qed.

Lemma roomy_shrink n i (ms : list (M nat)) :
  Forall2 (fun pm pm' => sm_view pm' ⊆ sm_view pm) (peerMap i) ms → roomy n i → roomy n (set_peerMap ms i).
Proof.
  intros Hms Hi j pm' Hj. simpl in Hj. destruct (Forall2_lookup_r _ _ _ _ _ Hms Hj) as (pm & Hpm & Hs).
  specialize (Hi j pm Hpm). apply Len_mono in Hs. change (active (set_peerMap ms i)) with (active i). lia.
Qed.

(** Adding to the active map uses one pending addition up. *)
Lemma roomy_add n i pm' :
  roomy (n + 1) i → sm_Len pm' ≤ sm_Len (active_map i) + 1 →
  peerMap i !! active i = Some (active_map i) →
  roomy n (set_peerMap (<[active i := pm']> (peerMap i)) i).
Proof.
  intros Hi Hl Ha j pm Hj. simpl in Hj. change (active (set_peerMap _ i)) with (active i).
  destruct (Nat.eqb_spec j (active i)) as [->|Hne].
  - rewrite list_lookup_insert_eq in Hj by (by eapply lookup_lt_Some). injection Hj as <-.
    specialize (Hi _ _ Ha). rewrite Nat.eqb_refl in Hi. lia.
  - rewrite list_lookup_insert_ne in Hj by done. specialize (Hi j pm Hj).
    by rewrite (proj2 (Nat.eqb_neq _ _) Hne) in Hi.
Qed.

Lemma Len_Store key p (pm : M nat) : sm_Len (sm_Store key p pm) ≤ sm_Len pm + 1.
Proof. rewrite !sm_Len_ret, sm_Store_view, map_size_insert. destruct (_ !! _); simpl; lia. Qed.

Lemma Len_LoadOrStore key p (pm : M nat) : sm_Len (sm_LoadOrStore key p pm).2 ≤ sm_Len pm + 1.
Proof.
  rewrite !sm_Len_ret, sm_LoadOrStore_view. destruct (sm_view pm !! key) eqn:E; [lia|].
  rewrite map_size_insert, E. simpl. lia.
Qed.

Lemma roomy_Store h n key p i : root_ok cfg h i → roomy (n + 1) i → roomy n (Store key p i).
Proof.
  intros Hi Hr. apply roomy_add; [done|apply Len_Store|by eapply active_lookup].
Qed.

Lemma roomy_LoadOrStore h n key p i : root_ok cfg h i → roomy (n + 1) i → roomy n (LoadOrStore key p i).2.
Proof.
  intros Hi Hr. unfold LoadOrStore. pose proof (Len_LoadOrStore key p (active_map i)) as Hl.
  destruct (sm_LoadOrStore _ _ _). simpl in *. apply roomy_add; [done|done|by eapply active_lookup].
Qed.

Lemma roomy_LoadAndDelete h n key i : roomy n i → roomy n (LoadAndDelete h key i).2.
Proof.
  apply roomy_shrink. rewrite map_map. apply Forall2_fmap_r, Forall_Forall2_diag, Forall_true. intros pm.
  change (sm_view (sm_LoadAndDelete key pm).2 ⊆ sm_view pm). rewrite sm_LoadAndDelete_view. apply delete_subseteq.
Qed.

Lemma roomy_Delete n key i : roomy n i → roomy n (Delete key i).2.
Proof.
  unfold Delete. pose proof (delete_maps_shrink key false (peerMap i)) as Hs.
  destruct (delete_maps key false (peerMap i)). by apply roomy_shrink.
Qed.

(** The capacity check makes room for one more entry. *)
Lemma roomy_rotate h i : 0 ≤ half → root_ok cfg h i → roomy 0 i → roomy 1 (rotate cfg i).
Proof.
  intros Hh Hi Hr. pose proof Hi as [Hl Hc _ He]. unfold rotate. fold half.
  destruct (Z.gtb_spec (sm_Len (active_map i)) half) as [Hg|Hg].
  - intros j pm Hj. cbn [peerMap] in Hj. unfold active. cbn [currentActive].
    destruct (decide (j = Z.to_nat ((currentActive i + 2) mod 3))) as [->|Hne].
    + pose proof (Z.mod_pos_bound (currentActive i + 2) 3).
      rewrite list_lookup_insert_eq in Hj by lia. injection Hj as <-.
      rewrite sm_Len_ret, sm_view_new, map_size_empty. destruct (_ =? _)%nat; lia.
    + rewrite list_lookup_insert_ne in Hj by done.
      destruct (Nat.eqb_spec j (Z.to_nat ((currentActive i + 1) mod 3))) as [->|Hne'].
      * rewrite sm_Len_ret, (He pm Hj), map_size_empty. lia.
      * specialize (Hr j pm Hj). destruct (_ =? _)%nat; lia.
  - intros j pm Hj. destruct (Nat.eqb_spec j (active i)) as [->|Hne].
    + rewrite (active_lookup cfg h i Hi) in Hj. injection Hj as <-. lia.
    + specialize (Hr j pm Hj). rewrite (proj2 (Nat.eqb_neq _ _) Hne) in Hr. lia.
Qed.

(** *** The whole store *)
Definition roomy_all (n : nat → Z) st : Prop :=
  ∀ r, (r < length (roots st))%nat → roomy (n r) (root_at st r).

Lemma roomy_all_le n n' st : (∀ r, n' r ≤ n r) → roomy_all n st → roomy_all n' st.
Proof. intros Hn Hst r Hr. eapply roomy_le; [apply Hn|by apply Hst]. Qed.

Lemma roomy_all_roots n st st' : roots st' = roots st → roomy_all n st → roomy_all n st'.
Proof. intros E Hst r Hr. rewrite (root_at_frame _ _ _ E). apply Hst. by rewrite <- E. Qed.

Lemma roomy_all_put n n' st r i :
  (∀ r', r' ≠ r → n' r' ≤ n r') → (roomy (n r) (root_at st r) → roomy (n' r) i) →
  roomy_all n st → roomy_all n' (put_root r i st).
Proof.
  intros Hn Hi Hst r' Hr'. simpl in Hr'. rewrite length_insert in Hr'.
  destruct (decide (r' = r)) as [->|Hne].
  - rewrite root_at_put by done. by apply Hi, Hst.
  - unfold root_at. simpl. rewrite list_lookup_insert_ne by done.
    eapply roomy_le; [by apply Hn|by apply Hst].
Qed.

Lemma roomy_all_LoadAndDelete n st r key : roomy_all n st → roomy_all n (root_LoadAndDelete r key st).2.
Proof. apply roomy_all_put; [done|]. exact (roomy_LoadAndDelete (peers st) _ _ _). Qed.

Lemma run_task_bounded now t st :
  is_goroutine t = true → state_ok cfg st → task_ok cfg (length (roots st)) (peers st) t →
  roomy_all (fun r => adds r t + pending r (tasks st)) st → bounded (run_task cfg now t st).
Proof.
  intros Hg Hok Htk Hst. unfold bounded. fold (roomy_all (fun r => pending r (tasks (run_task cfg now t st)))).
  destruct t as [r p ih|r p|r p ih|r ks|ih p|r p m]; [| | | | |done]; cbn [run_task task_ok] in *.
  - destruct Htk as (Hr & x & Hx & _). rewrite Hx.
    pose proof (roomy_all_LoadAndDelete _ st r (GetKey x) Hst) as Hst1.
    destruct (root_LoadAndDelete_frame st r (GetKey x)) as (_ & _ & _ & Ets & _).
    destruct (root_LoadAndDelete r (GetKey x) st) as [known st1]. cbn [snd] in *.
    assert (∀ st', roots st' = roots st1 →
      (∀ r', pending r' (tasks st') ≤ adds r' (TaskAnnounce r p ih) + pending r' (tasks st)) →
      roomy_all (fun r' => pending r' (tasks st')) st') as Hfin.
    { intros st' E Hp. apply (roomy_all_roots _ st1 _ E). by eapply roomy_all_le; [|exact Hst1]. }
    destruct known as [k|]; [destruct (peers st1 !! k); [destruct (_ || _)|]|destruct (IsPeerConnectable _ x)];
      (apply Hfin; [done|]); intros r'; simpl; rewrite Ets, ?pending_app; simpl; destruct (_ =? _)%nat; lia.
  - destruct Htk as (Hr & x & Hx & _). rewrite Hx. simpl.
    eapply roomy_all_put; [| |exact Hst]; simpl.
    + intros r' Hne. rewrite (proj2 (Nat.eqb_neq r r')) by done. lia.
    + rewrite Nat.eqb_refl. intros Hi. eapply (roomy_Store (peers st)); [by apply root_at_ok|].
      eapply roomy_le; [|exact Hi]. lia.
  - destruct Htk as (Hr & x & Hx & _). rewrite Hx. simpl.
    refine (roomy_all_roots _ (put_root r (LoadOrStore (GetKey x) p (root_at st r)).2 st) _ eq_refl _).
    eapply roomy_all_put; [| |exact Hst]; simpl.
    + intros r' Hne. rewrite (proj2 (Nat.eqb_neq r r')), pending_app by done. simpl. lia.
    + rewrite Nat.eqb_refl, pending_app. intros Hi. eapply (roomy_LoadOrStore (peers st)); [by apply root_at_ok|].
      eapply roomy_le; [|exact Hi]. simpl. lia.
  - destruct ks as [|k ks]; [done|].
    assert (roomy_all (fun r => pending r (tasks st)) (put_root r (Delete k (root_at st r)).2 st)) as Hd.
    { eapply roomy_all_put; [| |exact Hst]; simpl; [lia|]. apply roomy_Delete. }
    destruct ks; simpl; [done|]. refine (roomy_all_roots _ (put_root r (Delete k (root_at st r)).2 st) _ eq_refl _).
    eapply roomy_all_le; [|exact Hd]. intros r'. rewrite pending_app. simpl. lia.
  - destruct Htk as (x & Hx). by rewrite Hx.
Qed.

Lemma run_all_bounded n now st :
  state_ok cfg st → Forall (fun t => is_goroutine t = true) (tasks st) → bounded st →
  bounded (run_all cfg n now st).
Proof.
  revert st. induction n as [|n IH]; intros st Hok Hg Hb; [done|]. cbn [run_all].
  destruct (tasks st) as [|t ts] eqn:Ht; [done|]. unfold run_next. rewrite Ht.
  apply Forall_cons_iff in Hg as [Hgt Hgs].
  pose proof (ok_tasks cfg st Hok) as Hts. rewrite Ht in Hts. apply Forall_cons_iff in Hts as [H1 H2].
  assert (state_ok cfg (set_tasks ts st)) as Hok0 by by apply ok_set_tasks.
  destruct (run_task_spawns now t (set_tasks ts st) Hgt) as (new & E & _ & Hn).
  apply IH; [by apply run_task_ok|rewrite E; by apply Forall_app|].
  apply run_task_bounded; [done..|]. intros r Hr. specialize (Hb r Hr). by rewrite Ht in Hb.
Qed.

Lemma roomy_new ih now : 0 ≤ half → roomy 1 (NewInfoHashRoot (M := M) ih now).
Proof.
  intros Hh j pm Hj. assert (sm_Len pm = 0) as E.
  { destruct j as [|[|[|j]]]; simpl in Hj; try discriminate; injection Hj as <-;
      by rewrite sm_Len_ret, sm_view_new, map_size_empty. }
  rewrite E. destruct (_ =? _)%nat; lia.
Qed.

Lemma respond_bounded now r p n ih st :
  0 ≤ half → state_ok cfg st → (r < length (roots st))%nat → is_Some (peers st !! p) →
  tasks st = [TaskAnnounce r p ih] → roomy_all (fun _ => 0) st →
  let st' := (announce_respond cfg now r p n st).2 in
  bounded st' ∧ Forall (fun t => is_goroutine t = true) (tasks st').
Proof.
  intros Hh Hok Hr [x Hx] Ht Hb st'. unfold st', announce_respond. rewrite Hx.
  destruct (root_Range _ _ _) as [resp ex]. cbn [snd].
  set (st1 := if (0 <? length ex)%nat then _ else _).
  assert (roots st1 = roots st ∧ (∀ r', pending r' (tasks st1) = if (r =? r')%nat then 1 else 0) ∧
    Forall (fun t => is_goroutine t = true) (tasks st1)) as (E1 & E2 & E3).
  { unfold st1. destruct (0 <? _)%nat; simpl; rewrite Ht; simpl; split_and!; [done| |by repeat constructor|done| |by repeat constructor];
      intros r'; destruct (_ =? _)%nat; lia. }
  split; [|exact E3].
  rewrite (root_at_frame st st1 r E1). intros r' Hr'. simpl in Hr'. rewrite length_insert in Hr'. simpl.
  rewrite E2. destruct (Nat.eqb_spec r r') as [<-|Hne].
  - rewrite root_at_put by done. apply (roomy_rotate (peers st)); [done|by apply root_at_ok|by apply Hb].
  - unfold root_at. simpl. rewrite list_lookup_insert_ne, E1 by done. apply Hb. by rewrite <- E1.
Qed.

Lemma first_bounded now now' (req : AnnounceRequest) st :
  0 ≤ half → tasks st = [] → roomy_all (fun _ => 0) st →
  sm_view (infoHashMap st) !! req_InfoHash req = None → invalid_address (peer_of_request now req) = false →
  let st' := (HandleAnnouncePeer cfg now now' req st).2 in
  bounded st' ∧ Forall (fun t => is_goroutine t = true) (tasks st').
Proof.
  intros Hh Ht Hb Hih Hx st'. subst st'. set (x := peer_of_request now req) in *.
  unfold HandleAnnouncePeer, announce_begin. fold x. rewrite Hx.
  destruct (get_or_create_unknown (set_peers (peers st ++ [x]) st) now (req_InfoHash req) Hih) as (m' & -> & Hm').
  cbn [negb]. set (r := length _) in *. set (st0 := mkState m' _ _ _ _ _).
  change (match Conn x with Some _ => _ | None => _ end) with (with_callback x r (req_PeerID req) st0).
  set (st1 := with_callback x r (req_PeerID req) st0).
  destruct (with_callback_frame x r (req_PeerID req) st0) as (_ & E2 & _ & E4 & _). fold st1 in E2, E4.
  assert (roomy_all (fun r' => if (r' =? r)%nat then 1 else 0) st1) as Hb1.
  { refine (roomy_all_roots _ st0 _ E2 _). intros r' Hr'. unfold root_at. simpl in *. rewrite length_app in Hr'.
    simpl in Hr'. destruct (Nat.eqb_spec r' r) as [->|Hne].
    - rewrite lookup_app_r by done. unfold r. rewrite Nat.sub_diag. simpl. by apply roomy_new.
    - unfold r in Hne. simpl in Hne. rewrite lookup_app_l by lia. apply Hb. lia. }
  set (st2 := if _ && _ then _ else st1). cbn [snd].
  assert (roomy_all (fun _ => 0) st2 ∧ tasks st2 = []) as [Hb2 Et2].
  { split; [|unfold st2; destruct (_ && _); simpl; rewrite E4; exact Ht].
    unfold st2. destruct (_ && _).
    - eapply roomy_all_put; [| |exact Hb1]; simpl.
      + intros r' _. destruct (_ =? _)%nat; lia.
      + rewrite Nat.eqb_refl. assert (root_at st1 r = NewInfoHashRoot (req_InfoHash req) now) as ->.
        { unfold root_at. rewrite E2. simpl. rewrite lookup_app_r by done. unfold r. by rewrite Nat.sub_diag. }
        exact (roomy_LoadOrStore [] 0 _ _ _ (root_ok_new cfg [] _ _)).
    - eapply roomy_all_le; [|exact Hb1]. intros r'. simpl. destruct (_ =? _)%nat; lia. }
  split; [|simpl; rewrite Et2; by repeat constructor].
  intros r' Hr'. simpl. rewrite Et2. by apply Hb2.
Qed.

(** An idle store after one announce, before its goroutine has run. *)
Lemma announce_bounded now now' req st :
  0 ≤ half → state_ok cfg st → tasks st = [] → bounded st →
  let st' := (HandleAnnouncePeer cfg now now' req st).2 in
  bounded st' ∧ Forall (fun t => is_goroutine t = true) (tasks st').
Proof.
  intros Hh Hok Ht Hb st'. subst st'. set (x := peer_of_request now req).
  destruct (invalid_address x) eqn:Hx.
  { unfold HandleAnnouncePeer, announce_begin. fold x. rewrite Hx. simpl. rewrite Ht. by split. }
  assert (roomy_all (fun _ => 0) st) as Hb' by (intros r Hr; specialize (Hb r Hr); by rewrite Ht in Hb).
  destruct (sm_view (infoHashMap st) !! req_InfoHash req) as [r|] eqn:Hih; [|by apply first_bounded].
  pose proof (announce_begin_ok cfg now req st Hok) as Hb0. unfold HandleAnnouncePeer.
  destruct (announce_begin_known cfg now req st r Hx Hih) as (st1 & Em & Er & Ep & Et & _ & E). fold x in E.
  rewrite E in Hb0 |- *. rewrite Ht in Et.
  assert (roomy_all (fun _ => 0) st1) as Hb1 by by refine (roomy_all_roots _ st st1 Er _).
  destruct (_ =? _).
  - apply (roomy_all_LoadAndDelete _ st1 r (GetKey x)) in Hb1.
    destruct (root_LoadAndDelete_frame st1 r (GetKey x)) as (_ & _ & _ & Ets & _).
    cbn [snd]. split; [|by rewrite Ets, Et]. intros r' Hr'. rewrite Ets, Et. by apply Hb1.
  - destruct Hb0 as (Hok2 & Hr2 & Hp2).
    pose proof (respond_bounded now' r (length (peers st)) (req_NumWant req) (req_InfoHash req)
      (spawn (TaskAnnounce r (length (peers st)) (req_InfoHash req)) st1) Hh Hok2 Hr2) as Hres.
    destruct (announce_respond _ _ _ _ _ _) as [resp st3]. apply Hres; [|by simpl; rewrite Et|done].
    destruct Hp2 as [y Hy]. by exists y.
Qed.

(** *** Scrapes, clean-ups and connections *)
(** Nothing is added, and no goroutine is started. *)
Definition shrunk st st' : Prop := (roomy_all (fun _ => 0) st → roomy_all (fun _ => 0) st') ∧ tasks st' = tasks st.

#[local] Instance shrunk_preorder : PreOrder shrunk.
Proof. split; [by split|]. intros a b c [H1 E1] [H2 E2]. split; [auto|congruence]. Qed.

Lemma shrunk_frame st st' : roots st' = roots st → tasks st' = tasks st → shrunk st st'.
Proof. intros E Et. split; [by apply roomy_all_roots|done]. Qed.

Lemma shrunk_LoadAndDelete r k st : shrunk st (root_LoadAndDelete r k st).2.
Proof.
  split; [apply roomy_all_LoadAndDelete|]. by destruct (root_LoadAndDelete_frame st r k) as (_ & _ & _ & -> & _).
Qed.

Lemma shrunk_Close c st : shrunk st (conn_Close c st).
Proof.
  unfold conn_Close. destruct (conns st !! c) as [cn|]; [|done]. destruct (closed cn); [done|].
  transitivity (match CloseCallback cn with Some cb => close_callback cb st | None => st end); [|by apply shrunk_frame].
  destruct (CloseCallback cn) as [[r k]|]; [|done]. unfold close_callback. cbn [fst snd].
  pose proof (shrunk_LoadAndDelete r k st) as Hs. destruct (root_LoadAndDelete r k st) as [[v|] st1]; [|done].
  etrans; [exact Hs|]. by apply shrunk_frame.
Qed.

Lemma shrunk_visit r j et st ks k p : shrunk st (clean_visit r j et (st, ks) k p).1.1.
Proof.
  unfold clean_visit. destruct (negb _); [done|]. destruct (peers st !! p) as [x|]; [|done].
  destruct (After _ _); [|done]. cbn [fst]. destruct (Conn x) as [c|]; [|done]. destruct (_ =? _); [|done].
  etrans; [apply (shrunk_Close c)|]. by apply shrunk_frame.
Qed.

Lemma shrunk_cleanUp n1 n2 n3 r st : shrunk st (cleanUp cfg n1 n2 n3 r st).2.
Proof.
  unfold cleanUp. destruct (After _ _); [done|]. set (acc := fold_left _ (combine _ _) (st, [])).
  assert (shrunk st acc.1) as H1.
  { apply (fold_left_ind (fun acc : State M * list string => shrunk st acc.1)); [done|].
    intros a jm _ Ha. apply (range_loop_ind (fun acc : State M * list string => shrunk st acc.1)); [done|].
    intros [s ks] k v _ Hs. etrans; [exact Hs|]. apply shrunk_visit. }
  destruct acc as [st1 toClean]. cbn [fst] in H1. set (st2 := fold_left _ toClean st1).
  assert (shrunk st st2) as H2.
  { apply (fold_left_ind (fun s => shrunk st s)); [done|]. intros s k _ Hs. etrans; [exact Hs|]. apply shrunk_LoadAndDelete. }
  clearbody st2. cbn [snd]. set (i := mkRoot _ _ _ _). assert (shrunk st2 (put_root r i st2)) as H3.
  { split; [|done]. by eapply roomy_all_put. }
  destruct (_ =? 0); [|by etrans]. etrans; [exact H2|]. etrans; [exact H3|]. by apply shrunk_frame.
Qed.

Lemma shrunk_Clean now st : shrunk st (Clean cfg now st).2.
Proof.
  unfold Clean. apply (fold_left_ind (fun a : Z * State M => shrunk st a.2)); [done|].
  intros [n s] [k r] _ Hs. cbn [snd] in *. pose proof (shrunk_cleanUp now now now r s) as Hc.
  destruct (cleanUp _ _ _ _ _ _) as [m s']. by etrans.
Qed.

Lemma scrape_bounded now cached ih st :
  tasks st = [] → bounded st →
  let st' := (Scrape cfg now cached ih st).1.2 in
  bounded st' ∧ Forall (fun t => is_goroutine t = true) (tasks st').
Proof.
  intros Ht Hb. unfold Scrape. destruct (sm_Load ih (infoHashMap st)) as [r|]; cbn [fst snd]; [|by rewrite Ht].
  destruct (if redis_Enable _ then _ else _); [cbn [fst snd]; by rewrite Ht|].
  destruct (root_Range _ _ _) as [f ex]. cbn [fst snd]. destruct (0 <? _)%nat; [|by rewrite Ht].
  split; [|cbn; rewrite Ht; by repeat constructor]. intros r' Hr'. specialize (Hb r' Hr').
  change (roomy (pending r' (tasks st ++ [TaskExpire r ex])) (root_at st r')). rewrite Ht in Hb |- *. exact Hb.
Qed.

(** A store that starts empty and serves one request at a time, each with its
    goroutines run to the end before the next, with clean-ups and connections
    coming and going in between.  (Peers read back from a file are not among
    them: [DirectStore] does not look at the limit.) *)
Inductive serial : State M → Prop :=
| serial_new : serial NewLocalManger
| serial_announce now now' req st st1 :
    serial st → st1 = (HandleAnnouncePeer cfg now now' req st).2 →
    serial (run_all cfg (work (tasks st1)) now' st1)
| serial_Scrape now now' cached ih st st1 :
    serial st → st1 = (Scrape cfg now cached ih st).1.2 →
    serial (run_all cfg (work (tasks st1)) now' st1)
| serial_Clean now st : serial st → serial (Clean cfg now st).2
| serial_accept cn st : serial st → CloseCallback cn = None → serial (set_conns (conns st ++ [cn]) st)
| serial_Close c st : serial st → serial (conn_Close c st)
| serial_BanInfoHash ih st : serial st → serial (BanInfoHash ih st).2
| serial_DeleteInfoHash ih st : serial st → serial (DeleteInfoHash ih st).2.

Lemma bounded_idle st : tasks st = [] → bounded st ↔ roomy_all (fun _ => 0) st.
Proof. intros Ht. unfold bounded, roomy_all. by rewrite Ht. Qed.

Lemma bounded_shrunk st st' : shrunk st st' → tasks st = [] → bounded st → tasks st' = [] ∧ bounded st'.
Proof.
  intros [Hs Et] Ht Hb. rewrite Ht in Et. split; [done|]. apply bounded_idle; [done|]. apply Hs. by apply bounded_idle.
Qed.

Lemma serial_bounded st : 0 ≤ half → serial st → state_ok cfg st ∧ tasks st = [] ∧ bounded st.
Proof.
  intros Hh. induction 1 as [|now now' req st st1 _ (Hok & Ht & Hb) ->|now now' cached ih st st1 _ (Hok & Ht & Hb) ->
    |now st _ (Hok & Ht & Hb)|cn st _ (Hok & Ht & Hb) Hcn|c st _ (Hok & Ht & Hb)|ih st _ (Hok & Ht & Hb)|ih st _ (Hok & Ht & Hb)].
  - split_and!; [apply ok_new|done|]. intros r Hr. simpl in Hr. lia.
  - destruct (announce_bounded now now' req st Hh Hok Ht Hb) as [Hb1 Hg1].
    split_and!; [by apply run_all_ok, HandleAnnouncePeer_ok|by apply run_all_finishes|].
    apply run_all_bounded; [by apply HandleAnnouncePeer_ok|done|done].
  - destruct (scrape_bounded now cached ih st Ht Hb) as [Hb1 Hg1].
    split_and!; [by apply run_all_ok, Scrape_ok|by apply run_all_finishes|].
    apply run_all_bounded; [by apply Scrape_ok|done|done].
  - split; [by apply Clean_ok|]. by eapply bounded_shrunk; [apply shrunk_Clean|..].
  - split; [by eapply step_ok; [by apply step_accept|]|]. by split.
  - split; [by apply conn_Close_ok|]. by eapply bounded_shrunk; [apply shrunk_Close|..].
  - split_and!; [by apply ok_delete_torrent|done|done].
  - split_and!; [by apply ok_delete_torrent|done|done].
Qed.

(** C19: Started empty and served one request at a time, with scrapes, clean-ups,
    bans and closing connections in between, a torrent never holds more than the
    configured number of peers plus two. *)
Theorem torrent_size_bounded st i :
  0 ≤ MaxPeersPerTorrent (Memory (Tracker cfg)) → serial st → i ∈ roots st →
  Len i ≤ MaxPeersPerTorrent (Memory (Tracker cfg)) + 2.
Proof.
  intros Hmax Hs [r Hr]%list_elem_of_lookup. assert (0 ≤ half) as Hh by (apply Z.quot_pos; lia).
  destruct (serial_bounded st Hh Hs) as (Hok & Ht & Hb).
  assert (root_at st r = i) as Ei by (unfold root_at; by rewrite Hr).
  assert (root_ok cfg (peers st) i) as [H1 H2 _ H4].
  { rewrite <- Ei. apply root_at_ok; [done|by eapply lookup_lt_Some]. }
  specialize (Hb r ltac:(by eapply lookup_lt_Some)). rewrite Ht, Ei in Hb.
  assert (half * 2 ≤ MaxPeersPerTorrent (Memory (Tracker cfg))) as Hhalf.
  { unfold half. pose proof (Z.mul_quot_le (MaxPeersPerTorrent (Memory (Tracker cfg))) 2). lia. }
  assert (∀ j pm, peerMap i !! j = Some pm → sm_Len pm ≤ half + 1) as Hl.
  { intros j pm Hj. specialize (Hb j pm Hj). simpl in Hb. destruct (_ =? _)%nat; lia. }
  unfold Len. destruct (peerMap i) as [|a [|b [|c [|d l]]]] eqn:Em; try discriminate H1. simpl.
  pose proof (Hl 0%nat a eq_refl). pose proof (Hl 1%nat b eq_refl). pose proof (Hl 2%nat c eq_refl).
  assert (∀ pm, [a; b; c] !! next_idx i = Some pm → sm_Len pm = 0) as Hz.
  { intros pm Hpm. rewrite sm_Len_ret, (H4 pm Hpm). by rewrite map_size_empty. }
  unfold next_idx in Hz.
  assert (currentActive i = 0 ∨ currentActive i = 1 ∨ currentActive i = 2) as [E|[E|E]] by lia; rewrite E in Hz.
  - specialize (Hz b eq_refl). lia.
  - specialize (Hz c eq_refl). lia.
  - specialize (Hz a eq_refl). lia.
Qed.
End Bounds.

(** Six peers of one torrent, with a limit of two peers per torrent. *)
Definition serve (st : State Skip) (id : string) : State Skip :=
  let st1 := (HandleAnnouncePeer (sample_cfg 2) sample_time sample_time
                (sample_request id "T" "started" Byte.x01 7 50) st).2 in
  run_all (sample_cfg 2) (work (tasks st1)) sample_time st1.
Definition full_state : State Skip :=
  fold_left serve ["A"; "B"; "C"; "D"; "E"; "F"]%string NewLocalManger.

Lemma serve_serial ids st : serial (sample_cfg 2) st → serial (sample_cfg 2) (fold_left serve ids st).
Proof.
  revert st. induction ids as [|id ids IH]; intros st Hs; [done|]. apply IH.
  by eapply serial_announce.
Qed.

Lemma torrent_size_bounded_witness :
  Len (root_at full_state 0) ≤ 4 ∧ entries (root_at full_state 0) ≠ [].
Proof.
  split.
  - apply (torrent_size_bounded (sample_cfg 2) full_state).
    + vm_compute. discriminate.
    + apply serve_serial. constructor.
    + apply list_elem_of_lookup. exists 0%nat. vm_compute. reflexivity.
  - vm_compute. discriminate.
Defined.
