(* ===== verification/LocalOrder.v ===== *)
(** The goroutines of one announce in any order: whichever of them the runtime
    picks at each step, they end, and leave the same table. *)
From Stdlib Require Import ZArith Lia Bool Strings.String.
From stdpp Require Import base strings list gmap fin_maps relations.
From S2P Require Import Prelude GoStd Config Model Common Samples Mapx Local LocalInv LocalSafety LocalSpec LocalScrape LocalTable LocalFrame LocalClean LocalExpire LocalBounds.
Set Default Proof Using "Type*".
Local Open Scope Z_scope.

Section Order.
Context `{SyncStringMapLaws M}.
Context (cfg : Config).
Implicit Types (st : State M) (i : InfoHashRoot M) (h : list Peer).







Section Run.
(** The announce of [x], the [p]-th record, in torrent [r]; [t0] is the table
    without what the expiry goroutine removes. *)
Context (r p : nat) (ih : string) (x : Peer) (t0 : gmap string Peer).














End Run.








End Order.

(** Peer A of [stale_state] has expired; C joins, and the goroutine that removes
    A runs after all the others, or before them. *)
Local Notation joined_state :=
  (HandleAnnouncePeer (sample_cfg 400) clean_time clean_time (sample_request "C" "T" "started" Byte.x03 7 50) stale_state).2.

