(* ===== verification/LocalRaces.v ===== *)
(** Interleavings of the in-memory store in which an operation does not do what
    it is for: runs that are reachable, found by executing them. *)
From Stdlib Require Import ZArith Lia Bool Strings.String.
From stdpp Require Import base strings list gmap fin_maps relations.
From S2P Require Import Prelude GoStd Config Model Common Samples Mapx Local LocalInv LocalSafety LocalSpec.
Set Default Proof Using "Type*".
Local Open Scope Z_scope.

(** ** Running a schedule *)
Inductive event :=
| EAnnounce (now : Z) (req : AnnounceRequest)   (* a request, up to its read-back *)
| ETask (now : Z) (n : nat)                     (* the n-th pending task *)
| EScrape (now : Z) (ih : string).

Section Schedule.
Context `{SyncStringMapLaws M}.
Context (cfg : Config).

Definition run_event (e : event) (st : State M) : State M :=
  match e with
  | EAnnounce now req => announce_start cfg now req st
  | ETask now n =>
      match tasks st !! n with
      | Some t => run_task cfg now t (set_tasks (take n (tasks st) ++ drop (S n) (tasks st)) st)
      | None => st
      end
  | EScrape now ih => (Scrape cfg now None ih st).1.2
  end.
Definition run_schedule (es : list event) : State M :=
  fold_left (fun st e => run_event e st) es NewLocalManger.

Lemma run_schedule_reachable es : reachable cfg (run_schedule es).
Proof.
  unfold run_schedule. apply (fold_left_ind (reachable cfg)); [apply rtc_refl|].
  intros st e _ Hst. unfold reachable in *. destruct e as [now req|now n|now ih]; cbn [run_event].
  - eapply rtc_r; [done|]. constructor.
  - destruct (tasks st !! n) as [t|] eqn:Ht; [|done]. eapply rtc_r; [done|]. constructor.
    symmetry. by apply take_drop_middle.
  - eapply rtc_r; [done|]. constructor.
Qed.
End Schedule.

(** ** One peer filed twice *)

(** Peer B announces twice at once in a torrent with a limit of one peer; the
    write head moves on between the two insertions.  (A creates the torrent.) *)
Definition duplicate_schedule : list event :=
  [EAnnounce sample_time (sample_request "A" "T" "started" Byte.x01 7 50);
   ETask sample_time 0;                                                    (* its event *)
   EAnnounce sample_time (sample_request "B" "T" "started" Byte.x02 7 50);
   EAnnounce sample_time (sample_request "B" "T" "started" Byte.x02 7 50);
   ETask sample_time 0; ETask sample_time 1;  (* both goroutines find B unknown *)
   ETask sample_time 2;                       (* the first inserts B *)
   ETask sample_time 0;                       (* a read-back moves the head *)
   ETask sample_time 1].                      (* the second inserts B again *)

(** Two announces of one peer that overlap with a move of the write head
    leave the peer in two maps: a scrape then counts it twice, and [Delete]
    removes only one of the copies. *)
Theorem duplicate_entry :
  ∃ st : State Skip, reachable (sample_cfg 1) st ∧
    (entries (root_at st 0)).*1 = ["A"; "B"; "B"]%string ∧
    Incomplete (Scrape (sample_cfg 1) sample_time None "T" st).1.1 = 3 ∧
    Load "B" (Delete "B" (root_at st 0)).2 ≠ None.
Proof.
  exists (run_schedule (sample_cfg 1) duplicate_schedule).
  split; [apply run_schedule_reachable|]. split_and!; vm_compute; congruence.
Qed.

(** ** A live peer expired *)

(** Peer B comes back after 1000 seconds; a scrape has seen its old record just
    before, and its removal runs after the new announce has been stored. *)
Definition expiry_schedule : list event :=
  [EAnnounce sample_time (sample_request "A" "T" "started" Byte.x01 7 50);
   EAnnounce sample_time (sample_request "B" "T" "started" Byte.x02 7 50);
   ETask sample_time 0; ETask sample_time 0; ETask sample_time 1; ETask sample_time 1; ETask sample_time 0;
   EScrape (sample_time + 1000 * Second) "T";
   EAnnounce (sample_time + 1000 * Second) (sample_request "B" "T" "started" Byte.x02 7 50);
   ETask (sample_time + 1000 * Second) 1;   (* B's goroutine takes the record out *)
   ETask (sample_time + 1000 * Second) 2].  (* and files it again, refreshed *)

(** A peer that announces again after its record expired can be removed all
    the same: the removal queued by an earlier scrape runs after the announce
    has filed the refreshed record. *)
Theorem live_peer_expired :
  ∃ st st' : State Skip, reachable (sample_cfg 400) st ∧
    TaskExpire 0 ["A"; "B"]%string ∈ tasks st ∧
    (Load "B" (root_at st 0) ≫= fun p => peers st !! p ≫= fun x =>
       Some (live (sample_cfg 400) (sample_time + 1000 * Second) x)) = Some true ∧
    st' = run_schedule (sample_cfg 400) (expiry_schedule ++
            [ETask (sample_time + 1000 * Second) 0; ETask (sample_time + 1000 * Second) 1]) ∧
    reachable (sample_cfg 400) st' ∧ Load "B" (root_at st' 0) = None.
Proof.
  exists (run_schedule (sample_cfg 400) expiry_schedule). eexists.
  split_and!; [apply run_schedule_reachable| | |reflexivity|apply run_schedule_reachable|].
  - vm_compute. left.
  - vm_compute. reflexivity.
  - vm_compute. reflexivity.
Qed.
