(* ===== verification/BanItem.v ===== *)
(** A persistent ban list ([mux_local/ban/item.go]): a Bloom filter in memory
    and the same bans, one hexadecimal line each, in a file.

    The Bloom filter package is a parameter ([BloomFilter]) with what the code
    relies on: an added element is always found, adding keeps the others. *)
From Stdlib Require Import ZArith Lia Bool Strings.String.
From stdpp Require Import base strings list sets gmap.
From S2P Require Import Prelude GoStd.
Set Default Proof Using "Type*".
Local Open Scope Z_scope.

(** ** github.com/bits-and-blooms/bloom *)
Class BloomFilter (B : Type) := {
  bl_NewWithEstimates : Z → B;
  bl_Add : bytes → B → B;
  bl_Test : bytes → B → bool;
}.
Class BloomFilterLaws (B : Type) `{!BloomFilter B} := {
  bl_Test_Add x b : bl_Test x (bl_Add x b) = true;
  bl_Test_mono x y b : bl_Test x b = true → bl_Test x (bl_Add y b) = true;
}.

(** ** [bufio.Scanner] over the file's bytes *)
Definition MaxScanTokenSize : nat := 65536.
Definition newline : Byte.byte := Byte.x0a.

Definition drop_cr (l : bytes) : bytes :=
  match reverse l with c :: r => if Byte.eqb c Byte.x0d then reverse r else l | [] => l end.

(** The bytes up to the first newline, and what follows it. *)
Fixpoint split_line (s : bytes) : bytes * option bytes :=
  match s with
  | [] => ([], None)
  | c :: s =>
      if Byte.eqb c newline then ([], Some s)
      else let '(l, r) := split_line s in (c :: l, r)
  end.

(** The lines [Scan] yields, and whether it stopped at a line that is too long. *)
Fixpoint scan_lines (fuel : nat) (s : bytes) : list bytes * bool :=
  match fuel with
  | O => ([], false)
  | S fuel =>
      if decide (s = []) then ([], false)
      else
        let '(l, r) := split_line s in
        if (MaxScanTokenSize <=? length l)%nat then ([], true)
        else
          match r with
          | None => ([drop_cr l], false)
          | Some s' => let '(ls, e) := scan_lines fuel s' in (drop_cr l :: ls, e)
          end
  end.
Definition Scan (s : bytes) : list bytes * bool := scan_lines (length s) s.

(** ** The ban list *)
Definition defaultFilterCap : Z := 32.

(** The outcome of the file operations of one call: [None] is success.  A
    failing write has already put some first bytes of the line in the file. *)
Record io := mkIO {
  seek_err : option string;
  write_err : option (nat * string);
  sync_err : option string;
  trunc_err : option string;
}.
Definition io_ok : io := mkIO None None None None.

Section BanItem.
Context {B : Type} `{BloomFilter B}.

(** [store] is the content of the file, opened for appending. *)
Record banItem := mkBanItem { filter : B; cap : Z; count : Z; store : bytes }.

(** The loop both readers run over the lines: it stops at the first line that
    is not hexadecimal and skips those that are not 20 bytes long. *)
Fixpoint read_lines (ls : list bytes) : list bytes :=
  match ls with
  | [] => []
  | raw :: ls =>
      match hex_decode raw with
      | None => []
      | Some decoded =>
          if (length decoded =? 20)%nat then decoded :: read_lines ls else read_lines ls
      end
  end.

(** [open] is what [os.OpenFile] gives: the content, or an error. *)
Definition newBanItem (open : result bytes) : result banItem :=
  match open with
  | Err e => Err e
  | Ok content =>
      let filter := fold_left (fun f x => bl_Add x f) (read_lines (Scan content).1)
                      (bl_NewWithEstimates defaultFilterCap) in
      Ok (mkBanItem filter defaultFilterCap 0 content)
  end.

Definition test (target : bytes) (i : banItem) : bool := bl_Test target (filter i).

(** The errors of [Truncate] and [Seek] are dropped. *)
Definition clear (o : io) (i : banItem) : banItem :=
  mkBanItem (bl_NewWithEstimates defaultFilterCap) defaultFilterCap 0
    (match trunc_err o with Some _ => store i | None => [] end).

(** Whether the loop runs through all of [ls]. *)
Definition all_hex (ls : list bytes) : bool := forallb (fun raw => bool_decide (is_Some (hex_decode raw))) ls.

Definition readBan (o : io) (i : banItem) : result (list bytes) :=
  match seek_err o with
  | Some e => Err e
  | None =>
      let '(ls, too_long) := Scan (store i) in
      if too_long && all_hex ls then Err "bufio.Scanner: token too long" else Ok (read_lines ls)
  end.

Definition write_target (o : io) (target : bytes) (i : banItem) : result unit * banItem :=
  let line := hex_encode target ++ [newline] in
  match write_err o with
  | Some (n, e) => (Err e, mkBanItem (filter i) (cap i) (count i) (store i ++ take n line))
  | None =>
      let i := mkBanItem (filter i) (cap i) (count i) (store i ++ line) in
      (match sync_err o with Some e => Err e | None => Ok tt end, i)
  end.

Definition add (o : io) (target : bytes) (i : banItem) : result unit * banItem :=
  if cap i <=? u64 (count i + 1) then
    let i := mkBanItem (filter i) (u64 (cap i * 2)) (count i) (store i) in
    match readBan o i with
    | Err e => (Err e, i)
    | Ok currentBanlist =>
        let newFilter := fold_left (fun f v => bl_Add v f) currentBanlist (bl_NewWithEstimates (cap i)) in
        let newFilter := bl_Add target newFilter in
        write_target o target (mkBanItem newFilter (cap i) (u64 (count i + 1)) (store i))
    end
  else
    write_target o target (mkBanItem (bl_Add target (filter i)) (cap i) (u64 (count i + 1)) (store i)).
End BanItem.
Arguments banItem : clear implicits.

(** ** Reading back what was written *)
Definition line (t : bytes) : bytes := hex_encode t ++ [newline].

Lemma newline_hex t : Forall (fun c => Byte.eqb c newline = false) (hex_encode t).
Proof.
  eapply Forall_impl; [apply hex_encode_no_nl|]. intros c [Hc _]. by destruct c.
Qed.

Lemma split_line_line l r :
  Forall (fun c => Byte.eqb c newline = false) l → split_line (l ++ newline :: r) = (l, Some r).
Proof.
  induction 1 as [|c l Hc _ IH]; [done|]. cbn [app split_line]. by rewrite Hc, IH.
Qed.

Lemma drop_cr_hex t : drop_cr (hex_encode t) = hex_encode t.
Proof.
  unfold drop_cr. destruct (reverse (hex_encode t)) as [|c r] eqn:E; [done|].
  assert (c ∈ hex_encode t) as Hc.
  { rewrite <- (reverse_involutive (hex_encode t)), E. apply elem_of_reverse. left. }
  pose proof (proj1 (Forall_forall _ _) (hex_encode_no_nl t) c Hc) as [_ Hcr].
  destruct (Byte.eqb c Byte.x0d) eqn:Hb; [|done]. exfalso. apply Hcr. by destruct c.
Qed.

Definition short (t : bytes) : Prop := (2 * length t < MaxScanTokenSize)%nat.

(** The scanner finds the lines of [ts] first, whatever follows them. *)
Lemma scan_lines_lines fuel ts junk :
  Forall short ts → (length (flat_map line ts ++ junk) ≤ fuel)%nat →
  ∃ fuel', scan_lines fuel (flat_map line ts ++ junk)
           = (map hex_encode ts ++ (scan_lines fuel' junk).1, (scan_lines fuel' junk).2).
Proof.
  intros Hs. revert fuel. induction Hs as [|t ts Ht _ IH]; intros fuel Hf.
  { exists fuel. cbn [flat_map map app]. by destruct (scan_lines fuel junk). }
  cbn [flat_map] in *.
  assert ((line t ++ flat_map line ts) ++ junk = hex_encode t ++ newline :: (flat_map line ts ++ junk)) as E
    by (unfold line; by rewrite <- !app_assoc).
  rewrite E in Hf |- *. rewrite length_app in Hf. cbn [length] in Hf.
  destruct fuel as [|fuel]; [lia|]. cbn [scan_lines].
  rewrite decide_False by (by destruct (hex_encode t)).
  rewrite split_line_line by apply newline_hex.
  rewrite (proj2 (Nat.leb_gt _ _)) by (rewrite length_hex_encode; exact Ht).
  destruct (IH fuel ltac:(lia)) as [fuel' ->]. exists fuel'. by rewrite drop_cr_hex.
Qed.

Lemma Scan_lines ts : Forall short ts → Scan (flat_map line ts) = (map hex_encode ts, false).
Proof.
  intros Hs. unfold Scan. rewrite <- (app_nil_r (flat_map line ts)).
  destruct (scan_lines_lines _ ts [] Hs (le_n _)) as [fuel' ->].
  replace (scan_lines fuel' []) with (@nil bytes, false) by (by destruct fuel'). cbn [fst snd]. by rewrite app_nil_r.
Qed.

Definition is_hash (t : bytes) : bool := (length t =? 20)%nat.

Lemma read_lines_hex_app ts ls : read_lines (map hex_encode ts ++ ls) = List.filter is_hash ts ++ read_lines ls.
Proof.
  induction ts as [|t ts IH]; [done|]. cbn [map app read_lines]. rewrite hex_decode_encode, IH.
  unfold is_hash. cbn [List.filter]. by destruct (_ =? _)%nat.
Qed.

(** The hashes both readers find in a file that starts with the lines of [ts]. *)
Lemma read_lines_file ts junk :
  Forall short ts → List.filter is_hash ts ⊆ read_lines (Scan (flat_map line ts ++ junk)).1.
Proof.
  intros Hs. unfold Scan. destruct (scan_lines_lines _ ts junk Hs (le_n _)) as [fuel' ->].
  cbn [fst]. rewrite read_lines_hex_app. set_solver.
Qed.

(** A failed write that put nothing in the file. *)
Definition untorn (o : io) : Prop := match write_err o with Some (n, _) => n = 0%nat | None => True end.

Section Bans.
Context {B : Type} `{BloomFilterLaws B}.
Implicit Types (i : banItem B) (t : bytes).

Lemma test_fold l (f : B) t : t ∈ l ∨ bl_Test t f = true → bl_Test t (fold_left (fun f x => bl_Add x f) l f) = true.
Proof.
  revert f. induction l as [|x l IH]; intros f Ht; simpl.
  - by destruct Ht as [?%not_elem_of_nil|].
  - apply IH. destruct Ht as [[->|Ht]%elem_of_cons|Ht]; [right; apply bl_Test_Add|by left|].
    right. by apply bl_Test_mono.
Qed.

(** A ban that is held: its line is in the file, after whole lines only, and
    the filter finds it. *)
Definition kept t i : Prop :=
  (∃ ts junk, store i = flat_map line ts ++ junk ∧ Forall short ts ∧ t ∈ ts) ∧ (is_hash t = true → test t i = true).

(** The file holds nothing but whole lines, none too long for the scanner. *)
Definition whole i : Prop := ∃ ts, store i = flat_map line ts ∧ Forall short ts.

Lemma filter_hash_elem ts t : t ∈ ts → is_hash t = true → t ∈ List.filter is_hash ts.
Proof. intros Ht Hh. apply list_elem_of_In, filter_In. split; [by apply list_elem_of_In|done]. Qed.

Lemma newBanItem_kept ts junk :
  Forall short ts →
  ∃ i, newBanItem (Ok (flat_map line ts ++ junk)) = Ok i ∧ store i = flat_map line ts ++ junk ∧ ∀ t, t ∈ ts → kept t i.
Proof.
  intros Hs. eexists. split; [reflexivity|]. split; [done|]. intros t Ht. split; [by exists ts, junk|].
  intros Hh. unfold test. cbn [filter]. apply test_fold. left. apply (read_lines_file ts junk Hs). by apply filter_hash_elem.
Qed.

Lemma kept_restart t i :
  kept t i → length t = 20%nat →
  test t i = true ∧ ∃ i', newBanItem (Ok (store i)) = Ok i' ∧ test t i' = true.
Proof.
  intros [(ts & junk & Hst & Hs & Hin) Ht] Hl%Nat.eqb_eq. split; [by apply Ht|].
  destruct (newBanItem_kept ts junk Hs) as (i' & Hi' & _ & Hk). exists i'.
  rewrite Hst. split; [done|]. by apply (Hk t Hin).
Qed.

Lemma write_target_kept o t t' i : kept t i → kept t (write_target o t' i).2.
Proof.
  intros [(ts & junk & Hst & Hs & Hin) Ht]. unfold write_target.
  destruct (write_err o) as [[n e]|]; (split; [|exact Ht]); cbn [snd store]; rewrite Hst, <- app_assoc; by eexists _, _.
Qed.

(** The state [add] goes on to write from: it has the target in its filter and,
    grown or not, keeps what the old one did. *)
Lemma add_cases o t i :
  (∃ e i', add o t i = (Err e, i') ∧ store i' = store i ∧ ∀ u, kept u i → kept u i') ∨
  ∃ i', add o t i = write_target o t i' ∧ store i' = store i ∧ test t i' = true ∧ ∀ u, kept u i → kept u i'.
Proof.
  unfold add. destruct (cap i <=? _).
  - unfold readBan. destruct (seek_err o) as [e|]; [left; by eexists _, _|]. cbn [store].
    destruct (Scan (store i)) as [ls long] eqn:E. destruct (long && _); [left; by eexists _, _|].
    right. eexists. split; [reflexivity|]. split; [done|]. split; [apply bl_Test_Add|].
    intros u [Hf _]. split; [exact Hf|]. intros Hh. destruct Hf as (ts & junk & Hst & Hs & Hin).
    pose proof (read_lines_file ts junk Hs u (filter_hash_elem ts u Hin Hh)) as Hl. rewrite <- Hst, E in Hl.
    apply bl_Test_mono, test_fold. by left.
  - right. eexists. split; [reflexivity|]. split; [done|]. split; [apply bl_Test_Add|].
    intros u [Hf Hu]. split; [exact Hf|]. intros Hh. by apply bl_Test_mono, Hu.
Qed.

(** Adding anything, whatever happens to the file, keeps what is held. *)
Lemma add_keeps o t u i : kept u i → kept u (add o t i).2.
Proof.
  intros Hu. destruct (add_cases o t i) as [(e & i' & -> & _ & Hk)|(i' & -> & _ & _ & Hk)]; [by apply Hk|].
  by apply write_target_kept, Hk.
Qed.

(** A successful [add] on a whole file is held. *)
Lemma add_Ok_kept o t i : whole i → short t → (add o t i).1 = Ok tt → kept t (add o t i).2.
Proof.
  intros (ts & Hst & Hs) Hsh. destruct (add_cases o t i) as [(e & i' & -> & _)|(i' & -> & Hst' & Ht & _)]; [done|].
  unfold write_target. destruct (write_err o) as [[n e]|]; [done|]. intros _. split; [|by intros _].
  exists (ts ++ [t]), []. split_and!; [|apply Forall_app; split; [done|by constructor]|set_solver].
  cbn [snd store]. rewrite Hst', Hst, flat_map_app. cbn [flat_map]. by rewrite !app_nil_r.
Qed.

Lemma add_whole o t i : whole i → short t → untorn o → whole (add o t i).2.
Proof.
  intros (ts & Hst & Hs) Hsh Ho. destruct (add_cases o t i) as [(e & i' & -> & Hst' & _)|(i' & -> & Hst' & _)].
  { exists ts. split; [cbn [snd]; congruence|done]. }
  unfold write_target, untorn in *. destruct (write_err o) as [[n e]|].
  - subst n. exists ts. cbn [snd store take]. by rewrite app_nil_r, Hst'.
  - exists (ts ++ [t]). split; [|apply Forall_app; split; [done|by constructor]].
    cbn [snd store]. rewrite Hst', Hst, flat_map_app. cbn [flat_map]. by rewrite app_nil_r.
Qed.

Lemma add_Ok_untorn o t i : (add o t i).1 = Ok tt → untorn o.
Proof.
  destruct (add_cases o t i) as [(e & i' & -> & _)|(i' & -> & _)]; [done|].
  unfold write_target, untorn. by destruct (write_err o) as [[n e]|].
Qed.

(** A sequence of [add]s with the outcome of their file operations, and the
    targets whose [add] succeeded. *)
Fixpoint add_all (ops : list (io * bytes)) i : list bytes * banItem B :=
  match ops with
  | [] => ([], i)
  | (o, t) :: ops =>
      let '(r, i) := add o t i in
      let '(added, i) := add_all ops i in
      (if is_ok r then t :: added else added, i)
  end.

Lemma add_all_keeps ops u i : kept u i → kept u (add_all ops i).2.
Proof.
  revert i. induction ops as [|[o t] ops IH]; intros i Hi; [done|]. cbn [add_all].
  pose proof (add_keeps o t u i Hi) as Hi1. destruct (add o t i) as [r i1].
  specialize (IH i1 Hi1). by destruct (add_all ops i1).
Qed.

Lemma add_all_added ops i :
  whole i → Forall (fun op => short op.2 ∧ untorn op.1) ops → ∀ t, t ∈ (add_all ops i).1 → kept t (add_all ops i).2.
Proof.
  intros Hw Hs. revert i Hw. induction Hs as [|[o t] ops [Ht Ho] _ IH]; intros i Hw u; cbn [add_all].
  { by intros ?%not_elem_of_nil. }
  pose proof (add_whole o t i Hw Ht Ho) as Hw1. pose proof (add_Ok_kept o t i Hw Ht) as Hk.
  destruct (add o t i) as [r i1]. pose proof (add_all_keeps ops t i1) as Hks. specialize (IH i1 Hw1).
  destruct (add_all ops i1) as [added i2]. cbn [fst snd] in *. destruct r as [[]|e]; cbn [is_ok]; [|apply IH].
  intros [->|Hu]%elem_of_cons; [by apply Hks, Hk|by apply IH].
Qed.

(** C26: On a file that holds whole lines, after any sequence of [add]s, whatever
    file errors they meet and however often the filter grows on the way, every
    20-byte target that was in the file or whose [add] succeeded before the first
    write that left part of a line is reported as banned, both by the running
    filter and by the one rebuilt from the file after a restart. *)
Theorem bans_kept ts0 (i0 : banItem B) before after t :
  Forall short ts0 → newBanItem (Ok (flat_map line ts0)) = Ok i0 →
  Forall (fun op => short op.2 ∧ untorn op.1) before →
  let i := (add_all after (add_all before i0).2).2 in
  t ∈ ts0 ∨ t ∈ (add_all before i0).1 → length t = 20%nat →
  test t i = true ∧ ∃ i', newBanItem (Ok (store i)) = Ok i' ∧ test t i' = true.
Proof.
  intros Hs0 H0 Hs i Ht Hl. destruct (newBanItem_kept ts0 [] Hs0) as (i1 & Hi & Hst & Hk).
  rewrite app_nil_r in Hi, Hst. rewrite H0 in Hi. injection Hi as <-.
  apply kept_restart; [apply add_all_keeps|done]. destruct Ht as [Ht|Ht]; [by apply add_all_keeps, Hk|].
  apply add_all_added; [by exists ts0|done..].
Qed.
End Bans.

(** An exact filter, for running the definitions. *)
#[export] Instance ListFilter : BloomFilter (list bytes) := {|
  bl_NewWithEstimates _ := [];
  bl_Add x f := x :: f;
  bl_Test x f := existsb (fun y => bool_decide (x = y)) f;
|}.
#[export] Instance ListFilterLaws : BloomFilterLaws (list bytes).
Proof.
  split; simpl.
  - intros x b. by rewrite bool_decide_eq_true_2.
  - intros x y b ->. by rewrite orb_true_r.
Qed.

(** A ban read from the file, then forty hashes, enough for the filter to grow,
    the seventh write failing with nothing written; then one that tears. *)
Definition sample_hash (n : nat) : bytes := replicate 19 Byte.x00 ++ [byte_of_Z (Z.of_nat n)].
Definition disk_full (n : nat) : io := mkIO None (Some (n, "disk full"%string)) None None.
Definition sample_ops : list (io * bytes) :=
  map (fun n => (if (n =? 7)%nat then disk_full 0 else io_ok, sample_hash n)) (seq 0 40).
Definition torn_op : io * bytes := (disk_full 5, sample_hash 40).
Definition empty_item : banItem (list bytes) := mkBanItem [] 32 0 [].
Definition item_of_file (ts : list bytes) : banItem (list bytes) :=
  mkBanItem (fold_left (fun f x => x :: f) ts []) 32 0 (flat_map line ts).

Lemma bans_kept_witness :
  let i := (add_all [torn_op] (add_all sample_ops (item_of_file [sample_hash 50])).2).2 in
  test (sample_hash 3) i = true ∧ test (sample_hash 50) i = true ∧ cap i = 64.
Proof.
  assert (Forall short [sample_hash 50]) as H0 by (apply Forall_singleton, Nat.ltb_lt; vm_compute; reflexivity).
  assert (Forall (fun op => short op.2 ∧ untorn op.1) sample_ops) as Hs.
  { apply Forall_forall. intros op Hop. unfold sample_ops in Hop.
    apply list_elem_of_In, in_map_iff in Hop as (n & <- & _). split; [apply Nat.ltb_lt; vm_compute; reflexivity|].
    cbn [fst]. destruct (n =? 7)%nat; reflexivity. }
  assert (newBanItem (Ok (flat_map line [sample_hash 50])) = Ok (item_of_file [sample_hash 50])) as Hf by (vm_compute; reflexivity).
  pose proof (bans_kept [sample_hash 50] (item_of_file [sample_hash 50]) sample_ops [torn_op] (sample_hash 3) H0 Hf Hs) as H3.
  pose proof (bans_kept [sample_hash 50] (item_of_file [sample_hash 50]) sample_ops [torn_op] (sample_hash 50) H0 Hf Hs) as H50.
  split; [|split; [|vm_compute; reflexivity]].
  - refine (proj1 (H3 (or_intror _) eq_refl)). vm_compute. do 3 right. left.
  - refine (proj1 (H50 (or_introl _) eq_refl)). left.
Defined.

(** A write that fails half-way leaves part of a line; the line of the next ban
    joins it, and that ban, although its [add] succeeded, is lost at the restart
    (an odd number of digits also hides everything banned after it). *)
Theorem torn_write_loses_bans :
  let i1 := (add (disk_full 5) (sample_hash 1) empty_item).2 in
  let i := (add_all [(io_ok, sample_hash 2); (io_ok, sample_hash 3)] i1).2 in
  (add_all [(io_ok, sample_hash 2); (io_ok, sample_hash 3)] i1).1 = [sample_hash 2; sample_hash 3] ∧
  test (sample_hash 2) i = true ∧ test (sample_hash 3) i = true ∧
  match newBanItem (B := list bytes) (Ok (store i)) with
  | Ok i' => test (sample_hash 2) i' = false ∧ test (sample_hash 3) i' = false
  | Err _ => False
  end.
Proof. vm_compute. auto. Qed.

(** The error of [Truncate] is dropped: bans that were cleared while it failed
    are back after the restart. *)
Theorem clear_undone :
  let i := clear (mkIO None None None (Some "read-only file system"%string)) (item_of_file [sample_hash 1]) in
  test (sample_hash 1) i = false ∧
  match newBanItem (B := list bytes) (Ok (store i)) with
  | Ok i' => test (sample_hash 1) i' = true
  | Err _ => False
  end.
Proof. vm_compute. auto. Qed.

(** A target that is not 20 bytes long is banned at first, and silently no
    longer banned once the filter has grown, although its [add] succeeded. *)
Theorem short_ban_lost :
  let t := bytes_of_string "abc" in
  let i1 := (add io_ok t empty_item).2 in
  let i2 := (add_all (map (fun n => (io_ok, sample_hash n)) (seq 0 31)) i1).2 in
  (add io_ok t empty_item).1 = Ok tt ∧ test t i1 = true ∧ test t i2 = false ∧
  (add_all (map (fun n => (io_ok, sample_hash n)) (seq 0 31)) i1).1 = map sample_hash (seq 0 31).
Proof. vm_compute. auto. Qed.
