(* ===== verification/IPFilter.v ===== *)
(** Address filters ([mux_local/ban/ip_filter.go], [ip_filter_fallback.go]): the
    interface with its laws, and the in-memory implementation. *)
From Stdlib Require Import ZArith Lia Bool Strings.String.
From stdpp Require Import base strings list sets gmap.
From S2P Require Import Prelude GoStd Common.
Set Default Proof Using "Type*".
Local Open Scope Z_scope.

(** ** The interface *)
Class IPFilter (F : Type) := {
  ipf_AddIP : netIP → F → result unit * F;
  ipf_RemoveIP : netIP → F → result unit * F;
  ipf_TestIP : netIP → F → bool;
  ipf_Clear : F → result unit * F;
  ipf_Close : F → result unit * F;
  ipf_Stats : F → IPFilterStats;
}.

(** [ipf_blocked f b]: the 16-byte form [b] is blocked.  A call that fails
    leaves the set alone; [Clear] promises something only when it succeeds. *)
Class IPFilterLaws (F : Type) `{!IPFilter F} := {
  ipf_blocked : F → bytes → Prop;
  ipf_TestIP_spec ip b f : To16 ip = Some b → ipf_TestIP ip f = true ↔ ipf_blocked f b;
  ipf_AddIP_spec ip b f :
    To16 ip = Some b →
    ∀ c, length c = 16%nat → ipf_blocked (ipf_AddIP ip f).2 c
         ↔ (c = b ∧ (ipf_AddIP ip f).1 = Ok tt) ∨ ipf_blocked f c;
  ipf_RemoveIP_spec ip b f :
    To16 ip = Some b →
    ∀ c, length c = 16%nat → ipf_blocked (ipf_RemoveIP ip f).2 c
         ↔ ¬ (c = b ∧ (ipf_RemoveIP ip f).1 = Ok tt) ∧ ipf_blocked f c;
  (** [Clear] would reach every address *)
  ipf_whole : F → Prop;
  ipf_Clear_spec f :
    ipf_whole f → (ipf_Clear f).1 = Ok tt → ∀ c, length c = 16%nat → ¬ ipf_blocked (ipf_Clear f).2 c;
}.

(** ** [fallbackIPFilter] *)
Record fallbackIPFilter := mkFallback { blocked : gset string }.

Definition newFallbackIPFilter : fallbackIPFilter := mkFallback ∅.

Module fallback.
Definition AddIP (ip : netIP) (f : fallbackIPFilter) : result unit * fallbackIPFilter :=
  (Ok tt, mkFallback ({[IP_String ip]} ∪ blocked f)).
Definition RemoveIP (ip : netIP) (f : fallbackIPFilter) : result unit * fallbackIPFilter :=
  (Ok tt, mkFallback (blocked f ∖ {[IP_String ip]})).
Definition TestIP (ip : netIP) (f : fallbackIPFilter) : bool := bool_decide (IP_String ip ∈ blocked f).
Definition Clear (f : fallbackIPFilter) : result unit * fallbackIPFilter := (Ok tt, mkFallback ∅).
Definition Close (f : fallbackIPFilter) : result unit * fallbackIPFilter := (Ok tt, f).
Definition Stats (f : fallbackIPFilter) : IPFilterStats :=
  {| TotalIPs := u64 (Z.of_nat (size (blocked f))); PacketsDropped := 0; PacketsAllowed := 0;
     IsXDP := false; InterfaceName := "" |}.
End fallback.

#[export] Instance fallback_ops : IPFilter fallbackIPFilter := {|
  ipf_AddIP := fallback.AddIP; ipf_RemoveIP := fallback.RemoveIP; ipf_TestIP := fallback.TestIP;
  ipf_Clear := fallback.Clear; ipf_Close := fallback.Close; ipf_Stats := fallback.Stats;
|}.

Lemma To16_length16 b : length b = 16%nat → To16 (Some b) = Some b.
Proof. intros Hb. unfold To16. rewrite decide_False by lia. by rewrite decide_True. Qed.

Lemma ip_valid_To16 ip b : To16 ip = Some b → ip_valid ip = true.
Proof. intros Hip. unfold ip_valid. apply bool_decide_eq_true. by rewrite Hip. Qed.

(** Two forms of one address have one text; different addresses have two. *)
Lemma IP_String_To16 ip b c :
  To16 ip = Some b → length c = 16%nat → IP_String (Some c) = IP_String ip ↔ c = b.
Proof.
  intros Hip Hc. pose proof (To16_length16 c Hc) as Hc16.
  rewrite IP_String_inj by (by eapply ip_valid_To16). rewrite Hip, Hc16. split; congruence.
Qed.

Lemma IP_String_canonical ip b : To16 ip = Some b → IP_String (Some b) = IP_String ip.
Proof. intros Hip. apply (IP_String_To16 ip b b Hip); [|done]. by apply To16_Some in Hip as [? _]. Qed.

#[export] Program Instance fallback_laws : IPFilterLaws fallbackIPFilter := {|
  ipf_blocked f c := IP_String (Some c) ∈ blocked f;
  ipf_whole f := True;
|}.
Next Obligation.
  intros ip b f Hip. simpl. unfold fallback.TestIP. rewrite bool_decide_eq_true.
  by rewrite (IP_String_canonical ip b Hip).
Qed.
Next Obligation.
  intros ip b f Hip c Hc. simpl. rewrite elem_of_union, elem_of_singleton, (IP_String_To16 ip b c) by done. tauto.
Qed.
Next Obligation.
  intros ip b f Hip c Hc. simpl. rewrite elem_of_difference, elem_of_singleton, (IP_String_To16 ip b c) by done.
  tauto.
Qed.
Next Obligation. intros f _ _ c _. simpl. set_solver. Qed.
