(* ===== verification/Xdp.v ===== *)
(** The kernel-level address filter ([mux_local/ban/xdp/filter.go],
    [ban/ip_filter_xdp_linux.go]).

    The eBPF maps, the loader and the link are the cilium/ebpf package's, hence
    parameters: [BpfMap] says what its map calls promise, [xdp_env] holds the
    outcomes of the calls that set the filter up. *)
From Stdlib Require Import ZArith Lia Bool Strings.String.
From stdpp Require Import base strings list sets gmap.
From S2P Require Import Prelude GoStd Config Common IPFilter.
Set Default Proof Using "Type*".
Local Open Scope Z_scope.

(** ** eBPF hash maps *)
Class BpfMap (K B : Type) := {
  bm_Put : K → B → result unit * B;
  bm_Delete : K → B → result unit * B;
  bm_Lookup : K → B → bool;
  (** the keys an iterator yields while each is deleted as it is visited, and
      whether it stops before the end ([Err], which the code does not look at) *)
  bm_Iterate : B → list K;
  bm_IterErr : B → bool;
}.
Class BpfMapLaws (K B : Type) `{!BpfMap K B} := {
  bm_elem : K → B → Prop;
  bm_Put_spec k m k' : bm_elem k' (bm_Put k m).2 ↔ (k' = k ∧ (bm_Put k m).1 = Ok tt) ∨ bm_elem k' m;
  bm_Delete_spec k m k' : bm_elem k' (bm_Delete k m).2 ↔ ¬ (k' = k ∧ (bm_Delete k m).1 = Ok tt) ∧ bm_elem k' m;
  bm_Lookup_spec k m : bm_Lookup k m = true ↔ bm_elem k m;
  bm_Iterate_spec k m : bm_IterErr m = false → bm_elem k m → k ∈ bm_Iterate m;
}.

(** ** [XDPFilter] *)
Section XDP.
Context {B4 B6 BP : Type} `{BpfMap Z B4} `{BpfMap bytes B6} `{BpfMap Z BP}.

Record bpfObjects := mkBpfObjects
  { BlockedIpv4 : B4; BlockedIpv6 : B6; FilterPorts : BP; Stats_ : Z → option Z }.

(** What the system answers when the filter is set up or closed. *)
Record xdp_env := mkXdpEnv
  { RemoveMemlock : result unit; loadBpfObjects : result bpfObjects;
    InterfaceByName : string → result Z; AttachXDP : Z → result unit;
    close_link : result unit; close_objs : result unit }.

Record XDPFilter := mkXDPFilter
  { objs : bpfObjects; iface : string; ipv4Count : Z; ipv6Count : Z }.

(** The loop that fills the map of filtered ports. *)
Fixpoint put_ports (ports : list Z) (m : BP) : result BP :=
  match ports with
  | [] => Ok m
  | port :: ports =>
      match bm_Put port m with
      | (Err e, _) => Err ("failed to add port " ++ Itoa port ++ " to filter map: " ++ e)
      | (Ok _, m) => put_ports ports m
      end
  end%string.

Definition NewXDPFilter (env : xdp_env) (ifaceName : string) (filterPorts : list Z) : result XDPFilter :=
  match RemoveMemlock env with
  | Err e => Err ("failed to remove memlock limit: " ++ e)
  | Ok _ =>
      match loadBpfObjects env with
      | Err e => Err ("failed to load XDP program: " ++ e)
      | Ok o =>
          match put_ports filterPorts (FilterPorts o) with
          | Err e => Err e
          | Ok fp =>
              match InterfaceByName env ifaceName with
              | Err e => Err ("network interface not found: " ++ ifaceName ++ ": " ++ e)
              | Ok index =>
                  match AttachXDP env index with
                  | Err e => Err ("failed to attach XDP program: " ++ e)
                  | Ok _ =>
                      Ok {| objs := mkBpfObjects (BlockedIpv4 o) (BlockedIpv6 o) fp (Stats_ o);
                            iface := ifaceName; ipv4Count := 0; ipv6Count := 0 |}
                  end
              end
          end
      end
  end%string.

Definition set_v4 (m : B4) (n : Z) (x : XDPFilter) : XDPFilter :=
  mkXDPFilter (mkBpfObjects m (BlockedIpv6 (objs x)) (FilterPorts (objs x)) (Stats_ (objs x)))
    (iface x) n (ipv6Count x).
Definition set_v6 (m : B6) (n : Z) (x : XDPFilter) : XDPFilter :=
  mkXDPFilter (mkBpfObjects (BlockedIpv4 (objs x)) m (FilterPorts (objs x)) (Stats_ (objs x)))
    (iface x) (ipv4Count x) n.

Definition AddIPv4 (ip : netIP) (x : XDPFilter) : result unit * XDPFilter :=
  match To4 ip with
  | None => (Err "not a valid IPv4 address", x)
  | Some ip4 =>
      match bm_Put (le_decode ip4) (BlockedIpv4 (objs x)) with
      | (Err e, m) => (Err ("failed to add IPv4 to BPF map: " ++ e), set_v4 m (ipv4Count x) x)
      | (Ok _, m) => (Ok tt, set_v4 m (u64 (ipv4Count x + 1)) x)
      end
  end%string.
Definition AddIPv6 (ip : netIP) (x : XDPFilter) : result unit * XDPFilter :=
  match To16 ip with
  | None => (Err "not a valid IPv6 address", x)
  | Some ip6 =>
      match bm_Put ip6 (BlockedIpv6 (objs x)) with
      | (Err e, m) => (Err ("failed to add IPv6 to BPF map: " ++ e), set_v6 m (ipv6Count x) x)
      | (Ok _, m) => (Ok tt, set_v6 m (u64 (ipv6Count x + 1)) x)
      end
  end%string.

Definition RemoveIPv4 (ip : netIP) (x : XDPFilter) : result unit * XDPFilter :=
  match To4 ip with
  | None => (Err "not a valid IPv4 address", x)
  | Some ip4 =>
      match bm_Delete (le_decode ip4) (BlockedIpv4 (objs x)) with
      | (Err e, m) => (Err ("failed to remove IPv4 from BPF map: " ++ e), set_v4 m (ipv4Count x) x)
      | (Ok _, m) => (Ok tt, set_v4 m (if (0 <? ipv4Count x)%Z then ipv4Count x - 1 else ipv4Count x) x)
      end
  end%string.
Definition RemoveIPv6 (ip : netIP) (x : XDPFilter) : result unit * XDPFilter :=
  match To16 ip with
  | None => (Err "not a valid IPv6 address", x)
  | Some ip6 =>
      match bm_Delete ip6 (BlockedIpv6 (objs x)) with
      | (Err e, m) => (Err ("failed to remove IPv6 from BPF map: " ++ e), set_v6 m (ipv6Count x) x)
      | (Ok _, m) => (Ok tt, set_v6 m (if (0 <? ipv6Count x)%Z then ipv6Count x - 1 else ipv6Count x) x)
      end
  end%string.

Definition TestIPv4 (ip : netIP) (x : XDPFilter) : bool :=
  match To4 ip with Some ip4 => bm_Lookup (le_decode ip4) (BlockedIpv4 (objs x)) | None => false end.
Definition TestIPv6 (ip : netIP) (x : XDPFilter) : bool :=
  match To16 ip with Some ip6 => bm_Lookup ip6 (BlockedIpv6 (objs x)) | None => false end.

(** Delete every key the iterator yields; the first failure ends it. *)
Fixpoint delete_keys {K B} `{BpfMap K B} (ks : list K) (m : B) : result unit * B :=
  match ks with
  | [] => (Ok tt, m)
  | k :: ks => match bm_Delete k m with (Err e, m) => (Err e, m) | (Ok _, m) => delete_keys ks m end
  end.
Definition Clear (x : XDPFilter) : result unit * XDPFilter :=
  match delete_keys (bm_Iterate (BlockedIpv4 (objs x))) (BlockedIpv4 (objs x)) with
  | (Err e, m4) => (Err ("failed to clear IPv4 map: " ++ e), set_v4 m4 (ipv4Count x) x)
  | (Ok _, m4) =>
      let x := set_v4 m4 (ipv4Count x) x in
      match delete_keys (bm_Iterate (BlockedIpv6 (objs x))) (BlockedIpv6 (objs x)) with
      | (Err e, m6) => (Err ("failed to clear IPv6 map: " ++ e), set_v6 m6 (ipv6Count x) x)
      | (Ok _, m6) => (Ok tt, set_v6 m6 0%Z (set_v4 m4 0%Z x))
      end
  end%string.

Definition GetStats (x : XDPFilter) : Z * Z :=
  (default 0 (Stats_ (objs x) 0), default 0 (Stats_ (objs x) 1)).
Definition GetIPCount (x : XDPFilter) : Z * Z := (ipv4Count x, ipv6Count x).
Definition GetInterface (x : XDPFilter) : string := iface x.

(** [Close] closes the link and the objects and reports every failure. *)
Definition Close (env : xdp_env) : result unit :=
  let errs := match close_link env with Err e => [("failed to close link: " ++ e)%string] | Ok _ => [] end
              ++ match close_objs env with Err e => [("failed to close objects: " ++ e)%string] | Ok _ => [] end in
  match errs with
  | [] => Ok tt
  | _ => Err ("errors during close: [" ++ String.concat " " errs ++ "]")%string
  end.

(** ** [xdpIPFilter] *)
Record xdpIPFilter := mkXdpIPFilter { x_filter : XDPFilter; x_iface : string; x_env : xdp_env }.

Definition on_filter (r : result unit * XDPFilter) (x : xdpIPFilter) : result unit * xdpIPFilter :=
  (r.1, mkXdpIPFilter r.2 (x_iface x) (x_env x)).

#[export] Instance xdp_ops : IPFilter xdpIPFilter := {|
  ipf_AddIP ip x := on_filter (match To4 ip with Some _ => AddIPv4 ip (x_filter x) | None => AddIPv6 ip (x_filter x) end) x;
  ipf_RemoveIP ip x :=
    on_filter (match To4 ip with Some _ => RemoveIPv4 ip (x_filter x) | None => RemoveIPv6 ip (x_filter x) end) x;
  ipf_TestIP ip x := match To4 ip with Some _ => TestIPv4 ip (x_filter x) | None => TestIPv6 ip (x_filter x) end;
  ipf_Clear x := on_filter (Clear (x_filter x)) x;
  ipf_Close x := (Close (x_env x), x);
  ipf_Stats x :=
    let '(dropped, allowed) := GetStats (x_filter x) in
    let '(v4, v6) := GetIPCount (x_filter x) in
    {| TotalIPs := u64 (v4 + v6); PacketsDropped := dropped; PacketsAllowed := allowed;
       IsXDP := true; InterfaceName := x_iface x |};
|}.
End XDP.
Arguments bpfObjects : clear implicits.
Arguments xdp_env : clear implicits.
Arguments XDPFilter : clear implicits.
Arguments xdpIPFilter : clear implicits.

#[local] Arguments To4 : simpl never.
#[local] Arguments To16 : simpl never.

(** ** The kernel filter keeps the interface's laws *)
Lemma To4_canonical ip b : To16 ip = Some b → To4 (Some b) = To4 ip.
Proof.
  intros Hip. destruct (To16_Some _ _ Hip) as [Hl [(b4 & -> & Hb4 & ->)| ->]]; [|done].
  unfold To4. rewrite (decide_True (P := length b4 = 4%nat)) by done.
  rewrite decide_False by (rewrite length_app, Hb4; discriminate).
  by rewrite decide_True by (rewrite length_app, Hb4; done).
Qed.

Lemma To4_inj16 b c b4 : length b = 16%nat → length c = 16%nat → To4 (Some b) = Some b4 → To4 (Some c) = Some b4 → b = c.
Proof.
  intros Hb Hc Hb4 Hc4. apply To4_To16 in Hb4, Hc4. rewrite To16_length16 in Hb4, Hc4 by done. congruence.
Qed.

Lemma le_decode_inj4 a b : length a = 4%nat → length b = 4%nat → le_decode a = le_decode b → a = b.
Proof.
  intros Ha Hb E. unfold le_decode in E. apply (f_equal (be_encode 4)) in E.
  rewrite !be_encode_decode' in E by by rewrite length_reverse. by apply (inj reverse).
Qed.

Lemma delete_keys_spec {K B} `{BpfMapLaws K B} ks (m : B) k :
  (bm_elem k (delete_keys ks m).2 → bm_elem k m) ∧
  ((delete_keys ks m).1 = Ok tt → k ∈ ks → ¬ bm_elem k (delete_keys ks m).2).
Proof.
  revert m. induction ks as [|k' ks IH]; intros m; simpl; [split; [done|by intros _ ?%not_elem_of_nil]|].
  pose proof (bm_Delete_spec k' m k) as Hd. destruct (bm_Delete k' m) as [[[]|e] m']; simpl in *.
  - destruct (IH m') as [IH1 IH2]. split; [intros ?%IH1; tauto|].
    intros Hok [->|Hk]%elem_of_cons; [|by apply IH2]. intros ?%IH1. tauto.
  - split; [tauto|done].
Qed.

Section XDPLaws.
Context {B4 B6 BP : Type} `{BpfMapLaws Z B4} `{BpfMapLaws bytes B6} `{!BpfMap Z BP}.
Implicit Types (x : xdpIPFilter B4 B6 BP) (ip : netIP) (b c : bytes).

Definition xdp_blocked x c : Prop :=
  match To4 (Some c) with
  | Some c4 => bm_elem (le_decode c4) (BlockedIpv4 (objs (x_filter x)))
  | None => bm_elem c (BlockedIpv6 (objs (x_filter x)))
  end.

Lemma xdp_Test ip b x : To16 ip = Some b → ipf_TestIP ip x = true ↔ xdp_blocked x b.
Proof.
  intros Hip. unfold xdp_blocked. rewrite (To4_canonical ip b Hip). simpl.
  destruct (To4 ip) as [b4|] eqn:E4.
  - unfold TestIPv4. rewrite E4. apply bm_Lookup_spec.
  - unfold TestIPv6. rewrite Hip. apply bm_Lookup_spec.
Qed.

(** The key of an address in its map is the key of that address only. *)
Lemma xdp_key4 ip b b4 c c4 :
  To16 ip = Some b → To4 ip = Some b4 → length c = 16%nat → To4 (Some c) = Some c4 →
  le_decode c4 = le_decode b4 ↔ c = b.
Proof.
  intros Hip Hb4 Hc Hc4. pose proof (To4_canonical ip b Hip) as Hb. rewrite Hb4 in Hb.
  pose proof (To16_Some _ _ Hip) as [Hl _]. split.
  - intros E. apply le_decode_inj4 in E; [|by eapply To4_length..]. subst c4.
    by apply (To4_inj16 c b b4).
  - intros ->. congruence.
Qed.

(** The remaining cases are propositional, up to what the map call returned. *)
Ltac by_cases_of_result := intuition (try discriminate; try congruence).

Lemma xdp_Add ip b x c :
  To16 ip = Some b → length c = 16%nat →
  xdp_blocked (ipf_AddIP ip x).2 c ↔ (c = b ∧ (ipf_AddIP ip x).1 = Ok tt) ∨ xdp_blocked x c.
Proof.
  intros Hip Hc. pose proof (To4_canonical ip b Hip) as Hb. simpl. unfold on_filter, xdp_blocked. simpl.
  destruct (To4 ip) as [b4|] eqn:E4.
  - unfold AddIPv4. rewrite E4.
    pose proof (bm_Put_spec (le_decode b4) (BlockedIpv4 (objs (x_filter x)))) as Hp.
    destruct (bm_Put _ _) as [[[]|e] m]; simpl in *; destruct (To4 (Some c)) as [c4|] eqn:Ec;
      rewrite ?Hp, ?(xdp_key4 ip b b4 c c4) by done; by_cases_of_result.
  - unfold AddIPv6. rewrite Hip. pose proof (bm_Put_spec b (BlockedIpv6 (objs (x_filter x)))) as Hp.
    destruct (bm_Put _ _) as [[[]|e] m]; simpl in *; destruct (To4 (Some c)) as [c4|] eqn:Ec;
      rewrite ?Hp; by_cases_of_result.
Qed.

Lemma xdp_Remove ip b x c :
  To16 ip = Some b → length c = 16%nat →
  xdp_blocked (ipf_RemoveIP ip x).2 c ↔ ¬ (c = b ∧ (ipf_RemoveIP ip x).1 = Ok tt) ∧ xdp_blocked x c.
Proof.
  intros Hip Hc. pose proof (To4_canonical ip b Hip) as Hb. simpl. unfold on_filter, xdp_blocked. simpl.
  destruct (To4 ip) as [b4|] eqn:E4.
  - unfold RemoveIPv4. rewrite E4.
    pose proof (bm_Delete_spec (le_decode b4) (BlockedIpv4 (objs (x_filter x)))) as Hp.
    destruct (bm_Delete _ _) as [[[]|e] m]; simpl in *; destruct (To4 (Some c)) as [c4|] eqn:Ec;
      rewrite ?Hp, ?(xdp_key4 ip b b4 c c4) by done; by_cases_of_result.
  - unfold RemoveIPv6. rewrite Hip. pose proof (bm_Delete_spec b (BlockedIpv6 (objs (x_filter x)))) as Hp.
    destruct (bm_Delete _ _) as [[[]|e] m]; simpl in *; destruct (To4 (Some c)) as [c4|] eqn:Ec;
      rewrite ?Hp; by_cases_of_result.
Qed.

(** Both iterations of [Clear] reach the end. *)
Definition xdp_whole x : Prop :=
  bm_IterErr (BlockedIpv4 (objs (x_filter x))) = false ∧ bm_IterErr (BlockedIpv6 (objs (x_filter x))) = false.

Lemma xdp_Clear x c : xdp_whole x → (ipf_Clear x).1 = Ok tt → length c = 16%nat → ¬ xdp_blocked (ipf_Clear x).2 c.
Proof.
  intros [He4 He6]. simpl. unfold on_filter, Clear, xdp_blocked. simpl.
  set (m4 := BlockedIpv4 (objs (x_filter x))). set (m6 := BlockedIpv6 (objs (x_filter x))).
  pose proof (fun k => delete_keys_spec (bm_Iterate m4) m4 k) as H4.
  destruct (delete_keys (bm_Iterate m4) m4) as [[[]|e] m4']; [|done]. simpl in *.
  pose proof (fun k => delete_keys_spec (bm_Iterate m6) m6 k) as H6.
  destruct (delete_keys (bm_Iterate m6) m6) as [[[]|e] m6']; [|done]. simpl in *.
  intros _ Hc. destruct (To4 (Some c)) as [c4|].
  - intros Hin. destruct (H4 (le_decode c4)) as [Hs Hn]. apply Hn; [done| |done].
    by apply bm_Iterate_spec, Hs.
  - intros Hin. destruct (H6 c) as [Hs Hn]. apply Hn; [done| |done]. by apply bm_Iterate_spec, Hs.
Qed.

#[export] Instance xdp_laws : IPFilterLaws (xdpIPFilter B4 B6 BP) := {|
  ipf_blocked := xdp_blocked;
  ipf_TestIP_spec := xdp_Test;
  ipf_AddIP_spec ip b x Hip c Hc := xdp_Add ip b x c Hip Hc;
  ipf_RemoveIP_spec ip b x Hip c Hc := xdp_Remove ip b x c Hip Hc;
  ipf_whole := xdp_whole;
  ipf_Clear_spec x Hw Hok c Hc := xdp_Clear x c Hw Hok Hc;
|}.
End XDPLaws.
