(* ===== verification/Ban.v ===== *)
(** Bans ([mux_local/ban/manager.go], the selection of the address filter in
    [ip_filter_xdp_linux.go]). *)
From Stdlib Require Import ZArith Lia Bool Strings.String.
From stdpp Require Import base strings list sets gmap.
From S2P Require Import Prelude GoStd Config Common Samples BanItem IPFilter Xdp.
Set Default Proof Using "Type*".
Local Open Scope Z_scope.

Local Open Scope go_scope.

(** ** Ports to filter *)

(** [strings.Split(s, sep)] for a one-byte separator. *)
Fixpoint split_on (sep : Byte.byte) (s : bytes) : list bytes :=
  match s with
  | [] => [[]]
  | c :: s =>
      if Byte.eqb c sep then [] :: split_on sep s
      else match split_on sep s with p :: ps => (c :: p) :: ps | [] => [[c]] end
  end.

(** [strconv.ParseUint(s, 10, 16)] *)
Definition ParseUint16 (s : bytes) : option Z :=
  if bool_decide (s = []) then None
  else if forallb is_digit s && (dec_value s <? 65536) then Some (dec_value s) else None.

Definition parsePort (hostPort : string) : result Z :=
  let parts := split_on (ch ":") (bytes_of_string hostPort) in
  if (length parts <? 2)%nat then Err ("invalid host:port format: " ++ hostPort)%string
  else
    let port := default [] (last parts) in
    match ParseUint16 port with
    | None => Err ("invalid port number: " ++ string_of_bytes port)%string
    | Some p => Ok p
    end.

(** [config] is [config.AppConfig], nil before [Init]. *)
Definition getFilterPorts (config : option Config) : list Z :=
  match config with
  | None => []
  | Some cfg =>
      let t := Tracker cfg in
      (if bool_decide (HostPorts t ≠ "")
       then match parsePort (HostPorts t) with Ok p => [p] | Err _ => [] end else [])
      ++ (if udp_Enable (UDPServer t) && bool_decide (udp_HostPorts (UDPServer t) ≠ "")
          then match parsePort (udp_HostPorts (UDPServer t)) with Ok p => [p] | Err _ => [] end else [])
  end.

Section Filters.
Context {B4 B6 BP : Type} `{BpfMap Z B4} `{BpfMap bytes B6} `{BpfMap Z BP}.

(** The two implementations behind the interface. *)
Inductive ip_filter :=
| Fallback (f : fallbackIPFilter)
| Kernel (x : xdpIPFilter B4 B6 BP).

Definition lift_result {F} (c : F → ip_filter) (r : result unit * F) : result unit * ip_filter := (r.1, c r.2).
#[export] Instance ip_filter_ops : IPFilter ip_filter := {|
  ipf_AddIP ip f := match f with Fallback f => lift_result Fallback (ipf_AddIP ip f) | Kernel x => lift_result Kernel (ipf_AddIP ip x) end;
  ipf_RemoveIP ip f := match f with Fallback f => lift_result Fallback (ipf_RemoveIP ip f) | Kernel x => lift_result Kernel (ipf_RemoveIP ip x) end;
  ipf_TestIP ip f := match f with Fallback f => ipf_TestIP ip f | Kernel x => ipf_TestIP ip x end;
  ipf_Clear f := match f with Fallback f => lift_result Fallback (ipf_Clear f) | Kernel x => lift_result Kernel (ipf_Clear x) end;
  ipf_Close f := match f with Fallback f => lift_result Fallback (ipf_Close f) | Kernel x => lift_result Kernel (ipf_Close x) end;
  ipf_Stats f := match f with Fallback f => ipf_Stats f | Kernel x => ipf_Stats x end;
|}.

(** [NewIPFilter] on Linux: any failure to set the kernel filter up falls back. *)
Definition NewIPFilter (env : xdp_env B4 B6 BP) (config : option Config) (ifaceName : string) : ip_filter :=
  match config with
  | None => Fallback newFallbackIPFilter
  | Some cfg =>
      if negb (xdp_Enable (XDP (Tracker cfg))) then Fallback newFallbackIPFilter
      else if bool_decide (ifaceName = "") then Fallback newFallbackIPFilter
      else
        match NewXDPFilter env ifaceName (getFilterPorts config) with
        | Err _ => Fallback newFallbackIPFilter
        | Ok filter => Kernel (mkXdpIPFilter filter ifaceName env)
        end
  end.
End Filters.
Arguments ip_filter : clear implicits.

#[export] Instance ip_filter_laws {B4 B6 BP} `{BpfMapLaws Z B4} `{BpfMapLaws bytes B6} `{!BpfMap Z BP} :
  IPFilterLaws (ip_filter B4 B6 BP).
Proof.
  refine {| ipf_blocked f c := match f with Fallback f => ipf_blocked f c | Kernel x => ipf_blocked x c end;
            ipf_whole f := match f with Fallback f => ipf_whole f | Kernel x => ipf_whole x end |}.
  - intros ip b [f|x] Hip; [exact (ipf_TestIP_spec ip b f Hip)|exact (ipf_TestIP_spec ip b x Hip)].
  - intros ip b [f|x] Hip; [exact (ipf_AddIP_spec ip b f Hip)|exact (ipf_AddIP_spec ip b x Hip)].
  - intros ip b [f|x] Hip; [exact (ipf_RemoveIP_spec ip b f Hip)|exact (ipf_RemoveIP_spec ip b x Hip)].
  - intros [f|x]; [exact (ipf_Clear_spec f)|exact (ipf_Clear_spec x)].
Defined.

(** ** The ban manager *)
Definition ErrInvalidIP : string := "invalid IP address".

Inductive banType := BanTypePeerId | BanTypeInfoHash | BanTypeIP.

Section Manager.
Context {B F : Type} `{BloomFilter B} `{IPFilter F}.

Record Manager := mkManager { infoHash : banItem B; peerId : banItem B; ipFilter : F }.

(** [files] is what opening each ban file gives; [Err] is a panic. *)
Definition NewBanManagerWithIP (open_infoHash open_peerId : result bytes) (newIPFilter : result F) : result Manager :=
  infoHash <-! newBanItem open_infoHash;
  peerId <-! newBanItem open_peerId;
  ipFilter <-! newIPFilter;
  Ok (mkManager infoHash peerId ipFilter).

(** [getItem]; [None] is its panic. *)
Definition getItem (targetType : banType) (b : Manager) : option (banItem B) :=
  match targetType with
  | BanTypePeerId => Some (peerId b)
  | BanTypeInfoHash => Some (infoHash b)
  | BanTypeIP => None
  end.
Definition put_item (targetType : banType) (i : banItem B) (b : Manager) : Manager :=
  match targetType with
  | BanTypePeerId => mkManager (infoHash b) i (ipFilter b)
  | BanTypeInfoHash => mkManager i (peerId b) (ipFilter b)
  | BanTypeIP => b
  end.
Definition set_ipFilter (f : F) (b : Manager) : Manager := mkManager (infoHash b) (peerId b) f.

Definition AddBan (o : io) (targetType : banType) (target : string) (b : Manager) : option (result unit * Manager) :=
  (fun i => let '(r, i) := add o (bytes_of_string target) i in (r, put_item targetType i b)) <$> getItem targetType b.
Definition Test (targetType : banType) (target : string) (b : Manager) : option bool :=
  test (bytes_of_string target) <$> getItem targetType b.
Definition Clear (o : io) (targetType : banType) (b : Manager) : option Manager :=
  (fun i => put_item targetType (clear o i) b) <$> getItem targetType b.

Definition AddIPBan (ip : string) (b : Manager) : result unit * Manager :=
  match ParseIP ip with
  | None => (Err ErrInvalidIP, b)
  | Some parsedIP => let '(r, f) := ipf_AddIP (Some parsedIP) (ipFilter b) in (r, set_ipFilter f b)
  end.
Definition RemoveIPBan (ip : string) (b : Manager) : result unit * Manager :=
  match ParseIP ip with
  | None => (Err ErrInvalidIP, b)
  | Some parsedIP => let '(r, f) := ipf_RemoveIP (Some parsedIP) (ipFilter b) in (r, set_ipFilter f b)
  end.
Definition TestIP (ip : string) (b : Manager) : bool :=
  match ParseIP ip with None => false | Some parsedIP => ipf_TestIP (Some parsedIP) (ipFilter b) end.
Definition TestIPAddr (ip : netIP) (b : Manager) : bool := ipf_TestIP ip (ipFilter b).
Definition ClearIPBans (b : Manager) : result unit * Manager :=
  let '(r, f) := ipf_Clear (ipFilter b) in (r, set_ipFilter f b).
Definition GetIPFilterStats (b : Manager) : IPFilterStats := ipf_Stats (ipFilter b).
Definition Close (b : Manager) : result unit * Manager :=
  let '(r, f) := ipf_Close (ipFilter b) in (r, set_ipFilter f b).
End Manager.
Arguments Manager : clear implicits.

(** ** Properties *)

Lemma split_on_word sep p : Forall (fun c => Byte.eqb c sep = false) p → split_on sep p = [p].
Proof. induction 1 as [|c p Hc _ IH]; [done|]. cbn [split_on]. by rewrite Hc, IH. Qed.

Lemma split_on_last sep h p :
  Forall (fun c => Byte.eqb c sep = false) p →
  last (split_on sep (h ++ sep :: p)) = Some p ∧ (2 ≤ length (split_on sep (h ++ sep :: p)))%nat.
Proof.
  intros Hp. induction h as [|c h [IH1 IH2]]; cbn [app split_on].
  - rewrite byte_eqb_refl, split_on_word by done. split; [done|simpl; lia].
  - destruct (Byte.eqb c sep).
    + destruct (split_on sep (h ++ sep :: p)); [simpl in IH2; lia|]. split; [done|simpl in *; lia].
    + destruct (split_on sep (h ++ sep :: p)) as [|q [|q' qs]]; simpl in IH2; try lia.
      split; [done|simpl; lia].
Qed.

(** [parsePort] reads the port back out of a listening address, whatever
    the host part (an IPv6 literal with its colons included). *)
Theorem parsePort_of_address (host : bytes) (port : Z) :
  0 ≤ port < 65536 →
  parsePort (string_of_bytes (host ++ ch ":" :: Itoa_bytes port)) = Ok port.
Proof.
  intros Hp. unfold parsePort. rewrite bytes_of_string_of_bytes.
  unfold Itoa_bytes. rewrite (proj2 (Z.ltb_ge port 0)) by lia.
  destruct (utoa_spec port ltac:(lia)) as (Hv & Hd & Hne).
  destruct (split_on_last (ch ":") host (utoa port)) as [Hl Hlen].
  { eapply Forall_impl; [exact Hd|]. intros c Hc. by destruct c. }
  rewrite (proj2 (Nat.ltb_ge _ _) Hlen), Hl. unfold ParseUint16. simpl.
  rewrite bool_decide_eq_false_2 by done.
  assert (forallb is_digit (utoa port) = true) as ->.
  { apply forallb_forall. intros c Hc. exact (proj1 (Forall_forall _ _) Hd c (proj2 (list_elem_of_In _ _) Hc)). }
  rewrite Hv, (proj2 (Z.ltb_lt _ _)) by lia. done.
Qed.

Section IPBans.
Context {B F : Type} `{BloomFilter B} `{IPFilterLaws F}.
Implicit Types (b : Manager B F).

Lemma TestIPAddr_AddIPBan s b ip c :
  To16 ip = Some c →
  (TestIPAddr ip (AddIPBan s b).2 = true
   ↔ (ParseIP s = Some c ∧ (AddIPBan s b).1 = Ok tt) ∨ TestIPAddr ip b = true).
Proof.
  intros Hip. pose proof (To16_Some _ _ Hip) as [Hc _]. unfold TestIPAddr, AddIPBan.
  destruct (ParseIP s) as [p|] eqn:Hs; [|simpl; intuition congruence].
  pose proof (ipf_AddIP_spec (Some p) p (ipFilter b) (ParseIP_To16 s p Hs) c Hc) as Ha.
  destruct (ipf_AddIP _ _) as [r f]. simpl in *.
  rewrite (ipf_TestIP_spec ip c _ Hip), Ha, (ipf_TestIP_spec ip c _ Hip).
  assert (Some p = Some c ↔ c = p) as -> by (split; congruence). tauto.
Qed.

Lemma TestIPAddr_RemoveIPBan s b ip c :
  To16 ip = Some c →
  (TestIPAddr ip (RemoveIPBan s b).2 = true
   ↔ ¬ (ParseIP s = Some c ∧ (RemoveIPBan s b).1 = Ok tt) ∧ TestIPAddr ip b = true).
Proof.
  intros Hip. pose proof (To16_Some _ _ Hip) as [Hc _]. unfold TestIPAddr, RemoveIPBan.
  destruct (ParseIP s) as [p|] eqn:Hs; [|simpl; intuition congruence].
  pose proof (ipf_RemoveIP_spec (Some p) p (ipFilter b) (ParseIP_To16 s p Hs) c Hc) as Ha.
  destruct (ipf_RemoveIP _ _) as [r f]. simpl in *.
  rewrite (ipf_TestIP_spec ip c _ Hip), Ha, (ipf_TestIP_spec ip c _ Hip).
  assert (Some p = Some c ↔ c = p) as -> by (split; congruence). tauto.
Qed.

Lemma Test_AddIPBan t tg s b : Test t tg (AddIPBan s b).2 = Test t tg b.
Proof. unfold AddIPBan. destruct (ParseIP s); [|done]. destruct (ipf_AddIP _ _). by destruct t. Qed.
Lemma Test_RemoveIPBan t tg s b : Test t tg (RemoveIPBan s b).2 = Test t tg b.
Proof. unfold RemoveIPBan. destruct (ParseIP s); [|done]. destruct (ipf_RemoveIP _ _). by destruct t. Qed.

Lemma Test_ClearIPBans t tg b : Test t tg (ClearIPBans b).2 = Test t tg b.
Proof. unfold ClearIPBans. destruct (ipf_Clear _). by destruct t. Qed.

(** C27: An address is blocked after [AddIPBan] exactly if it was before or the
    text named it and the filter accepted it, in whichever of its two byte forms
    it is asked about; [RemoveIPBan] unblocks that address and no other;
    [ClearIPBans], when it succeeds and reached every address, unblocks all; none touches the other bans. *)
Theorem ip_bans s b ip c :
  To16 ip = Some c →
  (TestIPAddr ip (AddIPBan s b).2 = true
   ↔ (ParseIP s = Some c ∧ (AddIPBan s b).1 = Ok tt) ∨ TestIPAddr ip b = true) ∧
  (TestIPAddr ip (RemoveIPBan s b).2 = true
   ↔ ¬ (ParseIP s = Some c ∧ (RemoveIPBan s b).1 = Ok tt) ∧ TestIPAddr ip b = true) ∧
  (ipf_whole (ipFilter b) → (ClearIPBans b).1 = Ok tt → TestIPAddr ip (ClearIPBans b).2 = false) ∧
  (∀ t tg, Test t tg (AddIPBan s b).2 = Test t tg b ∧ Test t tg (RemoveIPBan s b).2 = Test t tg b ∧
     Test t tg (ClearIPBans b).2 = Test t tg b).
Proof.
  intros Hip. split_and!; [by apply TestIPAddr_AddIPBan|by apply TestIPAddr_RemoveIPBan| |].
  - pose proof (To16_Some _ _ Hip) as [Hc _]. unfold TestIPAddr, ClearIPBans.
    pose proof (ipf_Clear_spec (ipFilter b)) as Ha. destruct (ipf_Clear _) as [r f]. simpl in *.
    intros Hw Hr. apply not_true_is_false. rewrite (ipf_TestIP_spec ip c _ Hip). by apply Ha.
  - intros t tg. split_and!; [apply Test_AddIPBan|apply Test_RemoveIPBan|apply Test_ClearIPBans].
Qed.
End IPBans.

(** Maps with room for everything. *)
#[export] Instance SetMap `{Countable K} : BpfMap K (gset K) := {|
  bm_Put k m := (Ok tt, {[k]} ∪ m);
  bm_Delete k m := (if decide (k ∈ m) then Ok tt else Err "key does not exist", m ∖ {[k]});
  bm_Lookup k m := bool_decide (k ∈ m);
  bm_Iterate m := elements m;
  bm_IterErr _ := false;
|}.
#[export] Instance SetMapLaws `{Countable K} : BpfMapLaws K (gset K).
Proof.
  refine {| bm_elem k m := k ∈ m |}; simpl.
  - set_solver.
  - intros k m k'. destruct (decide (k ∈ m)); [set_solver|]. split; [|set_solver].
    intros Hk. split; [intros [_ ?]; done|set_solver].
  - intros k m. apply bool_decide_eq_true.
  - intros k m _. by rewrite elem_of_elements.
Defined.

Definition sample_env : xdp_env (gset Z) (gset bytes) (gset Z) :=
  {| RemoveMemlock := Ok tt; loadBpfObjects := Ok (mkBpfObjects ∅ ∅ ∅ (fun _ => None));
     InterfaceByName _ := Ok 2; AttachXDP _ := Ok tt; close_link := Ok tt; close_objs := Ok tt |}.
(** Memory mode with the kernel filter on interface eth0. *)
Definition xdp_cfg : Config :=
  let c := sample_cfg 400 in let t := Tracker c in
  {| Cache := Cache c; RocketMq := RocketMq c;
     Tracker := {| Database := Database t; Memory := Memory t; UDPServer := UDPServer t; WSServer := WSServer t;
       Mode := Mode t; RPC := RPC t; XDP := XdpConfig true "eth0"; HostPorts := HostPorts t;
       MetricsHostPorts := MetricsHostPorts t; TTL := TTL t; IntervalTask := IntervalTask t;
       UseUnixSocket := UseUnixSocket t; UseAnnounceIP := UseAnnounceIP t;
       EnableEventProducer := EnableEventProducer t; EnableMetrics := EnableMetrics t;
       TrackerId := TrackerId t; DebugPort := DebugPort t |} |}.
Definition sample_manager : Manager (list bytes) (ip_filter (gset Z) (gset bytes) (gset Z)) :=
  mkManager empty_item empty_item (NewIPFilter sample_env (Some xdp_cfg) "eth0").

Lemma parsePort_of_address_witness : parsePort "[::1]:6969" = Ok 6969.
Proof.
  assert ("[::1]:6969"%string = string_of_bytes (bytes_of_string "[::1]" ++ ch ":" :: Itoa_bytes 6969)) as ->
    by (vm_compute; reflexivity).
  apply parsePort_of_address. split; [discriminate|reflexivity].
Defined.

(** A ban given in text blocks the four-byte form a connection shows. *)
Lemma ip_bans_witness :
  TestIPAddr (Some [Byte.xcb; Byte.x00; Byte.x71; Byte.x09]) (AddIPBan "203.0.113.9" sample_manager).2 = true ∧
  TestIPAddr (Some [Byte.xcb; Byte.x00; Byte.x71; Byte.x08]) (AddIPBan "203.0.113.9" sample_manager).2 <> true.
Proof.
  split.
  - apply (ip_bans "203.0.113.9" sample_manager _ (v4InV6Prefix ++ [Byte.xcb; Byte.x00; Byte.x71; Byte.x09])).
    + vm_compute. reflexivity.
    + left. split; vm_compute; reflexivity.
  - intros Ht. apply (ip_bans "203.0.113.9" sample_manager _ (v4InV6Prefix ++ [Byte.xcb; Byte.x00; Byte.x71; Byte.x08])) in Ht;
      [|vm_compute; reflexivity].
    destruct Ht as [[Ht _]|Ht]; [vm_compute in Ht; discriminate Ht|vm_compute in Ht; discriminate Ht].
Defined.

(** The kernel filter counts an address each time it is added: banning one
    address twice reports two blocked addresses, and unbanning it once leaves a
    count of one with nothing blocked. *)
Theorem xdp_count_drifts :
  let b1 := (AddIPBan "203.0.113.9" (AddIPBan "203.0.113.9" sample_manager).2).2 in
  let b2 := (RemoveIPBan "203.0.113.9" b1).2 in
  TotalIPs (GetIPFilterStats b1) = 2 ∧ TotalIPs (GetIPFilterStats b2) = 1 ∧
  TestIP "203.0.113.9" b2 = false.
Proof. vm_compute. auto. Qed.

(** A map whose iterator gives up after [steps] keys. *)
Record CutMap (K : Type) `{Countable K} := mkCut { kept_keys : gset K; steps : nat }.
Arguments mkCut {K _ _}. Arguments kept_keys {K _ _}. Arguments steps {K _ _}.
#[export] Instance CutMap_ops `{Countable K} : BpfMap K (CutMap K) := {|
  bm_Put k m := (Ok tt, mkCut ({[k]} ∪ kept_keys m) (steps m));
  bm_Delete k m := (if decide (k ∈ kept_keys m) then Ok tt else Err "key does not exist", mkCut (kept_keys m ∖ {[k]}) (steps m));
  bm_Lookup k m := bool_decide (k ∈ kept_keys m);
  bm_Iterate m := take (steps m) (elements (kept_keys m));
  bm_IterErr m := (steps m <? length (elements (kept_keys m)))%nat;
|}.
#[export] Instance CutMapLaws `{Countable K} : BpfMapLaws K (CutMap K).
Proof.
  refine {| bm_elem k m := k ∈ kept_keys m |}; simpl.
  - set_solver.
  - intros k m k'. destruct (decide (k ∈ kept_keys m)); [set_solver|]. split; [|set_solver].
    intros Hk. split; [intros [_ ?]; done|set_solver].
  - intros k m. apply bool_decide_eq_true.
  - intros k m Hs. apply Nat.ltb_ge in Hs. rewrite take_ge by done. by rewrite elem_of_elements.
Defined.

Definition cut_env : xdp_env (CutMap Z) (CutMap bytes) (CutMap Z) :=
  {| RemoveMemlock := Ok tt; loadBpfObjects := Ok (mkBpfObjects (mkCut ∅ 1) (mkCut ∅ 1) (mkCut ∅ 1) (fun _ => None));
     InterfaceByName _ := Ok 2; AttachXDP _ := Ok tt; close_link := Ok tt; close_objs := Ok tt |}.

(** [Clear] deletes from the map it iterates over and does not look at the
    iterator's error: when the iteration is cut short, clearing the bans succeeds
    and reports no blocked address, and an address stays blocked. *)
Theorem xdp_clear_incomplete :
  let b0 := mkManager empty_item empty_item (NewIPFilter cut_env (Some xdp_cfg) "eth0") in
  let b := (AddIPBan "203.0.113.8" (AddIPBan "203.0.113.9" b0).2).2 in
  (ClearIPBans b).1 = Ok tt ∧ TotalIPs (GetIPFilterStats (ClearIPBans b).2) = 0 ∧
  TestIP "203.0.113.8" (ClearIPBans b).2 || TestIP "203.0.113.9" (ClearIPBans b).2 = true.
Proof. vm_compute. auto. Qed.
