(* ===== verification/Manager.v ===== *)
(** The interface the servers use a peer manager through
    ([biz/services/peer/manager.go]). *)
From Stdlib Require Import ZArith Strings.String.
From stdpp Require Import base strings list.
From S2P Require Import Prelude GoStd Config Model Common.
Set Default Proof Using "Type*".

(** [now] and [now'] are the instants at which a call reads the clock; a peer
    list is read out when the call returns.  The two persistence methods, which
    work on files, are not part of it. *)
Class PeerManager (S : Type) := {
  pm_HandleAnnouncePeer (now now' : Z) : AnnounceRequest → S → result (list Peer) * S;
  pm_Scrape (now : Z) : string → S → result ScrapeFile * S;
  pm_Clean (now : Z) : S → Z * S;
  pm_GetStatistic : S → result StatisticInfo;
  pm_BanInfoHash : string → S → result unit * S;
  pm_BanPeer : string → S → result unit * S;
  pm_ClearBanInfoHash : S → S;
  pm_ClearBanPeer : S → S;
  pm_GetPeers : string → S → result (list Peer);
  pm_DeleteInfoHash : string → S → result unit * S;
  pm_BanIP : string → S → result unit * S;
  pm_UnbanIP : string → S → result unit * S;
  pm_ClearBanIP : S → result unit * S;
  pm_GetIPFilterStats : S → option IPFilterStats;
}.
