(* ===== verification/Mux.v ===== *)
(** The sharded in-memory manager ([biz/services/peer/mux_local/mux_manager.go]):
    bans are checked first, then the shard of the info hash does the work. *)
From Stdlib Require Import ZArith Lia Bool Strings.String.
From stdpp Require Import base strings list sets gmap relations.
From S2P Require Import Prelude GoStd Config Model Common Samples Mapx Local LocalInv LocalSafety LocalSpec LocalTable BanItem IPFilter Xdp Ban Manager.
Set Default Proof Using "Type*".
Local Open Scope Z_scope.

Section Mux.
Context {M : Type → Type} `{SyncStringMap M} {B F : Type} `{BloomFilter B} `{IPFilter F}.

Record MuxLocalManager := mkMux { localList : list (Local.State M); ban : Ban.Manager B F }.

(** [num] shards; [ban] is what [ban.NewBanManagerWithIP] or
    [ban.NewBanManager] gives. *)
Definition NewMuxLocalManager (num : Z) (ban : Ban.Manager B F) : MuxLocalManager :=
  mkMux (replicate (Z.to_nat num) NewLocalManger) ban.

(** [big.Int.Uint64] is the low 64 bits. *)
Definition pickWorker (hashBytes : bytes) (m : MuxLocalManager) : nat :=
  Z.to_nat (u64 (be_decode hashBytes) mod u64 (Z.of_nat (length (localList m)))).

Definition shard_of (infoHash : string) (m : MuxLocalManager) : nat := pickWorker (bytes_of_string infoHash) m.
Definition set_ban (b : Ban.Manager B F) (m : MuxLocalManager) : MuxLocalManager := mkMux (localList m) b.
Definition set_shard (n : nat) (w : Local.State M) (m : MuxLocalManager) : MuxLocalManager :=
  mkMux (<[n := w]> (localList m)) (ban m).

(** Without a shard the remainder is a division by zero, which panics. *)
Definition no_shard : string := "runtime error: integer divide by zero".

(** Let the shard of [infoHash] do [f]. *)
Definition on_shard {A} (infoHash : string) (f : Local.State M → result A * Local.State M) (m : MuxLocalManager)
  : result A * MuxLocalManager :=
  match localList m !! shard_of infoHash m with
  | None => (Err no_shard, m)
  | Some worker => let '(r, w) := f worker in (r, set_shard (shard_of infoHash m) w m)
  end.

(** The records of a peer list. *)
Definition read_peers (st : Local.State M) (ps : list nat) : list Peer :=
  omap (M := list) (fun p => peers st !! p) ps.

(** [o] is the outcome of the ban files' operations, [cached] what the scrape
    cache holds. *)
Section Operations.
Context (cfg : Config) (o : io) (cached : string → option ScrapeFile).

Definition ban_call (r : option (result unit * Ban.Manager B F)) (m : MuxLocalManager) : result unit * MuxLocalManager :=
  match r with Some (r, b) => (r, set_ban b m) | None => (Err "invalid ban type"%string, m) end.

Definition BanInfoHash (infoHash : string) (m : MuxLocalManager) : result unit * MuxLocalManager :=
  match ban_call (Ban.AddBan o BanTypeInfoHash infoHash (ban m)) m with
  | (Err e, m) => (Err e, m)
  | (Ok _, m) => on_shard infoHash (Local.BanInfoHash infoHash) m
  end.
Definition BanPeer (peerID : string) (m : MuxLocalManager) : result unit * MuxLocalManager :=
  ban_call (Ban.AddBan o BanTypePeerId peerID (ban m)) m.
Definition ClearBanInfoHash (m : MuxLocalManager) : MuxLocalManager :=
  set_ban (default (ban m) (Ban.Clear o BanTypeInfoHash (ban m))) m.
Definition ClearBanPeer (m : MuxLocalManager) : MuxLocalManager :=
  set_ban (default (ban m) (Ban.Clear o BanTypePeerId (ban m))) m.

(** The checks of [HandleAnnouncePeer] against the three ban lists. *)
Definition check_bans (req : AnnounceRequest) (m : MuxLocalManager) : option string :=
  if default false (Ban.Test BanTypeInfoHash (req_InfoHash req) (ban m)) then Some "banned info_hash"
  else if default false (Ban.Test BanTypePeerId (req_PeerID req) (ban m)) then Some "banned peer_id"
  else if bool_decide (req_ClientIP req ≠ None) && TestIPAddr (req_ClientIP req) (ban m)
  then Some "banned ip"
  else None.

(** Its last two lines: the shard handles the request. *)
Definition serve (now now' : Z) (req : AnnounceRequest) (m : MuxLocalManager) : result (list Peer) * MuxLocalManager :=
  on_shard (req_InfoHash req) (fun worker =>
    let '(r, w) := Local.HandleAnnouncePeer cfg now now' req worker in (res_map (read_peers w) r, w)) m.

Definition HandleAnnouncePeer (now now' : Z) (req : AnnounceRequest) (m : MuxLocalManager)
  : result (list Peer) * MuxLocalManager :=
  match check_bans req m with
  | Some e => (Err e, m)
  | None => serve now now' req m
  end.

Definition Scrape (now : Z) (infoHash : string) (m : MuxLocalManager) : result ScrapeFile * MuxLocalManager :=
  on_shard infoHash (fun worker =>
    let '(f, w, _) := Local.Scrape cfg now (cached infoHash) infoHash worker in (Ok f, w)) m.

(** Every shard is cleaned, on a pool of workers. *)
Definition Clean (now : Z) (m : MuxLocalManager) : Z * MuxLocalManager :=
  let rs := map (Local.Clean cfg now) (localList m) in
  (fold_left Z.add (map fst rs) 0, mkMux (map snd rs) (ban m)).

Definition GetStatistic (m : MuxLocalManager) : result StatisticInfo :=
  let infos := map Local.GetStatistic (localList m) in
  Ok {| TotalPeers := fold_left (fun n info => u64 (n + TotalPeers info)) infos 0;
        TotalTorrents := fold_left (fun n info => u64 (n + TotalTorrents info)) infos 0;
        Shards := imap (fun i info => (Itoa (Z.of_nat i), (TotalPeers info, TotalTorrents info))) infos |}.

Definition GetPeers (infoHash : string) (m : MuxLocalManager) : result (list Peer) :=
  match localList m !! shard_of infoHash m with
  | None => Err no_shard
  | Some worker => res_map (read_peers worker) (Local.GetPeers infoHash worker)
  end.
Definition DeleteInfoHash (infoHash : string) (m : MuxLocalManager) : result unit * MuxLocalManager :=
  on_shard infoHash (Local.DeleteInfoHash infoHash) m.

Definition ip_call (r : result unit * Ban.Manager B F) (m : MuxLocalManager) : result unit * MuxLocalManager :=
  (r.1, set_ban r.2 m).
Definition BanIP (ip : string) (m : MuxLocalManager) := ip_call (AddIPBan ip (ban m)) m.
Definition UnbanIP (ip : string) (m : MuxLocalManager) := ip_call (RemoveIPBan ip (ban m)) m.
Definition ClearBanIP (m : MuxLocalManager) := ip_call (ClearIPBans (ban m)) m.
Definition GetIPFilterStats (m : MuxLocalManager) : option IPFilterStats := Some (Ban.GetIPFilterStats (ban m)).

Definition mux_manager : PeerManager MuxLocalManager := {|
  pm_HandleAnnouncePeer := HandleAnnouncePeer; pm_Scrape := Scrape; pm_Clean := Clean;
  pm_GetStatistic := GetStatistic; pm_BanInfoHash := BanInfoHash; pm_BanPeer := BanPeer;
  pm_ClearBanInfoHash := ClearBanInfoHash; pm_ClearBanPeer := ClearBanPeer; pm_GetPeers := GetPeers;
  pm_DeleteInfoHash := DeleteInfoHash; pm_BanIP := BanIP; pm_UnbanIP := UnbanIP;
  pm_ClearBanIP := ClearBanIP; pm_GetIPFilterStats := GetIPFilterStats;
|}.
End Operations.
End Mux.
Arguments MuxLocalManager : clear implicits.
