(* ===== verification/MuxSpec.v ===== *)
(** What the sharded manager guarantees: every torrent stays in its shard, and
    banned torrents and addresses stay out. *)
From Stdlib Require Import ZArith Lia Bool Strings.String.
From stdpp Require Import base strings list sets gmap relations.
From S2P Require Import Prelude GoStd Config Model Common Samples Mapx Local LocalInv LocalSafety LocalSpec LocalTable LocalClean BanItem IPFilter Xdp Ban Manager Mux.
Set Default Proof Using "Type*".
Local Open Scope Z_scope.

(** ** What one shard's operations do to its index of torrents *)
Section Index.
Context `{SyncStringMapLaws M}.
Context (cfg : Config).
Implicit Types (st : Local.State M).

(** Every torrent indexed in [st'] was indexed in [st], or is [ih]. *)
Definition index_le (ih : option string) st st' : Prop :=
  ∀ k, is_Some (sm_view (infoHashMap st') !! k) → is_Some (sm_view (infoHashMap st) !! k) ∨ ih = Some k.

Lemma index_le_same ih st st' : infoHashMap st' = infoHashMap st → index_le ih st st'.
Proof. intros E k. rewrite E. by left. Qed.

Lemma index_le_trans ih st1 st2 st3 : index_le ih st1 st2 → index_le ih st2 st3 → index_le ih st1 st3.
Proof. intros H12 H23 k [Hk|Hk]%H23; [by apply H12|by right]. Qed.

Lemma index_le_delete ih ih' st : index_le ih st (set_infoHashMap (sm_Delete ih' (infoHashMap st)).2 st).
Proof. intros k. simpl. rewrite sm_Delete_view, lookup_delete_is_Some. tauto. Qed.

Lemma index_get_or_create now ih st : index_le (Some ih) st (get_or_create now ih st).2.
Proof.
  intros k. destruct (sm_view (infoHashMap st) !! ih) as [r|] eqn:E.
  - destruct (get_or_create_known st now ih r E) as (m' & -> & Hm'). simpl. rewrite Hm'. by left.
  - destruct (get_or_create_unknown st now ih E) as (m' & -> & Hm'). simpl. rewrite Hm', lookup_insert_is_Some.
    intros [->|[_ Hk]]; [by right|by left].
Qed.

Lemma index_respond now r p n st : infoHashMap (announce_respond cfg now r p n st).2 = infoHashMap st.
Proof.
  unfold announce_respond. destruct (peers st !! p); [|done]. destruct (root_Range _ _ _) as [resp ex].
  simpl. by destruct (0 <? _)%nat.
Qed.

Lemma index_announce now now' (req : AnnounceRequest) st :
  index_le (Some (req_InfoHash req)) st (Local.HandleAnnouncePeer cfg now now' req st).2.
Proof.
  unfold Local.HandleAnnouncePeer, announce_begin. destruct (invalid_address _); [by apply index_le_same|].
  set (x := peer_of_request now req). set (st0 := set_peers _ st).
  pose proof (index_get_or_create now (req_InfoHash req) st0) as Hg.
  destruct (get_or_create now (req_InfoHash req) st0) as [[r b] st1]. simpl in Hg.
  change (match Conn x with Some _ => _ | None => _ end) with (with_callback x r (req_PeerID req) st1).
  destruct (with_callback_frame x r (req_PeerID req) st1) as (E & _).
  set (st2 := with_callback x r (req_PeerID req) st1) in *.
  eapply index_le_trans; [exact Hg|]. apply index_le_same. rewrite <- E. destruct b; cbn [negb].
  - destruct (_ =? _).
    + cbn [snd]. by destruct (root_LoadAndDelete_frame st2 r (GetKey x)) as (_ & _ & _ & _ & ->).
    + set (st3 := spawn _ st2).
      pose proof (index_respond now' r (length (peers st)) (req_NumWant req) st3) as Er.
      by destruct (announce_respond _ _ _ _ _ _).
  - simpl. by destruct (_ && _).
Qed.

Lemma index_run_task now t st : infoHashMap (run_task cfg now t st) = infoHashMap st.
Proof.
  destruct t as [r p ih|r p|r p ih|r ks|ih p|r p n]; cbn [run_task]; try (destruct (peers st !! p) as [x|]; [|done]); try done.
  - destruct (root_LoadAndDelete_frame st r (GetKey x)) as (_ & _ & _ & _ & E).
    destruct (root_LoadAndDelete r (GetKey x) st) as [[k|] st1]; simpl in E.
    + destruct (peers st1 !! k); [|done]. by destruct (_ || _).
    + by destruct (IsPeerConnectable _ _).
  - destruct ks as [|k [|k' ks]]; done.
  - apply index_respond.
Qed.

Lemma index_Scrape now c ih st : infoHashMap (Local.Scrape cfg now c ih st).1.2 = infoHashMap st.
Proof.
  unfold Local.Scrape. destruct (sm_Load _ _); [|done]. destruct (if redis_Enable _ then _ else _); [done|].
  destruct (root_Range _ _ _). simpl. by destruct (0 <? _)%nat.
Qed.

Lemma index_Clean now st : state_ok cfg st → index_le None st (Local.Clean cfg now st).2.
Proof.
  intros Hok. unfold Local.Clean.
  apply (fold_left_ind (fun a : Z * Local.State M => state_ok cfg a.2 ∧ length (roots a.2) = length (roots st) ∧
    index_le None st a.2)); [split_and!; [done|done|by apply index_le_same]|].
  intros [n s] [k r] Hkr (Hs & Hl & He). simpl in Hs, Hl, He. cbn [snd].
  assert (r < length (roots s))%nat as Hr.
  { apply sm_Range_elem in Hkr. destruct (ok_map cfg st Hok _ _ Hkr) as (i & Hi & _).
    apply lookup_lt_Some in Hi. lia. }
  destruct (cleanUp_ok cfg now now now r s Hs Hr) as [H1 [_ H2]].
  assert (index_le None s (cleanUp cfg now now now r s).2) as Hc.
  { destruct (After (Add (lastClean (root_at s r)) (seconds (TTL (Tracker cfg)))) now) eqn:Hd.
    - unfold cleanUp. rewrite Hd. by apply index_le_same.
    - destruct (cleanUp_rest cfg r now now now s Hs Hr Hd) as [_ Hi]. intros ih. specialize (Hi ih).
      rewrite !sm_Load_ret in Hi. rewrite Hi. case_decide; [by intros [? ?]|by left]. }
  destruct (cleanUp cfg now now now r s) as [c s']. simpl in *.
  split_and!; [done|congruence|by eapply index_le_trans].
Qed.

(** The handler run in one go is two steps of the store. *)
Lemma HandleAnnouncePeer_reachable now now' (req : AnnounceRequest) st :
  reachable cfg st → reachable cfg (Local.HandleAnnouncePeer cfg now now' req st).2.
Proof.
  intros Hr. pose proof (step_announce cfg st now req) as Hs. unfold announce_start in Hs.
  unfold Local.HandleAnnouncePeer. destruct (announce_begin cfg now req st) as [[res|r p n] st1].
  - by eapply rtc_r.
  - pose proof (step_task cfg (spawn (TaskRespond r p n) st1) now' (TaskRespond r p n) (tasks st1) [] eq_refl) as Hs2.
    rewrite app_nil_r in Hs2.
    assert (set_tasks (tasks st1) (spawn (TaskRespond r p n) st1) = st1) as E by by destruct st1.
    rewrite E in Hs2. cbn [run_task] in Hs2. destruct (announce_respond _ _ _ _ _ _).
    eapply rtc_r; [|exact Hs2]. by eapply rtc_r.
Qed.

Lemma index_start now (req : AnnounceRequest) st :
  index_le (Some (req_InfoHash req)) st (announce_start cfg now req st).
Proof.
  pose proof (index_announce now now req st) as Hi. unfold announce_start, Local.HandleAnnouncePeer in *.
  destruct (announce_begin cfg now req st) as [[res|r p n] st1]; [done|].
  pose proof (index_respond now r p n st1) as E. destruct (announce_respond _ _ _ _ _ _) as [l st2].
  simpl in *. intros k. specialize (Hi k). by rewrite E in Hi.
Qed.

Lemma index_DirectStore now ih x st : index_le (Some ih) st (DirectStore now ih x st).
Proof.
  unfold DirectStore. set (st0 := set_peers _ st). pose proof (index_get_or_create now ih st0) as Hg.
  by destruct (get_or_create now ih st0) as [[r b] st1].
Qed.

Lemma index_conn_Close c st : infoHashMap (conn_Close c st) = infoHashMap st.
Proof.
  unfold conn_Close. destruct (conns st !! c) as [cn|]; [|done]. destruct (closed cn); [done|].
  destruct (CloseCallback cn) as [[r k]|]; [|done]. unfold close_callback. cbn [fst snd].
  pose proof (root_LoadAndDelete_frame st r k) as (_ & _ & _ & _ & E).
  by destruct (root_LoadAndDelete r k st) as [[v|] st1].
Qed.
End Index.

(** ** The manager over time *)
Section Mux.
Context {M : Type → Type} {B F : Type} `{SyncStringMapLaws M} `{BloomFilterLaws B} `{IPFilterLaws F}.
Context (cfg : Config) (cached : string → option ScrapeFile).
Implicit Types (m : MuxLocalManager M B F) (w : Local.State M).

(** One step: an operation of the manager, an announce that passed the ban
    checks reaching its shard, a goroutine or a connection of a shard, or a peer
    read back from a file.  [late] says which info hashes a peer read from a
    file or an announce that was checked earlier may still enter; [unban]
    whether the info hash bans may be cleared. *)
Inductive mux_step (late : string → Prop) (unban : Prop) m : MuxLocalManager M B F → Prop :=
| mux_announce now now' req : mux_step late unban m (HandleAnnouncePeer cfg now now' req m).2
| mux_enter now (req : AnnounceRequest) w :
    late (req_InfoHash req) → localList m !! shard_of (req_InfoHash req) m = Some w →
    mux_step late unban m (set_shard (shard_of (req_InfoHash req) m) (announce_start cfg now req w) m)
| mux_restore now ih x w :
    late ih → good cfg x → localList m !! shard_of ih m = Some w →
    mux_step late unban m (set_shard (shard_of ih m) (DirectStore now ih x w) m)
| mux_task n w now t ts1 ts2 :
    localList m !! n = Some w → tasks w = ts1 ++ t :: ts2 →
    mux_step late unban m (set_shard n (run_task cfg now t (set_tasks (ts1 ++ ts2) w)) m)
| mux_accept n w cn :
    localList m !! n = Some w → CloseCallback cn = None →
    mux_step late unban m (set_shard n (set_conns (conns w ++ [cn]) w) m)
| mux_close n w c : localList m !! n = Some w → mux_step late unban m (set_shard n (conn_Close c w) m)
| mux_Scrape now ih : mux_step late unban m (Mux.Scrape cfg cached now ih m).2
| mux_Clean now : mux_step late unban m (Mux.Clean cfg now m).2
| mux_DeleteInfoHash ih : mux_step late unban m (Mux.DeleteInfoHash ih m).2
| mux_BanInfoHash o ih : mux_step late unban m (Mux.BanInfoHash o ih m).2
| mux_BanPeer o id : mux_step late unban m (Mux.BanPeer o id m).2
| mux_ClearBanInfoHash o : unban → mux_step late unban m (Mux.ClearBanInfoHash o m)
| mux_ClearBanPeer o : mux_step late unban m (Mux.ClearBanPeer o m)
| mux_BanIP s : mux_step late unban m (Mux.BanIP s m).2
| mux_UnbanIP s : mux_step late unban m (Mux.UnbanIP s m).2
| mux_ClearBanIP : mux_step late unban m (Mux.ClearBanIP m).2.

(** Each shard is a store that its own operations reach, and its index has
    only torrents that [pickWorker] sends to it. *)
Definition routed m : Prop :=
  ∀ n w, localList m !! n = Some w →
    reachable cfg w ∧ ∀ ih, is_Some (sm_view (infoHashMap w) !! ih) → shard_of ih m = n.

Definition indexed (ih : string) m : Prop :=
  ∃ n w, localList m !! n = Some w ∧ is_Some (sm_view (infoHashMap w) !! ih).

Lemma shard_of_eq ih m m' : length (localList m') = length (localList m) → shard_of ih m' = shard_of ih m.
Proof. intros E. unfold shard_of, pickWorker. by rewrite E. Qed.

Lemma shard_of_lt ih m : localList m ≠ [] → Z.of_nat (length (localList m)) < 2 ^ 64 →
  is_Some (localList m !! shard_of ih m).
Proof.
  intros Hne Hlt. apply lookup_lt_is_Some. unfold shard_of, pickWorker.
  assert (0 < Z.of_nat (length (localList m)))%Z by (destruct (localList m); [done|simpl; lia]).
  unfold u64 at 2. rewrite (wrap_u_small 64 (Z.of_nat _)) by lia.
  pose proof (Z.mod_pos_bound (u64 (be_decode (bytes_of_string ih))) (Z.of_nat (length (localList m)))). lia.
Qed.

(** The table of a torrent, in the shard [pickWorker] gives for it. *)
Definition mux_torrent m (ih : string) : gmap string Peer :=
  match localList m !! shard_of ih m with Some w => torrent_of w ih | None => ∅ end.

(** A step of one shard that indexes at most [ih], which belongs there. *)
Definition shard_step (ih : option string) m m' : Prop :=
  localList m' = localList m ∨
  ∃ n w w', localList m !! n = Some w ∧ localList m' = <[n := w']> (localList m) ∧
    (reachable cfg w → reachable cfg w') ∧ index_le ih w w' ∧ (∀ k, ih = Some k → shard_of k m = n).

Lemma shard_step_routed ih m m' : shard_step ih m m' → routed m → routed m'.
Proof.
  intros [E|(n & w & w' & Hw & E & Hr & Hi & Hn)] Hm.
  { intros n w Hw. rewrite E in Hw. destruct (Hm n w Hw) as [Ha Hb]. split; [done|].
    intros k Hk. rewrite <- (Hb k Hk). by apply shard_of_eq; rewrite E. }
  intros n2 w2 Hw2. rewrite E in Hw2.
  assert (∀ k, shard_of k m' = shard_of k m) as Hs by (intros k; apply shard_of_eq; by rewrite E, length_insert).
  apply list_lookup_insert_Some in Hw2 as [(-> & -> & _)|[_ Hw2]].
  - destruct (Hm n2 w Hw) as [Ha Hb]. split; [by apply Hr|].
    intros k [Hk|Hk]%Hi; rewrite Hs; [by apply Hb|by apply Hn].
  - destruct (Hm n2 w2 Hw2) as [Ha Hb]. split; [done|]. intros k Hk. rewrite Hs. by apply Hb.
Qed.

Lemma shard_step_indexed ih m m' k : shard_step ih m m' → indexed k m' → indexed k m ∨ ih = Some k.
Proof.
  intros [E|(n & w & w' & Hw & E & Hr & Hi & Hn)] (n2 & w2 & Hw2 & Hk); unfold indexed; rewrite E in Hw2; [by eauto|].
  apply list_lookup_insert_Some in Hw2 as [(-> & -> & _)|[_ Hw2]]; [|by eauto].
  apply Hi in Hk as [Hk|Hk]; [left; by eauto|by right].
Qed.

Lemma shard_step_length ih m m' : shard_step ih m m' → length (localList m') = length (localList m).
Proof. intros [->|(n & w & w' & _ & -> & _)]; [done|apply length_insert]. Qed.

Lemma on_shard_step {A} ih (f : Local.State M → result A * Local.State M) m oih :
  (∀ w, (reachable cfg w → reachable cfg (f w).2) ∧ index_le oih w (f w).2) →
  (∀ k, oih = Some k → k = ih) →
  shard_step oih m (on_shard ih f m).2 ∧ ban (on_shard ih f m).2 = ban m.
Proof.
  intros Hf Ho. unfold on_shard. destruct (localList m !! shard_of ih m) as [w|] eqn:E; [|split; [by left|done]].
  destruct (Hf w) as [Ha Hb]. destruct (f w) as [r w']. split; [|done]. right. exists (shard_of ih m), w, w'.
  split_and!; try done. by intros k ->%Ho.
Qed.

(** What may enter the index in a step. *)
Definition may_enter (late : string → Prop) m (ih : string) : Prop :=
  late ih ∨ ∃ req : AnnounceRequest, req_InfoHash req = ih ∧ check_bans req m = None.

Lemma serve_step now now' (req : AnnounceRequest) m :
  shard_step (Some (req_InfoHash req)) m (serve cfg now now' req m).2 ∧ ban (serve cfg now now' req m).2 = ban m.
Proof.
  apply on_shard_step; [|by intros k [= ->]]. intros w.
  pose proof (HandleAnnouncePeer_reachable cfg now now' req w) as Ha.
  pose proof (index_announce cfg now now' req w) as Hb.
  by destruct (Local.HandleAnnouncePeer cfg now now' req w).
Qed.

Lemma delete_step ih w :
  (reachable cfg w → reachable cfg (Local.DeleteInfoHash ih w).2) ∧ index_le None w (Local.DeleteInfoHash ih w).2.
Proof. split; [intros Hr; eapply rtc_r; [done|apply step_DeleteInfoHash]|apply index_le_delete]. Qed.

Lemma BanInfoHash_step o ih m :
  shard_step None m (Mux.BanInfoHash o ih m).2 ∧
  ban (Mux.BanInfoHash o ih m).2 = put_item BanTypeInfoHash (add o (bytes_of_string ih) (infoHash (ban m))).2 (ban m).
Proof.
  unfold Mux.BanInfoHash, Ban.AddBan. simpl. destruct (add o _ _) as [[u|e] i]; simpl; [|by split; [left|]].
  set (m0 := set_ban _ m). destruct (on_shard_step ih (Local.BanInfoHash ih) m0 None) as [Ha Hb]; [|done|].
  - intros w. split; [intros Hr; eapply rtc_r; [done|apply step_BanInfoHash]|apply index_le_delete].
  - split; [exact Ha|]. by rewrite Hb.
Qed.

Lemma mux_step_shard late unban m m' :
  mux_step late unban m m' →
  (∃ oih, shard_step oih m m' ∧ ∀ ih, oih = Some ih → may_enter late m ih) ∨ ∃ now, m' = (Mux.Clean cfg now m).2.
Proof.
  assert (∀ m', localList m' = localList m →
    ∃ oih, shard_step oih m m' ∧ ∀ ih, oih = Some ih → may_enter late m ih) as Hsame
    by (intros m1 E; exists None; split; [by left|done]).
  assert (∀ n w w' oih, localList m !! n = Some w → (reachable cfg w → reachable cfg w') → index_le oih w w' →
    (∀ ih, oih = Some ih → shard_of ih m = n ∧ may_enter late m ih) →
    ∃ oih, shard_step oih m (set_shard n w' m) ∧ ∀ ih, oih = Some ih → may_enter late m ih) as Hone.
  { intros n w w' oih Hw Hr Hi Hn. exists oih. split; [|by intros ih [_ ?]%Hn]. right. exists n, w, w'.
    split_and!; try done. by intros k [? _]%Hn. }
  destruct 1 as [now now' req|now req w Hl Hw|now ih x w Hl Hx Hw|n w now t ts1 ts2 Hw Ht|n w cn Hw Hcn|n w c Hw
    |now ih|now|ih|o ih Hs|o id|Hu| |s|s| ]; try (left; apply Hsame; done).
  - left. unfold HandleAnnouncePeer. destruct (check_bans req m) eqn:Hc; [by apply Hsame|].
    exists (Some (req_InfoHash req)). split; [apply serve_step|]. intros ih [= <-]. right. by exists req.
  - left. eapply Hone; [done| |apply index_start|].
    + intros Hr. eapply rtc_r; [done|apply step_announce].
    + intros ih [= <-]. by split; [|left].
  - left. eapply Hone; [done| |apply index_DirectStore|].
    + intros Hr. eapply rtc_r; [done|by apply step_restore].
    + intros k [= <-]. by split; [|left].
  - left. apply (Hone n w _ None); [done| |apply index_le_same; by rewrite index_run_task|done].
    intros Hr. eapply rtc_r; [done|by apply step_task].
  - left. apply (Hone n w _ None); [done| |by apply index_le_same|done].
    intros Hr. eapply rtc_r; [done|by apply step_accept].
  - left. apply (Hone n w _ None); [done| |apply index_le_same, index_conn_Close|done].
    intros Hr. eapply rtc_r; [done|apply step_Close].
  - left. exists None. split; [|done]. apply on_shard_step; [|done]. intros w.
    pose proof (step_Scrape cfg w now (cached ih) ih) as Hs.
    pose proof (index_Scrape cfg now (cached ih) ih w) as Hi.
    destruct (Local.Scrape cfg now (cached ih) ih w) as [[f w'] u]. simpl in *.
    split; [intros Hr; by apply (rtc_r _ w)|by apply index_le_same].
  - right. by exists now.
  - left. exists None. split; [|done]. apply (on_shard_step ih _ m None); [|done]. apply delete_step.
  - left. exists None. split; [|done]. apply BanInfoHash_step.
  - left. unfold Mux.BanPeer, Ban.AddBan. simpl. destruct (add o _ _) as [r i]. by apply Hsame.
Qed.

Lemma Clean_step now m n w' :
  localList (Mux.Clean cfg now m).2 !! n = Some w' →
  ∃ w, localList m !! n = Some w ∧ (reachable cfg w → reachable cfg w' ∧ index_le None w w').
Proof.
  unfold Mux.Clean. cbn [snd localList]. rewrite map_map, list_lookup_fmap, fmap_Some.
  intros (w & Hw & ->). exists w. split; [done|]. intros Hr. split.
  - eapply rtc_r; [done|apply step_Clean].
  - apply index_Clean. by apply (reachable_ok cfg).
Qed.

Lemma Clean_length now m : length (localList (Mux.Clean cfg now m).2) = length (localList m).
Proof. unfold Mux.Clean. simpl. by rewrite !length_map. Qed.

Lemma mux_step_length late unban m m' :
  mux_step late unban m m' → length (localList m') = length (localList m).
Proof.
  intros [(oih & Hs & _)|[now ->]]%mux_step_shard; [by eapply shard_step_length|apply Clean_length].
Qed.

Lemma mux_step_routed late unban m m' : mux_step late unban m m' → routed m → routed m'.
Proof.
  intros [(oih & Hs & _)|[now ->]]%mux_step_shard Hm; [by eapply shard_step_routed|].
  intros n w' (w & Hw & Hc)%Clean_step. destruct (Hm n w Hw) as [Ha Hb]. destruct (Hc Ha) as [Hr Hi].
  split; [done|]. intros ih Hih. rewrite <- (Hb ih); [apply shard_of_eq, Clean_length|].
  by destruct (Hi ih Hih) as [?|?].
Qed.

Lemma mux_step_indexed late unban m m' ih :
  mux_step late unban m m' → routed m → indexed ih m' → indexed ih m ∨ may_enter late m ih.
Proof.
  intros [(oih & Hs & Ho)|[now ->]]%mux_step_shard Hm Hi.
  { destruct (shard_step_indexed _ _ _ _ Hs Hi) as [?|?%Ho]; [by left|by right]. }
  destruct Hi as (n & w' & (w & Hw & Hc)%Clean_step & Hih). destruct (Hm n w Hw) as [Ha _].
  destruct (Hc Ha) as [_ Hi]. left. exists n, w. split; [done|]. by destruct (Hi ih Hih) as [?|?].
Qed.

Lemma routed_new num b : routed (NewMuxLocalManager num b).
Proof.
  intros n w [-> _]%lookup_replicate. split; [apply rtc_refl|].
  intros ih. simpl. rewrite sm_view_new. by intros [? ?%lookup_empty_Some].
Qed.

Lemma mux_steps_routed late unban m m' : rtc (mux_step late unban) m m' → routed m → routed m'.
Proof. intros Hs. induction Hs as [|m1 m2 m3 H12 _ IH]; [done|]. intros ?. by eapply IH, mux_step_routed. Qed.

Lemma mux_steps_length late unban m m' :
  rtc (mux_step late unban) m m' → length (localList m') = length (localList m).
Proof. intros Hs. induction Hs as [|m1 m2 m3 H12 _ IH]; [done|]. by rewrite IH, (mux_step_length late unban m1 m2). Qed.

Definition mux_reachable num b m : Prop :=
  rtc (mux_step (fun _ => True) True) (NewMuxLocalManager num b) m.

(** C3: In every state the manager can reach, under any interleaving of its
    operations, goroutines and closing connections: the number of shards is the
    configured one, each shard's state is one that the in-memory manager reaches
    by itself (so its invariants hold there), and a torrent is indexed by no
    shard other than the one [pickWorker] gives for it. *)
Theorem shards_routed num b m :
  mux_reachable num b m →
  length (localList m) = Z.to_nat num ∧
  ∀ n w, localList m !! n = Some w →
    reachable cfg w ∧
    ∀ ih, is_Some (sm_Load ih (infoHashMap w)) → shard_of ih (NewMuxLocalManager num b) = n.
Proof.
  intros Hr. pose proof (mux_steps_length _ _ _ _ Hr) as Hl. split.
  - rewrite Hl. apply length_replicate.
  - intros n w Hw. destruct (mux_steps_routed _ _ _ _ Hr (routed_new num b) n w Hw) as [Ha Hb].
    split; [done|]. intros ih. rewrite sm_Load_ret. intros Hi. rewrite <- (Hb ih Hi). by apply shard_of_eq.
Qed.

(** ** Statistics *)
Definition torrents m : gset string := ⋃ map (fun w => dom (sm_view (infoHashMap w))) (localList m).
Definition all_entries m : list (string * nat) :=
  flat_map (fun w => flat_map (fun e => entries (root_at w e.2)) (sm_Range (infoHashMap w))) (localList m).

Lemma fold_left_ext {A C} (f g : C → A → C) l a : (∀ c x, f c x = g c x) → fold_left f l a = fold_left g l a.
Proof. intros Hfg. revert a. induction l as [|x l IH]; intros a; simpl; [done|]. by rewrite Hfg, IH. Qed.

Lemma fold_left_map {A A' C} (f : C → A' → C) (g : A → A') l a :
  fold_left f (map g l) a = fold_left (fun c x => f c (g x)) l a.
Proof. revert a. induction l as [|x l IH]; intros a; simpl; [done|]. by rewrite IH. Qed.

Lemma fold_u64 {A} (f : A → Z) l a : fold_left (fun n x => u64 (n + u64 (f x))) l (u64 a) = u64 (fold_left (fun n x => n + f x) l a).
Proof.
  revert a. induction l as [|x l IH]; intros a; [done|]. simpl. rewrite <- IH. f_equal.
  unfold u64, wrap_u. by rewrite <- Z.add_mod by done.
Qed.

Lemma fold_length {A C} (f : A → list C) l a :
  fold_left (fun n x => n + Z.of_nat (length (f x))) l (Z.of_nat a) = Z.of_nat (a + length (flat_map f l)).
Proof.
  revert a. induction l as [|x l IH]; intros a; simpl; [f_equal; lia|].
  rewrite <- Nat2Z.inj_add, IH, length_app. f_equal. lia.
Qed.

Lemma shard_statistic w :
  Local.GetStatistic w =
  {| TotalTorrents := u64 (Z.of_nat (size (sm_view (infoHashMap w))));
     TotalPeers := u64 (Z.of_nat (length (flat_map (fun e => entries (root_at w e.2)) (sm_Range (infoHashMap w)))));
     Shards := [] |}.
Proof.
  unfold Local.GetStatistic. rewrite sm_Len_ret. f_equal. f_equal. unfold Range. rewrite range_loop_fold.
  rewrite <- (Nat.add_0_l (length _)), <- fold_length. apply fold_left_ext. intros n [k r]. by rewrite Len_entries.
Qed.

Lemma torrents_size (ws : list (Local.State M)) n0 (f : string → nat) :
  (∀ n w, ws !! n = Some w → ∀ ih, is_Some (sm_view (infoHashMap w) !! ih) → f ih = (n0 + n)%nat) →
  size (⋃ map (fun w => dom (sm_view (infoHashMap w))) ws : gset string)
  = length (flat_map (fun w => map_to_list (sm_view (infoHashMap w))) ws).
Proof.
  revert n0. induction ws as [|w ws IH]; intros n0 Hf; [done|]. simpl.
  rewrite size_union, length_app, size_dom, length_map_to_list.
  - f_equal. apply (IH (S n0)). intros n w' Hw ih Hih. rewrite (Hf (S n) w' Hw ih Hih). lia.
  - apply elem_of_disjoint. intros ih [r Hr]%elem_of_dom Hin.
    apply elem_of_union_list in Hin as (D & HD & Hin).
    apply list_elem_of_In, in_map_iff in HD as (w' & <- & Hw'). apply list_elem_of_In, list_elem_of_lookup in Hw' as [n Hw'].
    apply elem_of_dom in Hin. pose proof (Hf (S n) w' Hw' ih Hin).
    pose proof (Hf 0%nat w eq_refl ih ltac:(by eexists)). lia.
Qed.

(** C40: In a reachable state the statistics count every torrent the manager
    has once, and every peer entry of every torrent once, modulo the width of
    the counters. *)
Theorem statistics_count num b m :
  mux_reachable num b m →
  ∃ info, Mux.GetStatistic m = Ok info ∧
    TotalTorrents info = u64 (Z.of_nat (size (torrents m))) ∧
    TotalPeers info = u64 (Z.of_nat (length (all_entries m))).
Proof.
  intros Hr. pose proof (mux_steps_routed _ _ _ _ Hr (routed_new num b)) as Hm.
  eexists. split; [reflexivity|]. cbn [TotalTorrents TotalPeers]. split.
  - unfold torrents. rewrite (torrents_size _ 0 (fun ih => shard_of ih m)) by (intros n w Hw ih Hi; by apply (Hm n w Hw)).
    rewrite <- (Nat.add_0_l (length _)), <- fold_length, <- fold_u64, fold_left_map.
    apply fold_left_ext. intros n w. rewrite shard_statistic. cbn [TotalTorrents]. by rewrite length_map_to_list.
  - unfold all_entries. rewrite <- (Nat.add_0_l (length _)), <- fold_length, <- fold_u64, fold_left_map.
    apply fold_left_ext. intros n w. by rewrite shard_statistic.
Qed.

(** ** Bans *)
(** The info hash ban of [ih] is in the ban list's file and in its filter. *)
Definition banned (ih : string) m : Prop := kept (bytes_of_string ih) (infoHash (ban m)).

Lemma on_shard_ban {A} ih (f : Local.State M → result A * Local.State M) m : ban (on_shard ih f m).2 = ban m.
Proof. unfold on_shard. destruct (localList m !! _) as [w|]; [|done]. by destruct (f w). Qed.

Lemma BanInfoHash_banned o ih m :
  whole (infoHash (ban m)) → short (bytes_of_string ih) →
  (Mux.BanInfoHash o ih m).1 = Ok tt →
  banned ih (Mux.BanInfoHash o ih m).2 ∧ whole (infoHash (ban (Mux.BanInfoHash o ih m).2)).
Proof using Type* cfg.
  intros Hw Hs Hok. unfold banned. rewrite (proj2 (BanInfoHash_step o ih m)). cbn [put_item infoHash].
  assert ((add o (bytes_of_string ih) (infoHash (ban m))).1 = Ok tt) as Ha.
  { revert Hok. unfold Mux.BanInfoHash, Ban.AddBan. simpl. by destruct (add o _ _) as [[[]|e] i]. }
  split; [by apply add_Ok_kept|]. apply add_whole; [done..|]. by eapply add_Ok_untorn.
Qed.

Lemma mux_step_bans late unban ih m m' :
  mux_step late unban m m' → ¬ unban → banned ih m → banned ih m'.
Proof.
  intros Hs Hu Hb.
  assert (infoHash (ban m') = infoHash (ban m) → banned ih m') as Hsame by (intros E; unfold banned; by rewrite E).
  destruct Hs as [now now' req|now req w Hl Hw|now ih' x w Hl Hx Hw|n w now t ts1 ts2 Hw Ht|n w cn Hw Hcn|n w c Hw
    |now ih'|now|ih'|o ih'|o id|o Hu'|o|s|s| ]; try (apply Hsame; done).
  - apply Hsame. unfold HandleAnnouncePeer. destruct (check_bans req m); [done|]. unfold serve. by rewrite on_shard_ban.
  - apply Hsame. unfold Mux.Scrape. by rewrite on_shard_ban.
  - apply Hsame. unfold Mux.DeleteInfoHash. by rewrite on_shard_ban.
  - unfold banned. rewrite (proj2 (BanInfoHash_step o ih' m)). by apply add_keeps.
  - apply Hsame. unfold Mux.BanPeer, Ban.AddBan. simpl. by destruct (add o _ _).
  - apply Hsame. unfold Mux.BanIP, AddIPBan. destruct (ParseIP s); [|done]. by destruct (ipf_AddIP _ _).
  - apply Hsame. unfold Mux.UnbanIP, RemoveIPBan. destruct (ParseIP s); [|done]. by destruct (ipf_RemoveIP _ _).
  - apply Hsame. unfold Mux.ClearBanIP, ClearIPBans. by destruct (ipf_Clear _).
Qed.

Lemma check_banned ih m (req : AnnounceRequest) :
  banned ih m → length (bytes_of_string ih) = 20%nat → req_InfoHash req = ih →
  check_bans req m = Some "banned info_hash"%string.
Proof.
  intros [_ Ht] Hl <-. unfold check_bans, Ban.Test. simpl. rewrite Ht; [done|]. by apply Nat.eqb_eq.
Qed.

Lemma BanInfoHash_unindexed o ih m :
  routed m → (Mux.BanInfoHash o ih m).1 = Ok tt → ¬ indexed ih (Mux.BanInfoHash o ih m).2.
Proof.
  intros Hm. unfold Mux.BanInfoHash, Ban.AddBan. simpl. destruct (add o _ _) as [[u|e] i]; [|done]. simpl.
  unfold on_shard. simpl. match goal with |- context [shard_of ih ?m0] => change (shard_of ih m0) with (shard_of ih m) end.
  destruct (localList m !! shard_of ih m) as [w|] eqn:E; [|done]. simpl. intros _ (n & w' & Hw' & Hi).
  simpl in Hw'. apply list_lookup_insert_Some in Hw' as [(<- & <- & _)|[Hne Hw']].
  - simpl in Hi. rewrite sm_Delete_view, lookup_delete_eq in Hi. by destruct Hi.
  - destruct (Hm n w' Hw') as [_ Hb]. by apply Hne, Hb.
Qed.

Lemma unindexed_Scrape now ih m :
  localList m ≠ [] → Z.of_nat (length (localList m)) < 2 ^ 64 → ¬ indexed ih m →
  (Mux.Scrape cfg cached now ih m).1 = Ok zeroScrape.
Proof.
  intros Hne Hlt Hi. unfold Mux.Scrape, on_shard. destruct (shard_of_lt ih m Hne Hlt) as [w Hw]. rewrite Hw.
  unfold Local.Scrape. rewrite sm_Load_ret. destruct (sm_view (infoHashMap w) !! ih) as [r|] eqn:E; [|done].
  destruct Hi. exists (shard_of ih m), w. by split.
Qed.

Lemma mux_steps_keep_bans late ih m m' :
  rtc (mux_step late False) m m' → banned ih m → banned ih m'.
Proof. induction 1 as [|m1 m2 m3 H12 _ IH]; intros Hb; [done|]. apply IH. eapply mux_step_bans; [done|by intros []|done]. Qed.

Lemma hash_short t : length t = 20%nat → short t.
Proof. unfold short. intros ->. apply Nat.ltb_lt. vm_compute. reflexivity. Qed.

Lemma mux_steps_banned ih m m' :
  rtc (mux_step (fun k => k ≠ ih) False) m m' → banned ih m →
  length (bytes_of_string ih) = 20%nat → routed m → ¬ indexed ih m → ¬ indexed ih m' ∧ banned ih m'.
Proof.
  intros Hm. induction Hm as [|m1 m2 m3 H12 _ IH]; intros Hb Hlen Hrm Hni; [by eauto|].
  apply IH; [eapply mux_step_bans; [done|by intros []|done]|done|by eapply mux_step_routed|].
  intros Hi. destruct (mux_step_indexed _ _ _ _ _ H12 Hrm Hi) as [?|[Hx|(req & Hreq & Hc)]]; [done|done|].
  by rewrite (check_banned ih m1 req Hb Hlen Hreq) in Hc.
Qed.

(** C13: From the moment [BanInfoHash] succeeds for a 20-byte info hash in a
    reachable state whose ban file holds whole lines (no write of a ban failed
    half-way before), and whatever the manager does next, file errors included
    (except clearing the bans, reading that torrent back from a file, or
    finishing an announce of it that had passed the checks before), every
    announce of that torrent is refused and changes nothing, and every scrape
    of it reports zeros; the ban is also in the file a restart reads. *)
Theorem banned_torrent_out num b o ih m m' :
  0 < num < 2 ^ 64 →
  rtc (mux_step (fun _ => True) True) (NewMuxLocalManager num b) m →
  whole (infoHash (ban m)) →
  length (bytes_of_string ih) = 20%nat → (Mux.BanInfoHash o ih m).1 = Ok tt →
  rtc (mux_step (fun k => k ≠ ih) False) (Mux.BanInfoHash o ih m).2 m' →
  (∀ now now' (req : AnnounceRequest), req_InfoHash req = ih →
     HandleAnnouncePeer cfg now now' req m' = (Err "banned info_hash"%string, m')) ∧
  (∀ now, (Mux.Scrape cfg cached now ih m').1 = Ok zeroScrape) ∧
  ∃ i, newBanItem (Ok (store (infoHash (ban m')))) = Ok i ∧ test (bytes_of_string ih) i = true.
Proof.
  intros Hnum Hm Hw Hlen Hok Hm'.
  pose proof (mux_steps_length _ _ _ _ Hm) as Hl. simpl in Hl. rewrite length_replicate in Hl.
  pose proof (mux_steps_routed _ _ _ _ Hm (routed_new num b)) as Hrm.
  destruct (BanInfoHash_banned o ih m Hw (hash_short _ Hlen) Hok) as [Hb _].
  pose proof (BanInfoHash_unindexed o ih m Hrm Hok) as Hni.
  assert (routed (Mux.BanInfoHash o ih m).2) as Hrm2
    by (eapply shard_step_routed; [apply BanInfoHash_step|done]).
  pose proof (shard_step_length _ _ _ (proj1 (BanInfoHash_step o ih m))) as Hl2.
  pose proof (mux_steps_length _ _ _ _ Hm') as Hl3.
  destruct (mux_steps_banned _ _ _ Hm' Hb Hlen Hrm2 Hni) as [Hni' Hb'].
  split_and!.
  - intros now now' req Hreq. unfold HandleAnnouncePeer. by rewrite (check_banned ih m' req Hb' Hlen Hreq).
  - intros now. apply unindexed_Scrape; [|lia|done]. intros E. rewrite E in Hl3. simpl in Hl3. lia.
  - exact (proj2 (kept_restart _ _ Hb' Hlen)).
Qed.

Lemma check_bans_ip (req : AnnounceRequest) m m' :
  (∀ t tg, Ban.Test t tg (ban m') = Ban.Test t tg (ban m)) →
  TestIPAddr (req_ClientIP req) (ban m') = TestIPAddr (req_ClientIP req) (ban m) →
  check_bans req m' = check_bans req m.
Proof. intros Ht Hi. unfold check_bans. by rewrite !Ht, Hi. Qed.

Lemma check_bans_blocked (req : AnnounceRequest) m :
  TestIPAddr (req_ClientIP req) (ban m) = true → req_ClientIP req ≠ None → is_Some (check_bans req m).
Proof.
  intros Hi Hn. unfold check_bans. rewrite Hi, bool_decide_eq_true_2 by done.
  destruct (default _ _); [by eexists|]. destruct (default _ _); by eexists.
Qed.

(** C28: While an address is banned ([BanIP] succeeded on a text that names it),
    announces from it are refused with nothing changed, whatever byte form the
    request has; announces from any other address get the same checks as before;
    and [UnbanIP] on that text restores the checks an unbanned address had. *)
Theorem banned_ip_out s m (req : AnnounceRequest) c now now' :
  To16 (req_ClientIP req) = Some c → (Mux.BanIP s m).1 = Ok tt →
  (ParseIP s = Some c →
     ∃ e, HandleAnnouncePeer cfg now now' req (Mux.BanIP s m).2 = (Err e, (Mux.BanIP s m).2)) ∧
  (ParseIP s ≠ Some c → check_bans req (Mux.BanIP s m).2 = check_bans req m) ∧
  (TestIPAddr (req_ClientIP req) (ban m) = false → (Mux.UnbanIP s (Mux.BanIP s m).2).1 = Ok tt →
     check_bans req (Mux.UnbanIP s (Mux.BanIP s m).2).2 = check_bans req m).
Proof.
  clear cached. intros Hc Hok. pose proof (TestIPAddr_AddIPBan s (ban m) _ _ Hc) as Ha.
  pose proof (TestIPAddr_RemoveIPBan s (AddIPBan s (ban m)).2 _ _ Hc) as Hr. split_and!.
  - intros Hs. destruct (check_bans_blocked req (Mux.BanIP s m).2) as [e He].
    + apply Ha. left. by split.
    + by intros E; rewrite E in Hc.
    + exists e. unfold HandleAnnouncePeer. by rewrite He.
  - intros Hs. apply check_bans_ip; [intros t tg; apply Test_AddIPBan|].
    apply eq_true_iff_eq. rewrite Ha. tauto.
  - intros Hf Hu. apply check_bans_ip.
    + intros t tg. simpl. by rewrite Test_RemoveIPBan, Test_AddIPBan.
    + rewrite Hf. apply not_true_is_false. intros Ht. apply Hr in Ht as [Hn Ht].
      apply Ha in Ht as [[Hs _]|Ht]; [by apply Hn|by rewrite Hf in Ht].
Qed.
End Mux.

(** ** A manager with four shards *)
Definition sample_mux : MuxLocalManager Skip (list bytes) fallbackIPFilter :=
  NewMuxLocalManager 4 (mkManager empty_item empty_item newFallbackIPFilter).
Definition hash_a : string := "aaaaaaaaaaaaaaaaaaaa".
Definition hash_b : string := "bbbbbbbbbbbbbbbbbbbb".
Definition announce_to (ih id : string) (m : MuxLocalManager Skip (list bytes) fallbackIPFilter) :=
  HandleAnnouncePeer (sample_cfg 400) sample_time sample_time (sample_request id ih "started" Byte.x01 7 50) m.
Definition two_torrents := (announce_to hash_b "Q" (announce_to hash_a "P" sample_mux).2).2.

Lemma two_torrents_reachable :
  mux_reachable (sample_cfg 400) (fun _ => None) 4 (ban sample_mux) two_torrents.
Proof.
  apply (rtc_l _ _ (announce_to hash_a "P" sample_mux).2); [apply mux_announce|].
  apply (rtc_l _ _ two_torrents); [apply mux_announce|apply rtc_refl].
Qed.

Lemma shards_routed_witness :
  shard_of hash_a two_torrents = 1%nat ∧ shard_of hash_b two_torrents = 2%nat ∧
  ∃ w, localList two_torrents !! 2%nat = Some w ∧ reachable (sample_cfg 400) w.
Proof.
  split; [vm_compute; reflexivity|]. split; [vm_compute; reflexivity|].
  assert (is_Some (localList two_torrents !! 2%nat)) as [w Hw] by (apply lookup_lt_is_Some; vm_compute; lia).
  exists w. split; [exact Hw|].
  exact (proj1 (proj2 (shards_routed _ _ 4 _ two_torrents two_torrents_reachable) 2%nat w Hw)).
Defined.

Lemma statistics_count_witness :
  ∃ info, GetStatistic two_torrents = Ok info ∧ TotalTorrents info = 2 ∧ TotalPeers info = 2.
Proof.
  destruct (statistics_count _ _ 4 _ two_torrents two_torrents_reachable) as (info & Hi & Ht & Hp).
  exists info. split; [exact Hi|]. rewrite Ht, Hp. split; vm_compute; reflexivity.
Defined.

(** Torrent A is banned, then Q comes back to torrent B; P's announce of A fails. *)
Definition banned_a := (BanInfoHash io_ok hash_a two_torrents).2.
Lemma banned_torrent_out_witness :
  announce_to hash_a "P" (announce_to hash_b "Q" banned_a).2
  = (Err "banned info_hash"%string, (announce_to hash_b "Q" banned_a).2).
Proof.
  refine (proj1 (banned_torrent_out (sample_cfg 400) (fun _ => None) 4 (ban sample_mux) io_ok hash_a two_torrents
    (announce_to hash_b "Q" banned_a).2 _ two_torrents_reachable _ _ _ _) sample_time sample_time
    (sample_request "P" hash_a "started" Byte.x01 7 50) eq_refl).
  - lia.
  - exists []. split; [vm_compute; reflexivity|constructor].
  - vm_compute. reflexivity.
  - vm_compute. reflexivity.
  - apply (rtc_l _ _ (announce_to hash_b "Q" banned_a).2); [apply mux_announce|apply rtc_refl].
Defined.

Lemma banned_ip_out_witness :
  ∃ e, announce_to hash_a "P" (BanIP "203.0.113.1" two_torrents).2 = (Err e, (BanIP "203.0.113.1" two_torrents).2).
Proof.
  apply (banned_ip_out (sample_cfg 400) "203.0.113.1" two_torrents (sample_request "P" hash_a "started" Byte.x01 7 50)
    (v4InV6Prefix ++ [Byte.xcb; Byte.x00; Byte.x71; Byte.x01])).
  - vm_compute. reflexivity.
  - vm_compute. reflexivity.
  - vm_compute. reflexivity.
Defined.

(** An announce that passed the ban checks just before its torrent is
    banned brings the torrent back: it stays listed while it is banned. *)
Theorem banned_torrent_returns :
  let req := sample_request "P" hash_a "started" Byte.x01 7 50 in
  let m1 := (BanInfoHash io_ok hash_a two_torrents).2 in
  let m2 := (serve (sample_cfg 400) sample_time sample_time req m1).2 in
  check_bans req two_torrents = None ∧ (BanInfoHash io_ok hash_a two_torrents).1 = Ok tt ∧
  check_bans req m2 = Some "banned info_hash"%string ∧
  res_map Incomplete (Scrape (sample_cfg 400) (fun _ => None) sample_time hash_a m1).1 = Ok 0 ∧
  res_map Incomplete (Scrape (sample_cfg 400) (fun _ => None) sample_time hash_a m2).1 = Ok 1.
Proof. vm_compute. auto. Qed.
