(* ===== verification/Tracker.v ===== *)
(** The sharded tracker against a reference tracker: run request by request,
    the manager answers and stores what one map from info hashes to tables of
    peers would. *)
From Stdlib Require Import ZArith Lia Bool Strings.String.
From stdpp Require Import base strings list sets gmap relations.
From S2P Require Import Prelude GoStd Config Model Common Samples Mapx Local LocalInv LocalSafety LocalSpec LocalScrape LocalTable LocalFrame LocalRest BanItem IPFilter Xdp Ban Manager Mux MuxSpec.
Set Default Proof Using "Type*".
Local Open Scope Z_scope.

(** ** The calls a front end makes *)
Inductive call :=
| CallAnnounce (now now' : Z) (req : AnnounceRequest)
| CallScrape (now : Z) (ih : string)
| CallGetPeers (ih : string)
| CallDeleteInfoHash (ih : string)
| CallBanInfoHash (o : io) (ih : string)
| CallBanPeer (o : io) (id : string)
| CallClearBanInfoHash (o : io)
| CallClearBanPeer (o : io)
| CallClean (now : Z).

Inductive reply :=
| ReplyPeers (r : result (list Peer))
| ReplyScrape (r : result ScrapeFile)
| ReplyUnit (r : result unit).

(** What the reference allows as an answer: a failure, any [n] of the peers [l]
    (all of them if there are fewer), the counters, or the outcome of a ban. *)
Inductive allowed :=
| Fails (e : string)
| AnyOf (n : nat) (l : list Peer)
| Counts (f : ScrapeFile)
| Outcome (r : result unit).

Definition answers (a : allowed) (r : reply) : Prop :=
  match a, r with
  | Fails e, ReplyPeers (Err e') => e = e'
  | AnyOf n l, ReplyPeers (Ok ps) => ps ⊆+ l ∧ length ps = Nat.min n (length l)
  | Counts f, ReplyScrape (Ok f') => f = f'
  | Outcome r, ReplyUnit r' => r = r'
  | _, _ => False
  end.

Section Tracker.
Context {M : Type → Type} {B F : Type} `{SyncStringMapLaws M} `{BloomFilterLaws B} `{IPFilterLaws F}.
Context (cfg : Config) (cached : string → option ScrapeFile).
Implicit Types (m : MuxLocalManager M B F) (w : Local.State M) (h : list Peer) (i : InfoHashRoot M).

(** ** The manager, one request at a time *)
(** The goroutines of the shard of [ih] run to their end. *)
Definition settle (now : Z) (ih : string) m : MuxLocalManager M B F :=
  match localList m !! shard_of ih m with
  | Some w => set_shard (shard_of ih m) (run_all cfg 4 now w) m
  | None => m
  end.

Definition run_call (c : call) m : reply * MuxLocalManager M B F :=
  match c with
  | CallAnnounce now now' req =>
      let '(r, m) := Mux.HandleAnnouncePeer cfg now now' req m in
      (ReplyPeers r, settle now' (req_InfoHash req) m)
  | CallScrape now ih => let '(r, m) := Mux.Scrape cfg cached now ih m in (ReplyScrape r, m)
  | CallGetPeers ih => (ReplyPeers (Mux.GetPeers ih m), m)
  | CallDeleteInfoHash ih => let '(r, m) := Mux.DeleteInfoHash ih m in (ReplyUnit r, m)
  | CallBanInfoHash o ih => let '(r, m) := Mux.BanInfoHash o ih m in (ReplyUnit r, m)
  | CallBanPeer o id => let '(r, m) := Mux.BanPeer o id m in (ReplyUnit r, m)
  | CallClearBanInfoHash o => (ReplyUnit (Ok tt), Mux.ClearBanInfoHash o m)
  | CallClearBanPeer o => (ReplyUnit (Ok tt), Mux.ClearBanPeer o m)
  | CallClean now => (ReplyUnit (Ok tt), (Mux.Clean cfg now m).2)
  end.

Fixpoint run_calls (cs : list call) m : list reply * MuxLocalManager M B F :=
  match cs with
  | [] => ([], m)
  | c :: cs => let '(r, m) := run_call c m in let '(rs, m) := run_calls cs m in (r :: rs, m)
  end.

(** ** The reference tracker *)
(** The ban lists, the tables of peers, and when each torrent that is indexed
    was last cleaned up. *)
Record Reference := mkRef
  { ref_ban : Ban.Manager B F; ref_torrents : gmap string (gmap string Peer); ref_cleaned : gmap string Z }.
Implicit Types (R : Reference).

Definition ref_torrent R (ih : string) : gmap string Peer := default ∅ (ref_torrents R !! ih).
Definition ref_dated R (ih : string) : dated := (ref_torrent R ih, ref_cleaned R !! ih).
Definition ref_set (ih : string) (d : dated) R : Reference :=
  mkRef (ref_ban R) (<[ih := d.1]> (ref_torrents R)) (partial_alter (fun _ => d.2) ih (ref_cleaned R)).
Definition ref_set_ban (b : Ban.Manager B F) R : Reference := mkRef b (ref_torrents R) (ref_cleaned R).
Definition ref_clean (now : Z) R : Reference :=
  mkRef (ref_ban R)
    (map_imap (fun ih t => Some (clean_table cfg now (t, ref_cleaned R !! ih)).1) (ref_torrents R))
    (map_imap (fun ih c => (clean_table cfg now (ref_torrent R ih, Some c)).2) (ref_cleaned R)).
Definition ref_new (b : Ban.Manager B F) : Reference := mkRef b ∅ ∅.

(** Who is handed out to the peer [x]. *)
Definition wanted (now : Z) (x y : Peer) : bool :=
  live cfg now y && (Type_ y =? Type_ x)
  && negb ((Type_ y =? PeerTypeWebtorrent) && bool_decide (Conn y = None))
  && negb (Event y =? PeerEvent_Stopped) && bool_decide (ID y ≠ ID x).

Definition peers_of (t : gmap string Peer) : list Peer := (map_to_list t).*2.

(** Who the ban lists keep out. *)
Definition ref_check (req : AnnounceRequest) R : option string :=
  check_bans req (mkMux (M := M) [] (ref_ban R)).

Definition ref_announce (now now' : Z) (req : AnnounceRequest) R : allowed * Reference :=
  let x := peer_of_request now req in
  let t := ref_torrent R (req_InfoHash req) in
  match ref_check req R with
  | Some e => (Fails e, R)
  | None =>
      if invalid_address x then (Fails "invalid address", R)
      else (if Event x =? PeerEvent_Stopped then AnyOf 0 []
            else AnyOf (Z.to_nat (req_NumWant req)) (List.filter (wanted now' x) (peers_of t)),
            ref_set (req_InfoHash req)
              (spec_announce (UseAnnounceIP (Tracker cfg)) x t, Some (default now (ref_cleaned R !! req_InfoHash req))) R)
  end.

Definition ref_ban_call (r : option (result unit * Ban.Manager B F)) (ih : option string) R : allowed * Reference :=
  match r with
  | None => (Outcome (Err "invalid ban type"%string), R)
  | Some (Err e, b) => (Outcome (Err e), ref_set_ban b R)
  | Some (Ok u, b) =>
      (Outcome (Ok u), match ih with Some ih => ref_set ih (∅, None) (ref_set_ban b R) | None => ref_set_ban b R end)
  end.

Definition ref_call (c : call) R : allowed * Reference :=
  match c with
  | CallAnnounce now now' req => ref_announce now now' req R
  | CallScrape now ih => (Counts (add_counts zeroScrape (peers_of (ref_torrent R ih))), R)
  | CallGetPeers ih => (AnyOf (size (ref_torrent R ih)) (peers_of (ref_torrent R ih)), R)
  | CallDeleteInfoHash ih => (Outcome (Ok tt), ref_set ih (∅, None) R)
  | CallBanInfoHash o ih => ref_ban_call (Ban.AddBan o BanTypeInfoHash ih (ref_ban R)) (Some ih) R
  | CallBanPeer o id => ref_ban_call (Ban.AddBan o BanTypePeerId id (ref_ban R)) None R
  | CallClearBanInfoHash o =>
      (Outcome (Ok tt), ref_set_ban (default (ref_ban R) (Ban.Clear o BanTypeInfoHash (ref_ban R))) R)
  | CallClearBanPeer o =>
      (Outcome (Ok tt), ref_set_ban (default (ref_ban R) (Ban.Clear o BanTypePeerId (ref_ban R))) R)
  | CallClean now => (Outcome (Ok tt), ref_clean now R)
  end.

Fixpoint ref_calls (cs : list call) R : list allowed * Reference :=
  match cs with
  | [] => ([], R)
  | c :: cs => let '(a, R) := ref_call c R in let '(l, R) := ref_calls cs R in (a :: l, R)
  end.

(** The calls the comparison is about: the torrent an announce or a scrape is
    about has no expired peer, and is not over half the limit; no open WebTorrent
    connection is in the tables when they are cleaned up. *)
Definition ref_quiet R : bool := forallb (fun t => forallb quiet_peer (peers_of t)) (map_to_list (ref_torrents R)).*2.
Definition call_fits (c : call) R : bool :=
  match c with
  | CallAnnounce now now' req =>
      match ref_check req R with
      | Some _ => true
      | None => invalid_address (peer_of_request now req) || fits cfg now' (ref_torrent R (req_InfoHash req))
      end
  | CallScrape now ih => forallb (live cfg now) (peers_of (ref_torrent R ih))
  | CallClean now => ref_quiet R
  | _ => true
  end.
Fixpoint calls_fit (cs : list call) R : bool :=
  match cs with
  | [] => true
  | c :: cs => call_fits c R && calls_fit cs (ref_call c R).2
  end.

(** ** One shard's answers *)
Lemma values_fmap h l : values h l = omap (fun p => h !! p) l.*2.
Proof. induction l as [|[k p] l IH]; [done|]. simpl. rewrite IH. by destruct (h !! p). Qed.

Lemma peers_of_omap {A} (g : A → option Peer) (t : gmap string A) :
  peers_of (omap g t) ≡ₚ omap g (map_to_list t).*2.
Proof.
  unfold peers_of. induction t as [|k p t Hk IH] using map_ind; [by rewrite omap_empty, !map_to_list_empty|].
  rewrite (map_to_list_insert _ _ _ Hk), omap_insert. simpl. destruct (g p) as [x|].
  - rewrite map_to_list_insert by by rewrite lookup_omap, Hk. simpl. by rewrite IH.
  - rewrite delete_id by by rewrite lookup_omap, Hk. done.
Qed.

Lemma values_table h i : separated i → values h (entries i) ≡ₚ peers_of (table h i).
Proof. intros Hs. by rewrite values_fmap, (entries_perm i Hs), <- peers_of_omap. Qed.

(** Reading the records of the peers selected for an answer. *)
Lemma omap_filter h (f : Peer → bool) (ps : list nat) :
  omap (fun p => h !! p) (List.filter (fun p => match h !! p with None => false | Some y => f y end) ps)
  = List.filter f (omap (fun p => h !! p) ps).
Proof.
  induction ps as [|p ps IH]; [done|]. simpl in *. destruct (h !! p) as [y|] eqn:E; [|done]. simpl.
  destruct (f y); [|done]. simpl. by rewrite E; f_equal.
Qed.

Lemma omap_take {A C} (g : A → option C) n l :
  Forall (fun x => is_Some (g x)) l → omap g (take n l) = take n (omap g l).
Proof.
  intros Hl. revert n. induction Hl as [|x l [y Hx] _ IH]; intros [|n]; [done..|]. simpl. rewrite Hx, IH. done.
Qed.

Lemma read_selected h now x n i :
  omap (fun p => h !! p) (selected cfg h now x n i)
  = take (Z.to_nat n) (List.filter (wanted now x) (values h (entries i))).
Proof.
  unfold selected. rewrite omap_take.
  - f_equal. rewrite values_fmap. apply omap_filter.
  - apply Forall_forall. intros p Hp%list_elem_of_In. apply filter_In in Hp as [_ Hp].
    unfold eligible in Hp. by destruct (h !! p).
Qed.

Lemma take_answers (f : Peer → bool) n l l' :
  l ≡ₚ l' → answers (AnyOf n (List.filter f l')) (ReplyPeers (Ok (take n (List.filter f l)))).
Proof.
  intros Hl. assert (List.filter f l ≡ₚ List.filter f l') as Hf.
  { clear -Hl. induction Hl as [|x l l' _ IH|x y l|l1 l2 l3 _ IH1 _ IH2]; simpl; [done|..|by etrans].
    - by destruct (f x); rewrite IH.
    - destruct (f x), (f y); try done. apply Permutation_swap. }
  split; [|by rewrite length_take, Hf]. rewrite <- Hf. apply sublist_submseteq, sublist_take.
Qed.

(** The answer to an announce of a store at rest. *)
Lemma respond_peers now r p n w : peers (announce_respond cfg now r p n w).2 = peers w.
Proof.
  unfold announce_respond. destruct (peers w !! p); [|done]. destruct (root_Range _ _ _) as [resp ex].
  by case_match.
Qed.

Lemma announce_answers now now' (req : AnnounceRequest) w :
  let x := peer_of_request now req in
  let out := Local.HandleAnnouncePeer cfg now now' req w in
  idle cfg w → invalid_address x = false →
  answers (if Event x =? PeerEvent_Stopped then AnyOf 0 []
           else AnyOf (Z.to_nat (req_NumWant req)) (List.filter (wanted now' x) (peers_of (torrent_of w (req_InfoHash req)))))
    (ReplyPeers (res_map (read_peers out.2) out.1)).
Proof.
  intros x out Hi Hx. unfold out, Local.HandleAnnouncePeer. destruct (sm_view (infoHashMap w) !! req_InfoHash req) as [r|] eqn:Hr.
  - destruct (announce_begin_known cfg now req w r Hx Hr) as (w1 & _ & Er & Ep & _ & _ & E). fold x in E. rewrite E.
    destruct (Event x =? PeerEvent_Stopped) eqn:He; [by split|].
    set (w2 := spawn _ w1).
    assert (peers w2 !! length (peers w) = Some x) as Hp.
    { simpl. rewrite Ep, lookup_app_r by lia. by rewrite Nat.sub_diag. }
    pose proof (announce_respond_selected cfg now' r _ (req_NumWant req) w2 x Hp) as Hsel.
    pose proof (respond_peers now' r (length (peers w)) (req_NumWant req) w2) as Hpe.
    destruct (announce_respond _ _ _ _ _ _) as [resp w3]. simpl in Hsel, Hpe. subst resp. cbn [fst snd res_map].
    unfold read_peers. rewrite Hpe, read_selected. change (root_at w2 r) with (root_at w1 r). change (peers w2) with (peers w1).
    rewrite (root_at_frame w w1 r Er).
    destruct (indexed_root_ok cfg w _ r (idle_ok _ _ Hi) Hr) as [_ Hok].
    apply take_answers. rewrite (torrent_of_eq w _ r Hr), <- (table_heap_app cfg (peers w) [x] _ Hok), Ep.
    apply values_table. apply (idle_separated _ _ Hi (req_InfoHash req)). by rewrite sm_Load_ret.
  - unfold announce_begin. fold x. rewrite Hx.
    destruct (get_or_create_unknown (set_peers (peers w ++ [x]) w) now (req_InfoHash req) Hr) as (m' & -> & Hm').
    cbn [negb]. destruct (_ =? _); [by split|]. unfold torrent_of. rewrite sm_Load_ret, Hr. cbn.
    split; [apply submseteq_nil_l|]. by rewrite Nat.min_0_r.
Qed.

(** ** The simulation *)
(** A torrent where it is kept. *)
Definition mux_dated m (ih : string) : dated :=
  match localList m !! shard_of ih m with Some w => dated_of w ih | None => (∅, None) end.

Record sim m R : Prop := {
  sim_ban : ban m = ref_ban R;
  sim_shards : localList m ≠ [];
  sim_length : Z.of_nat (length (localList m)) < 2 ^ 64;
  sim_idle : ∀ n w, localList m !! n = Some w → idle cfg w;
  sim_dated : ∀ ih, mux_dated m ih = ref_dated R ih;
  sim_routed : ∀ n w ih, localList m !! n = Some w → cleaned_of w ih ≠ None → n = shard_of ih m;
}.

Lemma mux_torrent_dated m ih : mux_torrent m ih = (mux_dated m ih).1.
Proof. unfold mux_torrent, mux_dated. by destruct (localList m !! _). Qed.

Lemma sim_torrents m R ih : sim m R → mux_torrent m ih = ref_torrent R ih.
Proof. intros Hs. by rewrite mux_torrent_dated, (sim_dated _ _ Hs). Qed.

Lemma sim_new num b : 0 < num < 2 ^ 64 → sim (NewMuxLocalManager num b) (ref_new b).
Proof.
  intros Hn. assert (∀ ih, sm_Load ih (infoHashMap (NewLocalManger (M := M))) = None) as Hnew.
  { intros ih. rewrite sm_Load_ret. simpl. by rewrite sm_view_new, lookup_empty. }
  split; simpl; [done| | | | |].
  - destruct (Z.to_nat num) eqn:E; [lia|done].
  - rewrite length_replicate. lia.
  - intros n w [-> _]%lookup_replicate. apply idle_new.
  - intros ih. unfold mux_dated, ref_dated, ref_torrent. cbn [ref_torrents ref_cleaned ref_new]. rewrite !lookup_empty.
    destruct (localList _ !! _) as [w|] eqn:E; [|done]. apply lookup_replicate in E as [-> _].
    unfold dated_of, torrent_of, cleaned_of. by rewrite Hnew.
  - intros n w ih [-> _]%lookup_replicate Hc. unfold cleaned_of in Hc. by rewrite Hnew in Hc.
Qed.

Lemma sim_set_ban b m R : sim m R → sim (set_ban b m) (ref_set_ban b R).
Proof. intros [H1' H2' H3' H4' H5' H6']. by split. Qed.

Lemma sim_shard m R ih :
  sim m R → ∃ w, localList m !! shard_of ih m = Some w ∧ idle cfg w ∧ dated_of w ih = ref_dated R ih ∧ torrent_of w ih = ref_torrent R ih.
Proof.
  intros Hs. destruct (shard_of_lt ih m (sim_shards _ _ Hs) (sim_length _ _ Hs)) as [w Hw].
  assert (dated_of w ih = ref_dated R ih) as E by (rewrite <- (sim_dated _ _ Hs); unfold mux_dated; by rewrite Hw).
  exists w. split; [done|]. split; [by eapply (sim_idle _ _ Hs)|]. split; [done|]. by apply (f_equal fst) in E.
Qed.

Lemma ref_dated_set ih ih' d R : ref_dated (ref_set ih d R) ih' = if decide (ih' = ih) then d else ref_dated R ih'.
Proof.
  unfold ref_dated, ref_torrent. cbn [ref_set ref_torrents ref_cleaned]. case_decide as E.
  - subst ih'. rewrite lookup_insert_eq, lookup_partial_alter_eq. by destruct d.
  - by rewrite lookup_insert_ne, lookup_partial_alter_ne by done.
Qed.

Lemma sim_set m R ih w w' d :
  sim m R → localList m !! shard_of ih m = Some w → idle cfg w' →
  (∀ ih', dated_of w' ih' = if decide (ih' = ih) then d else dated_of w ih') →
  sim (set_shard (shard_of ih m) w' m) (ref_set ih d R).
Proof.
  intros [S1 S2 S3 S4 S5 S6] Hw Hi Ht. split; simpl; [done| | | | |].
  - intros E. apply (f_equal length) in E. rewrite length_insert in E. by destruct (localList m).
  - by rewrite length_insert.
  - intros n w2 [(_ & <- & _)|[_ Hw2]]%list_lookup_insert_Some; [done|by eapply S4].
  - intros ih'. unfold mux_dated. rewrite (shard_of_eq ih' m) by apply length_insert. simpl. rewrite ref_dated_set, <- S5.
    unfold mux_dated. destruct (decide (shard_of ih' m = shard_of ih m)) as [E|E].
    + rewrite E, list_lookup_insert_eq, Hw by by eapply lookup_lt_Some. apply Ht.
    + rewrite list_lookup_insert_ne by done. rewrite decide_False; [done|by intros ->].
  - intros n w2 ih' Hw2 Hc. rewrite (shard_of_eq ih' m) by apply length_insert.
    apply list_lookup_insert_Some in Hw2 as [(<- & <- & _)|[_ Hw2]]; [|by eapply S6].
    pose proof (f_equal snd (Ht ih')) as E. cbn [snd dated_of] in E. rewrite E in Hc.
    destruct (decide (ih' = ih)) as [->|]; [done|]. by eapply S6.
Qed.

(** *** A clean-up of every shard *)
Lemma ref_dated_clean now ih R : ref_dated (ref_clean now R) ih = clean_table cfg now (ref_dated R ih).
Proof.
  assert (ref_torrent (ref_clean now R) ih = (clean_table cfg now (ref_dated R ih)).1) as E1.
  { unfold ref_clean. unfold ref_torrent at 1. cbn [ref_torrents]. rewrite map_lookup_imap. unfold ref_dated, ref_torrent.
    destruct (ref_torrents R !! ih) as [t|]; [done|]. cbn [mbind option_bind default from_option].
    unfold clean_table. cbn [fst snd]. destruct (ref_cleaned R !! ih) as [c|]; [|done]. destruct (is_due cfg now c); [|done].
    cbn [fst]. unfold unexpired. by rewrite map_filter_empty. }
  assert (ref_cleaned (ref_clean now R) !! ih = (clean_table cfg now (ref_dated R ih)).2) as E2.
  { unfold ref_clean. cbn [ref_cleaned]. rewrite map_lookup_imap. unfold ref_dated. by destruct (ref_cleaned R !! ih). }
  unfold ref_dated at 1. rewrite E1, E2. by destruct (clean_table _ _ _).
Qed.

Lemma ref_quiet_spec R ih k x : ref_quiet R = true → ref_torrent R ih !! k = Some x → quiet_peer x = true.
Proof.
  unfold ref_quiet, ref_torrent. rewrite forallb_forall. setoid_rewrite <- list_elem_of_In. intros Hq Hk.
  destruct (ref_torrents R !! ih) as [t|] eqn:Et; cbn [default from_option id] in Hk; [|by rewrite lookup_empty in Hk].
  specialize (Hq t). rewrite forallb_forall in Hq. setoid_rewrite <- list_elem_of_In in Hq. apply Hq.
  - apply list_elem_of_fmap. exists (ih, t). by rewrite elem_of_map_to_list.
  - apply list_elem_of_fmap. exists (k, x). by rewrite elem_of_map_to_list.
Qed.

Lemma sim_clean now m R : sim m R → ref_quiet R = true → sim (Mux.Clean cfg now m).2 (ref_clean now R).
Proof.
  intros Hs Hq. pose proof Hs as [S1 S2 S3 S4 S5 S6].
  assert (∀ n w, localList m !! n = Some w → quiet w) as Hquiet.
  { intros n w Hw ih k x Hk. apply (ref_quiet_spec R ih k x Hq). rewrite <- (sim_torrents m R ih Hs).
    assert (cleaned_of w ih ≠ None) as Hc.
    { unfold cleaned_of. unfold torrent_of in Hk. by destruct (sm_Load ih (infoHashMap w)). }
    pose proof (S6 n w ih Hw Hc) as ->. unfold mux_torrent. by rewrite Hw. }
  set (m' := (Mux.Clean cfg now m).2).
  assert (∀ n, localList m' !! n = (fun w => (Local.Clean cfg now w).2) <$> localList m !! n) as Hl.
  { intros n. unfold m', Mux.Clean. cbn [snd localList].
    rewrite !list_lookup_fmap. by destruct (localList m !! n). }
  assert (length (localList m') = length (localList m)) as Hlen by (unfold m', Mux.Clean; cbn [snd localList]; by rewrite !length_fmap).
  split; [done| |by rewrite Hlen| | |].
  - intros E. apply (f_equal length) in E. rewrite Hlen in E. by destruct (localList m).
  - intros n w'. rewrite Hl. intros (w & Hw & ->)%fmap_Some. apply (Clean_idle cfg now w); [by eapply S4|by eapply Hquiet].
  - intros ih. rewrite ref_dated_clean, <- S5. unfold mux_dated. rewrite (shard_of_eq ih m m' Hlen), Hl.
    destruct (localList m !! shard_of ih m) as [w|] eqn:Hw; [|done]. cbn [fmap option_fmap option_map].
    apply (Clean_idle cfg now w); [by eapply S4|by eapply Hquiet].
  - intros n w' ih. rewrite Hl. intros (w & Hw & ->)%fmap_Some Hc. rewrite (shard_of_eq ih m m' Hlen). apply (S6 n w ih Hw).
    intros E. apply Hc. destruct (Clean_idle cfg now w ltac:(by eapply S4) ltac:(by eapply Hquiet)) as [_ Hd].
    pose proof (f_equal snd (Hd ih)) as E'. cbn [snd dated_of] in E'. rewrite E'. unfold clean_table. cbn [snd dated_of]. by rewrite E.
Qed.

Lemma settle_serve now now' (req : AnnounceRequest) m w :
  localList m !! shard_of (req_InfoHash req) m = Some w →
  let out := Local.HandleAnnouncePeer cfg now now' req w in
  (serve cfg now now' req m).1 = res_map (read_peers out.2) out.1 ∧
  settle now' (req_InfoHash req) (serve cfg now now' req m).2
  = set_shard (shard_of (req_InfoHash req) m) (run_all cfg 4 now' out.2) m.
Proof.
  intros Hw out. unfold serve, on_shard. rewrite Hw. fold out. destruct out as [r w']. split; [done|].
  unfold settle. cbn [snd]. rewrite (shard_of_eq (req_InfoHash req) m) by apply length_insert. simpl.
  rewrite list_lookup_insert_eq by by eapply lookup_lt_Some. unfold set_shard. simpl. by rewrite list_insert_insert_eq.
Qed.

Lemma set_shard_same m n w : localList m !! n = Some w → set_shard n w m = m.
Proof. intros Hw. destruct m as [l b]. unfold set_shard. simpl in *. by rewrite list_insert_id. Qed.

Lemma filter_all {A} (f : A → bool) l : forallb f l = true → List.filter f l = l.
Proof. induction l as [|x l IH]; simpl; [done|]. intros [-> Hl]%andb_true_iff. by rewrite IH. Qed.

Lemma forallb_perm {A} (f : A → bool) l l' : l ≡ₚ l' → forallb f l = forallb f l'.
Proof.
  induction 1 as [|x l l' _ IH|x y l|l1 l2 l3 _ IH1 _ IH2]; simpl; [done|by rewrite IH| |congruence].
  by rewrite !andb_assoc, (andb_comm (f x)).
Qed.

Lemma count_perm {A} (f : A → bool) l l' : l ≡ₚ l' → LocalScrape.count f l = LocalScrape.count f l'.
Proof.
  unfold LocalScrape.count. induction 1 as [|x l l' _ IH|x y l|l1 l2 l3 _ IH1 _ IH2]; simpl; [done|..|congruence].
  - destruct (f x); simpl; lia.
  - by destruct (f x), (f y).
Qed.

Lemma add_counts_perm f l l' : l ≡ₚ l' → add_counts f l = add_counts f l'.
Proof. intros Hl. unfold add_counts. by rewrite !(count_perm _ _ _ Hl). Qed.

Lemma none_expired h now l : forallb (live cfg now) (values h l) = true → List.filter (entry_expired cfg h now) l = [].
Proof.
  induction l as [|[k p] l IH]; [done|]. simpl. unfold entry_expired at 1. simpl. destruct (h !! p) as [x|]; [|done].
  simpl. intros Hl. apply andb_true_iff in Hl as [-> Hl]. by apply IH.
Qed.

Lemma scrape_answers now ih w :
  redis_Enable (Cache cfg) = false ∨ cached ih = None → separated_at w ih →
  forallb (live cfg now) (peers_of (torrent_of w ih)) = true →
  (Local.Scrape cfg now (cached ih) ih w).1 = (add_counts zeroScrape (peers_of (torrent_of w ih)), w).
Proof.
  intros Hc Hs Hl. destruct (sm_Load ih (infoHashMap w)) as [r|] eqn:Hr.
  - unfold torrent_of in *. rewrite Hr in Hl |- *. rewrite (Scrape_eq cfg now (cached ih) ih w r Hr Hc). cbn [fst].
    pose proof (values_table (peers w) (root_at w r) (Hs r Hr)) as Hv.
    rewrite <- (forallb_perm _ _ _ Hv) in Hl. rewrite (none_expired _ _ _ Hl). simpl. f_equal.
    unfold live_peers. rewrite (filter_all _ _ Hl). by apply add_counts_perm.
  - unfold Local.Scrape, torrent_of. by rewrite Hr.
Qed.

Lemma SkipMapToSlice_eq i : SkipMapToSlice i = (entries i).*2.
Proof.
  unfold SkipMapToSlice. rewrite root_Range_continue by done.
  assert (∀ (l : list (string * nat)) (a : list nat), fold_left (fun a e => (a ++ [e.2], true).1) l a = a ++ l.*2) as Hf.
  { induction l as [|[k p] l IH]; intros a; simpl; [by rewrite app_nil_r|]. rewrite IH. by rewrite <- app_assoc. }
  apply Hf.
Qed.

Lemma GetPeers_answers ih w :
  idle cfg w →
  answers (AnyOf (size (torrent_of w ih)) (peers_of (torrent_of w ih)))
    (ReplyPeers (res_map (read_peers w) (Local.GetPeers ih w))).
Proof.
  intros Hi. unfold Local.GetPeers, torrent_of. destruct (sm_Load ih (infoHashMap w)) as [r|] eqn:Hr.
  - simpl. unfold read_peers. rewrite SkipMapToSlice_eq, <- values_fmap.
    rewrite (values_table _ _ (idle_separated _ _ Hi ih r Hr)). split; [done|].
    unfold peers_of. rewrite length_fmap, length_map_to_list. lia.
  - simpl. split; [apply submseteq_nil_l|done].
Qed.

Lemma sim_announce now now' (req : AnnounceRequest) m R :
  sim m R → call_fits (CallAnnounce now now' req) R = true →
  answers (ref_announce now now' req R).1 (run_call (CallAnnounce now now' req) m).1 ∧
  sim (run_call (CallAnnounce now now' req) m).2 (ref_announce now now' req R).2.
Proof.
  intros Hs Hf. unfold run_call, ref_announce, Mux.HandleAnnouncePeer, call_fits in *.
  assert (check_bans req m = ref_check req R) as -> by (unfold ref_check, check_bans; by rewrite (sim_ban _ _ Hs)).
  destruct (sim_shard m R (req_InfoHash req) Hs) as (w & Hw & Hi & Hd & Ht).
  destruct (ref_check req R) as [e|].
  { split; [done|]. unfold settle. rewrite Hw, (run_all_done _ _ _ _ (idle_tasks _ _ Hi)). by rewrite (set_shard_same _ _ _ Hw). }
  destruct (settle_serve now now' req m w Hw) as [E1 E2].
  destruct (serve cfg now now' req m) as [r m']. cbn [fst snd] in *. subst r. rewrite E2. clear E2.
  destruct (invalid_address (peer_of_request now req)) eqn:Hx; cbn [orb] in Hf.
  { unfold Local.HandleAnnouncePeer, announce_begin. rewrite Hx. cbn [fst snd res_map]. split; [done|].
    rewrite (run_all_done _ _ _ _ (idle_tasks _ _ Hi)). by rewrite (set_shard_same _ _ _ Hw). }
  rewrite <- Ht in Hf |- *. cbn [fst snd]. split; [by apply announce_answers|].
  destruct (announce_idle cfg now now' req w Hi Hx Hf) as [Hi' Ht']. apply sim_set with w; [done..|].
  intros ih'. unfold dated_of. rewrite Ht', (announce_cleaned cfg now now' req w 4 ih' (idle_ok _ _ Hi) (idle_tasks _ _ Hi) Hx).
  case_decide as E; [|done]. subst ih'. by rewrite (f_equal snd Hd : cleaned_of w _ = ref_cleaned R !! _).
Qed.

Lemma sim_delete m R ih :
  sim m R → sim (Mux.DeleteInfoHash ih m).2 (ref_set ih (∅, None) R) ∧ (Mux.DeleteInfoHash ih m).1 = Ok tt.
Proof.
  intros Hs. destruct (sim_shard m R ih Hs) as (w & Hw & Hi & Hd & Ht). unfold Mux.DeleteInfoHash, on_shard. rewrite Hw. split; [|done].
  destruct (delete_idle cfg ih w Hi) as (Hi' & Ht' & Hc'). apply sim_set with w; [done..|].
  intros ih'. unfold dated_of. rewrite Ht', Hc'. by case_decide.
Qed.

Lemma sim_scrape now ih m R :
  redis_Enable (Cache cfg) = false ∨ (∀ ih, cached ih = None) → sim m R → call_fits (CallScrape now ih) R = true →
  Mux.Scrape cfg cached now ih m = (Ok (add_counts zeroScrape (peers_of (ref_torrent R ih))), m).
Proof.
  intros Hc Hs Hf. destruct (sim_shard m R ih Hs) as (w & Hw & Hi & Hd & Ht). simpl in Hf. rewrite <- Ht in Hf |- *.
  unfold Mux.Scrape, on_shard. rewrite Hw.
  pose proof (scrape_answers now ih w ltac:(naive_solver) (idle_separated _ _ Hi ih) Hf) as E.
  destruct (Local.Scrape cfg now (cached ih) ih w) as [[f w'] u]. simpl in E. injection E as -> ->.
  by rewrite (set_shard_same _ _ _ Hw).
Qed.

Lemma sim_call c m R :
  redis_Enable (Cache cfg) = false ∨ (∀ ih, cached ih = None) → sim m R → call_fits c R = true →
  answers (ref_call c R).1 (run_call c m).1 ∧ sim (run_call c m).2 (ref_call c R).2.
Proof.
  intros Hc Hs Hf. destruct c as [now now' req|now ih|ih|ih|o ih|o id| | |now]; cbn [run_call ref_call].
  - by apply sim_announce.
  - by rewrite (sim_scrape now ih m R Hc Hs Hf).
  - destruct (sim_shard m R ih Hs) as (w & Hw & Hi & Hd & Ht). split; [|done]. unfold Mux.GetPeers. rewrite Hw, <- Ht.
    by apply GetPeers_answers.
  - destruct (sim_delete m R ih Hs) as [Hd E]. destruct (Mux.DeleteInfoHash ih m) as [r m']. by simpl in E; subst r.
  - unfold Mux.BanInfoHash. rewrite <- (sim_ban _ _ Hs). destruct (Ban.AddBan o BanTypeInfoHash ih (ban m)) as [[[u|e] b]|]; simpl.
    + destruct (sim_delete _ _ ih (sim_set_ban b m R Hs)) as [Hd E]. unfold Mux.DeleteInfoHash in Hd, E.
      change (Local.DeleteInfoHash ih) with (Local.BanInfoHash (M := M) ih) in Hd, E.
      destruct (on_shard ih _ _) as [r m']. simpl in E, Hd. subst r. by destruct u.
    + split; [done|]. by apply sim_set_ban.
    + done.
  - unfold Mux.BanPeer. rewrite <- (sim_ban _ _ Hs). destruct (Ban.AddBan o BanTypePeerId id (ban m)) as [[[u|e] b]|]; simpl.
    + split; [done|]. by apply sim_set_ban.
    + split; [done|]. by apply sim_set_ban.
    + done.
  - split; [done|]. cbn [snd]. rewrite <- (sim_ban _ _ Hs). by apply sim_set_ban.
  - split; [done|]. cbn [snd]. rewrite <- (sim_ban _ _ Hs). by apply sim_set_ban.
  - split; [done|]. by apply sim_clean.
Qed.

Lemma sim_calls cs m R :
  redis_Enable (Cache cfg) = false ∨ (∀ ih, cached ih = None) → sim m R → calls_fit cs R = true →
  Forall2 answers (ref_calls cs R).1 (run_calls cs m).1 ∧ sim (run_calls cs m).2 (ref_calls cs R).2.
Proof.
  intros Hc. revert m R. induction cs as [|c cs IH]; intros m R Hs Hf; simpl in *; [by split; [constructor|]|].
  apply andb_true_iff in Hf as [Hf Hfs]. destruct (sim_call c m R Hc Hs Hf) as [Ha Hs'].
  destruct (run_call c m) as [r m']. destruct (ref_call c R) as [a R']. simpl in *.
  destruct (IH m' R' Hs' Hfs) as [Has Hs'']. destruct (run_calls cs m') as [rs m'']. destruct (ref_calls cs R') as [l R'']. simpl in *.
  split; [by constructor|done].
Qed.

(** C2: Equivalence with a reference. Whatever sequence of announces, scrapes,
    peer listings, deletions, bans and clean-ups a manager with any number of shards is
    given, with the goroutines of each announce run before the next call: its
    answers are those of a tracker that keeps one finite map from info hashes to
    tables of peers and the ban lists. A banned or malformed announce fails with
    the same message and changes nothing; an announce that is not leaving is
    handed as many of the wanted peers of the table as it asked for or there
    are; a scrape counts the table; a clean-up takes exactly the expired
    peers out of the torrents whose turn it is; and at the end every torrent's table, in the
    shard it is kept in, is the reference's. The torrent of each announce has no
    expired peer and is at most half full, that of each scrape no expired peer,
    no connection is open when torrents are cleaned up, and the scrape cache is
    off or empty. *)
Theorem tracker_reference num b cs :
  redis_Enable (Cache cfg) = false ∨ (∀ ih, cached ih = None) → 0 < num < 2 ^ 64 → calls_fit cs (ref_new b) = true →
  Forall2 answers (ref_calls cs (ref_new b)).1 (run_calls cs (NewMuxLocalManager num b)).1 ∧
  ban (run_calls cs (NewMuxLocalManager num b)).2 = ref_ban (ref_calls cs (ref_new b)).2 ∧
  ∀ ih, mux_torrent (run_calls cs (NewMuxLocalManager num b)).2 ih = ref_torrent (ref_calls cs (ref_new b)).2 ih.
Proof.
  intros Hc Hn Hf. destruct (sim_calls cs _ _ Hc (sim_new num b Hn) Hf) as [Ha Hs].
  split_and!; [done|apply Hs|]. intros ih. by apply sim_torrents.
Qed.
End Tracker.

(** A peer that expires and is cleaned up; two torrents; a peer that comes back
    completed, one that leaves, a ban. *)
Definition sample_announce (id ih event : string) (left : Z) : call :=
  CallAnnounce sample_time sample_time (sample_request id ih event Byte.x01 left 50).
Definition long_ago : Z := sample_time - 2000 * Second.
Definition sample_calls : list call :=
  [CallAnnounce long_ago long_ago (sample_request "O" hash_a "started" Byte.x01 7 50); CallClean sample_time;
   sample_announce "P" hash_a "started" 7; sample_announce "Q" hash_a "started" 7; sample_announce "R" hash_b "started" 0;
   sample_announce "P" hash_a "completed" 0; CallScrape sample_time hash_a; sample_announce "Q" hash_a "stopped" 7;
   CallGetPeers hash_a; CallBanInfoHash io_ok hash_b; sample_announce "R" hash_b "" 0].

Lemma tracker_reference_witness :
  ∃ p, mux_torrent (run_calls (sample_cfg 400) (fun _ => None) sample_calls sample_mux).2 hash_a = {["P"%string := p]} ∧
    Left p = 0 ∧
    mux_torrent (run_calls (sample_cfg 400) (fun _ => None) sample_calls sample_mux).2 hash_b = ∅ ∧
    (ref_calls (M := Skip) (sample_cfg 400) sample_calls (ref_new (ban sample_mux))).1 !! 6%nat = Some (Counts (mkScrapeFile 1 1 1 1)) ∧
    (ref_calls (M := Skip) (sample_cfg 400) sample_calls (ref_new (ban sample_mux))).1 !! 10%nat = Some (Fails "banned info_hash").
Proof.
  destruct (tracker_reference (M := Skip) (sample_cfg 400) (fun _ => None) 4 (ban sample_mux) sample_calls) as (_ & _ & Ht).
  - by right.
  - lia.
  - vm_compute. reflexivity.
  - exists (sample_peer "P" Byte.x01 PeerEvent_Completed 0 sample_time).
    split; [etransitivity; [exact (Ht hash_a)|vm_compute; reflexivity]|]. split; [reflexivity|].
    split; [etransitivity; [exact (Ht hash_b)|vm_compute; reflexivity]|]. split; vm_compute; reflexivity.
Defined.
