(* ===== verification/Udp.v ===== *)
(** The UDP tracker ([biz/services/udp_server]): parsing of announce packets,
    the handlers of the three actions, connection ids and their expiry.

    The peer manager behind the handlers is any [PeerManager]; the id generator
    is a parameter.  A handler returns [None] where the code would panic. *)
From Stdlib Require Import ZArith Lia Bool Strings.String.
From stdpp Require Import base strings list gmap.
From S2P Require Import Prelude GoStd Config Model Common Mapx Manager.
Set Default Proof Using "Type*".
Local Open Scope Z_scope.

(** ** [parse.go] *)
Definition ProtocolID : Z := 0x41727101980.
Definition ActionConnect : Z := 0.
Definition ActionAnnounce : Z := 1.
Definition ActionScrape : Z := 2.
Definition ActionError : Z := 3.

(** [binary.BigEndian.Uint16], [Uint32] and [Uint64] of the first bytes. *)
Definition Uint16 (b : bytes) : option Z := be_decode <$> go_slice 0 2 b.
Definition Uint32 (b : bytes) : option Z := be_decode <$> go_slice 0 4 b.
Definition Uint64 (b : bytes) : option Z := be_decode <$> go_slice 0 8 b.

(** The event: some clients leave it 0. *)
Definition packet_event (code : Z) : string :=
  let event := i8 code in
  PeerEvent_String (if event =? PeerEvent_Unknown then PeerEvent_Started else event).

Definition packet_request (infoHash peerID : bytes) (downloaded left uploaded event : Z) (ipv4 ipv6 : string)
    (numWant port : Z) : AnnounceRequest :=
  mkAnnounceRequest
    {| req_ClientIP := None; req_InfoHash := string_of_bytes infoHash; req_PeerID := string_of_bytes peerID;
       req_Event := packet_event event; req_UserAgent := ""; req_IP := ""; req_IPv4 := ipv4; req_IPv6 := ipv6;
       req_Port := port; req_Uploaded := i64 uploaded; req_Downloaded := i64 downloaded; req_Left := i64 left;
       req_NumWant := numWant; req_Type := 0; req_Compact := 0 |} 0 [] None.

Definition parseAnnounceRequestV4 (buf : bytes) : option AnnounceRequest :=
  infoHash ← go_slice 0 20 buf;
  peerID ← go_slice 20 40 buf;
  downloaded ← go_slice 40 48 buf ≫= Uint64;
  left ← go_slice 48 56 buf ≫= Uint64;
  uploaded ← go_slice 56 64 buf ≫= Uint64;
  event ← go_slice 64 68 buf ≫= Uint32;
  ip ← go_slice 68 72 buf;
  numWant ← go_slice 76 80 buf ≫= Uint32;
  port ← go_slice 80 82 buf ≫= Uint16;
  Some (packet_request infoHash peerID downloaded left uploaded event (IP_String (Some ip)) "" numWant port).

Definition parseAnnounceRequestV6 (buf : bytes) : option AnnounceRequest :=
  infoHash ← go_slice 0 20 buf;
  peerID ← go_slice 20 40 buf;
  downloaded ← go_slice 40 48 buf ≫= Uint64;
  left ← go_slice 48 56 buf ≫= Uint64;
  uploaded ← go_slice 56 64 buf ≫= Uint64;
  event ← go_slice 64 68 buf ≫= Uint32;
  ip ← go_slice 68 84 buf;
  numWant ← go_slice 88 92 buf ≫= Uint32;
  port ← go_slice 92 94 buf ≫= Uint16;
  Some (packet_request infoHash peerID downloaded left uploaded event "" (IP_String (Some ip)) numWant port).

Definition writeHeader (buf : bytes) (action tid : Z) : bytes := buf ++ be_encode 4 action ++ be_encode 4 tid.

(** ** Addresses: [net.UDPAddr] and its [String] *)
Record UDPAddr := mkUDPAddr { ua_IP : netIP; ua_Port : Z; ua_Zone : string }.

Definition JoinHostPort (host port : bytes) : bytes :=
  if existsb (Byte.eqb colon) host then ch "[" :: host ++ ch "]" :: colon :: port else host ++ colon :: port.
Definition UDPAddr_String (a : UDPAddr) : string :=
  let ip := if (ip_len (ua_IP a) =? 0)%nat then [] else IP_String_bytes (ua_IP a) in
  let host := if bool_decide (ua_Zone a = ""%string) then ip else ip ++ ch "%" :: bytes_of_string (ua_Zone a) in
  string_of_bytes (JoinHostPort host (Itoa_bytes (ua_Port a))).

(** ** [server.go] *)
Record connection := mkConnection { id : Z; remoteAddr : UDPAddr; time : Z }.
Definition UDPServer : Type := sync.Map Z connection.
Definition NewUDPServer : UDPServer := sync.NewSyncMap.

Definition IPv4zero : netIP := Some (v4InV6Prefix ++ replicate 4 Byte.x00).
Definition IPv6zero : netIP := Some (replicate 16 Byte.x00).

Definition set_http (f : HttpAnnounceRequest → HttpAnnounceRequest) (r : AnnounceRequest) : AnnounceRequest :=
  mkAnnounceRequest (f (req_http r)) (req_Source r) (req_Offers r) (req_Conn r).
Definition set_IPs (ipv4 ipv6 : string) : AnnounceRequest → AnnounceRequest :=
  set_http (fun r => mkHttpAnnounceRequest (req_ClientIP r) (req_InfoHash r) (req_PeerID r) (req_Event r)
    (req_UserAgent r) (req_IP r) ipv4 ipv6 (req_Port r) (req_Uploaded r) (req_Downloaded r) (req_Left r)
    (req_NumWant r) (req_Type r) (req_Compact r)).

(** ** [announce.go] *)

(** A client that does not announce its address gets the sender's. *)
Definition fill_IPv4 (remote : UDPAddr) (req : AnnounceRequest) : AnnounceRequest :=
  if bool_decide (req_IPv4 req = IP_String IPv4zero)
  then set_IPs (IP_String (ua_IP remote)) (req_IPv6 req) req else req.
Definition fill_IPv6 (remote : UDPAddr) (req : AnnounceRequest) : AnnounceRequest :=
  if bool_decide (req_IPv6 req = IP_String IPv6zero)
  then set_IPs (req_IPv4 req) (IP_String (ua_IP remote)) req else req.

(** The first part of [handleAnnounce]: the request and [isIPv6]. *)
Definition announce_request (remote : UDPAddr) (b : bytes) : option (result (AnnounceRequest * bool)) :=
  match To4 (ua_IP remote) with
  | Some _ =>
      if (length b <? 82)%nat then Some (Err "invalid announce request")
      else
        req ← parseAnnounceRequestV4 b;
        Some (Ok (fill_IPv4 remote req, false))
  | None =>
      if (length b <? 94)%nat then
        if (82 <=? length b)%nat then
          req ← parseAnnounceRequestV4 b;
          Some (Ok (set_IPs "" (IP_String (ua_IP remote)) req, true))
        else Some (Err "invalid announce request")
      else
        req ← parseAnnounceRequestV6 b;
        Some (Ok (fill_IPv6 remote req, true))
  end.

(** [ClientIP], [Type] and [Source]. *)
Definition from_udp (remote : UDPAddr) (r : AnnounceRequest) : AnnounceRequest :=
  mkAnnounceRequest
    (mkHttpAnnounceRequest (ua_IP remote) (req_InfoHash r) (req_PeerID r) (req_Event r) (req_UserAgent r)
       (req_IP r) (req_IPv4 r) (req_IPv6 r) (req_Port r) (req_Uploaded r) (req_Downloaded r) (req_Left r)
       (req_NumWant r) PeerTypeBittorrent (req_Compact r))
    SourceUDP (req_Offers r) (req_Conn r).

Section Server.
Context {S : Type} `{PeerManager S}.
Context (cfg : Config).
Notation useAnnounceIP := (UseAnnounceIP (Tracker cfg)).

(** One iteration of the loop over the peers. *)
Definition write_peer (isIPv6 : bool) (buf : bytes) (p : Peer) : bytes :=
  match (if isIPv6 then To16 (GetIP useAnnounceIP p) else To4 (GetIP useAnnounceIP p)) with
  | Some ip => buf ++ ip ++ be_encode 2 (u16 (Port p))
  | None => buf
  end.

(** [rnd] is [fastrand.Intn(201)].  The result is what is written to the
    connection, or the error; a failure of that write is only logged. *)
Definition handleAnnounce (now now' now'' rnd : Z) (remote : UDPAddr) (tid : Z) (b : bytes) (s : S)
  : option (result bytes * S) :=
  r ← announce_request remote b;
  match r with
  | Err e => Some (Err e, s)
  | Ok (req, isIPv6) =>
      let req := from_udp remote req in
      let '(res, s) := pm_HandleAnnouncePeer now now' req s in
      match res with
      | Err e => Some (Err e, s)
      | Ok res =>
          let '(scrape, s) := pm_Scrape now'' (req_InfoHash req) s in
          match scrape with
          | Err e => Some (Err e, s)
          | Ok scrape =>
              let buf := writeHeader [] ActionAnnounce tid in
              let buf := buf ++ be_encode 4 (u32 (i64 (TTL (Tracker cfg) + (rnd - 100)))) in
              let buf := buf ++ be_encode 4 (u32 (Incomplete scrape)) in
              let buf := buf ++ be_encode 4 (u32 (Seeder scrape)) in
              Some (Ok (fold_left (write_peer isIPv6) res buf), s)
          end
      end
  end.

(** The info hashes of a scrape: [for i := 20; i <= n; i += 20]. *)
Fixpoint scrape_hashes (fuel i : nat) (buf : bytes) : option (list string) :=
  match fuel with
  | O => Some []
  | Datatypes.S fuel =>
      if (i <=? length buf)%nat then
        hash ← go_slice (i - 20) i buf;
        hashes ← scrape_hashes fuel (i + 20) buf;
        Some (string_of_bytes hash :: hashes)
      else Some []
  end.

(** [clock n] is when the n-th scrape of the request reads the time. *)
Fixpoint scrape_each (clock : nat → Z) (n : nat) (hashes : list string) (res : bytes) (s : S) : result bytes * S :=
  match hashes with
  | [] => (Ok res, s)
  | hash :: hashes =>
      let '(scrape, s) := pm_Scrape (clock n) hash s in
      match scrape with
      | Err e => (Err e, s)
      | Ok scrape =>
          let res := res ++ be_encode 4 (u32 (Seeder scrape)) in
          let res := res ++ be_encode 4 (u32 (Complete scrape)) in
          let res := res ++ be_encode 4 (u32 (Incomplete scrape)) in
          scrape_each clock (Datatypes.S n) hashes res s
      end
  end.
Definition handleScrape (clock : nat → Z) (tid : Z) (buf : bytes) (s : S) : option (result bytes * S) :=
  hashes ← scrape_hashes (Datatypes.S (length buf)) 20 buf;
  Some (scrape_each clock 0 hashes (writeHeader [] ActionScrape tid) s).

(** ** [connect.go] *)

(** [newId] is what the generator gives; [werr] the outcome of the write. *)
Definition handleConnection (now : Z) (newId : result Z) (werr : option string) (remote : UDPAddr) (tid : Z)
    (srv : UDPServer) : result unit * list bytes * UDPServer :=
  match newId with
  | Err e => (Err e, [], srv)
  | Ok newId =>
      let cid := u64 newId in
      let srv := (sync.LoadOrStore cid (mkConnection cid remote now) srv).2 in
      let buf := writeHeader [] ActionConnect tid in
      let buf := buf ++ be_encode 8 cid in
      (match werr with Some e => Err e | None => Ok tt end, [buf], srv)
  end.

Definition connectionTimeout : Z := 2 * Minute.

Definition cleanConnection (t : Z) (srv : UDPServer) : UDPServer :=
  fold_left (fun srv e =>
    if Before (Add (time e.2) connectionTimeout) t then (sync.Delete e.1 srv).2 else srv)
    (sync.RangeEntries srv) srv.

Definition responseError (tid : Z) (reason : string) : bytes :=
  writeHeader [] ActionError tid ++ bytes_of_string reason.

(** What the outside gives one request: the clock and the random number. *)
Record world := mkWorld
  { w_now : Z; w_now' : Z; w_scrape : nat → Z; w_rnd : Z; w_newId : result Z; w_werr : option string }.

(** [next] is [conn.Next(-1)], [addr] is [conn.RemoteAddr()].  The result is the
    error returned, the datagrams written, the server and the manager. *)
Definition handleRequest (w : world) (addr : UDPAddr) (next : result bytes) (srv : UDPServer) (s : S)
  : option (result unit * list bytes * UDPServer * S) :=
  match next with
  | Err _ => Some (Err "invalid request", [], srv, s)
  | Ok headerBuf =>
      if (length headerBuf <? 16)%nat then Some (Err "invalid request", [], srv, s)
      else
        connectionID ← go_slice 0 8 headerBuf ≫= Uint64;
        action ← go_slice 8 12 headerBuf ≫= Uint32;
        transactionID ← go_slice 12 16 headerBuf ≫= Uint32;
        if (connectionID =? ProtocolID) && (action =? ActionConnect) then
          let '(r, out, srv) := handleConnection (w_now w) (w_newId w) (w_werr w) addr transactionID srv in
          Some (r, out, srv, s)
        else
          match sync.Load connectionID srv with
          | Some c =>
              if negb (bool_decide (UDPAddr_String (remoteAddr c) = UDPAddr_String addr))
              then Some (Ok tt, [responseError transactionID "connection mismatch"], srv, s)
              else
                body ← go_slice 16 (length headerBuf) headerBuf;
                '(r, s) ← (if action =? ActionAnnounce
                           then handleAnnounce (w_now w) (w_now' w) (w_scrape w 0%nat) (w_rnd w) addr transactionID body s
                           else if action =? ActionScrape
                           then handleScrape (w_scrape w) transactionID body s
                           else Some (Err "invalid action"%string, s));
                Some (Ok tt, [match r with Ok buf => buf | Err e => responseError transactionID e end], srv, s)
          | None => Some (Ok tt, [responseError transactionID "connection expired"], srv, s)
          end
  end.
End Server.
