(* ===== verification/UdpSpec.v ===== *)
(** What the UDP tracker guarantees: no datagram makes it panic, packets are
    read as BEP 15 lays them out, replies decode to what the manager answered,
    and only a client that has connected reaches the manager. *)
From Stdlib Require Import ZArith Lia Bool Strings.String.
From stdpp Require Import base strings list gmap relations.
From S2P Require Import Prelude GoStd Config Model Common Samples Mapx Local LocalInv LocalSafety BanItem IPFilter Ban Manager Mux MuxSpec Udp.
Set Default Proof Using "Type*".
Local Open Scope Z_scope.

(** ** Announce packets *)
Record announce_packet := mkPacket
  { pk_InfoHash : bytes; pk_PeerID : bytes; pk_Downloaded : Z; pk_Left : Z; pk_Uploaded : Z; pk_Event : Z;
    pk_IP : bytes; pk_Key : Z; pk_NumWant : Z; pk_Port : Z }.

(** The body of an announce packet, after the connection id, the action and the
    transaction id. *)
Definition encode_packet (p : announce_packet) : bytes :=
  pk_InfoHash p ++ pk_PeerID p ++ be_encode 8 (pk_Downloaded p) ++ be_encode 8 (pk_Left p) ++
  be_encode 8 (pk_Uploaded p) ++ be_encode 4 (pk_Event p) ++ pk_IP p ++ be_encode 4 (pk_Key p) ++
  be_encode 4 (pk_NumWant p) ++ be_encode 2 (pk_Port p).

Definition packet_ok (ip_size : nat) (p : announce_packet) : Prop :=
  length (pk_InfoHash p) = 20%nat ∧ length (pk_PeerID p) = 20%nat ∧ length (pk_IP p) = ip_size ∧
  0 ≤ pk_Downloaded p < 2 ^ 63 ∧ 0 ≤ pk_Left p < 2 ^ 63 ∧ 0 ≤ pk_Uploaded p < 2 ^ 63 ∧
  0 ≤ pk_Event p < 2 ^ 32 ∧ 0 ≤ pk_NumWant p < 2 ^ 32 ∧ 0 ≤ pk_Port p < 2 ^ 16.

(** What [parse.go] takes an event code for: its low byte in the order of
    [common.PeerEvent], and "started" for none.  (BEP 15, which the file quotes,
    has 1 completed, 2 started, 3 stopped: [udp_events_misread].) *)
Definition read_event (code : Z) : string :=
  match code mod 256 with
  | 0 | 1 => "started"
  | 2 => "stopped"
  | 3 => "completed"
  | _ => "unknown"
  end.
Definition bep15_event (code : Z) : string :=
  match code with 1 => "completed" | 2 => "started" | 3 => "stopped" | _ => "" end.

Lemma packet_event_read code : 0 ≤ code < 2 ^ 32 → packet_event code = read_event code.
Proof.
  intros _. unfold packet_event, read_event, i8. rewrite <- wrap_s_wrap_u by lia. unfold wrap_u. change (2 ^ 8) with 256.
  pose proof (Z.mod_pos_bound code 256 ltac:(lia)) as Hb. revert Hb. generalize (code mod 256) as m. intros m Hm.
  destruct (Z.ltb_spec m 128) as [Hl|Hl].
  - rewrite wrap_s_small by (change (2 ^ (8 - 1)) with 128; lia).
    unfold PeerEvent_String, PeerEvent_Unknown, PeerEvent_Started, PeerEvent_Stopped, PeerEvent_Completed.
    destruct (Z.eqb_spec m 0) as [->|H0]; [done|]. destruct (Z.eqb_spec m 1) as [->|H1]; [done|].
    destruct (Z.eqb_spec m 2) as [->|H2]; [done|]. destruct (Z.eqb_spec m 3) as [->|H3]; [done|].
    destruct m as [|[[?|?|]|[?|?|]|]|?]; done || lia.
  - assert (wrap_s 8 m = m - 256) as ->.
    { unfold wrap_s. change (2 ^ (8 - 1)) with 128. change (2 ^ 8) with 256.
      rewrite <- (Z.mod_add _ (-1)) by lia. rewrite Z.mod_small; lia. }
    unfold PeerEvent_String, PeerEvent_Unknown, PeerEvent_Started, PeerEvent_Stopped, PeerEvent_Completed.
    rewrite (proj2 (Z.eqb_neq (m - 256) 0)), (proj2 (Z.eqb_neq (m - 256) 1)), (proj2 (Z.eqb_neq (m - 256) 2)),
      (proj2 (Z.eqb_neq (m - 256) 3)) by lia.
    destruct m as [|[[?|?|]|[?|?|]|]|?]; done || lia.
Qed.

(** The request a packet stands for. *)
Definition request_of (ipv4 ipv6 : string) (p : announce_packet) : AnnounceRequest :=
  mkAnnounceRequest
    {| req_ClientIP := None; req_InfoHash := string_of_bytes (pk_InfoHash p);
       req_PeerID := string_of_bytes (pk_PeerID p); req_Event := read_event (pk_Event p);
       req_UserAgent := ""; req_IP := ""; req_IPv4 := ipv4; req_IPv6 := ipv6; req_Port := pk_Port p;
       req_Uploaded := pk_Uploaded p; req_Downloaded := pk_Downloaded p; req_Left := pk_Left p;
       req_NumWant := pk_NumWant p; req_Type := 0; req_Compact := 0 |} 0 [] None.

Lemma read_encode n z :
  0 ≤ z < 2 ^ (8 * Z.of_nat n) → be_decode <$> go_slice 0 n (be_encode n z) = Some z.
Proof.
  intros Hz. rewrite <- (app_nil_r (be_encode n z)), go_slice_prefix by apply length_be_encode.
  cbn [fmap option_fmap option_map]. f_equal. by apply be_decode_encode_small.
Qed.

Lemma go_slice_at {A} (front x tail : list A) l i j :
  l = front ++ x ++ tail → length front = i → (i + length x = j)%nat → go_slice i j l = Some x.
Proof. intros -> ? ?. apply go_slice_mid; lia. Qed.

(** Locate a field behind the given ones. *)
Ltac field_at front :=
  eapply (go_slice_at front);
  [rewrite <- ?app_assoc; reflexivity|rewrite ?length_app, ?length_be_encode; simpl; lia|rewrite ?length_be_encode; lia].

(** Where each field of a packet is. *)
Lemma packet_fields k p rest :
  packet_ok k p →
  let b := encode_packet p ++ rest in
  go_slice 0 20 b = Some (pk_InfoHash p) ∧ go_slice 20 40 b = Some (pk_PeerID p) ∧
  go_slice 40 48 b = Some (be_encode 8 (pk_Downloaded p)) ∧ go_slice 48 56 b = Some (be_encode 8 (pk_Left p)) ∧
  go_slice 56 64 b = Some (be_encode 8 (pk_Uploaded p)) ∧ go_slice 64 68 b = Some (be_encode 4 (pk_Event p)) ∧
  go_slice 68 (68 + k) b = Some (pk_IP p) ∧
  go_slice (72 + k) (76 + k) b = Some (be_encode 4 (pk_NumWant p)) ∧
  go_slice (76 + k) (78 + k) b = Some (be_encode 2 (pk_Port p)).
Proof.
  intros (Hh & Hi & Hip & _). cbv zeta. unfold encode_packet. destruct p as [h i d l u e ip key nw port].
  cbn [pk_InfoHash pk_PeerID pk_Downloaded pk_Left pk_Uploaded pk_Event pk_IP pk_Key pk_NumWant pk_Port] in *. rewrite <- !app_assoc. split_and!.
  - field_at (@nil Byte.byte).
  - field_at h.
  - field_at (h ++ i).
  - field_at (h ++ i ++ be_encode 8 d).
  - field_at (h ++ i ++ be_encode 8 d ++ be_encode 8 l).
  - field_at (h ++ i ++ be_encode 8 d ++ be_encode 8 l ++ be_encode 8 u).
  - field_at (h ++ i ++ be_encode 8 d ++ be_encode 8 l ++ be_encode 8 u ++ be_encode 4 e).
  - field_at (h ++ i ++ be_encode 8 d ++ be_encode 8 l ++ be_encode 8 u ++ be_encode 4 e ++ ip ++ be_encode 4 key).
  - field_at (h ++ i ++ be_encode 8 d ++ be_encode 8 l ++ be_encode 8 u ++ be_encode 4 e ++ ip ++ be_encode 4 key ++
      be_encode 4 nw).
Qed.

Lemma i64_small z : 0 ≤ z < 2 ^ 63 → i64 z = z.
Proof. intros. apply wrap_s_small; lia. Qed.

Lemma length_packet k p : packet_ok k p → length (encode_packet p) = (78 + k)%nat.
Proof.
  intros (Hh & Hi & Hip & _). unfold encode_packet. rewrite !length_app, !length_be_encode. lia.
Qed.

Lemma parseAnnounceRequestV4_encode p rest :
  packet_ok 4 p → parseAnnounceRequestV4 (encode_packet p ++ rest) = Some (request_of (IP_String (Some (pk_IP p))) "" p).
Proof.
  intros Hp. destruct (packet_fields 4 p rest Hp) as (E1 & E2 & E3 & E4 & E5 & E6 & E7 & E8 & E9).
  destruct Hp as (_ & _ & _ & Hd & Hl & Hu & He & Hn & Ho). unfold parseAnnounceRequestV4.
  cbn [Nat.add] in E7, E8, E9. rewrite E1, E2, E3, E4, E5, E6, E7, E8, E9. cbn [mbind option_bind].
  unfold Uint64, Uint32, Uint16. rewrite !read_encode by (cbn; lia). cbn [mbind option_bind].
  unfold packet_request. by rewrite !i64_small, packet_event_read by lia.
Qed.

Lemma parseAnnounceRequestV6_encode p rest :
  packet_ok 16 p → parseAnnounceRequestV6 (encode_packet p ++ rest) = Some (request_of "" (IP_String (Some (pk_IP p))) p).
Proof.
  intros Hp. destruct (packet_fields 16 p rest Hp) as (E1 & E2 & E3 & E4 & E5 & E6 & E7 & E8 & E9).
  destruct Hp as (_ & _ & _ & Hd & Hl & Hu & He & Hn & Ho). unfold parseAnnounceRequestV6.
  cbn [Nat.add] in E7, E8, E9. rewrite E1, E2, E3, E4, E5, E6, E7, E8, E9. cbn [mbind option_bind].
  unfold Uint64, Uint32, Uint16. rewrite !read_encode by (cbn; lia). cbn [mbind option_bind].
  unfold packet_request. by rewrite !i64_small, packet_event_read by lia.
Qed.

(** The address to record: the announced one, or the sender's for the zero address. *)
Definition announced (zero : netIP) (remote : UDPAddr) (ip : bytes) : string :=
  if bool_decide (IP_String (Some ip) = IP_String zero) then IP_String (ua_IP remote) else IP_String (Some ip).

(** C37: What is read of an announce packet laid out as [parse.go] quotes BEP 15,
    whatever follows it: the info hash, the peer id, the three counters and the
    port are the packet's; the number of peers wanted is read without sign (-1 is
    4294967295); the event code is not read as BEP 15 has it but in the order of
    [common.PeerEvent], so that none of 1, 2 and 3 is what the client means.  From
    an IPv4 sender the packet has a four-byte address, from an IPv6 sender a
    sixteen-byte one; an address of zero stands for the sender's.  An IPv6
    sender that sends the IPv4 layout (with no more than eleven bytes after it)
    is recorded under its own address. *)
Theorem announce_packet_read remote p rest :
  (To4 (ua_IP remote) ≠ None → packet_ok 4 p →
     announce_request remote (encode_packet p ++ rest)
     = Some (Ok (request_of (announced IPv4zero remote (pk_IP p)) "" p, false))) ∧
  (To4 (ua_IP remote) = None → packet_ok 16 p →
     announce_request remote (encode_packet p ++ rest)
     = Some (Ok (request_of "" (announced IPv6zero remote (pk_IP p)) p, true))) ∧
  (To4 (ua_IP remote) = None → packet_ok 4 p → (length rest < 12)%nat →
     announce_request remote (encode_packet p ++ rest)
     = Some (Ok (request_of "" (IP_String (ua_IP remote)) p, true))) ∧
  (pk_Event p ∈ [1; 2; 3] → read_event (pk_Event p) ≠ bep15_event (pk_Event p)).
Proof.
  split_and!; [..|rewrite !elem_of_cons, elem_of_nil; by intros [->|[->|[->|[]]]]];
    unfold announce_request; intros Hr Hp; [| |intros Hrest].
  - destruct (To4 (ua_IP remote)) as [r|]; [|done].
    rewrite (proj2 (Nat.ltb_ge _ _)) by (rewrite length_app, (length_packet 4 p Hp); lia).
    rewrite parseAnnounceRequestV4_encode by done. cbn [mbind option_bind].
    unfold fill_IPv4, announced. cbn [req_IPv4 request_of req_http]. by case_bool_decide.
  - rewrite Hr.
    rewrite (proj2 (Nat.ltb_ge _ _)) by (rewrite length_app, (length_packet 16 p Hp); lia).
    rewrite parseAnnounceRequestV6_encode by done. cbn [mbind option_bind].
    unfold fill_IPv6, announced. cbn [req_IPv6 request_of req_http]. by case_bool_decide.
  - rewrite Hr. rewrite (proj2 (Nat.ltb_lt _ _)) by (rewrite length_app, (length_packet 4 p Hp); lia).
    rewrite (proj2 (Nat.leb_le _ _)) by (rewrite length_app, (length_packet 4 p Hp); lia).
    by rewrite parseAnnounceRequestV4_encode.
Qed.

(** ** No panic *)
Lemma read_Some n i j (b : bytes) :
  (i + n = j)%nat → (j ≤ length b)%nat →
  be_decode <$> go_slice 0 n (take (j - i) (drop i b)) = Some (be_decode (take (j - i) (drop i b))).
Proof.
  intros <- Hj. rewrite go_slice_Some by (rewrite ?length_take, ?length_drop; lia).
  rewrite drop_0, take_take. by replace ((n - 0) `min` (i + n - i))%nat with (i + n - i)%nat by lia.
Qed.

(** Reads within the bounds of the buffer. *)
Ltac reads :=
  rewrite ?go_slice_Some by lia; cbn [mbind option_bind];
  unfold Uint64, Uint32, Uint16; rewrite ?read_Some by lia; cbn [mbind option_bind].

Lemma parseAnnounceRequestV4_total b : (82 ≤ length b)%nat → is_Some (parseAnnounceRequestV4 b).
Proof. intros Hb. unfold parseAnnounceRequestV4. reads. by eexists. Qed.
Lemma parseAnnounceRequestV6_total b : (94 ≤ length b)%nat → is_Some (parseAnnounceRequestV6 b).
Proof. intros Hb. unfold parseAnnounceRequestV6. reads. by eexists. Qed.

Lemma announce_request_total remote b : is_Some (announce_request remote b).
Proof.
  unfold announce_request. destruct (To4 (ua_IP remote)).
  - destruct (Nat.ltb_spec (length b) 82); [by eexists|].
    destruct (parseAnnounceRequestV4_total b) as [r ->]; [done|]. by eexists.
  - destruct (Nat.ltb_spec (length b) 94).
    + destruct (Nat.leb_spec 82 (length b)); [|by eexists].
      destruct (parseAnnounceRequestV4_total b) as [r ->]; [done|]. by eexists.
    + destruct (parseAnnounceRequestV6_total b) as [r ->]; [done|]. by eexists.
Qed.

(** The info hashes a scrape packet asks about. *)
Fixpoint chunks (fuel : nat) (b : bytes) : list string :=
  match fuel with
  | O => []
  | S fuel => if (20 <=? length b)%nat then string_of_bytes (take 20 b) :: chunks fuel (drop 20 b) else []
  end.

Lemma scrape_hashes_chunks fuel front b :
  scrape_hashes fuel (length front + 20) (front ++ b) = Some (chunks fuel b).
Proof.
  revert front b. induction fuel as [|fuel IH]; intros front b; [done|]. cbn [scrape_hashes chunks].
  rewrite length_app. destruct (Nat.leb_spec 20 (length b)).
  - rewrite (proj2 (Nat.leb_le _ _)) by lia. rewrite go_slice_app_skip by lia.
    replace (length front + 20 - 20 - length front)%nat with 0%nat by lia.
    replace (length front + 20 - length front)%nat with 20%nat by lia.
    rewrite go_slice_Some by lia. rewrite drop_0. cbn [mbind option_bind].
    replace (front ++ b) with ((front ++ take 20 b) ++ drop 20 b) by by rewrite <- app_assoc, take_drop.
    replace (length front + 20 + 20)%nat with (length (front ++ take 20 b) + 20)%nat
      by (rewrite length_app, length_take; lia).
    by rewrite IH.
  - by rewrite (proj2 (Nat.leb_gt _ _)) by lia.
Qed.

Lemma scrape_hashes_total b : scrape_hashes (S (length b)) 20 b = Some (chunks (S (length b)) b).
Proof. apply (scrape_hashes_chunks _ []). Qed.

(** ** Replies *)

(** The endpoint a peer is listed under for a client of the given family. *)
Definition endpoint (isIPv6 useAnnounceIP : bool) (p : Peer) : option (bytes * Z) :=
  (fun ip => (ip, u16 (Port p))) <$> (if isIPv6 then To16 (GetIP useAnnounceIP p) else To4 (GetIP useAnnounceIP p)).

Record announce_reply := mkReply
  { rp_action : Z; rp_tid : Z; rp_interval : Z; rp_leechers : Z; rp_seeders : Z; rp_peers : list (bytes * Z) }.

(** How a BEP 15 client reads an announce reply with addresses of [k] bytes. *)
Definition read_announce (k : nat) (b : bytes) : option announce_reply :=
  action ← be_decode <$> go_slice 0 4 b;
  tid ← be_decode <$> go_slice 4 8 b;
  interval ← be_decode <$> go_slice 8 12 b;
  leechers ← be_decode <$> go_slice 12 16 b;
  seeders ← be_decode <$> go_slice 16 20 b;
  peers ← read_compact (length b) k (drop 20 b);
  Some (mkReply action tid interval leechers seeders peers).

(** The three numbers of a scraped torrent: seeders, completed, leechers. *)
Fixpoint read_triples (fuel : nat) (b : bytes) : option (list (Z * Z * Z)) :=
  match fuel with
  | O => if decide (b = []) then Some [] else None
  | S fuel =>
      if decide (b = []) then Some []
      else
        x ← be_decode <$> go_slice 0 4 b;
        y ← be_decode <$> go_slice 4 8 b;
        z ← be_decode <$> go_slice 8 12 b;
        l ← read_triples fuel (drop 12 b);
        Some ((x, y, z) :: l)
  end.
Definition read_scrape (b : bytes) : option (Z * Z * list (Z * Z * Z)) :=
  action ← be_decode <$> go_slice 0 4 b;
  tid ← be_decode <$> go_slice 4 8 b;
  l ← read_triples (length b) (drop 8 b);
  Some (action, tid, l).

Lemma u32_range z : 0 ≤ u32 z < 2 ^ 32.
Proof. by apply wrap_u_range. Qed.

Lemma endpoint_ok (v6 : bool) u ps :
  Forall (fun e : bytes * Z => length e.1 = (if v6 then 16 else 4)%nat ∧ 0 ≤ e.2 < 65536) (omap (endpoint v6 u) ps).
Proof.
  apply Forall_forall. intros e He. apply list_elem_of_omap in He as (p & _ & He).
  unfold endpoint in He. assert (0 ≤ u16 (Port p) < 65536) by by apply (wrap_u_range 16).
  destruct v6; [destruct (To16 (GetIP u p)) eqn:E|destruct (To4 (GetIP u p)) eqn:E]; [|done| |done];
    apply (inj Some) in He as <-; (split; [|done]); simpl.
  - by eapply To16_Some.
  - by eapply To4_length.
Qed.

Lemma write_peers (v6 : bool) cfg ps buf :
  fold_left (write_peer cfg v6) ps buf = buf ++ flat_map record_of (omap (endpoint v6 (UseAnnounceIP (Tracker cfg))) ps).
Proof.
  revert buf. induction ps as [|p ps IH]; intros buf; cbn [fold_left]; [by rewrite app_nil_r|].
  rewrite IH. csimpl. unfold write_peer, endpoint at 2.
  destruct (if v6 then To16 (GetIP _ p) else To4 (GetIP _ p)) as [ip|]; csimpl; [|done].
  unfold record_of at 2. simpl. by rewrite <- !app_assoc.
Qed.

Lemma read_announce_written (v6 : bool) u tid interval leechers seeders ps :
  0 ≤ tid < 2 ^ 32 → 0 ≤ interval < 2 ^ 32 → 0 ≤ leechers < 2 ^ 32 → 0 ≤ seeders < 2 ^ 32 →
  read_announce (if v6 then 16 else 4)
    ((((writeHeader [] ActionAnnounce tid ++ be_encode 4 interval) ++ be_encode 4 leechers) ++ be_encode 4 seeders)
       ++ flat_map record_of (omap (endpoint v6 u) ps))
  = Some (mkReply ActionAnnounce tid interval leechers seeders (omap (endpoint v6 u) ps)).
Proof.
  intros Ht Hi Hl Hs. unfold writeHeader. rewrite app_nil_l, <- !app_assoc. unfold read_announce.
  set (peers := flat_map _ _).
  assert (0 ≤ ActionAnnounce < 2 ^ 32) as Ha by by vm_compute.
  do 5 (first [rewrite go_slice_prefix by apply length_be_encode
    |rewrite !go_slice_app_skip by (rewrite ?length_be_encode; lia); rewrite !length_be_encode; cbn [Nat.sub];
     rewrite go_slice_prefix by apply length_be_encode];
    cbn [fmap option_fmap option_map]; rewrite be_decode_encode_small by (cbn; lia); cbn [mbind option_bind]).
  rewrite !drop_app_ge by (rewrite ?length_be_encode; lia). rewrite !length_be_encode. cbn [Nat.sub]. rewrite drop_0.
  unfold peers. rewrite read_compact_records; [done|apply endpoint_ok|].
  rewrite !length_app, (length_records _ _ (endpoint_ok v6 u ps)). destruct v6; lia.
Qed.

Definition triple_of (f : ScrapeFile) : Z * Z * Z := (u32 (Seeder f), u32 (Complete f), u32 (Incomplete f)).
Definition write_triple (f : ScrapeFile) : bytes :=
  be_encode 4 (u32 (Seeder f)) ++ be_encode 4 (u32 (Complete f)) ++ be_encode 4 (u32 (Incomplete f)).

Lemma read_triples_written fs fuel :
  (length fs ≤ fuel)%nat → read_triples fuel (flat_map write_triple fs) = Some (map triple_of fs).
Proof.
  revert fuel. induction fs as [|f fs IH]; intros fuel Hf; [by destruct fuel|].
  destruct fuel as [|fuel]; [simpl in Hf; lia|]. simpl in Hf. cbn [flat_map map read_triples].
  set (X := flat_map write_triple fs). unfold write_triple. rewrite <- !app_assoc.
  rewrite decide_False by (intros E; apply (f_equal length) in E; rewrite !length_app, !length_be_encode in E; simpl in E; lia).
  do 3 (first [rewrite go_slice_prefix by apply length_be_encode
    |rewrite !go_slice_app_skip by (rewrite ?length_be_encode; lia); rewrite !length_be_encode; cbn [Nat.sub];
     rewrite go_slice_prefix by apply length_be_encode];
    cbn [fmap option_fmap option_map]; rewrite be_decode_encode_small by apply u32_range; cbn [mbind option_bind]).
  rewrite !drop_app_ge by (rewrite ?length_be_encode; lia). rewrite !length_be_encode. cbn [Nat.sub]. rewrite drop_0.
  unfold X. by rewrite IH by lia.
Qed.

Section Handlers.
Context {S : Type} `{PeerManager S}.
Context (cfg : Config).
Notation useAnnounceIP := (UseAnnounceIP (Tracker cfg)).

Lemma announce_decoded now now' now'' rnd remote tid b s :
  0 ≤ tid < 2 ^ 32 →
  ∃ r s', handleAnnounce cfg now now' now'' rnd remote tid b s = Some (r, s') ∧
  match announce_request remote b with
  | None => False
  | Some (Err e) => r = Err e ∧ s' = s
  | Some (Ok (req, isIPv6)) =>
      match pm_HandleAnnouncePeer now now' (from_udp remote req) s with
      | (Err e, s1) => r = Err e ∧ s' = s1
      | (Ok peers, s1) =>
          match pm_Scrape now'' (req_InfoHash req) s1 with
          | (Err e, s2) => r = Err e ∧ s' = s2
          | (Ok scrape, s2) =>
              s' = s2 ∧ ∃ buf, r = Ok buf ∧
              read_announce (if isIPv6 then 16 else 4) buf
              = Some (mkReply ActionAnnounce tid (u32 (i64 (TTL (Tracker cfg) + (rnd - 100))))
                        (u32 (Incomplete scrape)) (u32 (Seeder scrape)) (omap (endpoint isIPv6 useAnnounceIP) peers))
          end
      end
  end.
Proof.
  intros Ht. unfold handleAnnounce. destruct (announce_request_total remote b) as [[[req v6]|e] ->]; cbn [mbind option_bind];
    [|by eexists _, _].
  destruct (pm_HandleAnnouncePeer _ _ _ _) as [[peers|e] s1]; [|by eexists _, _].
  change (req_InfoHash (from_udp remote req)) with (req_InfoHash req).
  destruct (pm_Scrape _ _ _) as [[scrape|e] s2]; [|by eexists _, _].
  eexists _, _. split; [reflexivity|]. split; [done|]. eexists. split; [reflexivity|].
  rewrite write_peers. by apply read_announce_written; [|apply u32_range..].
Qed.

(** C18: An announce is handled without a panic, and the manager's answer is what
    the client reads: a malformed packet is refused with the manager untouched;
    the manager's refusal is passed on; otherwise the reply decodes to the
    transaction id, an interval within 100 of the TTL, the leechers and seeders
    of the scrape made right after, and the endpoints of the peers the manager
    returned, with four- or sixteen-byte addresses as the client's own. *)
Theorem announce_reply_decodes now now' now'' rnd remote tid b s :
  0 ≤ tid < 2 ^ 32 →
  ∃ r s', handleAnnounce cfg now now' now'' rnd remote tid b s = Some (r, s') ∧
  match announce_request remote b with
  | None => False
  | Some (Err e) => r = Err e ∧ s' = s
  | Some (Ok (req, isIPv6)) =>
      match pm_HandleAnnouncePeer now now' (from_udp remote req) s with
      | (Err e, s1) => r = Err e ∧ s' = s1
      | (Ok peers, s1) =>
          match pm_Scrape now'' (req_InfoHash req) s1 with
          | (Err e, s2) => r = Err e ∧ s' = s2
          | (Ok scrape, s2) =>
              s' = s2 ∧ ∃ buf, r = Ok buf ∧
              read_announce (if isIPv6 then 16 else 4) buf
              = Some (mkReply ActionAnnounce tid (u32 (i64 (TTL (Tracker cfg) + (rnd - 100))))
                        (u32 (Incomplete scrape)) (u32 (Seeder scrape)) (omap (endpoint isIPv6 useAnnounceIP) peers))
          end
      end
  end.
Proof. apply announce_decoded. Qed.

(** The answers of the manager to a list of scrapes, in order. *)
Fixpoint scrape_list (clock : nat → Z) (n : nat) (hashes : list string) (s : S) : result (list ScrapeFile) * S :=
  match hashes with
  | [] => (Ok [], s)
  | hash :: hashes =>
      match pm_Scrape (clock n) hash s with
      | (Err e, s) => (Err e, s)
      | (Ok f, s) =>
          match scrape_list clock (Datatypes.S n) hashes s with
          | (Ok fs, s) => (Ok (f :: fs), s)
          | (Err e, s) => (Err e, s)
          end
      end
  end.

Lemma scrape_each_list clock n hashes res s :
  scrape_each clock n hashes res s
  = match scrape_list clock n hashes s with
    | (Ok fs, s) => (Ok (res ++ flat_map write_triple fs), s)
    | (Err e, s) => (Err e, s)
    end.
Proof.
  revert n res s. induction hashes as [|h hs IH]; intros n res s; cbn [scrape_each scrape_list].
  { by rewrite app_nil_r. }
  destruct (pm_Scrape (clock n) h s) as [[f|e] s1]; [|done]. rewrite IH.
  destruct (scrape_list clock (Datatypes.S n) hs s1) as [[fs|e] s2]; [|done].
  cbn [flat_map]. unfold write_triple at 2. by rewrite <- !app_assoc.
Qed.

Lemma scrape_list_length clock n hashes s fs s' :
  scrape_list clock n hashes s = (Ok fs, s') → length fs = length hashes.
Proof.
  revert n s fs s'. induction hashes as [|h hs IH]; intros n s fs s'; cbn [scrape_list]; [by intros [= <- _]|].
  destruct (pm_Scrape (clock n) h s) as [[f|e] s1]; [|done].
  destruct (scrape_list clock (Datatypes.S n) hs s1) as [[fs'|e] s2] eqn:E; [|done].
  intros [= <- _]. cbn [length]. by erewrite IH.
Qed.

(** A scrape is handled without a panic: it asks the manager about each whole
    20-byte info hash of the packet in order, and the reply decodes to the
    transaction id and one (seeders, completed, leechers) triple per info hash in
    that order; the first refusal of the manager is passed on instead. *)
Theorem scrape_reply_decodes clock tid b s :
  0 ≤ tid < 2 ^ 32 →
  ∃ r s', handleScrape clock tid b s = Some (r, s') ∧
  match scrape_list clock 0 (chunks (Datatypes.S (length b)) b) s with
  | (Err e, s1) => r = Err e ∧ s' = s1
  | (Ok fs, s1) => s' = s1 ∧ ∃ buf, r = Ok buf ∧ read_scrape buf = Some (ActionScrape, tid, map triple_of fs)
  end.
Proof.
  intros Ht. unfold handleScrape. rewrite scrape_hashes_total. cbn [mbind option_bind].
  rewrite scrape_each_list. destruct (scrape_list _ _ _ _) as [[fs|e] s1]; [|by eexists _, _].
  eexists _, _. split; [reflexivity|]. split; [done|]. eexists. split; [reflexivity|].
  unfold writeHeader, read_scrape. rewrite app_nil_l, <- !app_assoc.
  rewrite go_slice_prefix by apply length_be_encode.
  rewrite go_slice_app_skip by (rewrite ?length_be_encode; lia). rewrite length_be_encode. cbn [Nat.sub].
  rewrite go_slice_prefix by apply length_be_encode.
  cbn [fmap option_fmap option_map]. rewrite !be_decode_encode_small by (cbn; lia || by vm_compute).
  cbn [mbind option_bind].
  rewrite !drop_app_ge by (rewrite ?length_be_encode; lia). rewrite !length_be_encode. cbn [Nat.sub]. rewrite drop_0.
  rewrite read_triples_written; [done|]. rewrite !length_app, !length_be_encode.
  enough (length fs ≤ length (flat_map write_triple fs))%nat by lia.
  clear. induction fs as [|f fs IH]; [done|]. cbn [flat_map length]. unfold write_triple at 1.
  rewrite !length_app, !length_be_encode. lia.
Qed.

(** ** Dispatch *)

(** The header of a datagram. *)
Definition header (b : bytes) : Z * Z * Z := (be_decode (take 8 b), be_decode (take 4 (drop 8 b)), be_decode (take 4 (drop 12 b))).

(** [handleRequest] with the header read. *)
Lemma handleRequest_header w addr b srv s :
  (16 ≤ length b)%nat →
  let '(connectionID, action, transactionID) := header b in
  handleRequest cfg w addr (Ok b) srv s =
  if (connectionID =? ProtocolID) && (action =? ActionConnect) then
    let '(r, out, srv) := handleConnection (w_now w) (w_newId w) (w_werr w) addr transactionID srv in
    Some (r, out, srv, s)
  else
    match sync.Load connectionID srv with
    | Some c =>
        if negb (bool_decide (UDPAddr_String (remoteAddr c) = UDPAddr_String addr))
        then Some (Ok tt, [responseError transactionID "connection mismatch"], srv, s)
        else
          '(r, s) ← (if action =? ActionAnnounce
                     then handleAnnounce cfg (w_now w) (w_now' w) (w_scrape w 0%nat) (w_rnd w) addr transactionID (drop 16 b) s
                     else if action =? ActionScrape
                     then handleScrape (w_scrape w) transactionID (drop 16 b) s
                     else Some (Err "invalid action"%string, s));
          Some (Ok tt, [match r with Ok buf => buf | Err e => responseError transactionID e end], srv, s)
    | None => Some (Ok tt, [responseError transactionID "connection expired"], srv, s)
    end.
Proof.
  intros Hb. unfold header, handleRequest. rewrite (proj2 (Nat.ltb_ge _ _)) by lia.
  rewrite (go_slice_Some 16 (length b)) by lia. rewrite (take_ge (drop 16 b)) by (rewrite length_drop; lia).
  rewrite !go_slice_Some by lia. cbn [mbind option_bind].
  unfold Uint64, Uint32. rewrite !read_Some by lia. cbn [mbind option_bind]. by rewrite drop_0.
Qed.

Lemma tid_range b : (16 ≤ length b)%nat → 0 ≤ (header b).2 < 2 ^ 32.
Proof.
  intros Hb. cbn [snd header]. pose proof (be_decode_range (take 4 (drop 12 b))) as Hr.
  by rewrite length_take, length_drop, Nat.min_l in Hr by lia.
Qed.

(** A reply that starts with the action and the transaction id. *)
Definition replies (action tid : Z) (out : bytes) : Prop := ∃ rest, out = be_encode 4 action ++ be_encode 4 tid ++ rest.

Lemma replies_write action tid rest : replies action tid (writeHeader [] action tid ++ rest).
Proof. exists rest. unfold writeHeader. by rewrite app_nil_l, <- app_assoc. Qed.

Lemma handleAnnounce_replies now now' now'' rnd remote tid b s :
  ∃ r s', handleAnnounce cfg now now' now'' rnd remote tid b s = Some (r, s') ∧
    ∀ buf, r = Ok buf → replies ActionAnnounce tid buf.
Proof.
  unfold handleAnnounce. destruct (announce_request_total remote b) as [[[req v6]|e] ->]; cbn [mbind option_bind];
    [|eexists _, _; split; done].
  destruct (pm_HandleAnnouncePeer _ _ _ _) as [[peers|e] s1]; [|eexists _, _; split; done].
  destruct (pm_Scrape _ _ _) as [[scrape|e] s2]; [|eexists _, _; split; done].
  eexists _, _. split; [reflexivity|]. intros buf Hbuf. apply (inj Ok) in Hbuf as <-. rewrite write_peers, <- !app_assoc.
  rewrite app_assoc. apply replies_write.
Qed.

Lemma handleScrape_replies clock tid b s :
  ∃ r s', handleScrape clock tid b s = Some (r, s') ∧ ∀ buf, r = Ok buf → replies ActionScrape tid buf.
Proof.
  unfold handleScrape. rewrite scrape_hashes_total. cbn [mbind option_bind].
  rewrite scrape_each_list. destruct (scrape_list _ _ _ _) as [[fs|e] s1]; [|eexists _, _; split; done].
  eexists _, _. split; [reflexivity|]. intros buf Hbuf. apply (inj Ok) in Hbuf as <-. apply replies_write.
Qed.

Definition is_connect (b : bytes) : bool := let '(cid, action, _) := header b in (cid =? ProtocolID) && (action =? ActionConnect).

(** What a datagram is answered with. *)
Lemma request_answered w addr b srv s :
  ∃ r out srv' s', handleRequest cfg w addr (Ok b) srv s = Some (r, out, srv', s') ∧
  if (length b <? 16)%nat then r = Err "invalid request"%string ∧ out = [] ∧ srv' = srv ∧ s' = s
  else
    let '(cid, action, tid) := header b in
    if is_connect b then
      s' = s ∧
      match w_newId w with
      | Err e => r = Err e ∧ out = [] ∧ srv' = srv
      | Ok n => out = [be_encode 4 ActionConnect ++ be_encode 4 tid ++ be_encode 8 (u64 n)]
      end
    else r = Ok tt ∧ srv' = srv ∧
      ∃ a m, out = [m] ∧ replies a tid m ∧ (a = ActionError ∨ a = action).
Proof.
  destruct (Nat.ltb_spec (length b) 16) as [Hb|Hb].
  { unfold handleRequest. rewrite (proj2 (Nat.ltb_lt _ _)) by lia. by eexists _, _, _, _. }
  pose proof (handleRequest_header w addr b srv s Hb) as E. unfold is_connect.
  destruct (header b) as [[cid action] tid]. rewrite E. clear E.
  destruct ((cid =? ProtocolID) && (action =? ActionConnect)).
  { unfold handleConnection. destruct (w_newId w) as [n|e]; [|by eexists _, _, _, _].
    eexists _, _, _, _. split; [reflexivity|]. split; [done|]. unfold writeHeader. by rewrite app_nil_l, <- app_assoc. }
  assert (∀ e, ∃ a m, [responseError tid e] = [m] ∧ replies a tid m ∧ (a = ActionError ∨ a = action)) as Herr.
  { intros e. exists ActionError, (responseError tid e). split; [done|]. split; [|by left]. unfold responseError. apply replies_write. }
  destruct (sync.Load cid srv) as [c|]; [|eexists _, _, _, _; split; [reflexivity|]; by split_and!].
  destruct (negb _); [eexists _, _, _, _; split; [reflexivity|]; by split_and!|].
  destruct (Z.eqb_spec action ActionAnnounce) as [->|_]; [|destruct (Z.eqb_spec action ActionScrape) as [->|_]].
  - destruct (handleAnnounce_replies (w_now w) (w_now' w) (w_scrape w 0%nat) (w_rnd w) addr tid (drop 16 b) s)
      as (r & s1 & -> & Hr). cbn [mbind option_bind].
    eexists _, _, _, _. split; [reflexivity|]. split_and!; [done|done|].
    destruct r as [buf|e]; [|apply Herr]. exists ActionAnnounce, buf. split_and!; [done|by apply Hr|by right].
  - destruct (handleScrape_replies (w_scrape w) tid (drop 16 b) s) as (r & s1 & -> & Hr). cbn [mbind option_bind].
    eexists _, _, _, _. split; [reflexivity|]. split_and!; [done|done|].
    destruct r as [buf|e]; [|apply Herr]. exists ActionScrape, buf. split_and!; [done|by apply Hr|by right].
  - cbn [mbind option_bind]. eexists _, _, _, _. split; [reflexivity|]. by split_and!.
Qed.

(** C17: No datagram makes the server panic.  One shorter than a header is dropped
    with nothing changed.  A connect request gets the id the generator gave,
    under its transaction id.  Every other request gets exactly one reply, which
    carries its transaction id and either its own action or the error action,
    and leaves the table of connections as it is. *)
Theorem one_reply_per_request w addr b srv s :
  ∃ r out srv' s', handleRequest cfg w addr (Ok b) srv s = Some (r, out, srv', s') ∧
  if (length b <? 16)%nat then r = Err "invalid request"%string ∧ out = [] ∧ srv' = srv ∧ s' = s
  else
    let '(cid, action, tid) := header b in
    if is_connect b then
      s' = s ∧
      match w_newId w with
      | Err e => r = Err e ∧ out = [] ∧ srv' = srv
      | Ok n => out = [be_encode 4 ActionConnect ++ be_encode 4 tid ++ be_encode 8 (u64 n)]
      end
    else r = Ok tt ∧ srv' = srv ∧
      ∃ a m, out = [m] ∧ replies a tid m ∧ (a = ActionError ∨ a = action).
Proof. apply request_answered. Qed.

(** ** Connections *)

(** The ids issued so far: id, address, time. *)
Definition issued : Type := list (Z * UDPAddr * Z).

(** A run of the server: requests, cleanings, and anything else that changes the
    manager. *)
Inductive udp_run : UDPServer → S → issued → Prop :=
| run_new s : udp_run NewUDPServer s []
| run_request w addr b srv s lg r out srv' s' :
    udp_run srv s lg → handleRequest cfg w addr (Ok b) srv s = Some (r, out, srv', s') →
    udp_run srv' s'
      (if (16 <=? length b)%nat && is_connect b
       then match w_newId w with Ok n => (u64 n, addr, w_now w) :: lg | Err _ => lg end else lg)
| run_clean t srv s lg : udp_run srv s lg → udp_run (cleanConnection t srv) s lg
| run_manager srv s s' lg : udp_run srv s lg → udp_run srv s' lg.

Definition issued_ok (srv : UDPServer) (lg : issued) : Prop :=
  ∀ k c, sync.Load k srv = Some c → (k, remoteAddr c, time c) ∈ lg.

Lemma Load_Delete k k' (srv : UDPServer) :
  sync.Load k (sync.Delete k' srv).2 = if decide (k' = k) then None else sync.Load k srv.
Proof.
  unfold sync.Delete, sync.m_LoadAndDelete, sync.Load.
  destruct (sync.m srv !! k'); simpl; case_decide; subst; by rewrite ?lookup_delete_eq, ?lookup_delete_ne by done.
Qed.

Definition expired (t : Z) (c : connection) : bool := Before (Add (time c) connectionTimeout) t.

Lemma clean_fold t k l (srv : UDPServer) :
  sync.Load k (fold_left (fun srv e => if expired t e.2 then (sync.Delete e.1 srv).2 else srv) l srv)
  = if existsb (fun e => bool_decide (e.1 = k) && expired t e.2) l then None else sync.Load k srv.
Proof.
  revert srv. induction l as [|[k' c] l IH]; intros srv; [done|]. cbn [fold_left existsb fst snd]. rewrite IH.
  destruct (existsb _ l); [by rewrite orb_true_r|]. rewrite orb_false_r.
  destruct (expired t c); [rewrite Load_Delete|]; case_bool_decide; simpl; [by rewrite decide_True|by rewrite decide_False|done|done].
Qed.

Lemma cleanConnection_Load t (srv : UDPServer) k :
  sync.Load k (cleanConnection t srv)
  = match sync.Load k srv with Some c => if expired t c then None else Some c | None => None end.
Proof.
  unfold cleanConnection. fold (expired t). rewrite (clean_fold t k).
  destruct (existsb _ _) eqn:E.
  - apply existsb_exists in E as ([k' c] & Hin & [Hk He]%andb_prop). apply bool_decide_eq_true in Hk. simpl in *. subst k'.
    apply list_elem_of_In, elem_of_map_to_list in Hin. unfold sync.Load. by rewrite Hin, He.
  - destruct (sync.Load k srv) as [c|] eqn:Hc; [|done]. destruct (expired t c) eqn:He; [|done].
    apply not_true_iff_false in E. destruct E. apply existsb_exists. exists (k, c). split.
    + apply list_elem_of_In, elem_of_map_to_list, Hc.
    + simpl. by rewrite bool_decide_eq_true_2.
Qed.

Lemma clean_counted t (srv : UDPServer) : sync.counted srv → sync.counted (cleanConnection t srv).
Proof.
  unfold cleanConnection. generalize (sync.RangeEntries srv). intros l. revert srv.
  induction l as [|e l IH]; intros srv Hs; [done|]. cbn [fold_left]. apply IH.
  destruct (Before _ t); [|done]. by apply sync.counted_Delete.
Qed.

(** [cleanConnection] at time [t] forgets exactly the connections that are
    more than two minutes old, keeps every other one as it was, and keeps the
    size counter right. *)
Theorem cleanConnection_exact t (srv : UDPServer) :
  sync.counted srv →
  sync.counted (cleanConnection t srv) ∧
  ∀ k c, sync.Load k (cleanConnection t srv) = Some c ↔
    sync.Load k srv = Some c ∧ t ≤ time c + 2 * 60 * 1000000000.
Proof.
  intros Hs. split; [by apply clean_counted|]. intros k c. rewrite cleanConnection_Load.
  unfold expired, Before, Add, connectionTimeout, Minute, Second.
  destruct (sync.Load k srv) as [c'|]; [|naive_solver].
  destruct (Z.ltb_spec (time c' + 2 * (60 * 1000000000)) t); split; intros Hc; try done.
  - destruct Hc as [Hc ?]. apply (inj Some) in Hc as ->. lia.
  - apply (inj Some) in Hc as ->. split; [done|lia].
  - by destruct Hc.
Qed.

Lemma connect_issued w addr tid (srv : UDPServer) lg :
  issued_ok srv lg →
  issued_ok (handleConnection (w_now w) (w_newId w) (w_werr w) addr tid srv).2
    (match w_newId w with Ok n => (u64 n, addr, w_now w) :: lg | Err _ => lg end).
Proof.
  intros Hs. unfold handleConnection. destruct (w_newId w) as [n|e]; [|done]. cbn [snd].
  intros k c. unfold sync.LoadOrStore, sync.m_LoadOrStore, sync.Load.
  destruct (sync.m srv !! u64 n) eqn:E; simpl.
  - intros Hk. right. by apply Hs.
  - intros [[<- <-]|[_ Hk]]%lookup_insert_Some; [by left|right; by apply Hs].
Qed.

(** What a request other than a connect can do: nothing to the connections,
    and something to the manager or an answer other than an error only with
    an id in the table that belongs to the sender. *)
Lemma request_access w addr b srv s r out srv' s' :
  (16 ≤ length b)%nat → is_connect b = false →
  handleRequest cfg w addr (Ok b) srv s = Some (r, out, srv', s') →
  srv' = srv ∧
  ((s' = s ∧ ∃ e, out = [responseError (header b).2 e]) ∨
   ∃ c, sync.Load (header b).1.1 srv = Some c ∧ UDPAddr_String (remoteAddr c) = UDPAddr_String addr).
Proof.
  intros Hb Hc. pose proof (handleRequest_header w addr b srv s Hb) as E. unfold is_connect in Hc.
  destruct (header b) as [[cid action] tid]. rewrite E, Hc. clear E. cbn [fst snd].
  destruct (sync.Load cid srv) as [c|] eqn:Hl; [|intros [= <- <- <- <-]; by eauto 6].
  case_bool_decide as Ha; cbn [negb]; [|intros [= <- <- <- <-]; by eauto 6].
  destruct (if action =? ActionAnnounce then _ else _) as [[r1 s1]|]; [|done].
  cbn [mbind option_bind]. intros [= <- <- <- <-]. split; [done|]. right. by exists c.
Qed.

Lemma run_issued srv s lg : udp_run srv s lg → issued_ok srv lg.
Proof.
  induction 1 as [s|w addr b srv s lg r out srv' s' _ IH Hreq|t srv s lg _ IH|srv s s' lg _ IH]; [done| | |done].
  - destruct (Nat.leb_spec 16 (length b)) as [Hb|Hb]; cbn [andb].
    + destruct (is_connect b) eqn:Hc; [|by destruct (request_access _ _ _ _ _ _ _ _ _ Hb Hc Hreq) as [-> _]].
      pose proof (handleRequest_header w addr b srv s Hb) as E. unfold is_connect in Hc.
      destruct (header b) as [[cid action] tid]. rewrite E, Hc in Hreq.
      pose proof (connect_issued w addr tid srv lg IH) as Hi.
      destruct (handleConnection _ _ _ _ _ _) as [[r1 out1] srv1]. by injection Hreq as <- <- <- <-.
    + unfold handleRequest in Hreq. rewrite (proj2 (Nat.ltb_lt _ _) Hb) in Hreq. by injection Hreq as <- <- <- <-.
  - intros k c. rewrite cleanConnection_Load. destruct (sync.Load k srv) as [c'|] eqn:Hk; [|done].
    destruct (expired t c'); [done|]. intros Hc. apply (inj Some) in Hc as <-. by apply IH.
Qed.
End Handlers.

(** ** The address check *)
Lemma split_colon_inj (h1 h2 p1 p2 : bytes) :
  colon ∉ p1 → colon ∉ p2 → h1 ++ colon :: p1 = h2 ++ colon :: p2 → h1 = h2 ∧ p1 = p2.
Proof.
  intros Hp1 Hp2. revert h2. induction h1 as [|c h1 IH]; intros [|c2 h2]; cbn [app]; intros E.
  - split; [done|]. by injection E.
  - injection E as _ ->. destruct Hp1. set_solver.
  - injection E as _ <-. destruct Hp2. set_solver.
  - injection E as <- E. destruct (IH h2 E) as [-> ->]. done.
Qed.

Lemma utoa_no_colon n : 0 ≤ n → colon ∉ utoa n.
Proof.
  intros Hn Hc. destruct (utoa_spec n Hn) as (_ & Hd & _). rewrite Forall_forall in Hd. by apply Hd in Hc.
Qed.

Lemma existsb_colon (h : bytes) : existsb (Byte.eqb colon) h = true ↔ colon ∈ h.
Proof.
  rewrite existsb_exists. split.
  - intros (c & Hc & E). apply Byte.byte_dec_bl in E as <-. by apply list_elem_of_In.
  - intros Hc. exists colon. split; [by apply list_elem_of_In|done].
Qed.

Lemma JoinHostPort_inj h1 h2 p1 p2 :
  colon ∉ p1 → colon ∉ p2 → JoinHostPort h1 p1 = JoinHostPort h2 p2 → h1 = h2 ∧ p1 = p2.
Proof.
  intros Hp1 Hp2. unfold JoinHostPort.
  assert (∀ h p, ch "[" :: h ++ ch "]" :: colon :: p = (ch "[" :: h ++ [ch "]"]) ++ colon :: p) as Ea
    by (intros h p; cbn [app]; by rewrite <- app_assoc).
  destruct (existsb _ h1) eqn:E1, (existsb _ h2) eqn:E2; rewrite ?Ea; intros E; apply split_colon_inj in E as [E ->]; try done.
  - injection E as E. by apply app_inj_tail in E as [-> _].
  - exfalso. apply not_true_iff_false in E2. apply E2, existsb_colon. rewrite <- E. apply existsb_colon in E1. set_solver.
  - exfalso. apply not_true_iff_false in E1. apply E1, existsb_colon. rewrite E. apply existsb_colon in E2. set_solver.
Qed.

Lemma UDPAddr_String_inj a b :
  ip_valid (ua_IP a) = true → ip_valid (ua_IP b) = true → ua_Zone a = ""%string → ua_Zone b = ""%string →
  0 ≤ ua_Port a → 0 ≤ ua_Port b → UDPAddr_String a = UDPAddr_String b →
  To16 (ua_IP a) = To16 (ua_IP b) ∧ ua_Port a = ua_Port b.
Proof.
  intros Ha Hb Hza Hzb Hpa Hpb E. unfold UDPAddr_String in E. rewrite Hza, Hzb, !bool_decide_eq_true_2 in E by done.
  assert (∀ ip, ip_valid ip = true → (ip_len ip =? 0)%nat = false) as Hlen.
  { intros [[|]|] Hip; [|done|]; apply bool_decide_eq_true in Hip as [? Hip]; vm_compute in Hip; discriminate. }
  rewrite !Hlen in E by done.
  apply (f_equal bytes_of_string) in E. rewrite !bytes_of_string_of_bytes in E. unfold Itoa_bytes in E.
  rewrite !(proj2 (Z.ltb_ge _ _)) in E by lia.
  apply JoinHostPort_inj in E as [Eh Ep]; [|by apply utoa_no_colon..]. split.
  - apply IP_String_inj; [done|done|]. unfold IP_String. by rewrite Eh.
  - destruct (utoa_spec _ Hpa) as [<- _], (utoa_spec _ Hpb) as [<- _]. by rewrite Ep.
Qed.

Section Access.
Context {S : Type} `{PeerManager S}.
Context (cfg : Config).

Definition plain_addr (a : UDPAddr) : Prop :=
  ip_valid (ua_IP a) = true ∧ ua_Zone a = ""%string ∧ 0 ≤ ua_Port a.

(** C12: Over any run of the server, a request that is not a connect touches the
    manager, or is answered by anything other than an error, only if its
    connection id was issued to a connect that came from the same IP address
    and port; and it never changes the table of connections.  (For addresses
    without an IPv6 zone, the ones of the runs' connects included.) *)
Theorem connected_clients_only srv s lg w addr b r out srv' s' :
  udp_run cfg srv s lg → (∀ k a t, (k, a, t) ∈ lg → plain_addr a) → plain_addr addr →
  (16 ≤ length b)%nat → is_connect b = false →
  handleRequest cfg w addr (Ok b) srv s = Some (r, out, srv', s') →
  srv' = srv ∧
  ((s' = s ∧ ∃ e, out = [responseError (header b).2 e]) ∨
   ∃ a t, ((header b).1.1, a, t) ∈ lg ∧ To16 (ua_IP a) = To16 (ua_IP addr) ∧ ua_Port a = ua_Port addr).
Proof.
  intros Hrun Hlg (Hv & Hz & Hp) Hb Hc Hreq.
  destruct (request_access cfg w addr b srv s r out srv' s' Hb Hc Hreq) as [-> [Hs|(c & Hl & Ha)]]; split; auto.
  right. apply (run_issued cfg _ _ _ Hrun) in Hl. exists (remoteAddr c), (time c). split; [done|].
  destruct (Hlg _ _ _ Hl) as (Hv' & Hz' & Hp'). by apply UDPAddr_String_inj.
Qed.
End Access.

(** ** A client of the sharded manager *)
Definition sample_peers : PeerManager (MuxLocalManager Skip (list bytes) fallbackIPFilter) :=
  mux_manager (sample_cfg 400) io_ok (fun _ => None).
#[local] Existing Instance sample_peers.

Definition sample_addr (h : Byte.byte) (port : Z) : UDPAddr :=
  mkUDPAddr (Some [Byte.xcb; Byte.x00; Byte.x71; h]) port "".
Definition sample_packet (event : Z) : announce_packet :=
  mkPacket (bytes_of_string hash_a) (bytes_of_string "-TR3000-abcdefghijkl") 0 7 0 event (replicate 4 Byte.x00) 0 50 6881.
Definition sample_world : world := mkWorld sample_time sample_time (fun _ => sample_time) 100 (Ok 42) None.
Definition request (cid action tid : Z) (body : bytes) : bytes :=
  be_encode 8 cid ++ be_encode 4 action ++ be_encode 4 tid ++ body.

Lemma sample_packet_ok event : 0 ≤ event < 2 ^ 32 → packet_ok 4 (sample_packet event).
Proof. intros He. unfold packet_ok. cbn [sample_packet pk_InfoHash pk_PeerID pk_IP]. split_and!; try done; cbn; lia. Qed.

Lemma announce_packet_read_witness :
  announce_request (sample_addr Byte.x01 5000) (encode_packet (sample_packet 1) ++ [Byte.x00; Byte.x02])
  = Some (Ok (request_of "203.0.113.1" "" (sample_packet 1), false)).
Proof.
  rewrite (proj1 (announce_packet_read (sample_addr Byte.x01 5000) (sample_packet 1) [Byte.x00; Byte.x02])).
  - f_equal.
  - discriminate.
  - apply sample_packet_ok. lia.
Defined.

Lemma announce_reply_decodes_witness :
  ∃ buf s', handleAnnounce (sample_cfg 400) sample_time sample_time sample_time 100 (sample_addr Byte.x02 5000) 9
              (encode_packet (sample_packet 1)) (announce_to hash_a "P" sample_mux).2 = Some (Ok buf, s') ∧
  read_announce 4 buf = Some (mkReply 1 9 900 1 0 [([Byte.xcb; Byte.x00; Byte.x71; Byte.x01], 6881)]).
Proof.
  destruct (announce_reply_decodes (sample_cfg 400) sample_time sample_time sample_time 100 (sample_addr Byte.x02 5000) 9
    (encode_packet (sample_packet 1)) (announce_to hash_a "P" sample_mux).2 ltac:(lia)) as (r & s' & E & H).
  assert (∃ buf, r = Ok buf ∧ read_announce 4 buf = Some (mkReply 1 9 900 1 0 [([Byte.xcb; Byte.x00; Byte.x71; Byte.x01], 6881)]))
    as (buf & -> & Hb) by (clear E; revert H; vm_compute; intros (_ & buf & -> & Hb); exists buf; split; [reflexivity|exact Hb]).
  exists buf, s'. split; [exact E|exact Hb].
Defined.

Lemma scrape_reply_decodes_witness :
  ∃ buf s', handleScrape (fun _ => sample_time) 9 (bytes_of_string (hash_a ++ hash_b ++ "tail")) (announce_to hash_a "P" sample_mux).2
            = Some (Ok buf, s') ∧ read_scrape buf = Some (2, 9, [(0, 0, 1); (0, 0, 0)]).
Proof.
  destruct (scrape_reply_decodes (fun _ => sample_time) 9 (bytes_of_string (hash_a ++ hash_b ++ "tail"))
    (announce_to hash_a "P" sample_mux).2 ltac:(lia)) as (r & s' & E & H).
  assert (∃ buf, r = Ok buf ∧ read_scrape buf = Some (2, 9, [(0, 0, 1); (0, 0, 0)]))
    as (buf & -> & Hb) by (clear E; revert H; vm_compute; intros (_ & buf & -> & Hb); exists buf; split; [reflexivity|exact Hb]).
  exists buf, s'. split; [exact E|exact Hb].
Defined.

Definition connected : UDPServer :=
  (handleConnection sample_time (Ok 42) None (sample_addr Byte.x02 5000) 8 NewUDPServer).2.

Lemma cleanConnection_exact_witness :
  sync.Load 42 (cleanConnection (sample_time + 120 * Second) connected)
    = Some (mkConnection 42 (sample_addr Byte.x02 5000) sample_time) ∧
  sync.Load 42 (cleanConnection (sample_time + 120 * Second + 1) connected) = None.
Proof.
  assert (sync.counted connected) as Hc by (vm_compute; reflexivity). split.
  - apply (cleanConnection_exact _ _ Hc). split; [vm_compute; reflexivity|cbn [time]; unfold sample_time, Second; lia].
  - destruct (sync.Load 42 (cleanConnection (sample_time + 120 * Second + 1) connected)) as [c|] eqn:E; [|reflexivity].
    apply (cleanConnection_exact _ _ Hc) in E as [E Ht]. apply (inj Some) in E as <-. cbn [time] in Ht. unfold sample_time, Second in Ht. lia.
Defined.

(** The client that connected announces from another port: nothing happens. *)
Lemma connected_clients_only_witness :
  match handleRequest (sample_cfg 400) sample_world (sample_addr Byte.x02 5001)
          (Ok (request 42 1 9 (encode_packet (sample_packet 1)))) connected sample_mux with
  | Some (_, _, srv', s') => srv' = connected ∧ s' = sample_mux
  | None => False
  end.
Proof.
  destruct (handleRequest _ _ _ _ _ _) as [[[[r out] srv'] s']|] eqn:E;
    [|apply (f_equal (fun x => match x with Some _ => true | None => false end)) in E; vm_compute in E; discriminate E].
  assert (udp_run (sample_cfg 400) connected sample_mux [(42, sample_addr Byte.x02 5000, sample_time)]) as Hrun.
  { exact (run_request (sample_cfg 400) sample_world (sample_addr Byte.x02 5000) (request ProtocolID 0 8 []) NewUDPServer
      sample_mux [] (Ok tt) _ connected sample_mux (run_new (sample_cfg 400) sample_mux) eq_refl). }
  destruct (connected_clients_only (sample_cfg 400) connected sample_mux _ sample_world (sample_addr Byte.x02 5001)
    (request 42 1 9 (encode_packet (sample_packet 1))) r out srv' s' Hrun) as [Hsrv [[Hs _]|(a & t & Ha & _ & Hp)]].
  - intros k a t Hin%list_elem_of_singleton%(f_equal (fun x => x.1.2)). cbn in Hin. subst a. split_and!; [reflexivity|reflexivity|discriminate].
  - split_and!; [reflexivity|reflexivity|discriminate].
  - apply Nat.leb_le. vm_compute. reflexivity.
  - vm_compute. reflexivity.
  - exact E.
  - split; [exact Hsrv|exact Hs].
  - apply list_elem_of_singleton, (f_equal (fun x => x.1.2)) in Ha. cbn in Ha. subst a. discriminate Hp.
Defined.

(** The event codes of BEP 15, which [parse.go] quotes (1 completed,
    2 started, 3 stopped), are read in another order: a client that announces
    "started" is taken to have stopped and is not stored, one that announces
    "completed" is stored as started, one that announces "stopped" is stored as
    completed. *)
Theorem udp_events_misread :
  let announce event :=
    snd <$> handleAnnounce (sample_cfg 400) sample_time sample_time sample_time 100 (sample_addr Byte.x02 5000) 9
              (encode_packet (sample_packet event)) sample_mux in
  let stored event := s ← announce event;
    match GetPeers hash_a s with Ok ps => Some (map Event ps) | Err _ => None end in
  stored 2 = Some [] ∧ stored 1 = Some [PeerEvent_Started] ∧ stored 3 = Some [PeerEvent_Completed].
Proof. vm_compute. auto. Qed.
