(* ===== verification/Idl.v ===== *)
(** The thrift types of [idl/server.thrift] and [idl/common.thrift], and the
    conversions to and from them: the client's ([peer/rpc/adaptor.go]), which
    persistence uses too, and the server's ([services/rpc/adaptor.go]).

    The Go code of the types is generated from the IDL when the program is
    built; the records below follow the IDL.  What the generated encoder makes of
    a nil binary field is a parameter ([nil_binary]), and so is the generated
    [String] of the event enumeration. *)
From Stdlib Require Import ZArith Lia Bool Strings.String.
From stdpp Require Import base strings list.
From S2P Require Import Prelude GoStd Config Model Common.
Set Default Proof Using "Type*".
Local Open Scope Z_scope.

Record idl_OfferDetail := mkIdlOfferDetail { iod_Type : string; iod_Sdp : string }.
Record idl_Offer := mkIdlOffer { io_OfferId : string; io_Offer : idl_OfferDetail }.

(** Enumerations are [int64] in the generated code. *)
Record idl_Peer := mkIdlPeer
  { ip_Ip : netIP; ip_Ipv4 : netIP; ip_Ipv6 : netIP; ip_ClientIp : netIP; ip_LastSeen : Z;
    ip_Offers : list idl_Offer; ip_Id : string; ip_UserAgent : string; ip_Port : Z; ip_Uploaded : Z;
    ip_Downloaded : Z; ip_Left : Z; ip_Type : Z; ip_Event : Z; ip_Source : Z }.

Record idl_AnnounceRequest := mkIdlAnnounceRequest
  { ia_Offers : list idl_Offer; ia_ClientIp : netIP; ia_InfoHash : string; ia_PeerId : string;
    ia_Ip : string; ia_Ipv4 : string; ia_Ipv6 : string; ia_Downloaded : Z; ia_Left : Z; ia_Uploaded : Z;
    ia_NumWant : Z; ia_Type : Z; ia_Source : Z; ia_Event : Z; ia_Port : Z; ia_Compact : bool }.

Record Store := mkStore { st_InfoHash : string; st_Peer : idl_Peer }.

(** ** Offers *)
Definition offer_to_idl (o : Offer) : idl_Offer :=
  {| io_OfferId := OfferID o; io_Offer := {| iod_Type := od_Type (Offer_ o); iod_Sdp := SDP (Offer_ o) |} |}.
Definition offer_of_idl (o : idl_Offer) : Offer :=
  {| OfferID := io_OfferId o; Offer_ := {| od_Type := iod_Type (io_Offer o); SDP := iod_Sdp (io_Offer o) |} |}.

Lemma offer_roundtrip os : map offer_of_idl (map offer_to_idl os) = os.
Proof. rewrite map_map. etrans; [|apply map_id]. apply map_ext. by intros [? []]. Qed.

(** ** Requests *)

(** The client's direction; the user agent has no field. *)
Definition announceRequestCommonToIDL (req : AnnounceRequest) : idl_AnnounceRequest :=
  {| ia_InfoHash := req_InfoHash req; ia_PeerId := req_PeerID req; ia_Ip := req_IP req;
     ia_Port := i32 (req_Port req); ia_Ipv4 := req_IPv4 req; ia_Ipv6 := req_IPv6 req;
     ia_ClientIp := req_ClientIP req; ia_Uploaded := req_Uploaded req; ia_Downloaded := req_Downloaded req;
     ia_Left := req_Left req; ia_NumWant := req_NumWant req; ia_Type := req_Type req;
     ia_Compact := req_Compact req =? 1; ia_Source := req_Source req;
     ia_Event := ParsePeerEvent (req_Event req); ia_Offers := map offer_to_idl (req_Offers req) |}.

(** The server's direction; [event_String] is the enumeration's [String]. *)
Definition announceRequestIDLToCommon (event_String : Z → string) (req : idl_AnnounceRequest) : AnnounceRequest :=
  mkAnnounceRequest
    {| req_InfoHash := ia_InfoHash req; req_PeerID := ia_PeerId req; req_IP := ia_Ip req;
       req_Port := ia_Port req; req_IPv4 := ia_Ipv4 req; req_IPv6 := ia_Ipv6 req;
       req_ClientIP := ia_ClientIp req; req_Uploaded := ia_Uploaded req; req_Downloaded := ia_Downloaded req;
       req_Left := ia_Left req; req_NumWant := ia_NumWant req; req_Type := i8 (ia_Type req);
       req_Compact := if ia_Compact req then 1 else 0; req_Event := event_String (ia_Event req);
       req_UserAgent := "" |}
    (i8 (ia_Source req)) (map offer_of_idl (ia_Offers req)) None.

(** ** Peers *)
Definition PeerIDLToCommon (p : idl_Peer) : Peer :=
  {| IP := ip_Ip p; IPv4 := ip_Ipv4 p; IPv6 := ip_Ipv6 p; ClientIP := ip_ClientIp p;
     LastSeen := FromUnix (ip_LastSeen p); Offers := map offer_of_idl (ip_Offers p); ID := ip_Id p;
     UserAgent := ip_UserAgent p; Port := ip_Port p; Uploaded := u64 (ip_Uploaded p);
     Downloaded := u64 (ip_Downloaded p); Left := u64 (ip_Left p); Conn := None; Type_ := i8 (ip_Type p);
     Event := i8 (ip_Event p); Source_ := i8 (ip_Source p) |}.

Definition PeerCommonToIDL (p : Peer) : idl_Peer :=
  {| ip_Ip := IP p; ip_Ipv4 := IPv4 p; ip_Ipv6 := IPv6 p; ip_ClientIp := ClientIP p;
     ip_LastSeen := Unix (LastSeen p); ip_Offers := map offer_to_idl (Offers p); ip_Id := ID p;
     ip_UserAgent := UserAgent p; ip_Port := i32 (Port p); ip_Uploaded := i64 (Uploaded p);
     ip_Downloaded := i64 (Downloaded p); ip_Left := i64 (Left p); ip_Type := Type_ p;
     ip_Event := Event p; ip_Source := Source_ p |}.

(** The server's copy of [PeerCommonToIDL] does the same. *)
Definition peerCommonToIDL (p : Peer) : idl_Peer :=
  {| ip_Ip := IP p; ip_Ipv4 := IPv4 p; ip_Ipv6 := IPv6 p; ip_ClientIp := ClientIP p;
     ip_LastSeen := Unix (LastSeen p); ip_Offers := map offer_to_idl (Offers p); ip_Id := ID p;
     ip_UserAgent := UserAgent p; ip_Port := i32 (Port p); ip_Uploaded := i64 (Uploaded p);
     ip_Downloaded := i64 (Downloaded p); ip_Left := i64 (Left p); ip_Type := Type_ p;
     ip_Event := Event p; ip_Source := Source_ p |}.

(** ** On the wire *)
Section Wire.
(** What a nil binary field is read back as. *)
Context (nil_binary : netIP).

Definition wire_binary (b : netIP) : netIP := match b with Some b => Some b | None => nil_binary end.
Definition wire_peer (p : idl_Peer) : idl_Peer :=
  {| ip_Ip := wire_binary (ip_Ip p); ip_Ipv4 := wire_binary (ip_Ipv4 p); ip_Ipv6 := wire_binary (ip_Ipv6 p);
     ip_ClientIp := wire_binary (ip_ClientIp p); ip_LastSeen := ip_LastSeen p; ip_Offers := ip_Offers p;
     ip_Id := ip_Id p; ip_UserAgent := ip_UserAgent p; ip_Port := ip_Port p; ip_Uploaded := ip_Uploaded p;
     ip_Downloaded := ip_Downloaded p; ip_Left := ip_Left p; ip_Type := ip_Type p; ip_Event := ip_Event p;
     ip_Source := ip_Source p |}.
Definition wire_request (r : idl_AnnounceRequest) : idl_AnnounceRequest :=
  {| ia_Offers := ia_Offers r; ia_ClientIp := wire_binary (ia_ClientIp r); ia_InfoHash := ia_InfoHash r;
     ia_PeerId := ia_PeerId r; ia_Ip := ia_Ip r; ia_Ipv4 := ia_Ipv4 r; ia_Ipv6 := ia_Ipv6 r;
     ia_Downloaded := ia_Downloaded r; ia_Left := ia_Left r; ia_Uploaded := ia_Uploaded r;
     ia_NumWant := ia_NumWant r; ia_Type := ia_Type r; ia_Source := ia_Source r; ia_Event := ia_Event r;
     ia_Port := ia_Port r; ia_Compact := ia_Compact r |}.
Definition wire_store (s : Store) : Store := mkStore (st_InfoHash s) (wire_peer (st_Peer s)).

(** A peer that went through: its time in whole seconds, no connection, and
    nil addresses as the codec leaves them. *)
Definition received (p : Peer) : Peer :=
  {| IP := wire_binary (IP p); IPv4 := wire_binary (IPv4 p); IPv6 := wire_binary (IPv6 p);
     ClientIP := wire_binary (ClientIP p); LastSeen := FromUnix (Unix (LastSeen p)); Offers := Offers p;
     ID := ID p; UserAgent := UserAgent p; Port := Port p; Left := Left p; Uploaded := Uploaded p;
     Downloaded := Downloaded p; Conn := None; Type_ := Type_ p; Event := Event p; Source_ := Source_ p |}.

(** Fields within the width of their Go types. *)
Definition peer_widths (p : Peer) : Prop :=
  - 2 ^ 31 ≤ Port p < 2 ^ 31 ∧ 0 ≤ Uploaded p < 2 ^ 64 ∧ 0 ≤ Downloaded p < 2 ^ 64 ∧ 0 ≤ Left p < 2 ^ 64 ∧
  - 2 ^ 7 ≤ Type_ p < 2 ^ 7 ∧ - 2 ^ 7 ≤ Event p < 2 ^ 7 ∧ - 2 ^ 7 ≤ Source_ p < 2 ^ 7.

Lemma u64_i64 z : 0 ≤ z < 2 ^ 64 → u64 (i64 z) = z.
Proof. intros Hz. unfold u64, i64. rewrite wrap_u_wrap_s by lia. by apply wrap_u_small. Qed.

Lemma peer_roundtrip p : peer_widths p → PeerIDLToCommon (wire_peer (PeerCommonToIDL p)) = received p.
Proof.
  intros (Hp & Hu & Hd & Hl & Ht & He & Hs). unfold PeerIDLToCommon, PeerCommonToIDL, received. cbn.
  rewrite offer_roundtrip, !u64_i64 by done.
  assert (i32 (Port p) = Port p) as -> by (apply wrap_s_small; lia).
  unfold i8. by rewrite !wrap_s_small by lia.
Qed.
End Wire.
