(* ===== verification/Persist.v ===== *)
(** Persistence of the in-memory store ([mux_local/persist.go]): every shard
    is written to a file of its own, one length-prefixed compressed record per
    peer, and the files are read back when the program starts.

    The record encoder (frugal) and the compressor (zstd) are parameters with
    their laws; the file system is a map from names to contents, and the outcomes
    of locking, opening, writing and removing are arguments. *)
From Stdlib Require Import ZArith Lia Bool Strings.String.
From stdpp Require Import base strings list sets gmap.
From S2P Require Import Prelude GoStd Config Model Common Mapx Local BanItem IPFilter Ban Mux Idl.
Set Default Proof Using "Type*".
Local Open Scope Z_scope.

(** ** The third-party encoders *)
Class StoreCodec := {
  EncodeObject : Store → result bytes;
  DecodeObject : bytes → result Store;
  CompressLevel : bytes → result bytes;
  (** into a buffer of that many bytes *)
  DecompressInto : nat → bytes → result bytes;
}.
Class StoreCodecLaws `{!StoreCodec} := {
  nil_binary : netIP;
  DecodeObject_Encode s b : EncodeObject s = Ok b → DecodeObject b = Ok (wire_store nil_binary s);
  DecompressInto_fits b c n : CompressLevel b = Ok c → (length b ≤ n)%nat → DecompressInto n c = Ok b;
  DecompressInto_small b c n : CompressLevel b = Ok c → (n < length b)%nat → is_ok (DecompressInto n c) = false;
}.

Notation files := (gmap string bytes).
Definition persist_name (file : string) (i : nat) : string := (file ++ "." ++ Itoa (Z.of_nat i))%string.
(** [filepath.Glob(file + ".*")], for a name without pattern characters. *)
Definition glob_match (file name : string) : bool :=
  let prefix := bytes_of_string (file ++ ".") in
  let n := bytes_of_string name in
  bool_decide (take (length prefix) n = prefix) && negb (existsb (Byte.eqb (ch "/")) (drop (length prefix) n)).

(** ** [bufio.Reader] *)
Definition bufio_size : nat := Z.to_nat 4096.
Record reader := mkReader { buffered : bytes; unread : bytes }.
Definition new_reader (content : bytes) : reader := mkReader [] content.

(** [Read] into [n] bytes, [n] positive: the buffered bytes if there are any,
    otherwise one read of the file; [None] at its end. *)
Definition Read (n : nat) (r : reader) : option bytes * reader :=
  match buffered r with
  | [] =>
      match unread r with
      | [] => (None, r)
      | _ =>
          if (bufio_size <=? n)%nat then (Some (take n (unread r)), mkReader [] (drop n (unread r)))
          else
            let b := take bufio_size (unread r) in
            (Some (take n b), mkReader (drop n b) (drop bufio_size (unread r)))
      end
  | b => (Some (take n b), mkReader (drop n b) (unread r))
  end.

(** [io.ReadFull]: [None] is [EOF] or [ErrUnexpectedEOF]. *)
Fixpoint ReadFull (fuel n : nat) (r : reader) : option bytes * reader :=
  if (n =? 0)%nat then (Some [], r)
  else
    match fuel with
    | O => (None, r)
    | S fuel =>
        match Read n r with
        | (None, r) => (None, r)
        | (Some b, r) =>
            match ReadFull fuel (n - length b) r with
            | (None, r) => (None, r)
            | (Some b', r) => (Some (b ++ b'), r)
            end
        end
    end.

(** The capacity of the pooled buffers of 400 bytes (the pool rounds it up), and
    what the one for remainders held before. *)
Record buffers := mkBuffers { buf_cap : nat; ramin : bytes }.
Definition pool_len : nat := Z.to_nat 400.

(** The [for remain > 0] loop.  The outer option is a panic, the inner one the
    read error that ends the goroutine; the result is [data]. *)
Fixpoint read_more (fuel remain : nat) (first data : bytes) (bufs : buffers) (r : reader)
  : option (option (bytes * buffers) * reader) :=
  match fuel with
  | O => Some (Some (data, bufs), r)
  | S fuel =>
      if (remain =? 0)%nat then Some (Some (data, bufs), r)
      else if (buf_cap bufs <? remain)%nat then None
      else
        match Read remain r with
        | (None, r) => Some (None, r)
        | (Some b, r) =>
            let ramin' := b ++ drop (length b) (ramin bufs) in
            read_more fuel (remain - length b) first (first ++ take remain ramin') (mkBuffers (buf_cap bufs) ramin') r
        end
  end.

Inductive record_read :=
| Panic                                   (* slice bounds out of range *)
| Stop                                    (* end of file or an error *)
| Record (data : bytes) (bufs : buffers) (r : reader).

(** One record: its length, then its data. *)
Definition read_record (bufs : buffers) (r : reader) : record_read :=
  match ReadFull 4 4 r with
  | (None, _) => Stop
  | (Some b, r) =>
      let size := le_decode b in
      if size =? 0 then Stop
      else if (Z.of_nat (buf_cap bufs) <? size) then Panic
      else
        let size := Z.to_nat size in
        match Read size r with
        | (None, _) => Stop
        | (Some data, r) =>
            if (length data =? size)%nat then Record data bufs r
            else
              match read_more size (size - length data) data data bufs r with
              | None => Panic
              | Some (None, _) => Stop
              | Some (Some (data, bufs), r) => Record data bufs r
              end
        end
  end.

Section Persist.
Context {M : Type → Type} `{SyncStringMap M} {B F : Type} `{BloomFilter B} `{IPFilter F} `{StoreCodec}.
Context (cfg : Config).
Notation mem := (Memory (Tracker cfg)).
Implicit Types (m : MuxLocalManager M B F) (fs : files).

(** ** [LoadFromPersist] *)
Definition decode_record (data : bytes) : result Store :=
  match DecompressInto pool_len data with Err e => Err e | Ok b => DecodeObject b end.

(** [m.pickWorker(...).DirectStore(...)]; [None] is the panic without a shard. *)
Definition mux_DirectStore (now : Z) (ih : string) (p : Peer) m : option (MuxLocalManager M B F) :=
  (fun w => set_shard (shard_of ih m) (DirectStore now ih p w) m) <$> localList m !! shard_of ih m.

Definition too_old (now : Z) (p : idl_Peer) : bool :=
  Before (Add (FromUnix (ip_LastSeen p)) (seconds (TTL (Tracker cfg)))) now.

(** The loop over one file; it also counts the peers loaded and expired. *)
Fixpoint load_loop (fuel : nat) (now : Z) (bufs : buffers) (r : reader) (acc : MuxLocalManager M B F * Z * Z)
  : option (MuxLocalManager M B F * Z * Z) :=
  match fuel with
  | O => Some acc
  | S fuel =>
      match read_record bufs r with
      | Panic => None
      | Stop => Some acc
      | Record data bufs r =>
          match decode_record data with
          | Err _ => Some acc
          | Ok pb =>
              let '(m, count, expired) := acc in
              if too_old now (st_Peer pb) then load_loop fuel now bufs r (m, count, expired + 1)
              else
                m ← mux_DirectStore now (st_InfoHash pb) (PeerIDLToCommon (st_Peer pb)) m;
                load_loop fuel now bufs r (m, count + 1, expired)
          end
      end
  end.
Definition load_file (now : Z) (bufs : buffers) (content : bytes) (acc : MuxLocalManager M B F * Z * Z) :=
  load_loop (S (length content)) now bufs (new_reader content) acc.

(** What the system answers for a file: whether the read lock is obtained,
    whether it opens, whether it can be removed. *)
Record load_env := mkLoadEnv { TryRLock : string → result bool; can_open : string → bool; can_remove : string → bool }.

Fixpoint load_files (now : Z) (bufs : buffers) (env : load_env) (fs : list (string * bytes))
    (acc : MuxLocalManager M B F * Z * Z) : option (MuxLocalManager M B F * Z * Z) :=
  match fs with
  | [] => Some acc
  | (name, content) :: fs =>
      match TryRLock env name with
      | Ok true =>
          if can_open env name
          then acc ← load_file now bufs content acc; load_files now bufs env fs acc
          else load_files now bufs env fs acc
      | _ => load_files now bufs env fs acc
      end
  end.

(** The goroutines run one after another, in any order of the files; [None] is
    a panic of one of them, which ends the program. *)
Definition LoadFromPersist (now : Z) (bufs : buffers) (env : load_env) fs m : option (MuxLocalManager M B F * files) :=
  if negb (EnablePersist mem) then Some (m, fs)
  else
    let found := base.filter (fun e : string * bytes => glob_match (PersistFile mem) e.1) (map_to_list fs) in
    '(m, _, _) ← load_files now bufs env found (m, 0, 0);
    Some (m, base.filter (fun e : string * bytes => negb (glob_match (PersistFile mem) e.1 && can_remove env e.1)) fs).

(** ** [StoreToPersist] *)

(** The writer: how many writes were made and what they wrote. *)
Record writer := mkWriter { w_calls : nat; w_out : bytes }.
Definition write (ok : nat → bool) (b : bytes) (w : writer) : bool * writer :=
  if ok (w_calls w) then (true, mkWriter (S (w_calls w)) (w_out w ++ b))
  else (false, mkWriter (S (w_calls w)) (w_out w)).

(** The callback for one peer, and whether to go on. *)
Definition store_peer (ok : nat → bool) (ih : string) (x : Peer) (w : writer) : writer * bool :=
  match EncodeObject (mkStore ih (PeerCommonToIDL x)) with
  | Err _ => (w, true)
  | Ok data =>
      match CompressLevel data with
      | Err _ => (w, false)
      | Ok c =>
          match write ok (le_encode 4 (u32 (Z.of_nat (length c)))) w with
          | (false, w) => (w, true)
          | (true, w) => match write ok c w with (false, w) => (w, false) | (true, w) => (w, true) end
          end
      end
  end.
Definition store_visit (ok : nat → bool) (st : Local.State M) (ih : string) (w : writer) (k : string) (p : nat)
  : writer * bool :=
  match peers st !! p with None => (w, true) | Some x => store_peer ok ih x w end.
Definition store_shard (ok : nat → bool) (st : Local.State M) : writer :=
  Range (fun w ih r => (root_Range (store_visit ok st ih) (root_at st r) w, true)) (infoHashMap st) (mkWriter 0 []).

(** What the system answers for the file of a shard; [f_flush] says what is in
    the file after the final flush of the given bytes.  Taking the lock creates
    the file, which stays if it cannot be opened then. *)
Record file_env := mkFileEnv { f_lock : bool; f_open : bool; f_write : nat → bool; f_flush : bytes → bytes }.
Definition store_file (env : nat → file_env) (i : nat) (st : Local.State M) fs : files :=
  let e := env i in
  if f_lock e then
    if f_open e then <[persist_name (PersistFile mem) i := f_flush e (w_out (store_shard (f_write e) st))]> fs
    else partial_alter (fun c => Some (default [] c)) (persist_name (PersistFile mem) i) fs
  else fs.
Fixpoint store_files (env : nat → file_env) (i : nat) (ws : list (Local.State M)) fs : files :=
  match ws with [] => fs | st :: ws => store_files env (S i) ws (store_file env i st fs) end.
Definition StoreToPersist (mkdir_ok : bool) (env : nat → file_env) m fs : files :=
  if negb (EnablePersist mem) then fs
  else if negb mkdir_ok then fs
  else store_files env 0 (localList m) fs.
End Persist.
