(* ===== verification/PersistSpec.v ===== *)
(** What persistence keeps: storing and loading brings every live peer back,
    into any number of shards; and what it loses when a record is too large or a
    file cannot be read. *)
From Stdlib Require Import ZArith Lia Bool Strings.String.
From stdpp Require Import base strings list sets gmap relations.
From S2P Require Import Prelude GoStd Config Model Common Samples Mapx Local LocalInv LocalSafety LocalSpec LocalTable BanItem IPFilter Ban Manager Mux MuxSpec Idl Persist.
Set Default Proof Using "Type*".
Local Open Scope Z_scope.

(** ** Reading *)
Definition view (r : reader) : bytes := buffered r ++ unread r.

Lemma Read_end n r : view r = [] → Read n r = (None, r).
Proof. destruct r as [[|] []]; by intros [=]. Qed.

(** A read takes some bytes, and all it was asked for if they are buffered. *)
Lemma Read_some n r :
  (0 < n)%nat → view r ≠ [] →
  ∃ b r', Read n r = (Some b, r') ∧ view r = b ++ view r' ∧ (0 < length b ≤ n)%nat ∧
    (length b = n ∨ buffered r' = []) ∧
    (buffered r = [] → (n ≤ bufio_size)%nat → b = take n (view r)).
Proof.
  intros Hn Hne. unfold Read, view in *. destruct r as [[|c buf] rest]; cbn [buffered unread app] in *.
  - destruct rest as [|c rest]; [done|]. set (l := c :: rest) in *.
    assert (0 < length l)%nat by (simpl; lia). destruct (Nat.leb_spec bufio_size n).
    + eexists _, _. split; [reflexivity|]. cbn [buffered unread app]. rewrite take_drop, length_take.
      split_and!; [done|lia|lia|by right|done].
    + set (b := take bufio_size l). eexists _, _. split; [reflexivity|]. cbn [buffered unread].
      assert (0 < length b)%nat by (unfold b; rewrite length_take; unfold bufio_size; lia).
      split_and!.
      * rewrite app_assoc, take_drop. unfold b. by rewrite take_drop.
      * rewrite length_take. lia.
      * rewrite length_take. lia.
      * destruct (decide (n ≤ length b)%nat); [left; rewrite length_take; lia|right; apply drop_ge; lia].
      * intros _ Hle. unfold b. by rewrite take_take, Nat.min_l by lia.
  - set (l := c :: buf). assert (0 < length l)%nat by (simpl; lia). eexists _, _. split; [reflexivity|].
    cbn [buffered unread]. split_and!.
    + by rewrite app_assoc, take_drop.
    + rewrite length_take. lia.
    + rewrite length_take. lia.
    + destruct (decide (n ≤ length l)%nat); [left; rewrite length_take; lia|right; apply drop_ge; lia].
    + done.
Qed.

Lemma app_split {A} (b b' rest rest' : list A) :
  b ++ rest = b' ++ rest' → (length b ≤ length b')%nat → ∃ d, b' = b ++ d ∧ rest = d ++ rest'.
Proof.
  intros E Hl. exists (drop (length b) b'). split.
  - rewrite <- (take_drop (length b) b') at 1. f_equal.
    apply (f_equal (take (length b))) in E. by rewrite take_app_length, take_app_le in E by lia.
  - apply (f_equal (drop (length b))) in E. by rewrite drop_app_length, drop_app_le in E by lia.
Qed.

Lemma ReadFull_some fuel n r b rest :
  (n ≤ fuel)%nat → length b = n → view r = b ++ rest →
  ∃ r', ReadFull fuel n r = (Some b, r') ∧ view r' = rest.
Proof.
  revert n r b. induction fuel as [|fuel IH]; intros n r b Hf Hb Hv; cbn [ReadFull];
    (destruct (Nat.eqb_spec n 0) as [->|Hn]; [destruct b; [by exists r|done]|]); [lia|].
  destruct (Read_some n r) as (b1 & r1 & E & Hv1 & Hl1 & _); [lia|rewrite Hv; destruct b; [simpl in Hb; lia|done]|].
  rewrite E. rewrite Hv in Hv1. symmetry in Hv1. apply app_split in Hv1 as (d & -> & Hd); [|lia].
  rewrite length_app in Hb.
  destruct (IH (n - length b1)%nat r1 d) as (r' & -> & Hr'); [lia|lia|done|]. by exists r'.
Qed.

Lemma ReadFull_end fuel n r : (0 < n)%nat → view r = [] → (ReadFull fuel n r).1 = None.
Proof.
  intros Hn Hv. destruct fuel; cbn [ReadFull]; rewrite (proj2 (Nat.eqb_neq n 0)) by lia; [done|].
  by rewrite Read_end.
Qed.

Lemma le_decode_encode n z : 0 ≤ z < 2 ^ (8 * Z.of_nat n) → le_decode (le_encode n z) = z.
Proof. intros Hz. unfold le_decode, le_encode. rewrite reverse_involutive. by apply be_decode_encode_small. Qed.
Lemma length_le_encode n z : length (le_encode n z) = n.
Proof. unfold le_encode. by rewrite length_reverse, length_be_encode. Qed.

(** A record as it is in the file. *)
Definition framed (c : bytes) : bytes := le_encode 4 (Z.of_nat (length c)) ++ c.

Definition buffers_ok (bufs : buffers) : Prop := (pool_len ≤ buf_cap bufs ≤ bufio_size)%nat.

(** A record that fits the buffers is read whole, in at most two reads. *)
Lemma read_record_framed bufs r c rest :
  buffers_ok bufs → (0 < length c ≤ buf_cap bufs)%nat → view r = framed c ++ rest →
  ∃ bufs' r', read_record bufs r = Record c bufs' r' ∧ view r' = rest ∧ buf_cap bufs' = buf_cap bufs.
Proof.
  intros [_ Hcap] Hc Hv. unfold framed in Hv. rewrite <- app_assoc in Hv.
  assert (Z.of_nat (length c) < 2 ^ 32) as Hc32 by (unfold bufio_size in Hcap; lia).
  destruct (ReadFull_some 4 4 r _ _ (le_n 4) (length_le_encode 4 _) Hv) as (r1 & E1 & Hv1).
  unfold read_record. rewrite E1, le_decode_encode by (cbn; lia).
  rewrite (proj2 (Z.eqb_neq _ 0)) by lia. rewrite (proj2 (Z.ltb_ge _ _)) by lia. rewrite Nat2Z.id.
  destruct (Read_some (length c) r1) as (b1 & r2 & E2 & Hv2 & Hl2 & Hfull & _);
    [lia|rewrite Hv1; destruct c; [simpl in Hc; lia|done]|].
  rewrite E2. rewrite Hv1 in Hv2. symmetry in Hv2. apply app_split in Hv2 as (d & -> & Hd); [|lia].
  rewrite length_app in Hl2, Hc, Hfull |- *. destruct (Nat.eqb_spec (length b1) (length b1 + length d)) as [Hd0|Hd0].
  { destruct d; [|simpl in Hd0; lia]. rewrite app_nil_r. by exists bufs, r2. }
  destruct Hfull as [?|Hbuf]; [lia|]. assert (0 < length d)%nat as Hdp by lia.
  replace (length b1 + length d - length b1)%nat with (length d) by lia.
  destruct (length b1 + length d)%nat as [|fuel] eqn:Ef; [lia|]. cbn [read_more].
  rewrite (proj2 (Nat.eqb_neq (length d) 0)) by lia. rewrite (proj2 (Nat.ltb_ge _ _)) by lia.
  destruct (Read_some (length d) r2) as (b3 & r3 & E3 & Hv3 & _ & _ & Hb3);
    [lia|rewrite Hd; by destruct d; [apply Nat.lt_irrefl in Hdp|]|].
  rewrite E3. specialize (Hb3 Hbuf ltac:(lia)). rewrite Hd, take_app_length in Hb3. subst b3.
  rewrite Hd in Hv3. apply app_inv_head in Hv3. rewrite Nat.sub_diag, take_app_length.
  eexists _, r3. split; [by destruct fuel|]. by rewrite <- Hv3.
Qed.

Lemma read_record_end bufs r : view r = [] → read_record bufs r = Stop.
Proof.
  intros Hv. unfold read_record. pose proof (ReadFull_end 4 4 r (Nat.lt_0_succ 3) Hv) as E.
  by destruct (ReadFull 4 4 r) as [[b|] r'].
Qed.

(** ** Filling an empty store *)
Section Boot.
Context `{SyncStringMapLaws M}.
Implicit Types (st : State M) (i : InfoHashRoot M).

(** A store that only [DirectStore] has filled: every torrent uses its first
    map, under its own info hash. *)
Definition booting_root st (ih : string) i : Prop :=
  Local.infoHash i = ih ∧ currentActive i = 0 ∧
  ∃ m0, peerMap i = [m0; sm_new; sm_new] ∧ ∀ k p, sm_view m0 !! k = Some p → (p < length (peers st))%nat.
Definition booting st : Prop :=
  ∀ ih r, sm_view (infoHashMap st) !! ih = Some r → ∃ i, roots st !! r = Some i ∧ booting_root st ih i.

Lemma contents_first i m0 : peerMap i = [m0; sm_new; sm_new] → contents i = sm_view m0.
Proof.
  intros E. unfold contents, views. rewrite E. simpl. rewrite !sm_view_new.
  by rewrite !(right_id_L ∅ (∪)).
Qed.

Lemma booting_Store st ih i x :
  booting_root st ih i →
  let st' := set_peers (peers st ++ [x]) st in
  let i' := Local.Store (ID x) (length (peers st)) i in
  booting_root st' ih i' ∧ table (peers st') i' = <[ID x := x]> (table (peers st) i).
Proof.
  intros (Hih & Ha & m0 & Em & Hp). cbv zeta. unfold Local.Store, active_map, active. rewrite Ha, Em. cbn [Z.to_nat lookup].
  assert (∀ k p, sm_view (sm_Store (ID x) (length (peers st)) m0) !! k = Some p → (p < length (peers st ++ [x]))%nat) as Hb.
  { intros k p. rewrite sm_Store_view, length_app. simpl. intros [[_ <-]|[_ Hk]]%lookup_insert_Some; [lia|].
    apply Hp in Hk. lia. }
  split; [split_and!; [done|done|by eexists]|]. unfold table.
  rewrite (contents_first i m0) by done.
  rewrite (contents_first _ (sm_Store (ID x) (length (peers st)) m0)) by done. rewrite sm_Store_view. cbn [peers set_peers].
  apply map_eq. intros k. rewrite lookup_omap, !lookup_insert. case_decide as Hk.
  - simpl. rewrite lookup_app_r by lia. by rewrite Nat.sub_diag.
  - rewrite lookup_omap. destruct (sm_view m0 !! k) as [p|] eqn:E; [|done]. simpl. apply lookup_app_l. by eapply Hp.
Qed.

Lemma booting_frame st st' ih i : booting_root st ih i → (length (peers st) ≤ length (peers st'))%nat → booting_root st' ih i.
Proof.
  intros (Hih & Ha & m0 & Em & Hp) Hl. split_and!; [done|done|]. exists m0. split; [done|].
  intros k p Hk. apply Hp in Hk. lia.
Qed.

Lemma table_frame st ih i l : booting_root st ih i → table (peers st ++ l) i = table (peers st) i.
Proof.
  intros (_ & _ & m0 & Em & Hp). unfold table. rewrite (contents_first i m0 Em). apply map_eq. intros k.
  rewrite !lookup_omap. destruct (sm_view m0 !! k) as [p|] eqn:E; [|done]. simpl. apply lookup_app_l. by eapply Hp.
Qed.

Lemma booting_new_root st ih now : booting_root st ih (NewInfoHashRoot ih now).
Proof.
  split_and!; [done|done|]. exists sm_new. split; [done|]. intros k p. by rewrite sm_view_new, lookup_empty.
Qed.

Lemma DirectStore_torrent now ih x st :
  booting st →
  booting (DirectStore now ih x st) ∧
  ∀ ih', torrent_of (DirectStore now ih x st) ih'
    = if decide (ih' = ih) then <[ID x := x]> (torrent_of st ih') else torrent_of st ih'.
Proof.
  intros Hst. unfold DirectStore, GetKey. set (st0 := set_peers (peers st ++ [x]) st).
  assert (∃ r i m', get_or_create now ih st0 = ((r, bool_decide (is_Some (sm_view (infoHashMap st) !! ih))),
            mkState m' (if bool_decide (is_Some (sm_view (infoHashMap st) !! ih)) then roots st else roots st ++ [i])
              (peers st0) (conns st) (tasks st) (sent st)) ∧
          sm_view m' = <[ih := r]> (sm_view (infoHashMap st)) ∧
          (if bool_decide (is_Some (sm_view (infoHashMap st) !! ih)) then roots st else roots st ++ [i]) !! r = Some i ∧
          booting_root st ih i ∧ torrent_of st ih = table (peers st) i ∧
          (∀ ih' r', ih' ≠ ih → sm_view (infoHashMap st) !! ih' = Some r' → r' ≠ r)) as
    (r & i & m' & -> & Hm' & Hi & Hb & Ht & Hne).
  { destruct (sm_view (infoHashMap st) !! ih) as [r|] eqn:E.
    - destruct (get_or_create_known st0 now ih r E) as (m' & -> & Hm'). destruct (Hst ih r E) as (i & Hi & Hb).
      exists r, i, m'. rewrite bool_decide_eq_true_2 by by eexists. split_and!; try done.
      + rewrite Hm'. simpl. by rewrite insert_id.
      + unfold torrent_of. rewrite sm_Load_ret, E. unfold root_at. by rewrite Hi.
      + intros ih' r' Hih Hr' ->. destruct (Hst _ _ Hr') as (i' & Hi' & Hih' & _). destruct Hb as [Hih2 _]. congruence.
    - destruct (get_or_create_unknown st0 now ih E) as (m' & -> & Hm').
      exists (length (roots st)), (NewInfoHashRoot ih now), m'. rewrite bool_decide_eq_false_2 by by intros [? ?].
      split_and!; try done.
      + by rewrite lookup_app_r, Nat.sub_diag by lia.
      + apply booting_new_root.
      + unfold torrent_of. rewrite sm_Load_ret, E. unfold table. by rewrite contents_new.
      + intros ih' r' _ Hr' ->. destruct (Hst _ _ Hr') as (i' & Hi' & _). apply lookup_lt_Some in Hi'. lia. }
  set (b := bool_decide _) in *. destruct (booting_Store st ih i x Hb) as [Hb' Ht'].
  unfold root_at. cbn [roots]. rewrite Hi. cbn [default from_option]. unfold put_root, set_roots. cbn [roots].
  assert (∀ r', r' ≠ r → ∀ i', roots st !! r' = Some i' → (if b then roots st else roots st ++ [i]) !! r' = Some i') as Hold.
  { intros r' _ i' Hi'. destruct b; [done|]. by apply lookup_app_l_Some. }
  split.
  - intros ih' r'. cbn [infoHashMap roots]. rewrite Hm', lookup_insert_Some. intros [[<- <-]|[Hih Hr']].
    + rewrite list_lookup_insert_eq by by eapply lookup_lt_Some. eexists. split; [done|]. by eapply booting_frame.
    + rewrite list_lookup_insert_ne by (intros ->; by eapply Hne). destruct (Hst _ _ Hr') as (i' & Hi' & Hbi').
      exists i'. split; [apply Hold; [by eapply Hne|done]|]. eapply booting_frame; [done|]. cbn. rewrite length_app. lia.
  - intros ih'. unfold torrent_of at 1. cbn [infoHashMap peers]. rewrite sm_Load_ret, Hm', lookup_insert.
    destruct (decide (ih' = ih)) as [->|Hih].
    + rewrite decide_True by done. unfold root_at. cbn [roots]. rewrite list_lookup_insert_eq by by eapply lookup_lt_Some.
      cbn [default from_option]. rewrite Ht. exact Ht'.
    + rewrite decide_False by congruence. unfold torrent_of. rewrite sm_Load_ret.
      destruct (sm_view (infoHashMap st) !! ih') as [r'|] eqn:E; [|done].
      destruct (Hst _ _ E) as (i' & Hi' & Hbi'). unfold root_at. cbn [roots].
      rewrite list_lookup_insert_ne by (intros ->; by eapply Hne). rewrite (Hold r' ltac:(by eapply Hne) i' Hi'), Hi'.
      cbn [default from_option]. by eapply table_frame.
Qed.

Lemma booting_new : booting NewLocalManger.
Proof. intros ih r. simpl. by rewrite sm_view_new, lookup_empty. Qed.
End Boot.

(** ** Loading a file *)
Section Load.
Context {M : Type → Type} {B F : Type} `{SyncStringMapLaws M} `{BloomFilterLaws B} `{IPFilterLaws F} `{StoreCodecLaws}.
Context (cfg : Config).
Implicit Types (m : MuxLocalManager M B F) (s : Store).

(** The record of [s] in a file. *)
Definition encoded s : bytes :=
  match EncodeObject s with
  | Ok b => match CompressLevel b with Ok c => framed c | Err _ => [] end
  | Err _ => []
  end.

(** [s] can be written, and its record fits the buffers it is read into. *)
Definition record_ok (cap : nat) s : Prop :=
  ∃ b c, EncodeObject s = Ok b ∧ CompressLevel b = Ok c ∧ (length b ≤ pool_len)%nat ∧ (0 < length c ≤ cap)%nat.

Definition some_shards m : Prop := localList m ≠ [] ∧ Z.of_nat (length (localList m)) < 2 ^ 64.

Definition store_one (now : Z) m s : MuxLocalManager M B F :=
  if too_old cfg now (st_Peer s) then m
  else default m (mux_DirectStore now (st_InfoHash s) (PeerIDLToCommon (wire_peer nil_binary (st_Peer s))) m).

Lemma store_one_length now m s : length (localList (store_one now m s)) = length (localList m).
Proof.
  unfold store_one. destruct (too_old _ _ _); [done|]. unfold mux_DirectStore.
  destruct (localList m !! _); simpl; [|done]. by rewrite length_insert.
Qed.

Lemma store_all_length now ss m : length (localList (fold_left (store_one now) ss m)) = length (localList m).
Proof. revert m. induction ss as [|s ss IH]; intros m; [done|]. cbn [fold_left]. by rewrite IH, store_one_length. Qed.

Lemma some_shards_length m m' : length (localList m') = length (localList m) → some_shards m → some_shards m'.
Proof.
  intros E [Hne Hlt]. split; [|lia]. intros E'. rewrite E' in E. apply Hne. by destruct (localList m).
Qed.

Lemma mux_DirectStore_some now ih x m : some_shards m → is_Some (mux_DirectStore now ih x m).
Proof.
  intros [Hne Hlt]. unfold mux_DirectStore. destruct (shard_of_lt ih m Hne Hlt) as [w ->]. by eexists.
Qed.

(** Good records are loaded one by one, whatever follows them. *)
Lemma load_loop_prefix fuel now bufs r ss rest m count expired :
  buffers_ok bufs → Forall (record_ok (buf_cap bufs)) ss → view r = flat_map encoded ss ++ rest → (length ss < fuel)%nat →
  some_shards m →
  ∃ fuel' bufs' r' count' expired', load_loop cfg fuel now bufs r (m, count, expired)
    = load_loop cfg (Datatypes.S fuel') now bufs' r' (fold_left (store_one now) ss m, count', expired') ∧
    view r' = rest ∧ buf_cap bufs' = buf_cap bufs.
Proof.
  intros Hb Hss. revert fuel bufs Hb r m count expired Hss.
  induction ss as [|s ss IH]; intros fuel bufs Hb r m count expired Hss Hv Hf Hm; destruct fuel as [|fuel]; [lia| |lia|].
  - by exists fuel, bufs, r, count, expired.
  - cbn [length] in Hf. apply Forall_cons_iff in Hss as [(b & c & Eb & Ec & Hlb & Hlc) Hss].
    cbn [flat_map] in Hv. unfold encoded in Hv at 1. rewrite Eb, Ec, <- app_assoc in Hv.
    destruct (read_record_framed bufs r c _ Hb Hlc Hv) as (bufs1 & r1 & Er & Hv1 & Hcap).
    assert (buffers_ok bufs1) as Hb1 by (unfold buffers_ok; by rewrite Hcap).
    assert (∃ c1 e1, load_loop cfg (S fuel) now bufs r (m, count, expired)
      = load_loop cfg fuel now bufs1 r1 (store_one now m s, c1, e1)) as (c1 & e1 & ->).
    { cbn [load_loop]. rewrite Er. unfold decode_record.
      rewrite (DecompressInto_fits b c pool_len Ec Hlb), (DecodeObject_Encode s b Eb).
      change (too_old cfg now (st_Peer (wire_store nil_binary s))) with (too_old cfg now (st_Peer s)).
      unfold store_one. destruct (too_old cfg now (st_Peer s)); [by eexists _, _|].
      cbn [wire_store st_InfoHash st_Peer].
      destruct (mux_DirectStore_some now (st_InfoHash s) (PeerIDLToCommon (wire_peer nil_binary (st_Peer s))) m Hm) as [m' ->].
      by eexists _, _. }
    destruct (IH fuel bufs1 Hb1 r1 (store_one now m s) c1 e1) as (f' & b' & r' & c' & e' & -> & Hv' & Hc');
      [by rewrite Hcap|done|lia|by eapply some_shards_length; [apply store_one_length|]|].
    exists f', b', r', c', e'. by rewrite Hc'.
Qed.

Lemma encoded_length cap s : record_ok cap s → (0 < length (encoded s))%nat.
Proof using Type.
  intros (b & c & Eb & Ec & _ & Hc). unfold encoded. rewrite Eb, Ec. unfold framed. rewrite length_app. lia.
Qed.

Lemma encoded_all_length cap ss : Forall (record_ok cap) ss → (length ss ≤ length (flat_map encoded ss))%nat.
Proof using Type.
  induction 1 as [|s ss Hs _ IH]; [simpl; lia|]. cbn [flat_map length].
  pose proof (encoded_length _ s Hs). rewrite length_app. lia.
Qed.

Lemma load_file_records now bufs ss m count expired :
  buffers_ok bufs → Forall (record_ok (buf_cap bufs)) ss → some_shards m →
  ∃ count' expired', load_file cfg now bufs (flat_map encoded ss) (m, count, expired)
    = Some (fold_left (store_one now) ss m, count', expired').
Proof.
  intros Hb Hss Hm. pose proof (encoded_all_length _ _ Hss). unfold load_file.
  destruct (load_loop_prefix (S (length (flat_map encoded ss))) now bufs (new_reader (flat_map encoded ss)) ss [] m count expired)
    as (f & b & r & c & e & -> & Hv & _); [done|done|by rewrite app_nil_r|lia|done|].
  cbn [load_loop]. rewrite read_record_end by done. by eexists _, _.
Qed.

(** A record too large for the buffer it is decompressed into ends the file. *)
Lemma load_file_cut now bufs ss s rest m count expired b c :
  buffers_ok bufs → Forall (record_ok (buf_cap bufs)) ss → some_shards m →
  EncodeObject s = Ok b → CompressLevel b = Ok c → (pool_len < length b)%nat → (0 < length c ≤ buf_cap bufs)%nat →
  ∃ count' expired', load_file cfg now bufs (flat_map encoded ss ++ encoded s ++ rest) (m, count, expired)
    = Some (fold_left (store_one now) ss m, count', expired').
Proof.
  intros Hb Hss Hm Eb Ec Hlb Hlc. pose proof (encoded_all_length _ _ Hss). unfold load_file.
  destruct (load_loop_prefix (S (length (flat_map encoded ss ++ encoded s ++ rest))) now bufs
    (new_reader (flat_map encoded ss ++ encoded s ++ rest)) ss (encoded s ++ rest) m count expired)
    as (f & b' & r & c' & e & -> & Hv & Hcap); [done|done|done|rewrite length_app; lia|done|].
  unfold encoded in Hv. rewrite Eb, Ec in Hv.
  destruct (read_record_framed b' r c rest) as (b'' & r' & Er & _); [unfold buffers_ok; by rewrite Hcap|by rewrite Hcap|done|].
  cbn [load_loop]. rewrite Er. unfold decode_record. pose proof (DecompressInto_small b c pool_len Ec Hlb) as Hd.
  destruct (DecompressInto pool_len c); [done|]. by eexists _, _.
Qed.

Lemma load_files_records now bufs env fs sss m count expired :
  buffers_ok bufs → (∀ name, TryRLock env name = Ok true) → (∀ name, can_open env name = true) →
  Forall2 (fun e ss => e.2 = flat_map encoded ss ∧ Forall (record_ok (buf_cap bufs)) ss) fs sss → some_shards m →
  ∃ count' expired', load_files cfg now bufs env fs (m, count, expired)
    = Some (fold_left (store_one now) (concat sss) m, count', expired').
Proof.
  intros Hb Hl Ho Hfs. revert m count expired. induction Hfs as [|[name content] ss fs sss [Hc Hss] _ IH]; intros m count expired Hm.
  - by eexists _, _.
  - cbn [load_files concat snd] in *. rewrite Hl, Ho, fold_left_app. subst content.
    destruct (load_file_records now bufs ss m count expired Hb Hss Hm) as (c1 & e1 & ->).
    cbn [mbind option_bind]. apply IH. eapply some_shards_length; [apply store_all_length|done].
Qed.

(** ** What loading puts into the manager *)
Definition boot_mux m : Prop := ∀ n w, localList m !! n = Some w → booting w.
(** The peer a record restores. *)
Definition restored s : Peer := PeerIDLToCommon (wire_peer nil_binary (st_Peer s)).

Lemma store_one_torrent now m s :
  some_shards m → boot_mux m →
  boot_mux (store_one now m s) ∧
  ∀ ih, mux_torrent (store_one now m s) ih
    = if negb (too_old cfg now (st_Peer s)) && bool_decide (ih = st_InfoHash s)
      then <[ID (restored s) := restored s]> (mux_torrent m ih) else mux_torrent m ih.
Proof.
  intros [Hne Hlt] Hm. unfold store_one. destruct (too_old cfg now (st_Peer s)); [done|]. cbn [negb andb].
  destruct (shard_of_lt (st_InfoHash s) m Hne Hlt) as [w Hw]. unfold mux_DirectStore. rewrite Hw. cbn [fmap option_fmap option_map default from_option id].
  fold (restored s). destruct (DirectStore_torrent now (st_InfoHash s) (restored s) w (Hm _ _ Hw)) as [Hb Ht]. split.
  - intros n w'. simpl. intros [(_ & <- & _)|[_ Hw']]%list_lookup_insert_Some; [done|by eapply Hm].
  - intros ih. unfold mux_torrent at 1.
    assert (∀ w', shard_of ih (set_shard (shard_of (st_InfoHash s) m) w' m) = shard_of ih m) as ->
      by (intros; apply shard_of_eq; simpl; apply length_insert).
    cbn [set_shard localList]. case_bool_decide as Hih.
    + subst ih. rewrite list_lookup_insert_eq by by eapply lookup_lt_Some. rewrite Ht, decide_True by done.
      unfold mux_torrent. by rewrite Hw.
    + destruct (decide (shard_of ih m = shard_of (st_InfoHash s) m)) as [E|E].
      * rewrite E, list_lookup_insert_eq by by eapply lookup_lt_Some. rewrite Ht, decide_False by done.
        unfold mux_torrent. by rewrite E, Hw.
      * rewrite list_lookup_insert_ne by done. done.
Qed.

(** The live records of one torrent and peer id. *)
Definition live_record (now : Z) (ih k : string) s : Prop :=
  too_old cfg now (st_Peer s) = false ∧ st_InfoHash s = ih ∧ ID (restored s) = k.

Lemma store_all_torrent now ss m ih k :
  some_shards m → boot_mux m →
  (∀ s1 s2, s1 ∈ ss → s2 ∈ ss → live_record now ih k s1 → live_record now ih k s2 → restored s1 = restored s2) →
  ∀ x, mux_torrent (fold_left (store_one now) ss m) ih !! k = Some x ↔
    (∃ s, s ∈ ss ∧ live_record now ih k s ∧ x = restored s) ∨
    (∀ s, s ∈ ss → ¬ live_record now ih k s) ∧ mux_torrent m ih !! k = Some x.
Proof.
  revert m. induction ss as [|s ss IH]; intros m Hm Hb Hf x; cbn [fold_left].
  { split; [intros Hx; right; split; [by intros s ?%not_elem_of_nil|done]|].
    intros [(s & Hs & _)|[_ Hx]]; [by apply not_elem_of_nil in Hs|done]. }
  destruct (store_one_torrent now m s Hm Hb) as [Hb' Ht].
  rewrite IH; [|by eapply some_shards_length; [apply store_one_length|]|done|by intros s1 s2 ??; apply Hf; right].
  rewrite Ht. assert (negb (too_old cfg now (st_Peer s)) && bool_decide (ih = st_InfoHash s) = true ∧ ID (restored s) = k
      ↔ live_record now ih k s) as Hlive.
  { unfold live_record. rewrite andb_true_iff, negb_true_iff, bool_decide_eq_true. naive_solver. }
  assert ((if negb (too_old cfg now (st_Peer s)) && bool_decide (ih = st_InfoHash s)
           then <[ID (restored s):=restored s]> (mux_torrent m ih) else mux_torrent m ih) !! k = Some x
      ↔ live_record now ih k s ∧ x = restored s ∨ ¬ live_record now ih k s ∧ mux_torrent m ih !! k = Some x) as ->.
  { rewrite <- Hlive. destruct (negb _ && _); [rewrite lookup_insert_Some|]; naive_solver. }
  assert (live_record now ih k s ∨ ¬ live_record now ih k s) as Hd.
  { unfold live_record. destruct (too_old _ _ _); [right; by intros [? _]|].
    destruct (decide (st_InfoHash s = ih)), (decide (ID (restored s) = k)); tauto. }
  assert ((∃ s', s' ∈ ss ∧ live_record now ih k s') ∨ ∀ s', s' ∈ ss → ¬ live_record now ih k s') as Hd'.
  { clear -cfg. induction ss as [|s' ss IH]; [right; by intros s ?%not_elem_of_nil|].
    destruct IH as [(s2 & ? & ?)|Hn]; [left; exists s2; split; [by right|done]|].
    assert (live_record now ih k s' ∨ ¬ live_record now ih k s') as [Hl|Hl].
    { unfold live_record. destruct (too_old _ _ _); [right; by intros [? _]|].
      destruct (decide (st_InfoHash s' = ih)), (decide (ID (restored s') = k)); tauto. }
    - left. exists s'. split; [by left|done].
    - right. intros s2 [->|Hs2]%elem_of_cons; [done|by apply Hn]. }
  split.
  - intros [(s' & Hs' & Hl & ->)|[Hn [[Hl ->]|[Hl Hx]]]].
    + left. exists s'. split; [by right|done].
    + left. exists s. split; [by left|done].
    + right. split; [|done]. intros s' [->|Hs']%elem_of_cons; [done|by apply Hn].
  - intros [(s' & [->|Hs']%elem_of_cons & Hl & ->)|[Hn Hx]].
    + destruct Hd' as [(s2 & Hs2 & Hl2)|Hn]; [|right; split; [done|by left]].
      left. exists s2. split; [done|]. split; [done|]. apply Hf; [by left|by right|done|done].
    + left. by exists s'.
    + right. split; [intros s' Hs'; apply Hn; by right|]. right. split; [apply Hn; by left|done].
Qed.

(** ** What storing writes *)
Definition stores_of_root (st : State M) (ih : string) (i : InfoHashRoot M) : list Store :=
  omap (fun e => (fun x => mkStore ih (PeerCommonToIDL x)) <$> peers st !! e.2) (entries i).
Definition stores_of (st : State M) : list Store :=
  flat_map (fun e => stores_of_root st e.1 (root_at st e.2)) (sm_Range (infoHashMap st)).

Definition all_ok : nat → bool := fun _ => true.

Lemma store_peer_ok cap ih x w :
  (cap ≤ bufio_size)%nat → record_ok cap (mkStore ih (PeerCommonToIDL x)) →
  ∃ n, store_peer all_ok ih x w = (mkWriter n (w_out w ++ encoded (mkStore ih (PeerCommonToIDL x))), true).
Proof using Type.
  intros Hcap (b & c & Eb & Ec & _ & Hc). unfold store_peer, encoded. rewrite Eb, Ec. unfold write, all_ok. cbn [w_calls w_out].
  eexists. f_equal. f_equal. unfold framed. rewrite <- app_assoc. do 2 f_equal.
  apply (f_equal (le_encode 4)). apply wrap_u_small. unfold bufio_size in Hcap. lia.
Qed.

Lemma range_loop_all {V A} (f : A → string → V → A * bool) l a :
  (∀ a k v, (k, v) ∈ l → (f a k v).2 = true) →
  range_loop f l a = fold_left (fun a e => (f a e.1 e.2).1) l a.
Proof using Type.
  revert a. induction l as [|[k v] l IH]; intros a Hf; [done|]. cbn [range_loop fold_left fst snd].
  pose proof (Hf a k v ltac:(by left)) as E. destruct (f a k v) as [a' b]. simpl in *. subst b.
  apply IH. intros; apply Hf; by right.
Qed.

Lemma root_Range_all {A} (f : A → string → nat → A * bool) (i : InfoHashRoot M) a :
  (∀ a k p, (k, p) ∈ entries i → (f a k p).2 = true) →
  root_Range f i a = fold_left (fun a e => (f a e.1 e.2).1) (entries i) a.
Proof using Type.
  unfold root_Range, entries. revert a. induction (peerMap i) as [|pm ms IH]; intros a Hf; [done|].
  cbn [fold_left flat_map] in *. rewrite fold_left_app. unfold Range at 2. rewrite range_loop_all.
  - apply IH. intros; apply Hf. apply elem_of_app. by right.
  - intros; apply Hf. apply elem_of_app. by left.
Qed.

Lemma store_visits_out cap (st : State M) ih es w :
  (cap ≤ bufio_size)%nat →
  Forall (record_ok cap) (omap (M := list) (fun e : string * nat => (fun x => mkStore ih (PeerCommonToIDL x)) <$> peers st !! e.2) es) →
  w_out (fold_left (fun a e => (store_visit all_ok st ih a e.1 e.2).1) es w)
  = w_out w ++ flat_map encoded (omap (fun e : string * nat => (fun x => mkStore ih (PeerCommonToIDL x)) <$> peers st !! e.2) es).
Proof using Type.
  intros Hcap. revert w. induction es as [|[k p] es IH]; intros w Hok; [by rewrite app_nil_r|].
  cbn [fold_left fst snd]. csimpl in Hok. csimpl. unfold store_visit at 2.
  destruct (peers st !! p) as [x|]; csimpl in *; [|by apply IH].
  apply Forall_cons_iff in Hok as [Hx Hok]. destruct (store_peer_ok cap ih x w Hcap Hx) as [n ->].
  cbn [fst]. rewrite IH by done. cbn [w_out]. by rewrite <- app_assoc.
Qed.

Lemma store_shard_out cap (st : State M) :
  (cap ≤ bufio_size)%nat → Forall (record_ok cap) (stores_of st) →
  w_out (store_shard all_ok st) = flat_map encoded (stores_of st).
Proof using Type.
  intros Hcap. unfold store_shard, stores_of, Range. rewrite range_loop_fold.
  assert (∀ l w, Forall (record_ok cap) (flat_map (fun e => stores_of_root st e.1 (root_at st e.2)) l) →
    w_out (fold_left (fun a e => root_Range (store_visit all_ok st e.1) (root_at st e.2) a) l w)
    = w_out w ++ flat_map encoded (flat_map (fun e => stores_of_root st e.1 (root_at st e.2)) l)) as Hl.
  { induction l as [|[ih r] l IH]; intros w Hok; [by rewrite app_nil_r|]. cbn [fold_left flat_map fst snd] in *.
    apply Forall_app in Hok as [H1' H2']. rewrite IH by done. rewrite flat_map_app, app_assoc. f_equal.
    rewrite root_Range_all.
    - by apply (store_visits_out cap).
    - intros a k p Hkp. unfold store_visit. destruct (peers st !! p) as [x|] eqn:Hx; [|done].
      rewrite Forall_forall in H1'. destruct (store_peer_ok cap ih x a Hcap) as [n ->]; [|done].
      apply H1', list_elem_of_omap. exists (k, p). split; [done|]. simpl. by rewrite Hx. }
  intros Hok. by rewrite Hl.
Qed.

(** A record stands for an entry of the torrent it names. *)
Lemma stores_of_elem (st : State M) s :
  state_ok cfg st → (∀ ih, separated_at st ih) →
  s ∈ stores_of st ↔ ∃ ih k x, torrent_of st ih !! k = Some x ∧ s = mkStore ih (PeerCommonToIDL x) ∧ ID x = k.
Proof.
  intros Hok Hsep. unfold stores_of. rewrite list_elem_of_In, in_flat_map. split.
  - intros ([ih r] & Hr%list_elem_of_In%sm_Range_elem & Hs%list_elem_of_In). cbn [fst snd] in Hs.
    apply list_elem_of_omap in Hs as ([k p] & Hkp & Hs). cbn [snd] in Hs.
    destruct (peers st !! p) as [x|] eqn:Hx; [|done]. injection Hs as <-.
    destruct (ok_map cfg st Hok _ _ Hr) as (i & Hi & _).
    destruct (entries_lookup cfg (peers st) (root_at st r) k p) as (y & Hy & Hid & _);
      [apply root_at_ok; [done|by eapply lookup_lt_Some]|done|].
    rewrite Hx in Hy. injection Hy as <-.
    exists ih, k, x. split_and!; [|done|done]. unfold torrent_of. rewrite sm_Load_ret, Hr, table_lookup.
    apply entries_elem in Hkp as (pm & Hpm & Hk). rewrite sm_Load_ret in Hk.
    unfold contents. erewrite views_Some_sep; [exact Hx| |exact Hpm|exact Hk].
    apply (Hsep ih). by rewrite sm_Load_ret.
  - intros (ih & k & x & Ht & -> & Hid). unfold torrent_of in Ht. rewrite sm_Load_ret in Ht.
    destruct (sm_view (infoHashMap st) !! ih) as [r|] eqn:Hr; [|by rewrite lookup_empty in Ht].
    rewrite table_lookup in Ht. destruct (contents (root_at st r) !! k) as [p|] eqn:Hc; [|done]. simpl in Ht.
    exists (ih, r). split; [by apply list_elem_of_In, sm_Range_elem|]. apply list_elem_of_In, list_elem_of_omap.
    exists (k, p). cbn [fst snd]. rewrite Ht. split; [|done]. apply entries_elem.
    apply views_Some in Hc as (pm & Hpm & Hk). exists pm. by rewrite sm_Load_ret.
Qed.

(** ** Files *)
Notation file := (PersistFile (Memory (Tracker cfg))).

Lemma bytes_of_string_app (a b : string) :
  bytes_of_string (a ++ b)%string = bytes_of_string a ++ bytes_of_string b.
Proof using Type. induction a as [|c a IH]; [done|]. exact (f_equal (cons _) IH). Qed.

Lemma persist_name_bytes (f : string) i :
  bytes_of_string (persist_name f i) = bytes_of_string (f ++ ".")%string ++ Itoa_bytes (Z.of_nat i).
Proof using Type.
  unfold persist_name, Itoa. rewrite !bytes_of_string_app, bytes_of_string_of_bytes. by rewrite <- app_assoc.
Qed.

Lemma persist_name_inj f i j : persist_name f i = persist_name f j → i = j.
Proof using Type.
  intros E%(f_equal bytes_of_string). rewrite !persist_name_bytes in E. apply app_inv_head in E.
  unfold Itoa_bytes in E. rewrite !(proj2 (Z.ltb_ge _ _)) in E by lia.
  destruct (utoa_spec (Z.of_nat i)) as [Ei _], (utoa_spec (Z.of_nat j)) as [Ej _]; [lia..|].
  rewrite E in Ei. lia.
Qed.

Lemma glob_persist f i : glob_match f (persist_name f i) = true.
Proof using Type.
  unfold glob_match. rewrite persist_name_bytes, take_app_length, drop_app_length, bool_decide_eq_true_2 by done.
  cbn [andb]. apply negb_true_iff, not_true_iff_false. rewrite existsb_exists. intros (c & Hc & E).
  apply list_elem_of_In in Hc. unfold Itoa_bytes in Hc. rewrite (proj2 (Z.ltb_ge _ _)) in Hc by lia.
  destruct (utoa_spec (Z.of_nat i)) as (_ & Hd & _); [lia|]. rewrite Forall_forall in Hd. apply Hd in Hc.
  apply Byte.byte_dec_bl in E as <-. discriminate Hc.
Qed.

(** Every shard's file is written. *)
Definition good_files : nat → file_env := fun _ => mkFileEnv true true all_ok (fun b => b).

Lemma store_files_lookup ws n fs name c :
  (∀ i, (n ≤ i)%nat → fs !! persist_name file i = None) →
  store_files cfg good_files n ws fs !! name = Some c ↔
  (∃ i w, ws !! i = Some w ∧ name = persist_name file (n + i) ∧ c = w_out (store_shard (M := M) all_ok w)) ∨
  fs !! name = Some c.
Proof using Type.
  revert n fs. induction ws as [|w ws IH]; intros n fs Hfs.
  - cbn [store_files]. split; [by right|]. by intros [(i & w & Hw & _)|?].
  - cbn [store_files]. unfold store_file, good_files. cbn [f_lock f_open f_flush f_write]. fold good_files.
    rewrite IH.
    2: { intros i Hi. rewrite lookup_insert_ne; [apply Hfs; lia|]. intros E%persist_name_inj. lia. }
    rewrite lookup_insert_Some. split.
    + intros [(i & w' & Hw' & -> & ->)|[[<- <-]|[_ ?]]].
      * left. exists (S i), w'. by rewrite Nat.add_succ_r.
      * left. exists 0%nat, w. by rewrite Nat.add_0_r.
      * by right.
    + intros [([|i] & w' & Hw' & -> & ->)|Hc].
      * right. left. simpl in Hw'. injection Hw' as ->. by rewrite Nat.add_0_r.
      * left. exists i, w'. by rewrite Nat.add_succ_comm.
      * right. right. split; [|done]. intros <-. by rewrite Hfs in Hc.
Qed.

Lemma Forall_Forall2_exists {A C} (P : A → C → Prop) l : (∀ x, x ∈ l → ∃ y, P x y) → ∃ ys, Forall2 P l ys.
Proof using Type.
  induction l as [|x l IH]; intros Hl; [by exists []|].
  destruct (Hl x) as [y Hy]; [by left|]. destruct IH as [ys Hys]; [intros; apply Hl; by right|].
  exists (y :: ys). by constructor.
Qed.

(** ** Storing and loading *)
Definition good_load : load_env := mkLoadEnv (fun _ => Ok true) (fun _ => true) (fun _ => true).

Lemma torrent_id st ih k x : state_ok cfg st → torrent_of st ih !! k = Some x → ID x = k.
Proof using Type*.
  intros Hok. unfold torrent_of. rewrite sm_Load_ret.
  destruct (sm_view (infoHashMap st) !! ih) as [r|] eqn:Hr; [|by rewrite lookup_empty].
  rewrite table_lookup. intros Ht. destruct (contents (root_at st r) !! k) as [p|] eqn:Hc; [|done]. simpl in Ht.
  destruct (ok_map cfg st Hok _ _ Hr) as (i & Hi & _).
  apply views_Some in Hc as (pm & Hpm & Hk).
  destruct (entries_lookup cfg (peers st) (root_at st r) k p) as (y & Hy & Hid & _).
  - apply root_at_ok; [done|by eapply lookup_lt_Some].
  - apply entries_elem. exists pm. by rewrite sm_Load_ret.
  - congruence.
Qed.

Lemma mux_torrent_id cached num b m ih k x :
  mux_reachable cfg cached num b m → mux_torrent m ih !! k = Some x → ID x = k.
Proof using Type*.
  intros Hr. unfold mux_torrent. destruct (localList m !! shard_of ih m) as [w|] eqn:Hw; [|by rewrite lookup_empty].
  apply torrent_id, reachable_ok. by eapply (mux_steps_routed _ _ _ _ _ _ Hr (routed_new cfg num b)).
Qed.

(** The records of all shards stand for the torrents of the manager. *)
Lemma stores_of_mux cached num b m s :
  mux_reachable cfg cached num b m →
  (∀ n w ih, localList m !! n = Some w → separated_at w ih) →
  (∃ n w, localList m !! n = Some w ∧ s ∈ stores_of w) ↔
  ∃ ih k x, mux_torrent m ih !! k = Some x ∧ s = mkStore ih (PeerCommonToIDL x) ∧ ID x = k.
Proof using Type*.
  intros Hr Hsep. pose proof (mux_steps_routed _ _ _ _ _ _ Hr (routed_new cfg num b)) as Hm.
  assert (∀ n w, localList m !! n = Some w → state_ok cfg w ∧ ∀ ih, is_Some (sm_view (infoHashMap w) !! ih) → shard_of ih m = n) as Hw.
  { intros n w Hn. destruct (Hm n w Hn) as [Ha Hb]. split; [by apply reachable_ok|done]. }
  split.
  - intros (n & w & Hn & Hs). destruct (Hw n w Hn) as [Hok Hi].
    apply (stores_of_elem w s Hok) in Hs as (ih & k & x & Ht & -> & Hk); [|by intros; eapply Hsep].
    exists ih, k, x. split_and!; [|done|done]. unfold mux_torrent. rewrite (Hi ih), Hn; [done|].
    unfold torrent_of in Ht. rewrite sm_Load_ret in Ht. by destruct (sm_view (infoHashMap w) !! ih); [eexists|].
  - intros (ih & k & x & Ht & -> & Hk). unfold mux_torrent in Ht.
    destruct (localList m !! shard_of ih m) as [w|] eqn:Hn; [|done]. exists (shard_of ih m), w. split; [done|].
    apply (stores_of_elem w _ (proj1 (Hw _ _ Hn))); [by intros; eapply Hsep|]. by exists ih, k, x.
Qed.

Lemma boot_new num b : boot_mux (NewMuxLocalManager num b).
Proof using Type*. intros n w [-> _]%lookup_replicate. apply booting_new. Qed.

Lemma mux_torrent_new num (b : Ban.Manager B F) ih : mux_torrent (NewMuxLocalManager num b) ih = ∅.
Proof using Type*.
  unfold mux_torrent. destruct (localList _ !! _) as [w|] eqn:E; [|done]. apply lookup_replicate in E as [-> _].
  unfold torrent_of. simpl. by rewrite sm_Load_ret, sm_view_new.
Qed.

Lemma some_shards_new num b : 0 < num < 2 ^ 64 → some_shards (NewMuxLocalManager num b).
Proof using Type*.
  intros Hn. split; [|unfold NewMuxLocalManager; cbn [localList]; rewrite length_replicate; lia].
  unfold NewMuxLocalManager. cbn [localList]. destruct (Z.to_nat num) eqn:E; [lia|done].
Qed.

Lemma Forall2_elem {A C} (P : A → C → Prop) l k :
  Forall2 P l k → (∀ x, x ∈ l → ∃ y, y ∈ k ∧ P x y) ∧ (∀ y, y ∈ k → ∃ x, x ∈ l ∧ P x y).
Proof using Type.
  induction 1 as [|x y l k Hxy _ [IHl IHk]]; [by split; intros ? ?%not_elem_of_nil|].
  split; intros z [->|Hz]%elem_of_cons; [exists y|destruct (IHl z Hz) as (z' & ? & ?); exists z'|exists x|destruct (IHk z Hz) as (z' & ? & ?); exists z'];
    (split; [|done]); try (by left); by right.
Qed.

(** The files a start finds after a stop that wrote every shard. *)
Lemma stored_files cap (ws : list (State M)) (fs0 : files) :
  (cap ≤ bufio_size)%nat → (∀ name, is_Some (fs0 !! name) → glob_match file name = false) →
  (∀ n w, ws !! n = Some w → Forall (record_ok cap) (stores_of w)) →
  let fs := store_files cfg good_files 0 ws fs0 in
  base.filter (fun e : string * bytes => negb (glob_match file e.1 && can_remove good_load e.1)) fs = fs0 ∧
  ∃ sss, Forall2 (fun e ss => e.2 = flat_map encoded ss ∧ Forall (record_ok cap) ss)
           (base.filter (fun e : string * bytes => glob_match file e.1) (map_to_list fs)) sss ∧
         ∀ s, s ∈ concat sss ↔ ∃ n w, ws !! n = Some w ∧ s ∈ stores_of w.
Proof using Type*.
  intros Hcap Hfs0 Hok fs.
  assert (∀ name c, fs !! name = Some c ↔ (∃ i w, ws !! i = Some w ∧ name = persist_name file i ∧ c = flat_map encoded (stores_of w))
           ∨ fs0 !! name = Some c) as Hfs.
  { intros name c. unfold fs. rewrite store_files_lookup.
    - split; (intros [(i & w & Hw & -> & ->)|]; [left; exists i, w|by right]); (split_and!; [done|done|]);
        [|symmetry]; apply (store_shard_out cap w Hcap); by eapply Hok.
    - intros i _. apply eq_None_not_Some. intros Hi%Hfs0. by rewrite glob_persist in Hi. }
  clearbody fs. split.
  - apply map_eq. intros name. apply option_eq. intros c. rewrite map_lookup_filter_Some, Hfs. cbn [fst can_remove good_load].
    rewrite andb_true_r, Is_true_true, negb_true_iff. split.
    + intros [[(i & w & _ & -> & _)|Hc] Hg]; [by rewrite glob_persist in Hg|done].
    + intros Hc. split; [by right|]. apply Hfs0. by eexists.
  - set (found := base.filter _ (map_to_list fs)).
    set (P := fun (e : string * bytes) ss => ∃ i w, ws !! i = Some w ∧ e = (persist_name file i, flat_map encoded ss) ∧ ss = stores_of w).
    assert (∀ e, e ∈ found ↔ ∃ i w, ws !! i = Some w ∧ e = (persist_name file i, flat_map encoded (stores_of w))) as Hfound.
    { intros [name c]. unfold found. rewrite list_elem_of_filter, elem_of_map_to_list, Hfs, Is_true_true. cbn [fst]. split.
      - intros [Hg [(i & w & Hw & -> & ->)|Hc]]; [by exists i, w|]. rewrite Hfs0 in Hg; [done|by eexists].
      - intros (i & w & Hw & [= -> ->]). split; [apply glob_persist|]. left. by exists i, w. }
    destruct (Forall_Forall2_exists P found) as [sss Hsss].
    { intros e (i & w & Hw & ->)%Hfound. exists (stores_of w), i, w. done. }
    exists sss. split.
    + eapply Forall2_impl; [exact Hsss|]. intros e ss (i & w & Hw & -> & ->). split; [done|by eapply Hok].
    + apply Forall2_elem in Hsss as [Hl Hr]. intros s. rewrite list_elem_of_In, in_concat. split.
      * intros (ss & Hss & Hs). apply list_elem_of_In in Hss, Hs. apply Hr in Hss as (e & _ & i & w & Hw & _ & ->).
        by exists i, w.
      * intros (n & w & Hw & Hs). destruct (Hl (persist_name file n, flat_map encoded (stores_of w))) as (ss & Hss & i & w' & Hw' & [= E _] & ->).
        { apply Hfound. by exists n, w. }
        apply persist_name_inj in E as <-. simplify_eq. exists (stores_of w). split; by apply list_elem_of_In.
Qed.

(** What a stop that wrote every shard leaves, a start restores. *)
Lemma store_load cached num b m num' b' now bufs fs0 :
  EnablePersist (Memory (Tracker cfg)) = true →
  mux_reachable cfg cached num b m →
  (∀ n w ih, localList m !! n = Some w → separated_at w ih) →
  (∀ ih k x, mux_torrent m ih !! k = Some x →
     peer_widths x ∧ record_ok (buf_cap bufs) (mkStore ih (PeerCommonToIDL x))) →
  buffers_ok bufs → 0 < num' < 2 ^ 64 →
  (∀ name, is_Some (fs0 !! name) → glob_match file name = false) →
  ∃ m', LoadFromPersist cfg now bufs good_load (StoreToPersist cfg true good_files m fs0) (NewMuxLocalManager num' b')
          = Some (m', fs0) ∧
    length (localList m') = Z.to_nat num' ∧
    ∀ ih k, mux_torrent m' ih !! k
      = (x ← mux_torrent m ih !! k; if too_old cfg now (PeerCommonToIDL x) then None else Some (received nil_binary x)).
Proof using Type*.
  intros Hen Hr Hsep Hx Hb Hn Hfs0.
  assert (∀ s, (∃ n w, localList m !! n = Some w ∧ s ∈ stores_of w) ↔
    ∃ ih k x, mux_torrent m ih !! k = Some x ∧ s = mkStore ih (PeerCommonToIDL x) ∧ ID x = k) as Hst.
  { intros s. by apply (stores_of_mux cached num b). }
  destruct (stored_files (buf_cap bufs) (localList m) fs0) as [Hrest (sss & Hsss & Hin)]; [apply Hb|done| |].
  { intros n w Hw. apply Forall_forall. intros s Hs. destruct (proj1 (Hst s)) as (ih & k & x & Hk & -> & _); [by exists n, w|].
    by eapply Hx. }
  unfold LoadFromPersist, StoreToPersist. rewrite Hen. cbn [negb].
  destruct (load_files_records now bufs good_load _ sss (NewMuxLocalManager num' b') 0 0 Hb (fun _ => eq_refl) (fun _ => eq_refl) Hsss
    (some_shards_new num' b' Hn)) as (c & e & ->).
  cbn [mbind option_bind]. rewrite Hrest. eexists. split; [reflexivity|]. split.
  { rewrite store_all_length. apply length_replicate. }
  assert (∀ s, s ∈ concat sss ↔ ∃ ih k x, mux_torrent m ih !! k = Some x ∧ s = mkStore ih (PeerCommonToIDL x) ∧ ID x = k) as Hss.
  { intros s. by rewrite Hin, Hst. }
  assert (∀ ih k x, mux_torrent m ih !! k = Some x → restored (mkStore ih (PeerCommonToIDL x)) = received nil_binary x ∧ ID x = k) as Hrec.
  { intros ih k x Hk. split; [apply peer_roundtrip; by eapply Hx|by eapply mux_torrent_id]. }
  assert (∀ ih k s, s ∈ concat sss → live_record now ih k s → ∃ x, mux_torrent m ih !! k = Some x ∧
    too_old cfg now (PeerCommonToIDL x) = false ∧ restored s = received nil_binary x) as Hlive.
  { intros ih k s (ih' & k' & x & Hk & -> & _)%Hss (Ho & <- & Hid). destruct (Hrec _ _ _ Hk) as [Er Ek].
    rewrite Er in Hid |- *. cbn in Hid. subst k' k. by exists x. }
  intros ih k. apply option_eq. intros y.
  rewrite (store_all_torrent now (concat sss) _ ih k); [|by apply some_shards_new|apply boot_new|].
  - rewrite mux_torrent_new, lookup_empty. split.
    + intros [(s & Hs & Hl & ->)|[_ ?]]; [|done]. destruct (Hlive ih k s Hs Hl) as (x & -> & Ho & ->).
      cbn [mbind option_bind]. by rewrite Ho.
    + destruct (mux_torrent m ih !! k) as [x|] eqn:Hk; [|done]. cbn [mbind option_bind].
      destruct (too_old cfg now _) eqn:Ho; [done|]. intros [= <-]. left. destruct (Hrec _ _ _ Hk) as [Er Ek].
      exists (mkStore ih (PeerCommonToIDL x)). split_and!; [apply Hss; by exists ih, k, x| |done].
      split_and!; [done|done|]. by rewrite Er.
  - intros s1 s2 Hs1 Hs2 Hl1 Hl2. destruct (Hlive _ _ _ Hs1 Hl1) as (x1 & Hx1 & _ & ->).
    destruct (Hlive _ _ _ Hs2 Hl2) as (x2 & Hx2 & _ & ->). by simplify_eq.
Qed.

(** C15: Stopping and starting again keeps the peers: when every shard is
    written and every record fits the buffers it is read into (at most 400 bytes,
    encoded), a program that starts with any number of shards has, under every
    info hash and peer id, exactly the peer that was stored unless it is too old,
    its time in whole seconds and without its connection; and of the files only
    those of other names are left. *)
Theorem persist_restores cached num b m num' b' now bufs fs0 :
  EnablePersist (Memory (Tracker cfg)) = true →
  mux_reachable cfg cached num b m →
  (∀ n w ih, localList m !! n = Some w → separated_at w ih) →
  (∀ ih k x, mux_torrent m ih !! k = Some x →
     peer_widths x ∧ record_ok (buf_cap bufs) (mkStore ih (PeerCommonToIDL x))) →
  buffers_ok bufs → 0 < num' < 2 ^ 64 →
  (∀ name, is_Some (fs0 !! name) → glob_match file name = false) →
  ∃ m', LoadFromPersist cfg now bufs good_load (StoreToPersist cfg true good_files m fs0) (NewMuxLocalManager num' b')
          = Some (m', fs0) ∧
    length (localList m') = Z.to_nat num' ∧
    ∀ ih k, mux_torrent m' ih !! k
      = (x ← mux_torrent m ih !! k; if too_old cfg now (PeerCommonToIDL x) then None else Some (received nil_binary x)).
Proof using Type*. apply store_load. Qed.

(** ** What loading loses *)
Section OneFile.
Context (fs0 : files) (i : nat) (content : bytes).
Hypothesis others : ∀ name, is_Some (fs0 !! name) → glob_match file name = false.

Lemma found_one :
  base.filter (fun e : string * bytes => glob_match file e.1) (map_to_list (<[persist_name file i := content]> fs0))
  = [(persist_name file i, content)].
Proof using others.
  apply Permutation_singleton_r. rewrite map_to_list_insert.
  - rewrite filter_cons_True by (apply Is_true_true, glob_persist).
    replace (base.filter _ (map_to_list fs0)) with ([] : list (string * bytes)); [done|]. symmetry.
    apply list_nil_same_membership || apply elem_of_nil_inv. intros [name c]. rewrite list_elem_of_filter, elem_of_map_to_list, Is_true_true. cbn [fst].
    intros [Hg Hc]. rewrite others in Hg; [done|by eexists].
  - apply eq_None_not_Some. intros Hi%others. by rewrite glob_persist in Hi.
Qed.

Lemma left_over (env : load_env) :
  can_remove env (persist_name file i) = true →
  base.filter (fun e : string * bytes => negb (glob_match file e.1 && can_remove env e.1))
    (<[persist_name file i := content]> fs0) = fs0.
Proof using others.
  intros Hr. apply map_eq. intros name. apply option_eq. intros c.
  rewrite map_lookup_filter_Some, lookup_insert_Some, Is_true_true, negb_true_iff. cbn [fst]. split.
  - intros [[[<- _]|[_ Hc]] Hg]; [by rewrite glob_persist, Hr in Hg|done].
  - intros Hc. assert (glob_match file name = false) as Hg by (apply others; by eexists). rewrite Hg.
    split; [|done]. right. split; [|done]. intros <-. by rewrite glob_persist in Hg.
Qed.
End OneFile.

(** A record whose encoding is over the 400 bytes of the buffer it is
    decompressed into ends its file: the records after it are not loaded, exactly
    as if the file stopped before it, and the file is then removed. *)
Theorem large_record_cut now bufs ss s rest b c i num ban fs0 :
  EnablePersist (Memory (Tracker cfg)) = true → buffers_ok bufs → 0 < num < 2 ^ 64 →
  Forall (record_ok (buf_cap bufs)) ss →
  EncodeObject s = Ok b → CompressLevel b = Ok c → (pool_len < length b)%nat → (0 < length c ≤ buf_cap bufs)%nat →
  (∀ name, is_Some (fs0 !! name) → glob_match file name = false) →
  ∃ m', ∀ tail, tail = [] ∨ tail = encoded s ++ rest →
    LoadFromPersist cfg now bufs good_load (<[persist_name file i := flat_map encoded ss ++ tail]> fs0)
      (NewMuxLocalManager num ban) = Some (m', fs0).
Proof using Type*.
  intros Hen Hb Hn Hss Eb Ec Hlb Hlc Hfs0. eexists. intros tail Htail.
  unfold LoadFromPersist. rewrite Hen. cbn [negb]. rewrite found_one, left_over by done.
  assert (∃ c' e', load_files cfg now bufs good_load [(persist_name file i, flat_map encoded ss ++ tail)] (NewMuxLocalManager num ban, 0, 0)
    = Some (fold_left (store_one now) ss (NewMuxLocalManager num ban), c', e')) as (c' & e' & ->); [|reflexivity].
  cbn [load_files good_load TryRLock can_open].
  pose proof (some_shards_new num ban Hn) as Hm.
  destruct Htail as [->| ->].
  - rewrite app_nil_r. destruct (load_file_records now bufs ss _ 0 0 Hb Hss Hm) as (c' & e' & ->). by eexists _, _.
  - destruct (load_file_cut now bufs ss s rest _ 0 0 b c Hb Hss Hm Eb Ec Hlb Hlc) as (c' & e' & ->). by eexists _, _.
Qed.

(** A file that another process holds locked, or that cannot be opened, is not
    read, and removed all the same. *)
Lemma skipped_file_removed now bufs env i content num (ban : Ban.Manager B F) fs0 :
  EnablePersist (Memory (Tracker cfg)) = true →
  (∀ name, is_Some (fs0 !! name) → glob_match file name = false) →
  TryRLock env (persist_name file i) = Ok false ∨ can_open env (persist_name file i) = false →
  can_remove env (persist_name file i) = true →
  LoadFromPersist cfg now bufs env (<[persist_name file i := content]> fs0) (NewMuxLocalManager (M := M) num ban)
  = Some (NewMuxLocalManager (M := M) num ban, fs0).
Proof using Type*.
  intros Hen Hfs0 Hskip Hr. unfold LoadFromPersist. rewrite Hen. cbn [negb]. rewrite found_one, left_over by done.
  cbn [load_files]. destruct Hskip as [->| ->]; [done|]. by destruct (TryRLock env _) as [[|]|].
Qed.
End Load.

(** ** A concrete encoder and compressor *)
(** The encoder knows three records, the compressor marks its output. *)
Definition stored_p : Store := mkStore hash_a (PeerCommonToIDL (sample_peer "P" Byte.x01 PeerEvent_Started 7 sample_time)).
Definition stored_q : Store := mkStore hash_b (PeerCommonToIDL (sample_peer "Q" Byte.x01 PeerEvent_Started 7 sample_time)).
Definition large_peer : Peer :=
  {| IP := None; IPv4 := None; IPv6 := None; ClientIP := Some [Byte.xcb; Byte.x00; Byte.x71; Byte.x03];
     LastSeen := sample_time; Offers := []; ID := "L"; UserAgent := string_of_bytes (replicate 400 Byte.x41);
     Port := 6881; Left := 7; Uploaded := 0; Downloaded := 0; Conn := None; Type_ := PeerTypeBittorrent;
     Event := PeerEvent_Started; Source_ := SourceHTTP |}.
Definition stored_large : Store := mkStore hash_a (PeerCommonToIDL large_peer).
#[export] Instance idl_OfferDetail_eq_dec : EqDecision idl_OfferDetail.
Proof. solve_decision. Defined.
#[export] Instance idl_Offer_eq_dec : EqDecision idl_Offer.
Proof. solve_decision. Defined.
#[export] Instance idl_Peer_eq_dec : EqDecision idl_Peer.
Proof. solve_decision. Defined.
#[export] Instance Store_eq_dec : EqDecision Store.
Proof. solve_decision. Defined.

Definition large_code : bytes := replicate 401 Byte.x02.
#[export] Instance sample_codec : StoreCodec := {|
  EncodeObject s :=
    if decide (s = stored_p) then Ok [Byte.x00] else if decide (s = stored_q) then Ok [Byte.x01]
    else if decide (s = stored_large) then Ok large_code else Err "not in the table"%string;
  DecodeObject b :=
    if decide (b = [Byte.x00]) then Ok (wire_store (Some []) stored_p)
    else if decide (b = [Byte.x01]) then Ok (wire_store (Some []) stored_q)
    else if decide (b = large_code) then Ok (wire_store (Some []) stored_large) else Err "not in the table"%string;
  CompressLevel b := Ok (Byte.x28 :: b);
  DecompressInto n c := if (length (tail c) <=? n)%nat then Ok (tail c) else Err "destination too small"%string;
|}.
#[export] Program Instance sample_codec_laws : StoreCodecLaws := {| nil_binary := Some [] |}.
Next Obligation.
  intros s b. cbn. destruct (decide (s = stored_p)) as [->|_]; [by intros [= <-]|].
  destruct (decide (s = stored_q)) as [->|_]; [by intros [= <-]|].
  destruct (decide (s = stored_large)) as [->|_]; [by intros [= <-]|done].
Qed.
Next Obligation. intros b c n [= <-] Hn. cbn. by rewrite (proj2 (Nat.leb_le _ _)). Qed.
Next Obligation. intros b c n [= <-] Hn. cbn. by rewrite (proj2 (Nat.leb_gt _ _)). Qed.

Definition sample_bufs : buffers := mkBuffers 512 [].
Lemma sample_bufs_ok : buffers_ok sample_bufs.
Proof. split; vm_compute; lia. Qed.
Lemma stored_ok s : s = stored_p ∨ s = stored_q → record_ok (buf_cap sample_bufs) s.
Proof.
  intros [-> | ->]; [exists [Byte.x00], [Byte.x28; Byte.x00]|exists [Byte.x01], [Byte.x28; Byte.x01]];
    (split_and!; [vm_compute; reflexivity|reflexivity|vm_compute; lia..]).
Qed.

(** The shards of [two_torrents]. *)
Lemma shards_two n w :
  localList two_torrents !! n = Some w →
  sm_view (infoHashMap w) = ∅ ∨
  ∃ ih id, (ih, id) ∈ [(hash_a, "P"%string); (hash_b, "Q"%string)] ∧ sm_view (infoHashMap w) = {[ih := 0%nat]} ∧
    peerMap (root_at w 0) = [{[id := 0%nat]}; ∅; ∅] ∧
    peers w = [sample_peer id Byte.x01 PeerEvent_Started 7 sample_time].
Proof.
  destruct n as [|[|[|[|n]]]]; intros E;
    [left|right; exists hash_a, "P"%string|right; exists hash_b, "Q"%string|left|by vm_compute in E];
    apply (f_equal (default NewLocalManger)) in E; cbn [default from_option id] in E; subst w.
  all: try (vm_compute; reflexivity).
  all: split; [set_solver|]; split_and!; vm_compute; reflexivity.
Qed.

Lemma two_separated n w ih : localList two_torrents !! n = Some w → separated_at w ih.
Proof.
  intros Hw r. rewrite sm_Load_ret. destruct (shards_two n w Hw) as [-> |(h & id & _ & -> & Hp & _)]; [by rewrite lookup_empty|].
  intros [<- <-]%lookup_singleton_Some. unfold separated. rewrite Hp. intros a b pma pmb k Ha Hb [p Hk] [q Hk'].
  destruct a as [|[|[|a]]]; [|by injection Ha as <-|by injection Ha as <-|done].
  destruct b as [|[|[|b]]]; [done|by injection Hb as <-|by injection Hb as <-|done].
Qed.

Lemma two_stored ih k x :
  mux_torrent two_torrents ih !! k = Some x →
  x = sample_peer k Byte.x01 PeerEvent_Started 7 sample_time ∧ (ih, k) ∈ [(hash_a, "P"%string); (hash_b, "Q"%string)].
Proof.
  unfold mux_torrent. destruct (localList two_torrents !! shard_of ih two_torrents) as [w|] eqn:Hw; [|by rewrite lookup_empty].
  unfold torrent_of. rewrite sm_Load_ret.
  destruct (shards_two _ w Hw) as [-> |(h & id & Hin & -> & Hp & Hps)]; [by rewrite !lookup_empty|].
  destruct ({[h := 0%nat]} !! ih) as [r|] eqn:E; [|by rewrite lookup_empty].
  apply lookup_singleton_Some in E as [<- <-]. rewrite table_lookup, (contents_first _ {[id := 0%nat]}) by done.
  change (sm_view {[id := 0%nat]}) with ({[id := 0%nat]} : gmap string nat). rewrite lookup_singleton.
  case_decide as Hk; [|done]. subst k. rewrite Hps. intros E%(inj Some). subst x. split; [reflexivity|exact Hin].
Qed.

(** P and Q come back into two shards, an hour later neither does. *)
Lemma persist_restores_witness :
  ∃ m', LoadFromPersist (sample_cfg 400) sample_time sample_bufs good_load
          (StoreToPersist (sample_cfg 400) true good_files two_torrents {["persist.dat"%string := []]})
          (NewMuxLocalManager 2 (ban sample_mux)) = Some (m', {["persist.dat"%string := []]}) ∧
    length (localList m') = 2%nat ∧
    mux_torrent m' hash_b !! "Q"%string
    = Some (received (Some []) (sample_peer "Q" Byte.x01 PeerEvent_Started 7 sample_time)).
Proof.
  destruct (persist_restores (sample_cfg 400) (fun _ => None) 4 (ban sample_mux) two_torrents 2 (ban sample_mux)
    sample_time sample_bufs {["persist.dat"%string := []]}) as (m' & Hm & Hl & Ht).
  - reflexivity.
  - exact two_torrents_reachable.
  - exact two_separated.
  - intros ih k x Hx. apply two_stored in Hx as [-> Hk]. split; [vm_compute; split_and!; congruence|].
    apply stored_ok. apply elem_of_cons in Hk as [Hk|Hk%list_elem_of_singleton]; injection Hk as -> ->; [by left|by right].
  - exact sample_bufs_ok.
  - lia.
  - intros name [c Hc]. apply lookup_singleton_Some in Hc as [<- _]. vm_compute. reflexivity.
  - exists m'. split; [exact Hm|]. split; [exact Hl|]. rewrite Ht. vm_compute. reflexivity.
Defined.

(** P's record, then one that is too large, then Q's, which is lost. *)
Lemma large_record_cut_witness :
  ∃ m', LoadFromPersist (sample_cfg 400) sample_time sample_bufs good_load
          {["persist.dat.0"%string := encoded stored_p ++ encoded stored_large ++ encoded stored_q]}
          (NewMuxLocalManager 2 (ban sample_mux)) = Some (m', ∅) ∧
        LoadFromPersist (sample_cfg 400) sample_time sample_bufs good_load
          {["persist.dat.0"%string := encoded stored_p]}
          (NewMuxLocalManager 2 (ban sample_mux)) = Some (m', ∅).
Proof.
  destruct (large_record_cut (sample_cfg 400) sample_time sample_bufs [stored_p] stored_large (encoded stored_q)
    large_code (Byte.x28 :: large_code) 0 2 (ban sample_mux) ∅) as [m' Hm].
  - reflexivity.
  - exact sample_bufs_ok.
  - lia.
  - constructor; [apply stored_ok; by left|constructor].
  - vm_compute. reflexivity.
  - reflexivity.
  - vm_compute. lia.
  - vm_compute. lia.
  - intros name [c Hc]. discriminate.
  - exists m'. split; [exact (Hm _ (or_intror eq_refl))|exact (Hm _ (or_introl eq_refl))].
Defined.
