(* ===== verification/ManagerLaws.v ===== *)
(** What the front ends rely on of a peer manager: an invariant that announces
    and scrapes keep, and what the peers of an answer satisfy.  The sharded
    in-memory manager promises it. *)
From Stdlib Require Import ZArith Lia Bool Strings.String.
From stdpp Require Import base strings list gmap relations.
From S2P Require Import Prelude GoStd Config Model Common Mapx Local LocalInv LocalSafety LocalSpec BanItem IPFilter Ban Manager Mux MuxSpec.
Set Default Proof Using "Type*".
Local Open Scope Z_scope.

(** Fields of a request within the width of their Go types. *)
Definition request_widths (req : AnnounceRequest) : Prop :=
  - 2 ^ 31 ≤ req_Port req < 2 ^ 31 ∧ - 2 ^ 7 ≤ req_Type req < 2 ^ 7 ∧ - 2 ^ 7 ≤ req_Source req < 2 ^ 7.

(** A peer that may be handed to the one who sent [req]. *)
Definition offered (req : AnnounceRequest) (x : Peer) : Prop :=
  ID x ≠ req_PeerID req ∧ Type_ x = req_Type req ∧ Event x ≠ PeerEvent_Stopped.

Class PeerManagerLaws (S : Type) `{PeerManager S} := {
  (** the states of the manager, and the peers it hands out *)
  pm_ok : S → Prop;
  pm_serves : Peer → Prop;
  pm_announce_ok now now' (req : AnnounceRequest) st : pm_ok st → pm_ok (pm_HandleAnnouncePeer now now' req st).2;
  pm_scrape_ok now ih st : pm_ok st → pm_ok (pm_Scrape now ih st).2;
  pm_answer now now' (req : AnnounceRequest) st ps :
    request_widths req → 0 ≤ req_NumWant req → pm_ok st → (pm_HandleAnnouncePeer now now' req st).1 = Ok ps →
    Z.of_nat (length ps) ≤ req_NumWant req ∧ Forall (fun x => offered req x ∧ pm_serves x) ps;
}.
#[export] Hint Resolve pm_announce_ok pm_scrape_ok : trunker.

Section Mux.
Context {M : Type → Type} {B F : Type} `{SyncStringMapLaws M} `{BloomFilterLaws B} `{IPFilterLaws F}.
Context (cfg : Config) (o : io) (cached : string → option ScrapeFile).
Implicit Types (m : MuxLocalManager M B F) (w : Local.State M).

(** An announce only adds a record to the heap. *)
Lemma announce_heap now now' (req : AnnounceRequest) w :
  ∃ l, peers (Local.HandleAnnouncePeer cfg now now' req w).2 = peers w ++ l.
Proof.
  unfold Local.HandleAnnouncePeer, announce_begin. destruct (invalid_address _); [exists []; by rewrite app_nil_r|].
  set (x := peer_of_request now req).
  exists [x]. destruct (sm_view (infoHashMap w) !! req_InfoHash req) as [r|] eqn:Hih.
  - destruct (get_or_create_known (set_peers (peers w ++ [x]) w) now (req_InfoHash req) r Hih) as (m' & -> & _).
    cbv zeta. cbn [negb].
    set (w1 := match Conn x with Some _ => _ | None => _ end).
    assert (peers w1 = peers w ++ [x]) as E by (unfold w1; destruct (Conn x); [by destruct (_ =? _)|done]).
    destruct (Event x =? PeerEvent_Stopped).
    + cbn [snd]. pose proof (root_LoadAndDelete_frame w1 r (GetKey x)) as (E2 & _). by rewrite E2.
    + unfold announce_respond. destruct (peers (spawn _ w1) !! _); [|done].
      destruct (root_Range _ _ _) as [resp ex]. cbn [snd]. by destruct (0 <? _)%nat.
  - destruct (get_or_create_unknown (set_peers (peers w ++ [x]) w) now (req_InfoHash req) Hih) as (m' & -> & _).
    cbv zeta. cbn [negb]. set (w1 := match Conn x with Some _ => _ | None => _ end).
    assert (peers w1 = peers w ++ [x]) as E by (unfold w1; destruct (Conn x); [by destruct (_ =? _)|done]).
    cbn [snd]. by destruct (_ && _).
Qed.

Lemma read_peers_heap w w' l ps :
  peers w' = peers w ++ l → (∀ p, p ∈ ps → is_Some (peers w !! p)) →
  read_peers w' ps = read_peers w ps ∧ length (read_peers w' ps) = length ps.
Proof.
  unfold read_peers. intros E. induction ps as [|p ps IH]; intros Hps; [done|]. csimpl.
  destruct (Hps p) as [x Hx]; [by left|]. rewrite E, Hx, (lookup_app_l_Some _ _ _ _ Hx). csimpl.
  destruct IH as [E1 E2]; [by intros q Hq; apply Hps; right|]. by rewrite <- E, E1, <- E2, E1.
Qed.

(** The answer of a shard, read out. *)
Lemma shard_answer now now' (req : AnnounceRequest) w ps :
  reachable cfg w → (Local.HandleAnnouncePeer cfg now now' req w).1 = Ok ps →
  let xs := read_peers (Local.HandleAnnouncePeer cfg now now' req w).2 ps in
  Z.of_nat (length xs) ≤ Z.max 0 (req_NumWant req) ∧
  Forall (fun x => offered req x ∧ IsPeerConnectable (UseAnnounceIP (Tracker cfg)) x = true) xs.
Proof.
  intros Hr Hps. destruct (Local.HandleAnnouncePeer cfg now now' req w) as [resp w'] eqn:Hh. simpl in Hps. subst resp. cbv zeta. cbn [snd].
  destruct (answer_safe cfg now now' req w _ w' Hr Hh) as [[? _]|(ps' & [= <-] & Hl & Hp)]; [done|].
  destruct (announce_heap now now' req w) as [l El]. rewrite Hh in El. cbn [snd] in El.
  destruct (read_peers_heap w w' l ps El) as [E1 E2]; [intros p (r & x & _ & _ & Hx & _)%Hp; by eexists|].
  rewrite E2. split; [done|]. rewrite E1. apply Forall_forall. unfold read_peers.
  intros x (p & Hin & Hx)%list_elem_of_omap. destruct (Hp p Hin) as (r & x' & _ & _ & Hx' & ? & ? & _ & ? & ?). simplify_eq.
  by split_and!.
Qed.

#[export] Program Instance mux_laws : PeerManagerLaws (MuxLocalManager M B F) (H := mux_manager cfg o cached) := {|
  pm_ok := routed cfg; pm_serves x := IsPeerConnectable (UseAnnounceIP (Tracker cfg)) x = true |}.
Next Obligation. intros now now' req st. apply (mux_step_routed cfg cached (fun _ => True) True). apply mux_announce. Qed.
Next Obligation. intros now ih st. apply (mux_step_routed cfg cached (fun _ => True) True). apply mux_Scrape. Qed.
Next Obligation.
  intros now now' req st ps _ Hn Hst. cbn. unfold HandleAnnouncePeer. destruct (check_bans req st); [done|].
  unfold serve, on_shard. destruct (localList st !! _) as [w|] eqn:Hw; [|done].
  pose proof (shard_answer now now' req w) as Ha.
  destruct (Local.HandleAnnouncePeer cfg now now' req w) as [[ps'|e] w']; [|done]. simpl. intros [= <-].
  destruct (Ha ps') as [Hl Hp]; [by eapply Hst|done|]. simpl in Hl. split; [lia|done].
Qed.
End Mux.
