(* ===== verification/Http.v ===== *)
(** The HTTP front end ([biz/handler/announce.go], [ping.go], [utils/http]):
    the client's address, the announce, scrape and statistic handlers over any
    peer manager.

    What the web framework provides is an argument: the outcome of binding a
    request, its headers and peer address, the rendering of JSON.  So are the
    third-party helpers [exstrings.SubString] and [fastrand.Intn]. *)
From Stdlib Require Import ZArith Lia Bool Strings.String.
From stdpp Require Import base strings list gmap.
From S2P Require Import Prelude GoStd Config Model Common Bencode Manager.
Set Default Proof Using "Type*".
Local Open Scope Z_scope.

(** ** [utils/http/header.go] *)

(** What a handler reads of the [app.RequestContext]. *)
Record http_context := mkHttpContext
  { hc_Header : string → string; hc_ClientIP : string; hc_UserAgent : string }.

(** [strings.Split] on a separator of one byte. *)
Fixpoint Split (sep : Byte.byte) (s : bytes) : list bytes :=
  match s with
  | [] => [[]]
  | c :: s =>
      if Byte.eqb c sep then [] :: Split sep s
      else match Split sep s with f :: fs => (c :: f) :: fs | [] => [[c]] end
  end.

Definition ipHeader : list string := ["X-Forwarded-For"; "X-Real-IP"]%string.

Fixpoint first_ip (ips : list bytes) : netIP :=
  match ips with
  | [] => None
  | ip :: ips => match ParseIP_bytes ip with Some res => Some res | None => first_ip ips end
  end.
Fixpoint header_ip (c : http_context) (headers : list string) : netIP :=
  match headers with
  | [] => None
  | header :: headers =>
      let ip := hc_Header c header in
      if bool_decide (ip = ""%string) then header_ip c headers
      else match first_ip (Split (ch ",") (bytes_of_string ip)) with
           | Some res => Some res
           | None => header_ip c headers
           end
  end.
Definition GetClientIP (c : http_context) : netIP :=
  match header_ip c ipHeader with
  | Some res => Some res
  | None =>
      let ip := hc_ClientIP c in
      if bool_decide (ip = ""%string) then None else ParseIP ip
  end.

(** ** [utils/http/resp.go] *)

(** A JSON reply: the status and what is rendered. *)
Record commonResponse (A : Type) := mkResponse { Code : Z; Message : string; Data : option A }.
Arguments mkResponse {A}. Arguments Code {A}. Arguments Message {A}. Arguments Data {A}.
Definition JSON (A : Type) : Type := Z * A.

Definition ResponseBadRequest {A} : JSON (commonResponse A) := (400, mkResponse 400 "Bad Request" None).
Definition ResponseErr {A} (err : string) : JSON (commonResponse A) := (500, mkResponse 500 err None).
Definition ResponseErrCustom {A} (code : Z) (err : string) : JSON (commonResponse A) := (code, mkResponse code err None).
Definition ResponseUnauthorized {A} : JSON (commonResponse A) := (401, mkResponse 401 "Unauthorized" None).
Definition ResponseOK {A} (data : A) : JSON (commonResponse A) := (200, mkResponse 200 "ok" (Some data)).

(** ** [ping.go] *)
Definition Ping : JSON (list (string * string)) := (200, [("message"%string, "pong"%string)]).

(** ** [announce.go] *)

(** [strings.EqualFold] with a lower-case ASCII string: besides the ASCII
    letters, the Kelvin sign folds to k and the long s to s. *)
Fixpoint fold_ascii (s : bytes) : bytes :=
  match s with
  | Byte.xe2 :: Byte.x84 :: Byte.xaa :: s => ch "k" :: fold_ascii s
  | Byte.xc5 :: Byte.xbf :: s => ch "s" :: fold_ascii s
  | c :: s => (if (65 <=? Z_of_byte c) && (Z_of_byte c <=? 90) then byte_of_Z (Z_of_byte c + 32) else c) :: fold_ascii s
  | [] => []
  end.
Definition EqualFold (s lower : string) : bool := bool_decide (fold_ascii (bytes_of_string s) = bytes_of_string lower).

Definition wants_websocket (cfg : Config) (c : http_context) : bool :=
  bool_decide (Mode (Tracker cfg) = RunningModeMemory) && ws_Enable (WSServer (Tracker cfg)) &&
  EqualFold (hc_Header c "Connection") "upgrade" && EqualFold (hc_Header c "Upgrade") "websocket".

Definition validAnnounceReq (req : HttpAnnounceRequest) : bool :=
  if negb (String.length (req_InfoHash req) =? 20)%nat || negb (String.length (req_PeerID req) =? 20)%nat then false
  else if negb ((0 <=? req_Port req) && (req_Port req <? 65535)) then false
  else true.

(** The limits of the number of peers asked for. *)
Definition cap_NumWant (cfg : Config) (n : Z) : Z :=
  let n := if MaxPeersPerTorrent (Memory (Tracker cfg)) <? n then MaxPeersPerTorrent (Memory (Tracker cfg)) else n in
  if (n <=? 0) || (500 <? n) then 50 else n.

Definition unmapped (ip : netIP) : netIP := match To4 ip with Some v4 => Some v4 | None => ip end.

(** What the handler answers: the connection is handed to the WebTorrent
    handler, or a reply is rendered. *)
Inductive announce_outcome := Upgraded | Replied (r : http_reply).

Section Handlers.
Context {S : Type} `{PeerManager S} (cfg : Config).
Context (Marshal : render_data → result bytes) (SubString : string → string).
Notation tracker_id := (TrackerId (Tracker cfg)).

(** The request the manager is given. *)
Definition http_request (c : http_context) (req : HttpAnnounceRequest) : AnnounceRequest :=
  mkAnnounceRequest
    {| req_ClientIP := unmapped (GetClientIP c); req_InfoHash := req_InfoHash req; req_PeerID := req_PeerID req;
       req_Event := req_Event req; req_UserAgent := SubString (hc_UserAgent c); req_IP := req_IP req;
       req_IPv4 := req_IPv4 req; req_IPv6 := req_IPv6 req; req_Port := req_Port req;
       req_Uploaded := req_Uploaded req; req_Downloaded := req_Downloaded req; req_Left := req_Left req;
       req_NumWant := cap_NumWant cfg (req_NumWant req); req_Type := PeerTypeBittorrent;
       req_Compact := req_Compact req |}
    SourceHTTP [] None.

(** The interval, with a jitter [fastrand.Intn(201)]. *)
Definition interval (rnd : Z) : Z := i64 (TTL (Tracker cfg) + i64 (rnd - 100)).
Definition ExternalIp (ip : netIP) : string := string_of_bytes (default [] ip).

Definition announce_data (rnd : Z) (req : AnnounceRequest) (scrape : ScrapeFile) (res : list Common.Peer) : render_data :=
  if req_Compact req =? 0 then
    RenderBasic {| abr_Interval := interval rnd; abr_Peers := map (ToModel (UseAnnounceIP (Tracker cfg))) res;
                   abr_ExternalIp := ExternalIp (req_ClientIP req); abr_TrackerId := tracker_id;
                   abr_Complete := Complete scrape; abr_Incomplete := Incomplete scrape |}
  else
    let '(peers, peers6) := PeersToCompact (UseAnnounceIP (Tracker cfg)) res in
    RenderCompact {| acr_Interval := interval rnd; acr_Peers := peers; acr_Peers6 := peers6;
                     acr_ExternalIp := ExternalIp (req_ClientIP req); acr_TrackerId := tracker_id;
                     acr_Complete := Complete scrape; acr_Incomplete := Incomplete scrape |}.

Definition Announce (rnd : Z) (now now' now'' : Z) (c : http_context) (bound : result HttpAnnounceRequest) (st : S)
  : announce_outcome * S :=
  if wants_websocket cfg c then (Upgraded, st)
  else
    match bound with
    | Err _ => (Replied (Bencode.ResponseErr Marshal tracker_id "bad request"), st)
    | Ok req =>
        if negb (validAnnounceReq req) then (Replied (Bencode.ResponseErr Marshal tracker_id "bad request"), st)
        else
          let req := http_request c req in
          let '(scrape, st) := pm_Scrape now (req_InfoHash req) st in
          match scrape with
          | Err e => (Replied (Bencode.ResponseErr Marshal tracker_id e), st)
          | Ok scrape =>
              let '(res, st) := pm_HandleAnnouncePeer now' now'' req st in
              match res with
              | Err e => (Replied (Bencode.ResponseErr Marshal tracker_id e), st)
              | Ok res => (Replied (Bencode.ResponseOk Marshal (announce_data rnd req scrape res)), st)
              end
          end
    end.

(** The loop over the info hashes. *)
Fixpoint scrape_all (now : Z) (infoHashes : list string) (ret : gmap string ScrapeFile) (st : S)
  : result (gmap string ScrapeFile) * S :=
  match infoHashes with
  | [] => (Ok ret, st)
  | infoHash :: infoHashes =>
      let '(r, st) := pm_Scrape now infoHash st in
      match r with
      | Err e => (Err e, st)
      | Ok f => scrape_all now infoHashes (<[infoHash := f]> ret) st
      end
  end.
Definition Scrape (now : Z) (bound : result (list string)) (st : S) : http_reply * S :=
  match bound with
  | Err _ => (Bencode.ResponseErr Marshal tracker_id "bad request", st)
  | Ok [] => (Bencode.ResponseErr Marshal tracker_id "info hash can't be empty", st)
  | Ok infoHashes =>
      let '(r, st) := scrape_all now infoHashes ∅ st in
      match r with
      | Err e => (Bencode.ResponseErr Marshal tracker_id e, st)
      | Ok ret => (Bencode.ResponseOk Marshal (RenderScrape {| Files := ret |}), st)
      end
  end.

Definition Statistic (st : S) : JSON (commonResponse StatisticInfo) :=
  match pm_GetStatistic st with
  | Err e => ResponseErr e
  | Ok info => ResponseOK info
  end.
End Handlers.
