(* ===== verification/HttpSpec.v ===== *)
(** What the HTTP front end answers, over any peer manager that keeps the
    promises of [PeerManagerLaws]. *)
From Stdlib Require Import ZArith Lia Bool Strings.String.
From stdpp Require Import base strings list gmap relations.
From S2P Require Import Prelude GoStd Config Model Common Samples Bencode Mapx Local LocalSafety BanItem IPFilter Ban Manager Mux MuxSpec ManagerLaws Http.
Set Default Proof Using "Type*".
Local Open Scope Z_scope.

(** ** The client's address, as the tests of [header_test.go] have it *)
Definition with_header (name value : string) : http_context :=
  mkHttpContext (fun h => if decide (h = name) then value else ""%string) "192.0.2.1" "".
Example forwarded_v4 : GetClientIP (with_header "X-Forwarded-For" "192.168.1.1") = ParseIP "192.168.1.1".
Proof. vm_compute. reflexivity. Qed.
Example real_ip_v6 :
  GetClientIP (with_header "X-Real-IP" "2a09:bac5:2431:e6::17:358") = ParseIP "2a09:bac5:2431:e6::17:358".
Proof. vm_compute. reflexivity. Qed.
Example forwarded_twice :
  GetClientIP (with_header "X-Forwarded-For" "2a09:bac5:2431:e6::17:358,2a09:bac5:2431:e6::17:358")
  = ParseIP "2a09:bac5:2431:e6::17:358".
Proof. vm_compute. reflexivity. Qed.
(** An entry after a comma and a space is not recognised. *)
Example forwarded_spaced :
  GetClientIP (with_header "X-Forwarded-For" "unknown, 203.0.113.7") = ParseIP "192.0.2.1".
Proof. vm_compute. reflexivity. Qed.

Lemma cap_NumWant_range cfg n : 1 ≤ cap_NumWant cfg n ≤ 500.
Proof.
  unfold cap_NumWant. cbv zeta. destruct (Z.ltb_spec (MaxPeersPerTorrent (Memory (Tracker cfg))) n);
    match goal with |- context [(?a <=? 0) || (500 <? ?a)] => destruct (Z.leb_spec a 0), (Z.ltb_spec 500 a) end;
    cbn [orb]; lia.
Qed.

Lemma valid_lengths req :
  validAnnounceReq req = true →
  String.length (req_InfoHash req) = 20%nat ∧ String.length (req_PeerID req) = 20%nat ∧ 0 ≤ req_Port req < 65535.
Proof.
  unfold validAnnounceReq. destruct (Nat.eqb_spec (String.length (req_InfoHash req)) 20); [|done].
  destruct (Nat.eqb_spec (String.length (req_PeerID req)) 20); [|done]. cbn [negb orb].
  destruct (Z.leb_spec 0 (req_Port req)), (Z.ltb_spec (req_Port req) 65535); first [done|lia].
Qed.

Section Spec.
Context {S : Type} `{PeerManagerLaws S} (cfg : Config).
Context (Marshal : render_data → result bytes) (SubString : string → string).
Notation u := (UseAnnounceIP (Tracker cfg)).
Notation tracker_id := (TrackerId (Tracker cfg)).

(** What a client reads in a compact reply about the peers [ps]. *)
Definition compact_reply (r : http_reply) (rnd : Z) (req : AnnounceRequest) (f : ScrapeFile) (ps : list Peer) : Prop :=
  status r = 200 ∧ ∃ a, bdecode (body r) = Some (AnnounceCompactResponse_dict a) ∧
    acr_Interval a = TTL (Tracker cfg) + (rnd - 100) ∧
    acr_Complete a = Complete f ∧ acr_Incomplete a = Incomplete f ∧
    bytes_of_string (acr_ExternalIp a) = default [] (req_ClientIP req) ∧
    read_compact (length ps) 4 (acr_Peers a) = Some (omap (endpoint4 u) ps) ∧
    read_compact (length ps) 16 (acr_Peers6 a) = Some (omap (endpoint6 u) ps).

Lemma announce_data_compact rnd (req : AnnounceRequest) f ps :
  req_Compact req ≠ 0 → 0 ≤ rnd ≤ 200 → 0 ≤ TTL (Tracker cfg) < 2 ^ 62 →
  compact_reply (Bencode.ResponseOk Marshal (announce_data cfg rnd req f ps)) rnd req f ps.
Proof using Type.
  intros Hc Hr Ht. unfold announce_data. rewrite (proj2 (Z.eqb_neq _ _)) by done.
  pose proof (PeersToCompact_records u ps) as Hps. destruct (PeersToCompact u ps) as [p4 p6].
  destruct Hps as [H4 H6]. split; [done|].
  eexists. split; [cbn [Bencode.ResponseOk render_reply Render body]; rewrite AnnounceCompactResponse_Bencode_eq; apply bdecode_benc|].
  cbn [acr_Interval acr_Complete acr_Incomplete acr_ExternalIp acr_Peers acr_Peers6].
  split_and!; [|done|done|apply bytes_of_string_of_bytes|done|done].
  unfold interval, i64. rewrite (wrap_s_small 64 (rnd - 100)) by lia. apply wrap_s_small; lia.
Qed.

Lemma http_request_spec c (req : HttpAnnounceRequest) :
  let req' := http_request cfg SubString c req in
  1 ≤ req_NumWant req' ≤ 500 ∧ req_PeerID req' = req_PeerID req ∧ req_Type req' = PeerTypeBittorrent ∧
  req_Compact req' = req_Compact req.
Proof using Type. split_and!; [apply cap_NumWant_range..|done|done|done]. Qed.

Lemma http_request_widths c (req : HttpAnnounceRequest) :
  validAnnounceReq req = true → request_widths (http_request cfg SubString c req).
Proof using Type.
  intros (_ & _ & Hp)%valid_lengths. unfold request_widths. cbn. unfold PeerTypeBittorrent, SourceHTTP. lia.
Qed.

(** C14: An HTTP announce leaves the manager in one of its states.  A malformed
    one is answered "bad request" and changes nothing.  Otherwise the manager is
    scraped for the torrent and then given the announce; an error of either is
    the error the client gets; and else the answer is about the peers the manager
    hands out: at most 500 of BitTorrent's, none of them the caller or stopped, and
    the body of a compact answer decodes to the interval, the counts of that
    scrape, the caller's own address and exactly the endpoints of those peers. *)
Theorem http_announce rnd now now' now'' c bound st r st' :
  pm_ok st → 0 ≤ rnd ≤ 200 → 0 ≤ TTL (Tracker cfg) < 2 ^ 62 →
  Announce cfg Marshal SubString rnd now now' now'' c bound st = (Replied r, st') →
  let malformed := r = Bencode.ResponseErr Marshal tracker_id "bad request" ∧ st' = st in
  pm_ok st' ∧
  match bound with
  | Err _ => malformed
  | Ok req =>
      if negb (validAnnounceReq req) then malformed
      else
        let req' := http_request cfg SubString c req in
        match pm_Scrape now (req_InfoHash req) st with
        | (Err e, st1) => r = Bencode.ResponseErr Marshal tracker_id e ∧ st' = st1
        | (Ok f, st1) =>
            match pm_HandleAnnouncePeer now' now'' req' st1 with
            | (Err e, st2) => r = Bencode.ResponseErr Marshal tracker_id e ∧ st' = st2
            | (Ok ps, st2) =>
                st' = st2 ∧ (length ps ≤ 500)%nat ∧
                Forall (fun x => ID x ≠ req_PeerID req ∧ Type_ x = PeerTypeBittorrent ∧
                                 Event x ≠ PeerEvent_Stopped ∧ pm_serves x) ps ∧
                (req_Compact req ≠ 0 → compact_reply r rnd req' f ps)
            end
        end
  end.
Proof.
  intros Hst Hr Ht Ha malformed. revert Ha. unfold Announce. destruct (wants_websocket cfg c); [done|].
  destruct bound as [req|e0]; [|by intros [= <- <-]].
  destruct (validAnnounceReq req) eqn:Hv; cbn [negb]; [|by intros [= <- <-]].
  destruct (http_request_spec c req) as (Hn & Hid & Hty & Hc).
  pose proof (http_request_widths c req Hv) as Hw. set (req' := http_request cfg SubString c req) in *.
  change (req_InfoHash req') with (req_InfoHash req).
  pose proof (pm_scrape_ok now (req_InfoHash req) st Hst) as Hst1.
  destruct (pm_Scrape now (req_InfoHash req) st) as [[f|e] st1]; [|by intros [= <- <-]]. cbn [snd] in Hst1.
  pose proof (pm_announce_ok now' now'' req' st1 Hst1) as Hst2.
  pose proof (fun ps => pm_answer now' now'' req' st1 ps Hw ltac:(lia) Hst1) as Hps.
  destruct (pm_HandleAnnouncePeer now' now'' req' st1) as [[ps|e] st2]; [|by intros [= <- <-]].
  intros [= <- <-]. destruct (Hps ps eq_refl) as [Hl Hf]. split_and!; [exact Hst2|done|lia| |].
  - eapply Forall_impl; [exact Hf|]. intros x [(? & ? & ?) ?]. rewrite Hid, Hty in *. by split_and!.
  - intros Hcne. by apply announce_data_compact.
Qed.
End Spec.

(** Peer Q joins torrent A, which P is in, over HTTP. *)
Definition http_q : HttpAnnounceRequest := sample_request "QQQQQQQQQQQQQQQQQQQQ" hash_a "started" Byte.x02 7 50.
Definition from_q : http_context := with_header "X-Forwarded-For" "203.0.113.2".
Definition announce_q :=
  Announce (sample_cfg 400) (fun _ => Err "marshal"%string) (fun s => s) 100 sample_time sample_time sample_time from_q
    (H := mux_manager (sample_cfg 400) io_ok (fun _ => None)) (Ok http_q) two_torrents.

Definition reply_of (x : announce_outcome) : http_reply := match x with Replied r => r | Upgraded => HttpReply 0 [] end.
Definition reply_q : http_reply := reply_of announce_q.1.

(** The answer is P's endpoint. *)
Lemma http_announce_witness :
  announce_q = (Replied reply_q, announce_q.2) ∧ routed (sample_cfg 400) announce_q.2 ∧
  ∃ a, bdecode (body reply_q) = Some (AnnounceCompactResponse_dict a) ∧ acr_Interval a = 900 ∧ acr_Incomplete a = 1 ∧
    read_compact 1 4 (acr_Peers a) = Some [([Byte.xcb; Byte.x00; Byte.x71; Byte.x01], 6881)].
Proof.
  assert (announce_q.1 = Replied reply_q) as E1 by (vm_compute; reflexivity).
  assert (announce_q = (Replied reply_q, announce_q.2)) as E by (rewrite <- E1; apply surjective_pairing).
  pose proof (http_announce (H0 := mux_laws (sample_cfg 400) io_ok (fun _ => None)) (sample_cfg 400)
    (fun _ => Err "marshal"%string) (fun s => s) 100 sample_time sample_time sample_time
    from_q (Ok http_q) two_torrents reply_q announce_q.2) as Hp.
  destruct Hp as [Hst Hp].
  - apply (mux_steps_routed _ _ _ _ _ _ two_torrents_reachable (routed_new _ _ _)).
  - lia.
  - vm_compute. split; congruence.
  - exact E.
  - split; [exact E|]. split; [exact Hst|].
    assert (validAnnounceReq http_q = true) as Hv by (vm_compute; reflexivity). rewrite Hv in Hp. cbn [negb] in Hp. cbv zeta in Hp.
    destruct (pm_Scrape sample_time (req_InfoHash http_q) two_torrents) as [rs st1] eqn:Es.
    assert (rs = Ok (mkScrapeFile 0 0 1 0)) as -> by (apply (f_equal fst) in Es; cbn [fst] in Es; rewrite <- Es; vm_compute; reflexivity).
    assert (st1 = (pm_Scrape (PeerManager := mux_manager (sample_cfg 400) io_ok (fun _ => None)) sample_time (req_InfoHash http_q) two_torrents).2) as ->
      by (by rewrite Es).
    destruct (pm_HandleAnnouncePeer _ _ _ _) as [ra st2] eqn:Ea.
    assert (ra = Ok [sample_peer "P" Byte.x01 PeerEvent_Started 7 sample_time]) as ->
      by (apply (f_equal fst) in Ea; cbn [fst] in Ea; rewrite <- Ea; vm_compute; reflexivity).
    destruct Hp as (_ & _ & _ & Hc). destruct Hc as (_ & a & Hb & Hi & _ & Hinc & _ & H4 & _); [vm_compute; discriminate|].
    exists a. split; [exact Hb|]. split; [exact Hi|]. split; [exact Hinc|]. exact H4.
Defined.
Example announce_q_peers :
  bdecode (body reply_q) = Some (AnnounceCompactResponse_dict
    {| acr_Interval := 900; acr_Peers := [Byte.xcb; Byte.x00; Byte.x71; Byte.x01; Byte.x1a; Byte.xe1]; acr_Peers6 := [];
       acr_ExternalIp := string_of_bytes [Byte.xcb; Byte.x00; Byte.x71; Byte.x02]; acr_TrackerId := "default";
       acr_Complete := 0; acr_Incomplete := 1 |}).
Proof. vm_compute. reflexivity. Qed.
