(* ===== verification/EndToEnd.v ===== *)
(** The front ends and the sharded manager put together: what the clients of
    the HTTP and UDP trackers read is what the reference tracker of [Tracker]
    allows, down to the bytes of the replies. *)
From Stdlib Require Import ZArith Lia Bool Strings.String.
From stdpp Require Import base strings list sets gmap relations.
From S2P Require Import Prelude GoStd Config Model Common Samples Bencode Mapx Local LocalInv LocalSafety LocalSpec LocalScrape LocalTable LocalFrame LocalRest BanItem IPFilter Ban Manager Mux MuxSpec Tracker Udp UdpSpec ManagerLaws Http HttpSpec.
Set Default Proof Using "Type*".
Local Open Scope Z_scope.

(** What reaches the tracker: requests of HTTP clients, datagrams, the cleaning
    of the connection table, and the calls of the RPC service, the admin routes and
    the interval task. *)
Inductive event :=
| HttpAnnounce (rnd now now' now'' : Z) (c : http_context) (bound : result HttpAnnounceRequest)
| HttpScrape (now : Z) (bound : result (list string))
| Datagram (w : world) (addr : UDPAddr) (b : bytes)
| CleanConnections (t : Z)
| Direct (c : call).

(** What its sender sees. *)
Inductive observation :=
| SawHttp (r : announce_outcome)
| SawDatagrams (r : result unit) (out : list bytes)
| SawPanic
| SawNothing
| SawReply (r : reply).

(** ** What a datagram is *)
Inductive datagram :=
| Short
| Connect (tid : Z)
| Refused (tid : Z) (e : string)
| AnnounceOf (tid : Z) (req : AnnounceRequest) (isIPv6 : bool)
| ScrapeOf (tid : Z) (hashes : list string).

Definition classify (srv : UDPServer) (addr : UDPAddr) (b : bytes) : datagram :=
  if (length b <? 16)%nat then Short
  else
    let '(cid, action, tid) := header b in
    if is_connect b then Connect tid
    else
      match sync.Load cid srv with
      | None => Refused tid "connection expired"
      | Some c =>
          if negb (bool_decide (UDPAddr_String (remoteAddr c) = UDPAddr_String addr)) then Refused tid "connection mismatch"
          else if action =? ActionAnnounce then
            match announce_request addr (drop 16 b) with
            | Some (Ok (req, isIPv6)) => AnnounceOf tid (from_udp addr req) isIPv6
            | Some (Err e) => Refused tid e
            | None => Short
            end
          else if action =? ActionScrape then ScrapeOf tid (chunks (S (length (drop 16 b))) (drop 16 b))
          else Refused tid "invalid action"
      end.

(** The request of an HTTP announce that is not refused at once. *)
Definition accepted (bound : result HttpAnnounceRequest) : option HttpAnnounceRequest :=
  match bound with Ok req => if validAnnounceReq req then Some req else None | Err _ => None end.

Section EndToEnd.
Context {M : Type → Type} {B F : Type} `{SyncStringMapLaws M} `{BloomFilterLaws B} `{IPFilterLaws F}.
Context (cfg : Config) (o : io) (cached : string → option ScrapeFile).
Context (Marshal : render_data → result bytes) (SubString : string → string).
Implicit Types (m : MuxLocalManager M B F) (w : Local.State M) (R : Reference (B := B) (F := F)) (srv : UDPServer).
Notation u := (UseAnnounceIP (Tracker cfg)).

Definition tracker_manager : PeerManager (MuxLocalManager M B F) := mux_manager cfg o cached.
#[local] Existing Instance tracker_manager.

(** ** The program, one event at a time *)
(** Every goroutine runs to its end. *)
Definition quiesce (now : Z) m : MuxLocalManager M B F := mkMux (map (run_all cfg 4 now) (localList m)) (ban m).

Definition run_event (e : event) srv m : observation * (UDPServer * MuxLocalManager M B F) :=
  match e with
  | HttpAnnounce rnd now now' now'' c bound =>
      let '(r, m) := Http.Announce cfg Marshal SubString rnd now now' now'' c bound m in (SawHttp r, (srv, quiesce now'' m))
  | HttpScrape now bound =>
      let '(r, m) := Http.Scrape cfg Marshal now bound m in (SawHttp (Replied r), (srv, quiesce now m))
  | Datagram w addr b =>
      match handleRequest cfg w addr (Ok b) srv m with
      | None => (SawPanic, (srv, m))
      | Some (r, out, srv, m) => (SawDatagrams r out, (srv, quiesce (w_now' w) m))
      end
  | CleanConnections t => (SawNothing, (cleanConnection t srv, m))
  | Direct c => let '(r, m) := run_call cfg cached c m in (SawReply r, (srv, m))
  end.

Fixpoint run_events (es : list event) srv m : list observation * (UDPServer * MuxLocalManager M B F) :=
  match es with
  | [] => ([], (srv, m))
  | e :: es =>
      let '(x, (srv, m)) := run_event e srv m in
      let '(xs, st) := run_events es srv m in (x :: xs, st)
  end.

(** ** The reference, one event at a time *)
Definition counts_of (t : gmap string Peer) : ScrapeFile := add_counts zeroScrape (peers_of t).

(** [ps] are [n] of the peers [l], all of them if there are fewer. *)
Definition any_of (n : nat) (l ps : list Peer) : Prop := ps ⊆+ l ∧ length ps = Nat.min n (length l).

Definition http_failure (e : string) (x : observation) : Prop :=
  ∃ p, x = SawHttp (Replied p) ∧ status p = 400 ∧
    bdecode (body p) = Some (ErrorResponse_dict {| FailureReason := e; Retry := "never"; er_TrackerId := TrackerId (Tracker cfg) |}).

(** The peers [ps] and the counts [f] are what the client reads in a compact
    reply; any other reply is rendered by the bencode library. *)
Definition http_peers (rnd : Z) (req : AnnounceRequest) (f : ScrapeFile) (n : nat) (l : list Peer) (x : observation) : Prop :=
  ∃ p ps, x = SawHttp (Replied p) ∧ any_of n l ps ∧
    if req_Compact req =? 0 then p = Bencode.ResponseOk Marshal (announce_data cfg rnd req f ps)
    else compact_reply cfg p rnd req f ps.

Definition http_files R (hashes : list string) : gmap string ScrapeFile :=
  fold_left (fun ret ih => <[ih := counts_of (ref_torrent R ih)]> ret) hashes ∅.

Definition udp_error (tid : Z) (e : string) (x : observation) : Prop := x = SawDatagrams (Ok tt) [responseError tid e].

(** The UDP announce scrapes when the handler of the announce has returned and
    its goroutine has not run: a peer that leaves is already gone, a peer that
    joins is there only if the torrent was new. *)
Definition at_scrape (x : Peer) (d : dated) : gmap string Peer :=
  match d.2 with
  | Some _ => if Event x =? PeerEvent_Stopped then spec_announce u x d.1 else d.1
  | None => spec_announce u x ∅
  end.

Definition udp_peers (rnd tid : Z) (isIPv6 : bool) (t : gmap string Peer) (n : nat) (l : list Peer) (s : observation) : Prop :=
  ∃ out ps, s = SawDatagrams (Ok tt) [out] ∧ any_of n l ps ∧
    read_announce (if isIPv6 then 16 else 4) out
    = Some (mkReply ActionAnnounce tid (u32 (i64 (TTL (Tracker cfg) + (rnd - 100))))
              (u32 (Incomplete (counts_of t))) (u32 (Seeder (counts_of t))) (omap (endpoint isIPv6 u) ps)).

Definition udp_files (tid : Z) (fs : list ScrapeFile) (x : observation) : Prop :=
  ∃ out, x = SawDatagrams (Ok tt) [out] ∧ read_scrape out = Some (ActionScrape, tid, map triple_of fs).

(** What the sender of an event may see, and the state after it. *)
Definition ref_event (e : event) srv R : (observation → Prop) * (UDPServer * Reference) :=
  match e with
  | HttpAnnounce rnd now now' now'' c bound =>
      if wants_websocket cfg c then (eq (SawHttp Upgraded), (srv, R))
      else
        match accepted bound with
        | None => (http_failure "bad request", (srv, R))
        | Some req =>
            let req := http_request cfg SubString c req in
            let '(a, R') := ref_announce (M := M) cfg now' now'' req R in
            (match a with
             | Fails e => http_failure e
             | AnyOf n l => http_peers rnd req (counts_of (ref_torrent R (req_InfoHash req))) n l
             | _ => fun _ => False
             end, (srv, R'))
        end
  | HttpScrape now bound =>
      (match bound with
       | Err _ => http_failure "bad request"
       | Ok [] => http_failure "info hash can't be empty"
       | Ok hashes => eq (SawHttp (Replied (Bencode.ResponseOk Marshal (RenderScrape {| Files := http_files R hashes |}))))
       end, (srv, R))
  | Datagram w addr b =>
      match classify srv addr b with
      | Short => (eq (SawDatagrams (Err "invalid request") []), (srv, R))
      | Connect tid =>
          let '(r, out, srv) := handleConnection (w_now w) (w_newId w) (w_werr w) addr tid srv in
          (eq (SawDatagrams r out), (srv, R))
      | Refused tid e => (udp_error tid e, (srv, R))
      | AnnounceOf tid req isIPv6 =>
          let '(a, R') := ref_announce (M := M) cfg (w_now w) (w_now' w) req R in
          (match a with
           | Fails e => udp_error tid e
           | AnyOf n l => udp_peers (w_rnd w) tid isIPv6 (at_scrape (peer_of_request (w_now w) req) (ref_dated R (req_InfoHash req))) n l
           | _ => fun _ => False
           end, (srv, R'))
      | ScrapeOf tid hashes => (udp_files tid (map (fun ih => counts_of (ref_torrent R ih)) hashes), (srv, R))
      end
  | CleanConnections t => (eq SawNothing, (cleanConnection t srv, R))
  | Direct c => let '(a, R) := ref_call (M := M) cfg c R in
      ((fun x => ∃ r, x = SawReply r ∧ answers a r), (srv, R))
  end.

Fixpoint ref_events (es : list event) srv R : list (observation → Prop) * (UDPServer * Reference) :=
  match es with
  | [] => ([], (srv, R))
  | e :: es =>
      let '(P, (srv, R)) := ref_event e srv R in
      let '(Ps, st) := ref_events es srv R in (P :: Ps, st)
  end.

(** The events the comparison is about: the torrents announced or scraped hold
    no expired peer, and those announced are at most half full. *)
Fixpoint scrapes_fit (clock : nat → Z) (n : nat) (hashes : list string) R : bool :=
  match hashes with
  | [] => true
  | ih :: hashes => call_fits (M := M) cfg (CallScrape (clock n) ih) R && scrapes_fit clock (S n) hashes R
  end.
Definition event_fits (e : event) srv R : bool :=
  match e with
  | HttpAnnounce rnd now now' now'' c bound =>
      (0 <=? rnd) && (rnd <=? 200) &&
      match accepted bound with
      | None => true
      | Some req =>
          let req := http_request cfg SubString c req in
          call_fits (M := M) cfg (CallScrape now (req_InfoHash req)) R && call_fits (M := M) cfg (CallAnnounce now' now'' req) R
      end
  | HttpScrape now (Ok hashes) => scrapes_fit (fun _ => now) 0 hashes R
  | Datagram w addr b =>
      match classify srv addr b with
      | AnnounceOf tid req isIPv6 =>
          call_fits (M := M) cfg (CallAnnounce (w_now w) (w_now' w) req) R &&
          call_fits (M := M) cfg (CallScrape (w_scrape w 0%nat) (req_InfoHash req)) R &&
          live cfg (w_scrape w 0%nat) (peer_of_request (w_now w) req)
      | ScrapeOf tid hashes => scrapes_fit (w_scrape w) 0 hashes R
      | _ => true
      end
  | Direct c => call_fits (M := M) cfg c R
  | _ => true
  end.
Fixpoint events_fit (es : list event) srv R : bool :=
  match es with
  | [] => true
  | e :: es => event_fits e srv R && let '(srv, R) := (ref_event e srv R).2 in events_fit es srv R
  end.

(** ** Goroutines *)
Notation sim := (sim cfg).

Lemma quiesce_sim now m R : sim m R → quiesce now m = m.
Proof.
  intros Hs. unfold quiesce. destruct m as [l b]. f_equal. cbn [localList]. apply list_eq. intros n.
  change (map (run_all cfg 4 now) l) with (run_all cfg 4 now <$> l). rewrite list_lookup_fmap.
  destruct (l !! n) as [w|] eqn:Hw; [|done]. cbn [fmap option_fmap option_map]. f_equal. apply run_all_done.
  by eapply idle_tasks, (sim_idle _ _ _ Hs).
Qed.

Lemma quiesce_set now m R n w : sim m R → quiesce now (set_shard n w m) = set_shard n (run_all cfg 4 now w) m.
Proof.
  intros Hs. pose proof (quiesce_sim now m R Hs) as E. unfold quiesce, set_shard in *. cbn [localList ban] in *. f_equal.
  change (map (run_all cfg 4 now) (<[n:=w]> (localList m))) with (run_all cfg 4 now <$> <[n:=w]> (localList m)).
  rewrite list_fmap_insert. f_equal. by apply (f_equal localList) in E.
Qed.

(** An announce, as the shard it went to sees it. *)
Lemma mux_announce_eq now now' (req : AnnounceRequest) m R w :
  sim m R → localList m !! shard_of (req_InfoHash req) m = Some w →
  Mux.HandleAnnouncePeer cfg now now' req m =
    match ref_check (M := M) req R with
    | Some e => (Err e, m)
    | None =>
        let out := Local.HandleAnnouncePeer cfg now now' req w in
        (res_map (read_peers out.2) out.1, set_shard (shard_of (req_InfoHash req) m) out.2 m)
    end.
Proof.
  intros Hs Hw. unfold Mux.HandleAnnouncePeer.
  assert (check_bans req m = ref_check (M := M) req R) as -> by (unfold ref_check, check_bans; by rewrite (sim_ban _ _ _ Hs)).
  destruct (ref_check req R); [done|]. unfold serve, on_shard. rewrite Hw.
  by destruct (Local.HandleAnnouncePeer cfg now now' req w).
Qed.

Lemma settle_quiesce now now' (req : AnnounceRequest) m R :
  sim m R → let m' := (Mux.HandleAnnouncePeer cfg now now' req m).2 in
  settle cfg now' (req_InfoHash req) m' = quiesce now' m'.
Proof.
  intros Hs m'. destruct (sim_shard cfg m R (req_InfoHash req) Hs) as (w & Hw & Hi & _ & _).
  unfold m'. rewrite (mux_announce_eq now now' req m R w Hs Hw). destruct (ref_check req R).
  { unfold settle. cbn [snd]. rewrite Hw, (quiesce_sim now' m R Hs), (run_all_done _ _ _ _ (idle_tasks _ _ Hi)).
    by apply set_shard_same. }
  cbn [snd]. rewrite (quiesce_set _ _ _ _ _ Hs). unfold settle.
  rewrite (shard_of_eq (req_InfoHash req) m) by apply length_insert. cbn [set_shard localList].
  rewrite list_lookup_insert_eq by by eapply lookup_lt_Some. unfold set_shard. cbn [localList ban]. by rewrite list_insert_insert_eq.
Qed.

Lemma announce_quiesced now now' (req : AnnounceRequest) m R :
  sim m R → call_fits (M := M) cfg (CallAnnounce now now' req) R = true →
  let out := Mux.HandleAnnouncePeer cfg now now' req m in
  answers (ref_announce (M := M) cfg now now' req R).1 (ReplyPeers out.1) ∧
  sim (quiesce now' out.2) (ref_announce (M := M) cfg now now' req R).2.
Proof.
  intros Hs Hf out. unfold out. rewrite <- (settle_quiesce now now' req m R Hs).
  pose proof (sim_announce cfg (fun _ => None) now now' req m R Hs Hf) as E. unfold run_call in E.
  by destruct (Mux.HandleAnnouncePeer cfg now now' req m).
Qed.

(** ** The scrape inside a UDP announce *)
Lemma live_table now (t : gmap string Peer) :
  forallb (live cfg now) (peers_of t) = true ↔ ∀ k x, t !! k = Some x → live cfg now x = true.
Proof using Type.
  rewrite forallb_forall. setoid_rewrite <- list_elem_of_In. unfold peers_of. setoid_rewrite list_elem_of_fmap. split.
  - intros Hl k x Hk. apply Hl. exists (k, x). by rewrite elem_of_map_to_list.
  - intros Hl x ([k y] & -> & Hk). apply elem_of_map_to_list in Hk. by apply (Hl k).
Qed.

Lemma live_at_scrape now x (d : dated) :
  live cfg now x = true → forallb (live cfg now) (peers_of d.1) = true →
  forallb (live cfg now) (peers_of (at_scrape x d)) = true.
Proof using Type.
  intros Hx Hl. rewrite live_table in Hl |- *. unfold at_scrape, spec_announce. rewrite delete_empty.
  destruct d as [t [c|]]; cbn [fst snd] in *; (destruct (Event x =? PeerEvent_Stopped); [|try done]).
  - intros k y [_ Hk]%lookup_delete_Some. by apply (Hl k).
  - intros k y. by rewrite lookup_empty.
  - intros k y. unfold upsert. rewrite lookup_empty. destruct (IsPeerConnectable u x); [|by rewrite lookup_empty].
    rewrite lookup_insert_Some, lookup_empty. by intros [[_ <-]|[_ ?]].
Qed.

(** The torrent when the handler of its announce has returned. *)
Lemma announce_midway now now' (req : AnnounceRequest) w :
  let x := peer_of_request now req in
  let ih := req_InfoHash req in
  let out := (Local.HandleAnnouncePeer cfg now now' req w).2 in
  idle cfg w → invalid_address x = false → fits cfg now' (torrent_of w ih) = true →
  separated_at out ih ∧ torrent_of out ih = at_scrape x (dated_of w ih).
Proof.
  intros x ih out Hi Hx Hf. pose proof Hi as [Hok Ht Hsep _].
  pose proof (fits_live cfg w ih now' (Hsep ih) Hf) as Hlive.
  unfold at_scrape, dated_of, cleaned_of. destruct (sm_Load ih (infoHashMap w)) as [r|] eqn:Hih; cbn [fst snd fmap option_fmap option_map].
  - destruct (Z.eqb_spec (Event x) PeerEvent_Stopped) as [He|He].
    + by destruct (refined_stopped cfg now now' req w r Hok Ht Hih (Hsep ih r Hih) Hx He) as (_ & Hs & Htab).
    + destruct (responded_known cfg now now' req w r Hok Ht Hih (Hsep ih r Hih) Hx He Hlive) as (_ & _ & _ & Hl & Hs & Htab).
      split; [intros r' Hr'; fold ih out in Hl; rewrite Hl in Hr'; by injection Hr' as <-|].
      rewrite <- (fits_kept cfg w ih now' Hok (Hsep ih) Hf). fold ih out in Htab. rewrite <- Htab. unfold torrent_of. fold ih out in Hl. by rewrite Hl.
  - by destruct (responded_first cfg now now' req w Hok Ht Hih Hx) as (_ & Hs & Htab).
Qed.

(** The second call of the UDP handler. *)
Lemma scrape_midway now now' now'' (req : AnnounceRequest) m R n l :
  (redis_Enable (Cache cfg) = false ∨ ∀ ih, cached ih = None) → sim m R →
  let x := peer_of_request now req in
  let ih := req_InfoHash req in
  let m' := (Mux.HandleAnnouncePeer cfg now now' req m).2 in
  call_fits (M := M) cfg (CallAnnounce now now' req) R = true → call_fits (M := M) cfg (CallScrape now'' ih) R = true →
  live cfg now'' x = true → (ref_announce (M := M) cfg now now' req R).1 = AnyOf n l →
  Mux.Scrape cfg cached now'' ih m' = (Ok (counts_of (at_scrape x (ref_dated R ih))), m').
Proof.
  intros Hc Hs x ih m' Hf Hf2 Hx Ha. destruct (sim_shard cfg m R ih Hs) as (w & Hw & Hi & Hd & Ht).
  unfold m'. rewrite (mux_announce_eq now now' req m R w Hs Hw). unfold ref_announce in Ha. unfold call_fits in Hf, Hf2.
  fold x ih in Ha, Hf. rewrite <- Ht in Hf, Hf2. rewrite <- Hd. destruct (ref_check req R); [done|].
  destruct (invalid_address x) eqn:Hv; [done|]. cbn [orb] in Hf. cbn [snd]. fold ih.
  destruct (announce_midway now now' req w Hi Hv Hf) as [Hs' Hm]. fold x ih in Hs', Hm.
  set (w' := (Local.HandleAnnouncePeer cfg now now' req w).2) in *.
  unfold Mux.Scrape, on_shard. rewrite (shard_of_eq ih m) by apply length_insert. cbn [set_shard localList].
  rewrite list_lookup_insert_eq by by eapply lookup_lt_Some.
  assert (redis_Enable (Cache cfg) = false ∨ cached ih = None) as Hc' by (destruct Hc; by auto).
  assert (forallb (live cfg now'') (peers_of (torrent_of w' ih)) = true) as Hl.
  { rewrite Hm. by apply live_at_scrape. }
  pose proof (scrape_answers cfg cached now'' ih w' Hc' Hs' Hl) as E. rewrite Hm in E.
  destruct (Local.Scrape cfg now'' (cached ih) ih w') as [[f w2] c2]. cbn [fst] in E. injection E as -> ->.
  unfold set_shard. cbn [localList ban]. by rewrite list_insert_insert_eq.
Qed.

(** ** The simulation *)
Section Simulation.
Hypothesis cache_off : redis_Enable (Cache cfg) = false ∨ ∀ ih, cached ih = None.
Hypothesis ttl_small : 0 ≤ TTL (Tracker cfg) < 2 ^ 62.

(** Program and reference do the same for [e]. *)
Definition agree (out : observation * (UDPServer * MuxLocalManager M B F))
    (ref : (observation → Prop) * (UDPServer * Reference (B := B) (F := F))) : Prop :=
  ref.1 out.1 ∧ out.2.1 = ref.2.1 ∧ sim out.2.2 ref.2.2.

Lemma http_failure_reply e : http_failure e (SawHttp (Replied (Bencode.ResponseErr Marshal (TrackerId (Tracker cfg)) e))).
Proof using Type.
  destruct (error_reply_decodes Marshal (TrackerId (Tracker cfg)) e) as (Hs & Hd & _). by eexists.
Qed.

Lemma any_of_answers n l ps : answers (AnyOf n l) (ReplyPeers (Ok ps)) → any_of n l ps.
Proof using Type. done. Qed.

Lemma run_HttpAnnounce rnd now now' now'' c bound srv m R :
  let e := HttpAnnounce rnd now now' now'' c bound in
  sim m R → event_fits e srv R = true → agree (run_event e srv m) (ref_event e srv R).
Proof.
  intros e Hs Hf. unfold e, run_event, ref_event, Http.Announce, event_fits in *.
  apply andb_true_iff in Hf as [Hr Hf]. apply andb_true_iff in Hr as [Hr1%Z.leb_le Hr2%Z.leb_le].
  destruct (wants_websocket cfg c); [split; [done|]; by rewrite (quiesce_sim now'' m R Hs)|].
  assert (∀ e, agree (SawHttp (Replied (Bencode.ResponseErr Marshal (TrackerId (Tracker cfg)) e)), (srv, quiesce now'' m))
    (http_failure e, (srv, R))) as Hfail.
  { intros e1. split; [apply http_failure_reply|]. by rewrite (quiesce_sim now'' m R Hs). }
  destruct bound as [req|e0]; cbn [accepted] in *; [|apply Hfail].
  destruct (validAnnounceReq req); cbn [negb]; [|apply Hfail].
  set (req' := http_request cfg SubString c req) in *. apply andb_true_iff in Hf as [Hf1 Hf2].
  change (pm_Scrape now (req_InfoHash req') m) with (Mux.Scrape cfg cached now (req_InfoHash req') m).
  rewrite (sim_scrape cfg cached now _ m R cache_off Hs Hf1).
  change (pm_HandleAnnouncePeer now' now'' req' m) with (Mux.HandleAnnouncePeer cfg now' now'' req' m).
  destruct (announce_quiesced now' now'' req' m R Hs Hf2) as [Ha Hs'].
  destruct (Mux.HandleAnnouncePeer cfg now' now'' req' m) as [r m'].
  destruct (ref_announce cfg now' now'' req' R) as [a R']. cbn [fst snd] in *.
  destruct a as [e1|n l|f|r1], r as [ps|e2]; try done.
  - cbn in Ha. subst e2. split; [apply http_failure_reply|]. by split.
  - split; [|by split]. eexists _, ps. split; [done|]. split; [by apply any_of_answers|].
    destruct (Z.eqb_spec (req_Compact req') 0) as [|Hc]; [done|]. by apply announce_data_compact.
Qed.

Lemma scrape_all_ref now n hashes ret m R :
  sim m R → scrapes_fit (fun _ => now) n hashes R = true →
  scrape_all now hashes ret m = (Ok (fold_left (fun ret ih => <[ih := counts_of (ref_torrent R ih)]> ret) hashes ret), m).
Proof.
  intros Hs. revert n ret. induction hashes as [|ih hs IH]; intros n ret; [done|]. cbn [scrapes_fit scrape_all fold_left].
  intros [Hf Hfs]%andb_true_iff. change (pm_Scrape now ih m) with (Mux.Scrape cfg cached now ih m).
  rewrite (sim_scrape cfg cached now ih m R cache_off Hs Hf). by apply IH with (S n).
Qed.

Lemma run_HttpScrape now bound srv m R :
  let e := HttpScrape now bound in
  sim m R → event_fits e srv R = true → agree (run_event e srv m) (ref_event e srv R).
Proof.
  intros e Hs Hf. unfold e, run_event, ref_event, Http.Scrape, event_fits, agree in *.
  assert (quiesce now m = m) as Hq by by apply quiesce_sim with R.
  destruct bound as [[|ih hs]|e0]; cbn [fst snd]; rewrite ?Hq; [split; [apply http_failure_reply|done]| |split; [apply http_failure_reply|done]].
  rewrite (scrape_all_ref now 0 _ ∅ m R Hs Hf). cbn [fst snd]. by rewrite Hq.
Qed.

Lemma scrape_list_ref clock n hashes m R :
  sim m R → scrapes_fit clock n hashes R = true →
  scrape_list clock n hashes m = (Ok (map (fun ih => counts_of (ref_torrent R ih)) hashes), m).
Proof.
  intros Hs. revert n. induction hashes as [|ih hs IH]; intros n; [done|]. cbn [scrapes_fit scrape_list map].
  intros [Hf Hfs]%andb_true_iff. change (pm_Scrape (clock n) ih m) with (Mux.Scrape cfg cached (clock n) ih m).
  rewrite (sim_scrape cfg cached (clock n) ih m R cache_off Hs Hf). by rewrite IH.
Qed.

(** The announce of a connected client. *)
Lemma run_udp_announce (w : world) addr tid body (req : AnnounceRequest) isIPv6 m R :
  sim m R → 0 ≤ tid < 2 ^ 32 → announce_request addr body = Some (Ok (req, isIPv6)) →
  let req' := from_udp addr req in
  call_fits (M := M) cfg (CallAnnounce (w_now w) (w_now' w) req') R = true →
  call_fits (M := M) cfg (CallScrape (w_scrape w 0%nat) (req_InfoHash req')) R = true →
  live cfg (w_scrape w 0%nat) (peer_of_request (w_now w) req') = true →
  let '(a, R') := ref_announce (M := M) cfg (w_now w) (w_now' w) req' R in
  ∃ r m', handleAnnounce cfg (w_now w) (w_now' w) (w_scrape w 0%nat) (w_rnd w) addr tid body m = Some (r, m') ∧
    sim (quiesce (w_now' w) m') R' ∧
    match a with
    | Fails e => udp_error tid e
    | AnyOf n l => udp_peers (w_rnd w) tid isIPv6 (at_scrape (peer_of_request (w_now w) req') (ref_dated R (req_InfoHash req'))) n l
    | _ => fun _ => False
    end (SawDatagrams (Ok tt) [match r with Ok buf => buf | Err e => responseError tid e end]).
Proof.
  intros Hs Ht Hreq req' Hf1 Hf2 Hl.
  destruct (announce_quiesced _ _ req' m R Hs Hf1) as [Ha Hs'].
  pose proof (scrape_midway (w_now w) (w_now' w) (w_scrape w 0%nat) req' m R) as Hmid.
  destruct (announce_decoded cfg (w_now w) (w_now' w) (w_scrape w 0%nat) (w_rnd w) addr tid body m Ht) as (r & m' & E & Hd).
  rewrite Hreq in Hd. fold req' in Hd.
  change (pm_HandleAnnouncePeer (w_now w) (w_now' w) req' m) with (Mux.HandleAnnouncePeer cfg (w_now w) (w_now' w) req' m) in Hd.
  destruct (ref_announce cfg _ _ req' R) as [a R']. exists r, m'. split; [exact E|]. clear E.
  destruct (Mux.HandleAnnouncePeer cfg _ _ req' m) as [[ps|e] m1]; cbn [fst snd] in *; destruct a as [e1|n l|f|r1]; try done.
  - pose proof (Hmid n l cache_off Hs Hf1 Hf2 Hl eq_refl) as Hsc.
    change (pm_Scrape (w_scrape w 0%nat) (req_InfoHash req) m1) with (Mux.Scrape cfg cached (w_scrape w 0%nat) (req_InfoHash req') m1) in Hd.
    rewrite Hsc in Hd. destruct Hd as (-> & buf & -> & Hbuf). split; [done|].
    exists buf, ps. by split_and!; [|apply any_of_answers|].
  - destruct Hd as [-> ->]. cbn in Ha. by subst e1.
Qed.

Lemma run_Datagram (w : world) addr b srv m R :
  let e := Datagram w addr b in
  sim m R → event_fits e srv R = true → agree (run_event e srv m) (ref_event e srv R).
Proof.
  intros e Hs Hf. unfold e, run_event, ref_event, event_fits, classify, agree in *.
  assert (quiesce (w_now' w) m = m) as Hq by by apply quiesce_sim with R.
  destruct (Nat.ltb_spec (length b) 16) as [Hb|Hb].
  { unfold handleRequest. rewrite (proj2 (Nat.ltb_lt _ _)) by lia. cbn [fst snd]. by rewrite Hq. }
  pose proof (handleRequest_header cfg w addr b srv m Hb) as E. pose proof (tid_range b Hb) as Ht. unfold is_connect in *.
  destruct (header b) as [[cid action] tid]. rewrite E. clear E. cbn [snd] in Ht.
  destruct ((cid =? ProtocolID) && (action =? ActionConnect)).
  { destruct (handleConnection _ _ _ _ _ _) as [[r out] srv']. cbn [fst snd]. by rewrite Hq. }
  destruct (sync.Load cid srv) as [c|]; [|cbn [fst snd]; by rewrite Hq].
  destruct (negb _); [cbn [fst snd]; by rewrite Hq|].
  destruct (action =? ActionAnnounce); [|destruct (action =? ActionScrape)].
  - destruct (announce_request_total addr (drop 16 b)) as [[[req v6]|e1] Ereq]; rewrite Ereq in *.
    + apply andb_true_iff in Hf as [Hf Hl]. apply andb_true_iff in Hf as [Hf1 Hf2].
      pose proof (run_udp_announce w addr tid (drop 16 b) req v6 m R Hs Ht Ereq Hf1 Hf2 Hl) as Hd.
      destruct (ref_announce cfg _ _ _ R) as [a R']. destruct Hd as (r & m' & -> & Hs' & Hd). by split_and!.
    + unfold handleAnnounce. rewrite Ereq. cbn [mbind option_bind fst snd]. by rewrite Hq.
  - destruct (scrape_reply_decodes (w_scrape w) tid (drop 16 b) m Ht) as (r & m' & -> & Hd).
    rewrite (scrape_list_ref _ _ _ m R Hs Hf) in Hd. destruct Hd as (-> & buf & -> & Hbuf).
    cbn [mbind option_bind fst snd]. rewrite Hq. split_and!; [by eexists|done|done].
  - cbn [mbind option_bind fst snd]. by rewrite Hq.
Qed.

Lemma run_event_ref e srv m R :
  sim m R → event_fits e srv R = true → agree (run_event e srv m) (ref_event e srv R).
Proof.
  intros Hs Hf. destruct e as [rnd now now' now'' c bound|now bound|w addr b|t|c].
  - by apply run_HttpAnnounce.
  - by apply run_HttpScrape.
  - by apply run_Datagram.
  - done.
  - destruct (sim_call cfg cached c m R cache_off Hs Hf) as [Ha Hs']. unfold run_event, ref_event, agree.
    destruct (run_call cfg cached c m) as [r m']. destruct (ref_call cfg c R) as [a R']. split_and!; [by exists r|done|done].
Qed.

Lemma run_events_ref es srv m R :
  sim m R → events_fit es srv R = true →
  Forall2 (fun (P : observation → Prop) x => P x) (ref_events es srv R).1 (run_events es srv m).1 ∧
  (run_events es srv m).2.1 = (ref_events es srv R).2.1 ∧ sim (run_events es srv m).2.2 (ref_events es srv R).2.2.
Proof.
  revert srv m R. induction es as [|e es IH]; intros srv m R Hs; [by split; [constructor|]|].
  cbn [events_fit run_events ref_events]. intros [Hf Hfs]%andb_true_iff.
  pose proof (run_event_ref e srv m R Hs Hf) as Hag.
  destruct (run_event e srv m) as [x [srv' m']], (ref_event e srv R) as [P [srv'' R']].
  destruct Hag as (Hx & E & Hs'). cbn [fst snd] in *. subst srv''.
  destruct (IH srv' m' R' Hs' Hfs) as (Hxs & E & Hs'').
  destruct (run_events es srv' m') as [xs [srv1 m1]], (ref_events es srv' R') as [Ps [srv2 R2]]. cbn [fst snd] in *.
  split; [by constructor|done].
Qed.
End Simulation.

(** C1: What clients see. Take a manager with any number of shards behind the HTTP
    and UDP front ends and any session of HTTP announces and scrapes, datagrams,
    connection clean-ups and direct calls (bans, deletions, listings, the interval
    task's clean-up), with the goroutines of each handler run before the next
    event. What each sender sees is what a tracker with one finite map from info
    hashes to tables of peers and the same ban lists may say: an HTTP client's
    compact reply decodes to the counts of the table and the endpoints of as many
    of the wanted peers as it asked for or there are; its errors decode to the
    reference's message; a connected UDP client's reply decodes to such peers in
    its address family and to the counts of the table as the handler leaves it;
    its scrapes decode to one triple per info hash; no datagram panics. At the
    end the connections, the ban lists and every torrent are the reference's.
    The torrents announced or scraped hold no expired peer, those announced are
    at most half full, none with an open connection is cleaned up, and the scrape
    cache is off or empty. *)
Theorem clients_see_reference num b es :
  redis_Enable (Cache cfg) = false ∨ (∀ ih, cached ih = None) → 0 ≤ TTL (Tracker cfg) < 2 ^ 62 → 0 < num < 2 ^ 64 →
  events_fit es NewUDPServer (ref_new b) = true →
  let out := run_events es NewUDPServer (NewMuxLocalManager num b) in
  let ref := ref_events es NewUDPServer (ref_new b) in
  Forall2 (fun (P : observation → Prop) x => P x) ref.1 out.1 ∧
  out.2.1 = ref.2.1 ∧ ban out.2.2 = ref_ban ref.2.2 ∧
  ∀ ih, mux_torrent out.2.2 ih = ref_torrent ref.2.2 ih.
Proof.
  intros Hc Ht Hn Hf out ref.
  destruct (run_events_ref Hc Ht es NewUDPServer _ _ (sim_new cfg num b Hn) Hf) as (Ha & E & Hs).
  split_and!; [done|done|apply Hs|]. intros ih. by apply sim_torrents with cfg.
Qed.
End EndToEnd.

(** ** A session *)
Definition session_http : HttpAnnounceRequest := sample_request "PPPPPPPPPPPPPPPPPPPP" hash_a "started" Byte.x02 0 50.
Definition session_from : http_context := with_header "X-Forwarded-For" "203.0.113.9".
Definition session_ids (n : Z) : world :=
  mkWorld sample_time sample_time (fun _ => sample_time) 100 (Ok n) None.
(** O joined long ago and expired; P seeds over HTTP; a UDP client connects, announces and scrapes; the torrent
    is banned; the UDP client announces again. *)
Definition session : list event :=
  [HttpAnnounce 7 long_ago long_ago long_ago session_from (Ok (req_http (sample_request "OOOOOOOOOOOOOOOOOOOO" hash_a "started" Byte.x02 0 50)));
   Direct (CallClean sample_time);
   HttpAnnounce 100 sample_time sample_time sample_time session_from (Ok session_http);
   Datagram (session_ids 42) (sample_addr Byte.x02 5000) (request ProtocolID 0 8 []);
   Datagram (session_ids 43) (sample_addr Byte.x02 5000) (request 42 1 9 (encode_packet (sample_packet 1)));
   HttpScrape sample_time (Ok [hash_a]);
   Datagram (session_ids 44) (sample_addr Byte.x02 5000) (request 42 2 10 (bytes_of_string hash_a));
   Direct (CallBanInfoHash io_ok hash_a);
   Datagram (session_ids 45) (sample_addr Byte.x02 5000) (request 42 1 11 (encode_packet (sample_packet 1)));
   HttpAnnounce 0 sample_time sample_time sample_time session_from (Ok session_http)].
Notation session_run := (run_events (sample_cfg 400) io_ok (fun _ => None) (fun _ => Err "marshal"%string) (fun s => s)
  session NewUDPServer sample_mux).
Notation session_ref := (ref_events (M := Skip) (sample_cfg 400) (fun _ => Err "marshal"%string) (fun s => s)
  session NewUDPServer (ref_new (ban sample_mux))).

Lemma clients_see_reference_witness :
  (∃ P x, session_ref.1 !! 4%nat = Some P ∧ session_run.1 !! 4%nat = Some x ∧ P x) ∧
  mux_torrent session_run.2.2 hash_a = ∅.
Proof.
  destruct (clients_see_reference (M := Skip) (sample_cfg 400) io_ok (fun _ => None) (fun _ => Err "marshal"%string) (fun s => s)
    4 (ban sample_mux) session) as (Ha & _ & _ & Ht).
  - by right.
  - vm_compute. split; congruence.
  - lia.
  - vm_compute. reflexivity.
  - split.
    + assert (is_Some (session_run.1 !! 4%nat)) as [x Hx] by (vm_compute; by eexists).
      destruct (Forall2_lookup_r _ _ _ _ _ Ha Hx) as (P & HP & HPx). exists P, x. by split_and!.
    + etransitivity; [exact (Ht hash_a)|vm_compute; reflexivity].
Defined.

(** What the UDP client saw: one seeder, P, under the address P announced from;
    later, that the torrent is banned. *)
Definition seen_announce (x : observation) : option announce_reply :=
  match x with SawDatagrams _ [out] => read_announce 4 out | _ => None end.
Example session_peers :
  session_run.1 !! 4%nat ≫= seen_announce = Some (mkReply 1 9 900 0 1 [([Byte.xcb; Byte.x00; Byte.x71; Byte.x09], 6881)]).
Proof. vm_compute. reflexivity. Qed.
Example session_banned : session_run.1 !! 8%nat = Some (SawDatagrams (Ok tt) [responseError 11 "banned info_hash"]).
Proof. vm_compute. reflexivity. Qed.
