(* ===== verification/Rpc.v ===== *)
(** RPC mode: the service a tracker with a store offers
    ([biz/services/rpc/handler.go]), and the peer manager that forwards every
    call to it ([biz/services/peer/rpc/client.go], [dummy.go]).

    The transport (kitex) is a parameter: whether a call is delivered, what the
    codec makes of nil binary fields, how an error reads on the client's side,
    and the generated names of the events. *)
From Stdlib Require Import ZArith Lia Bool Strings.String.
From stdpp Require Import base strings list gmap.
From S2P Require Import Prelude GoStd Config Model Common Manager Idl.
Set Default Proof Using "Type*".
Local Open Scope Z_scope.

Record idl_ScrapeFile := mkIdlScrapeFile { isf_Complete : Z; isf_Downloaded : Z; isf_Incomplete : Z; isf_Seeder : Z }.
Record idl_StatisticInfo := mkIdlStatisticInfo
  { is_TotalPeers : Z; is_TotalTorrents : Z; is_Shards : list (string * (Z * Z)) }.
Definition BanType_InfoHash : Z := 0.
Definition BanType_PeerID : Z := 1.

(** ** The service *)
Module impl.
Section Impl.
Context {S : Type} `{PeerManager S} (event_String : Z → string).

Definition Announce (now now' : Z) (request : idl_AnnounceRequest) (st : S) : result (list idl_Peer) * S :=
  let '(resp, st) := pm_HandleAnnouncePeer now now' (announceRequestIDLToCommon event_String request) st in
  (res_map (map peerCommonToIDL) resp, st).

Definition file_to_idl (v : ScrapeFile) : idl_ScrapeFile :=
  {| isf_Complete := i64 (Complete v); isf_Downloaded := i64 (Model.Downloaded v);
     isf_Incomplete := i64 (Incomplete v); isf_Seeder := i64 (Seeder v) |}.
Fixpoint scrape_hashes (now : Z) (hashes : list string) (resp : gmap string idl_ScrapeFile) (st : S)
  : result (gmap string idl_ScrapeFile) * S :=
  match hashes with
  | [] => (Ok resp, st)
  | hash :: hashes =>
      let '(v, st) := pm_Scrape now hash st in
      match v with
      | Err e => (Err e, st)
      | Ok v => scrape_hashes now hashes (<[hash := file_to_idl v]> resp) st
      end
  end.
Definition Scrape (now : Z) (infoHashes : list string) (st : S) : result (gmap string idl_ScrapeFile) * S :=
  scrape_hashes now infoHashes ∅ st.

Definition GetStatistic (st : S) : result idl_StatisticInfo :=
  res_map (fun resp => {| is_TotalPeers := i64 (TotalPeers resp); is_TotalTorrents := i64 (TotalTorrents resp);
    is_Shards := map (fun '(k, (p, t)) => (k, (i64 p, i64 t))) (Shards resp) |}) (pm_GetStatistic st).

Definition Ban (ty : Z) (target : string) (st : S) : result unit * S :=
  if ty =? BanType_InfoHash then pm_BanInfoHash target st
  else if ty =? BanType_PeerID then pm_BanPeer target st
  else (Err "unknown type"%string, st).
Definition DeleteInfoHash (target : string) (st : S) : result unit * S := pm_DeleteInfoHash target st.
Definition GetPeer (infoHash : string) (st : S) : result (list idl_Peer) :=
  res_map (map peerCommonToIDL) (pm_GetPeers infoHash st).
End Impl.
End impl.

(** The label of the announce metric. *)
Definition sourceToMetrics (s : Z) : string :=
  if s =? SourceHTTP then "http" else if s =? SourceUDP then "udp" else if s =? SourceWS then "ws" else "http".

(** ** The client *)

(** What becomes of a call: it is answered, the request is lost, or the answer
    is lost (the call times out) after the service has done its work. *)
Inductive delivery := Delivered | RequestLost (err : string) | ReplyLost (err : string).

Section Client.
Context {S : Type} `{PeerManager S}.
Context (event_String : Z → string) (nil_binary : netIP) (remote_error : string → string) (d : delivery).

Definition client_result {A} (r : result A) : result A := match r with Ok x => Ok x | Err e => Err (remote_error e) end.
Definition call {A} (f : S → result A * S) (st : S) : result A * S :=
  match d with
  | Delivered => let '(r, st) := f st in (client_result r, st)
  | RequestLost e => (Err e, st)
  | ReplyLost e => (Err e, (f st).2)
  end.
(** A call that only reads. *)
Definition query {A} (f : S → result A) (st : S) : result A := (call (fun st => (f st, st)) st).1.

Definition read_peers (ps : list idl_Peer) : list Peer := map PeerIDLToCommon (map (wire_peer nil_binary) ps).

Definition HandleAnnouncePeer (now now' : Z) (req : AnnounceRequest) (st : S) : result (list Peer) * S :=
  let '(resp, st) :=
    call (impl.Announce event_String now now' (wire_request nil_binary (announceRequestCommonToIDL req))) st in
  (res_map read_peers resp, st).

(** [resp.Res[infoHash]] is there whenever the call succeeds. *)
Definition file_of_idl (v : idl_ScrapeFile) : ScrapeFile :=
  {| Seeder := isf_Seeder v; Complete := isf_Complete v; Incomplete := isf_Incomplete v; Model.Downloaded := isf_Downloaded v |}.
Definition Scrape (now : Z) (infoHash : string) (st : S) : result ScrapeFile * S :=
  let '(resp, st) := call (impl.Scrape now [infoHash]) st in
  match resp with
  | Err e => (Err e, st)
  | Ok res =>
      match res !! infoHash with
      | Some v => (Ok (file_of_idl v), st)
      | None => (Err "nil pointer dereference"%string, st)
      end
  end.
Definition GetStatistic (st : S) : result StatisticInfo :=
  res_map (fun info => {| TotalPeers := u64 (is_TotalPeers info); TotalTorrents := u64 (is_TotalTorrents info);
    Shards := map (fun '(k, (p, t)) => (k, (u64 p, u64 t))) (is_Shards info) |}) (query impl.GetStatistic st).
Definition BanInfoHash (infoHash : string) : S → result unit * S := call (impl.Ban BanType_InfoHash infoHash).
Definition BanPeer (peerID : string) : S → result unit * S := call (impl.Ban BanType_PeerID peerID).
Definition GetPeers (infoHash : string) (st : S) : result (list Peer) :=
  res_map read_peers (query (impl.GetPeer infoHash) st).
Definition DeleteInfoHash (infoHash : string) : S → result unit * S := call (impl.DeleteInfoHash infoHash).

Definition BanIP (ip : string) (st : S) : result unit * S := (Err ErrNotSupportedInRPCMode, st).
Definition UnbanIP (ip : string) (st : S) : result unit * S := (Err ErrNotSupportedInRPCMode, st).
Definition ClearBanIP (st : S) : result unit * S := (Err ErrNotSupportedInRPCMode, st).
Definition GetIPFilterStats (st : S) : option IPFilterStats := None.

(** [dummy.go] *)
Definition Clean (st : S) : Z * S := (0, st).
Definition ClearBanInfoHash (st : S) : S := st.
Definition ClearBanPeer (st : S) : S := st.
Definition AnswerToPeer (infoHash peerID : string) (answerBody : bytes) : result unit := Err "not supported"%string.

(** The manager of RPC mode; its state is the service's. *)
Definition rpc_manager : PeerManager S := {|
  pm_HandleAnnouncePeer := HandleAnnouncePeer; pm_Scrape := Scrape; pm_Clean _ := Clean;
  pm_GetStatistic := GetStatistic; pm_BanInfoHash := BanInfoHash; pm_BanPeer := BanPeer;
  pm_ClearBanInfoHash := ClearBanInfoHash; pm_ClearBanPeer := ClearBanPeer; pm_GetPeers := GetPeers;
  pm_DeleteInfoHash := DeleteInfoHash; pm_BanIP := BanIP; pm_UnbanIP := UnbanIP;
  pm_ClearBanIP := ClearBanIP; pm_GetIPFilterStats := GetIPFilterStats;
|}.
End Client.
