(* ===== verification/RpcSpec.v ===== *)
(** RPC mode is transparent: the forwarding manager answers and changes the
    service's store as the service's own manager would, up to what the IDL does
    not carry. *)
From Stdlib Require Import ZArith Lia Bool Strings.String.
From stdpp Require Import base strings list gmap relations.
From S2P Require Import Prelude GoStd Config Model Common Samples Mapx Local LocalSafety BanItem IPFilter Ban Manager Mux MuxSpec Idl ManagerLaws Rpc.
Set Default Proof Using "Type*".
Local Open Scope Z_scope.

(** The names the IDL gives the events. *)
Definition event_names (event_String : Z → string) : Prop :=
  ∀ e, PeerEvent_Unknown ≤ e ≤ PeerEvent_Completed → event_String e = PeerEvent_String e.

Lemma ParsePeerEvent_range s : PeerEvent_Unknown ≤ ParsePeerEvent s ≤ PeerEvent_Completed.
Proof. unfold ParsePeerEvent, PeerEvent_Unknown, PeerEvent_Started, PeerEvent_Stopped, PeerEvent_Completed. repeat case_decide; lia. Qed.
Lemma ParsePeerEvent_String e : PeerEvent_Unknown ≤ e ≤ PeerEvent_Completed → ParsePeerEvent (PeerEvent_String e) = e.
Proof.
  intros He. assert (e = 0 ∨ e = 1 ∨ e = 2 ∨ e = 3) as [-> |[-> |[-> | ->]]]
    by (unfold PeerEvent_Unknown, PeerEvent_Completed in He; lia); reflexivity.
Qed.

Section Spec.
Context {S : Type} `{PeerManager S} (event_String : Z → string) (nil_binary : netIP) (remote_error : string → string).
Hypothesis names : event_names event_String.

(** The request as it arrives: without the connection and the user agent, the
    event by its name, the compact flag as 0 or 1. *)
Definition relayed (req : AnnounceRequest) : AnnounceRequest :=
  mkAnnounceRequest
    {| req_ClientIP := wire_binary nil_binary (req_ClientIP req); req_InfoHash := req_InfoHash req;
       req_PeerID := req_PeerID req; req_Event := PeerEvent_String (ParsePeerEvent (req_Event req));
       req_UserAgent := ""; req_IP := req_IP req; req_IPv4 := req_IPv4 req; req_IPv6 := req_IPv6 req;
       req_Port := req_Port req; req_Uploaded := req_Uploaded req; req_Downloaded := req_Downloaded req;
       req_Left := req_Left req; req_NumWant := req_NumWant req; req_Type := req_Type req;
       req_Compact := if req_Compact req =? 1 then 1 else 0 |}
    (req_Source req) (req_Offers req) None.

Lemma request_relayed (req : AnnounceRequest) :
  request_widths req →
  announceRequestIDLToCommon event_String (wire_request nil_binary (announceRequestCommonToIDL req)) = relayed req.
Proof using names.
  intros (Hp & Ht & Hs). unfold announceRequestIDLToCommon, announceRequestCommonToIDL, wire_request, relayed. cbn. unfold i32, i8.
  rewrite names by apply ParsePeerEvent_range. rewrite offer_roundtrip.
  rewrite (wrap_s_small 32 (req_Port req)), (wrap_s_small 8 (req_Type req)), (wrap_s_small 8 (req_Source req)) by lia. done.
Qed.

Lemma read_peers_received ps :
  Forall peer_widths ps → read_peers nil_binary (map peerCommonToIDL ps) = map (received nil_binary) ps.
Proof using Type.
  unfold read_peers. induction 1 as [|p ps Hp _ IH]; [done|]. cbn [map]. rewrite IH. f_equal.
  by apply (peer_roundtrip nil_binary).
Qed.

(** What counts and statistics fit in. *)
Definition file_widths (f : ScrapeFile) : Prop :=
  - 2 ^ 63 ≤ Seeder f < 2 ^ 63 ∧ - 2 ^ 63 ≤ Complete f < 2 ^ 63 ∧ - 2 ^ 63 ≤ Incomplete f < 2 ^ 63 ∧
  - 2 ^ 63 ≤ Model.Downloaded f < 2 ^ 63.
Lemma file_relayed f : file_widths f → file_of_idl (impl.file_to_idl f) = f.
Proof using Type.
  intros (Hs & Hc & Hi & Hd). destruct f. unfold file_of_idl, impl.file_to_idl. cbn in *.
  unfold i64. by rewrite !wrap_s_small by lia.
Qed.

Definition statistic_widths (i : StatisticInfo) : Prop :=
  0 ≤ TotalPeers i < 2 ^ 64 ∧ 0 ≤ TotalTorrents i < 2 ^ 64 ∧
  Forall (fun e => 0 ≤ e.2.1 < 2 ^ 64 ∧ 0 ≤ e.2.2 < 2 ^ 64) (Shards i).

Lemma GetStatistic_relayed st :
  (∀ info, pm_GetStatistic st = Ok info → statistic_widths info) →
  GetStatistic remote_error Delivered st = client_result remote_error (pm_GetStatistic st).
Proof using Type.
  intros Hw. unfold GetStatistic, query, call, impl.GetStatistic. destruct (pm_GetStatistic st) as [info|e]; [|done].
  destruct (Hw info eq_refl) as (Hp & Ht & Hs). destruct info as [p t s]. cbn in *. rewrite !u64_i64 by done. do 2 f_equal.
  rewrite map_map. clear Hw. induction Hs as [|[k [a b]] s [Ha Hb] _ IH]; [done|]. cbn in *. rewrite !u64_i64 by done. by rewrite IH.
Qed.

Lemma GetPeers_relayed ih st :
  (∀ ps, pm_GetPeers ih st = Ok ps → Forall peer_widths ps) →
  GetPeers nil_binary remote_error Delivered ih st
  = client_result remote_error (res_map (map (received nil_binary)) (pm_GetPeers ih st)).
Proof using Type.
  intros Hw. unfold GetPeers, query, call, impl.GetPeer. destruct (pm_GetPeers ih st) as [ps|e]; [|done]. cbn.
  by rewrite read_peers_received by by apply Hw.
Qed.

Definition remote {A} (x : result A * S) : result A * S := (client_result remote_error x.1, x.2).
Local Notation forwarding := (rpc_manager event_String nil_binary remote_error Delivered).

(** C22: Delivered calls of the forwarding manager do to the service's state,
    and answer, what the service's manager does: an announce as if the request
    without its user agent had been made there, its peers as the codec carries
    them, a scrape, bans, deletions, the statistics and the peer list
    unchanged; errors are passed on. *)
Theorem rpc_transparent now now' (req : AnnounceRequest) ih st :
  request_widths req →
  (∀ ps, (pm_HandleAnnouncePeer now now' (relayed req) st).1 = Ok ps → Forall peer_widths ps) →
  (∀ f, (pm_Scrape now ih st).1 = Ok f → file_widths f) →
  (∀ ps, pm_GetPeers ih st = Ok ps → Forall peer_widths ps) →
  (∀ info, pm_GetStatistic st = Ok info → statistic_widths info) →
  @pm_HandleAnnouncePeer S forwarding now now' req st
    = (let '(r, st') := remote (pm_HandleAnnouncePeer now now' (relayed req) st) in (res_map (map (received nil_binary)) r, st')) ∧
  @pm_Scrape S forwarding now ih st = remote (pm_Scrape now ih st) ∧
  @pm_BanInfoHash S forwarding ih st = remote (pm_BanInfoHash ih st) ∧
  @pm_BanPeer S forwarding ih st = remote (pm_BanPeer ih st) ∧
  @pm_DeleteInfoHash S forwarding ih st = remote (pm_DeleteInfoHash ih st) ∧
  @pm_GetPeers S forwarding ih st = client_result remote_error (res_map (map (received nil_binary)) (pm_GetPeers ih st)) ∧
  @pm_GetStatistic S forwarding st = client_result remote_error (pm_GetStatistic st).
Proof using names.
  intros Hreq Hps Hf Hgp Hst. cbn. split_and!.
  - unfold HandleAnnouncePeer, call, impl.Announce. rewrite request_relayed by done.
    destruct (pm_HandleAnnouncePeer now now' (relayed req) st) as [[ps|e] st'] eqn:E; [|done].
    cbn. by rewrite read_peers_received by (by apply Hps).
  - unfold Scrape, call, impl.Scrape, impl.scrape_hashes. 
    destruct (pm_Scrape now ih st) as [[f|e] st'] eqn:E; [|done]. cbn. rewrite lookup_insert_eq.
    by rewrite file_relayed by (by apply Hf).
  - unfold BanInfoHash, call, impl.Ban. cbn. by destruct (pm_BanInfoHash ih st).
  - unfold BanPeer, call, impl.Ban. cbn. by destruct (pm_BanPeer ih st).
  - unfold DeleteInfoHash, call, impl.DeleteInfoHash. by destruct (pm_DeleteInfoHash ih st).
  - by apply GetPeers_relayed.
  - by apply GetStatistic_relayed.
Qed.

(** A lost request changes nothing; a lost answer hides what was done. *)
Lemma rpc_lost {A} (f : S → result A * S) e st :
  call remote_error (RequestLost e) f st = (Err e, st) ∧
  call remote_error (ReplyLost e) f st = (Err e, (call remote_error Delivered f st).2).
Proof using Type. split; [done|]. unfold call. by destruct (f st). Qed.
End Spec.

(** The forwarding manager keeps the promises of the service's manager. *)
Section Laws.
Context {S : Type} `{PeerManagerLaws S} (event_String : Z → string) (nil_binary : netIP) (remote_error : string → string).
Context (d : delivery).
Hypothesis names : event_names event_String.
Hypothesis serves_widths : ∀ x, pm_serves x → peer_widths x.

Lemma call_ok {A} (f : S → result A * S) st : (∀ st, pm_ok st → pm_ok (f st).2) → pm_ok st → pm_ok (call remote_error d f st).2.
Proof using Type. intros Hf Hst. unfold call. destruct d; [|done|by apply Hf]. pose proof (Hf st Hst). by destruct (f st). Qed.

#[export] Program Instance rpc_laws : PeerManagerLaws S (H := rpc_manager event_String nil_binary remote_error d) := {|
  pm_ok := pm_ok; pm_serves x := ∃ y, pm_serves y ∧ x = received nil_binary y |}.
Next Obligation.
  intros now now' req st Hst. cbn. unfold HandleAnnouncePeer.
  set (r := wire_request nil_binary (announceRequestCommonToIDL req)).
  pose proof (call_ok (impl.Announce event_String now now' r) st) as Hc.
  destruct (call _ _ _ _). apply Hc; [|done]. intros st2 Hst2. unfold impl.Announce.
  pose proof (pm_announce_ok now now' (announceRequestIDLToCommon event_String r) st2 Hst2).
  by destruct (pm_HandleAnnouncePeer _ _ _ st2).
Qed.
Next Obligation.
  intros now ih st Hst. cbn. unfold Scrape. pose proof (call_ok (impl.Scrape now [ih]) st) as Hc.
  destruct (call _ _ _ _) as [[res|e] st'].
  - assert (pm_ok st') as Hst' by (apply Hc; [|done]; intros st2 Hst2; unfold impl.Scrape, impl.scrape_hashes;
      pose proof (pm_scrape_ok now ih st2 Hst2); by destruct (pm_Scrape now ih st2) as [[]]).
    by destruct (res !! ih).
  - apply Hc; [|done]. intros st2 Hst2. unfold impl.Scrape, impl.scrape_hashes.
    pose proof (pm_scrape_ok now ih st2 Hst2); by destruct (pm_Scrape now ih st2) as [[]].
Qed.
Next Obligation.
  intros now now' req st ps Hw Hn Hst. cbn. unfold HandleAnnouncePeer, call. destruct d; [|done..].
  unfold impl.Announce. rewrite (request_relayed event_String nil_binary names req Hw).
  destruct (pm_HandleAnnouncePeer now now' (relayed nil_binary req) st) as [[ps'|e] st'] eqn:E; [|done]. cbn. intros [= <-].
  destruct (pm_answer now now' (relayed nil_binary req) st ps') as [Hl Hps]; [done|done|done|by rewrite E|].
  rewrite read_peers_received by (eapply Forall_impl; [exact Hps|]; intros x [_ Hx]; by apply serves_widths).
  rewrite length_map. split; [done|]. apply Forall_map. eapply Forall_impl; [exact Hps|].
  intros x [(? & ? & ?) ?]. split; [by split_and!|by exists x].
Qed.
End Laws.

(** ** Addresses that get lost *)
Lemma received_no_address p : IP p = None → GetIP true (received (Some []) p) = Some [].
Proof. intros Hp. unfold GetIP, received. cbn. by rewrite Hp. Qed.

(** If the codec reads a binary field that was nil as an empty slice, then,
    with announced addresses in use, the peers that announced none have no
    address any more once they were forwarded or reloaded: the compact answer
    about them is empty, although before each of them had the endpoint of its
    connection. *)
Theorem nil_addresses_lost ps :
  Forall (fun p => IP p = None ∧ IPv4 p = None ∧ IPv6 p = None) ps →
  PeersToCompact true (map (received (Some [])) ps) = ([], []) ∧
  PeersToCompact true ps
  = PeersToCompact false ps.
Proof.
  intros Hps. rewrite !PeersToCompact_flat. split.
  - assert (omap (endpoint4 true) (map (received (Some [])) ps) = [] ∧ omap (endpoint6 true) (map (received (Some [])) ps) = []) as [-> ->]; [|done].
    induction Hps as [|p ps (Hp & _) _ [IH4 IH6]]; [done|]. csimpl. unfold endpoint4 at 1, endpoint6 at 1.
    by rewrite received_no_address, IH4, IH6 by done.
  - assert (Forall (fun p => GetIP true p = GetIP false p) ps) as Hg.
    { eapply Forall_impl; [exact Hps|]. intros p (H1 & H2 & H3). unfold GetIP. by rewrite H1, H2, H3. }
    clear Hps. assert (omap (endpoint4 true) ps = omap (endpoint4 false) ps ∧ omap (endpoint6 true) ps = omap (endpoint6 false) ps) as [-> ->]; [|done].
    assert (∀ p, GetIP true p = GetIP false p → endpoint4 true p = endpoint4 false p ∧ endpoint6 true p = endpoint6 false p) as He.
    { intros p E. unfold endpoint4, endpoint6. by rewrite E. }
    induction Hg as [|p ps Hp _ [IH4 IH6]]; [done|]. apply He in Hp as [E4 E6]. csimpl. by rewrite E4, E6, IH4, IH6.
Qed.

Lemma nil_addresses_lost_witness :
  PeersToCompact true (map (received (Some [])) [sample_peer "P" Byte.x01 PeerEvent_Started 7 sample_time]) = ([], []) ∧
  PeersToCompact true [sample_peer "P" Byte.x01 PeerEvent_Started 7 sample_time]
  = ([Byte.xcb; Byte.x00; Byte.x71; Byte.x01; Byte.x1a; Byte.xe1], []).
Proof.
  split; [|vm_compute; reflexivity].
  apply (nil_addresses_lost [sample_peer "P" Byte.x01 PeerEvent_Started 7 sample_time]).
  constructor; [split_and!; reflexivity|constructor].
Defined.

(** R announces torrent A, which P is in, to a tracker that forwards to the
    sample manager. *)
Definition sample_service : PeerManager (MuxLocalManager Skip (list bytes) fallbackIPFilter) :=
  mux_manager (sample_cfg 400) io_ok (fun _ => None).
Definition sample_remote (e : string) : string := ("remote or network error[remote]: biz error: " ++ e)%string.
Definition request_r : AnnounceRequest := sample_request "R" hash_a "started" Byte.x03 7 50.

Lemma event_names_sample : event_names PeerEvent_String.
Proof. done. Qed.

Lemma rpc_transparent_witness :
  (@pm_HandleAnnouncePeer _ (rpc_manager (H := sample_service) PeerEvent_String None sample_remote Delivered)
     sample_time sample_time request_r two_torrents).1
  = Ok [received None (sample_peer "P" Byte.x01 PeerEvent_Started 7 sample_time)].
Proof.
  unshelve epose proof (rpc_transparent (H := sample_service) PeerEvent_String None sample_remote event_names_sample
    sample_time sample_time request_r hash_a two_torrents _ _ _ _ _) as (E & _).
  - vm_compute. split_and!; congruence.
  - intros ps. assert ((@pm_HandleAnnouncePeer _ sample_service sample_time sample_time (relayed None request_r) two_torrents).1
      = Ok [sample_peer "P" Byte.x01 PeerEvent_Started 7 sample_time]) as -> by (vm_compute; reflexivity).
    intros E%(inj Ok). rewrite <- E. constructor; [vm_compute; split_and!; congruence|constructor].
  - intros f. assert ((@pm_Scrape _ sample_service sample_time hash_a two_torrents).1 = Ok (mkScrapeFile 0 0 1 0)) as ->
      by (vm_compute; reflexivity).
    intros E%(inj Ok). rewrite <- E. vm_compute. split_and!; congruence.
  - intros ps. assert (@pm_GetPeers _ sample_service hash_a two_torrents
      = Ok [sample_peer "P" Byte.x01 PeerEvent_Started 7 sample_time]) as -> by (vm_compute; reflexivity).
    intros E%(inj Ok). rewrite <- E. constructor; [vm_compute; split_and!; congruence|constructor].
  - intros info E%(inj Ok). rewrite <- E. split; [vm_compute; split; congruence|].
    split; [vm_compute; split; congruence|]. match goal with |- Forall ?P ?l => let l' := eval vm_compute in l in change (Forall P l') end.
    repeat constructor; vm_compute; congruence.
  - rewrite E. vm_compute. reflexivity.
Defined.
