(* ===== verification/Admin.v ===== *)
(** The admin handlers ([biz/handler/admin.go]) and the character conversion
    they apply to hashes and ids ([utils/conv/string.go]), over any peer
    manager.  Binding is an argument; the ISO 8859-1 encoder of
    golang.org/x/text is a parameter. *)
From Stdlib Require Import ZArith Lia Bool Strings.String.
From stdpp Require Import base strings list.
From S2P Require Import Prelude GoStd Config Model Common Manager Http.
Set Default Proof Using "Type*".
Local Open Scope Z_scope.

(** [charmap.ISO8859_1]: what [Bytes] returns, with or without an error. *)
Class Charmap := {
  NewEncoder_Bytes : bytes → bytes * option string;
  NewDecoder_Bytes : bytes → bytes * option string;
}.
(** A decoded string is encoded back to the bytes it came from. *)
Class CharmapLaws `{!Charmap} := {
  encode_decoded b : NewEncoder_Bytes (NewDecoder_Bytes b).1 = (b, None);
}.

Section Conv.
Context `{Charmap}.
(** An error is logged, and what came with it is used. *)
Definition TransUTF8To8859_1 (raw : bytes) : bytes := (NewEncoder_Bytes raw).1.
Definition Trans8859_1ToUTF8 (raw : bytes) : bytes := (NewDecoder_Bytes raw).1.
Definition utf8_to_8859_1 (s : string) : string := string_of_bytes (TransUTF8To8859_1 (bytes_of_string s)).
Definition utf8_of_8859_1 (s : string) : string := string_of_bytes (Trans8859_1ToUTF8 (bytes_of_string s)).

Lemma utf8_8859_1_roundtrip `{!CharmapLaws} s : utf8_to_8859_1 (utf8_of_8859_1 s) = s.
Proof.
  unfold utf8_to_8859_1, utf8_of_8859_1, TransUTF8To8859_1, Trans8859_1ToUTF8.
  rewrite bytes_of_string_of_bytes, encode_decoded. apply string_of_bytes_of_string.
Qed.
End Conv.

(** A concrete encoder, for running the definitions: every byte is the
    character of its number. *)
Fixpoint latin1_encode (s : bytes) : option bytes :=
  match s with
  | [] => Some []
  | Byte.xc2 :: c :: s => cons c <$> latin1_encode s
  | Byte.xc3 :: c :: s => cons (byte_of_Z (Z_of_byte c + 64)) <$> latin1_encode s
  | c :: s => if Z_of_byte c <? 128 then cons c <$> latin1_encode s else None
  end.
Definition latin1_decode (s : bytes) : bytes :=
  flat_map (fun c => if Z_of_byte c <? 128 then [c]
                     else if Z_of_byte c <? 192 then [Byte.xc2; c] else [Byte.xc3; byte_of_Z (Z_of_byte c - 64)]) s.
#[export] Instance latin1 : Charmap := {|
  NewEncoder_Bytes s := match latin1_encode s with Some b => (b, None) | None => ([], Some "encoding: rune not supported by encoding."%string) end;
  NewDecoder_Bytes s := (latin1_decode s, None) |}.
#[export] Program Instance latin1_laws : CharmapLaws.
Next Obligation.
  intros b. cbn. assert (latin1_encode (latin1_decode b) = Some b) as ->; [|done].
  induction b as [|c b IH]; [done|]. cbn [latin1_decode flat_map]. fold (latin1_decode b).
  destruct c; cbn; by rewrite IH.
Qed.

Section Admin.
Context {S : Type} `{PeerManager S} `{Charmap}.

(** The loops of the handlers stop at the first error. *)
Fixpoint for_each (f : string → S → result unit * S) (l : list string) (st : S) : result unit * S :=
  match l with
  | [] => (Ok tt, st)
  | x :: l =>
      let '(r, st) := f x st in
      match r with Err e => (Err e, st) | Ok _ => for_each f l st end
  end.
(** The requests with a list: what is done for each item and what is said at the end. *)
Definition handle_list (f : string → S → result unit * S) (suffix : string) (bound : result (list string)) (st : S)
  : JSON (commonResponse string) * S :=
  match bound with
  | Err _ => (ResponseBadRequest, st)
  | Ok [] => (ResponseBadRequest, st)
  | Ok l =>
      let '(r, st) := for_each f l st in
      match r with
      | Err e => (Http.ResponseErr e, st)
      | Ok _ => (ResponseOK (Itoa (Z.of_nat (length l)) ++ suffix)%string, st)
      end
  end.

Definition HandleBanInfoHash : result (list string) → S → JSON (commonResponse string) * S :=
  handle_list (fun infoHash => pm_BanInfoHash (utf8_to_8859_1 infoHash)) " info hash banned".
Definition HandleBanPeer : result (list string) → S → JSON (commonResponse string) * S :=
  handle_list (fun peerId => pm_BanPeer (utf8_to_8859_1 peerId)) " peer banned".
Definition HandleBanIP : result (list string) → S → JSON (commonResponse string) * S :=
  handle_list pm_BanIP " IP(s) banned".
Definition HandleUnbanIP : result (list string) → S → JSON (commonResponse string) * S :=
  handle_list pm_UnbanIP " IP(s) unbanned".

Definition HandleClearBanInfoHash (st : S) : JSON (commonResponse string) * S :=
  (ResponseOK "all info hash bans cleared"%string, pm_ClearBanInfoHash st).
Definition HandleClearBanPeer (st : S) : JSON (commonResponse string) * S :=
  (ResponseOK "all peer bans cleared"%string, pm_ClearBanPeer st).
Definition HandleClearBanIP (st : S) : JSON (commonResponse string) * S :=
  let '(r, st) := pm_ClearBanIP st in
  match r with
  | Err e => (Http.ResponseErr e, st)
  | Ok _ => (ResponseOK "all IP bans cleared"%string, st)
  end.

(** [vd:"len($) >0"] is part of the binding. *)
Definition GetInfoHashPeers (bound : result string) (st : S) : JSON (commonResponse (list Peer)) :=
  match bound with
  | Err _ => ResponseBadRequest
  | Ok infoHash =>
      match pm_GetPeers infoHash st with Err e => Http.ResponseErr e | Ok peers => ResponseOK peers end
  end.
Definition DeleteInfoHash (bound : result string) (st : S) : JSON (commonResponse unit) * S :=
  match bound with
  | Err _ => (ResponseBadRequest, st)
  | Ok infoHash =>
      let '(r, st) := pm_DeleteInfoHash infoHash st in
      match r with Err e => (Http.ResponseErr e, st) | Ok _ => ((200, mkResponse 200 "ok" None), st) end
  end.

(** [ipFilterStatsResponse] has the fields of the statistics. *)
Definition HandleGetIPFilterStats (st : S) : JSON (commonResponse IPFilterStats) :=
  match pm_GetIPFilterStats st with
  | None => Http.ResponseErr "IP filter not available"
  | Some stats => ResponseOK stats
  end.
End Admin.
