(* ===== verification/Websocket.v ===== *)
(** The WebTorrent store ([biz/services/peer/websocket]) and its connections
    ([biz/model/ws.go]).

    Torrents, peers and connections are shared objects, so the state keeps a
    store of each and refers to them by index; a shard ([manager] in the code)
    is its index of torrents.  A connection records what was written to it.
    [HandleAnnouncePeer] is one step; the goroutine it starts is a task of the
    state. *)
From Stdlib Require Import ZArith Lia Bool Strings.String.
From stdpp Require Import base strings list gmap.
From S2P Require Import Prelude GoStd Config Model Common Mapx Local BanItem IPFilter Ban.
Set Default Proof Using "Type*".
Local Open Scope Z_scope.

(** [strings.Contains]. *)
Fixpoint contains_bytes (sub s : bytes) : bool :=
  bool_decide (take (length sub) s = sub) || match s with [] => false | _ :: s => contains_bytes sub s end.
Definition contains (s sub : string) : bool := contains_bytes (bytes_of_string sub) (bytes_of_string s).

(** What the handlers write; [J] is the type of decoded JSON objects. *)
Inductive message (J : Type) :=
| ErrorMsg (reason : string)
| AnnounceMsg (interval incomplete complete : Z) (info_hash : string)
| OfferMsg (info_hash offer_id peer_id : string) (offer : OfferDetail)
| ScrapeMsg (files : gmap string ScrapeFile)
| AnswerMsg (body : J).
Arguments ErrorMsg {J}. Arguments AnnounceMsg {J}. Arguments OfferMsg {J}.
Arguments ScrapeMsg {J}. Arguments AnswerMsg {J}.

Inductive ws_task :=
| WsAnnounce (r p : nat) (ih : string)      (* "add to peer list", from its start *)
| WsInsert (r p : nat)                      (* the same, about to LoadOrStore *)
| WsSend (ih : string) (p : nat).           (* go producer.SendPeerEvent *)

Definition nil_deref : string := "runtime error: invalid memory address or nil pointer dereference".

Section Websocket.
Context {M : Type → Type} `{SyncStringMap M} {B F J : Type} `{BloomFilter B} `{IPFilter F}.

(** [model.Conn]; the callback is the closure over (root, req.PeerID). *)
Record Conn := mkConn { CloseCallback : option (nat * string); closed : bool; written : list (message J) }.
Definition NewConn : Conn := mkConn None false [].
Record infoHashRoot := mkRoot { infoHash : string; peerMap : M nat }.

(** [WebsocketMuxManager] with the objects its shards share. *)
Record State := mkState
  { localList : list (M nat); ban : Ban.Manager B F; roots : list infoHashRoot; peers : list Peer;
    conns : list Conn; tasks : list ws_task; sent : list eventBody }.

Definition newManager : M nat := sm_new.
Definition NewWSMuxLocalManager (num : Z) (ban : Ban.Manager B F) : State :=
  mkState (replicate (Z.to_nat num) newManager) ban [] [] [] [] [].

Definition set_localList l st := mkState l (ban st) (roots st) (peers st) (conns st) (tasks st) (sent st).
Definition set_roots rs st := mkState (localList st) (ban st) rs (peers st) (conns st) (tasks st) (sent st).
Definition set_peers ps st := mkState (localList st) (ban st) (roots st) ps (conns st) (tasks st) (sent st).
Definition set_conns cs st := mkState (localList st) (ban st) (roots st) (peers st) cs (tasks st) (sent st).
Definition set_tasks ts st := mkState (localList st) (ban st) (roots st) (peers st) (conns st) ts (sent st).
Definition set_sent es st := mkState (localList st) (ban st) (roots st) (peers st) (conns st) (tasks st) es.
Definition spawn (t : ws_task) (st : State) : State := set_tasks (tasks st ++ [t]) st.
Definition root_at (st : State) (r : nat) : infoHashRoot := default (mkRoot "" sm_new) (roots st !! r).
Definition map_at (st : State) (r : nat) : M nat := peerMap (root_at st r).
Definition put_map (r : nat) (pm : M nat) (st : State) : State :=
  set_roots (alter (fun i => mkRoot (infoHash i) pm) r (roots st)) st.

(** ** Connections ([model/ws.go]) *)
Definition close_callback (cb : nat * string) (st : State) : State :=
  let '(v, pm) := sm_LoadAndDelete cb.2 (map_at st cb.1) in
  let st := put_map cb.1 pm st in
  match v with Some p => set_peers (alter clear_conn p (peers st)) st | None => st end.
Definition Close (c : nat) (st : State) : State :=
  match conns st !! c with
  | None => st
  | Some cn =>
      if closed cn then st
      else
        let st := match CloseCallback cn with Some cb => close_callback cb st | None => st end in
        set_conns (alter (fun cn => mkConn (CloseCallback cn) true (written cn)) c (conns st)) st
  end.

(** [net c] is the error of a write to connection [c], if it fails. *)
Definition write_lost (e : string) : bool := contains e "connection has been closed" || contains e "broken pipe".
Definition WriteJSON (net : nat → option string) (c : nat) (v : message J) (st : State) : option string * State :=
  match conns st !! c with
  | None => (None, st)
  | Some cn =>
      if closed cn then (None, st)
      else
        match net c with
        | None => (None, set_conns (alter (fun cn => mkConn (CloseCallback cn) (closed cn) (written cn ++ [v])) c (conns st)) st)
        | Some e => (if write_lost e then None else Some e, st)
        end
  end.

(** ** A shard ([local.go]) *)
Section Shard.
Context (cfg : Config).

(** The peer of an announce; [Left] is taken from [req.Uploaded]. *)
Definition peer_of_request (now : Z) (req : AnnounceRequest) : Peer :=
  {| ID := req_PeerID req; IP := ParseIP (req_IP req); IPv4 := ParseIP (req_IPv4 req);
     IPv6 := ParseIP (req_IPv6 req); ClientIP := req_ClientIP req;
     Uploaded := if 0 <=? req_Uploaded req then u64 (req_Uploaded req) else 0;
     Left := if 0 <=? req_Left req then u64 (req_Uploaded req) else MaxUint64;
     Port := req_Port req; Type_ := req_Type req;
     Downloaded := if 0 <=? req_Downloaded req then u64 (req_Downloaded req) else 0;
     Offers := req_Offers req; LastSeen := now; Event := ParsePeerEvent (req_Event req);
     UserAgent := req_UserAgent req; Common.Conn := req_Conn req; Source_ := req_Source req |}.

Definition get_or_create (n : nat) (ih : string) (st : State) : (nat * bool) * State :=
  let r_new := length (roots st) in
  let '((r, ok), m) := sm_LoadOrStoreLazy ih (fun _ => r_new) (default sm_new (localList st !! n)) in
  let st := set_localList (<[n := m]> (localList st)) st in
  ((r, ok), if ok then st else set_roots (roots st ++ [mkRoot ih sm_new]) st).

(** The callback of the [Range] that collects the answer. *)
Definition collect (h : list Peer) (peer : Peer) (numWant : Z) (resp : list nat) (k : string) (p : nat) : list nat * bool :=
  match h !! p with
  | None => (resp, true)
  | Some value =>
      if negb (Type_ value =? Type_ peer) then (resp, true)
      else if (Type_ value =? PeerTypeWebtorrent) && bool_decide (Common.Conn value = None) then (resp, true)
      else if Event value =? PeerEvent_Stopped then (resp, true)
      else if numWant <=? Z.of_nat (length resp) then (resp, false)
      else if decide (ID value = ID peer) then (resp, true)
      else (resp ++ [p], true)
  end.

Definition worker_HandleAnnouncePeer (n : nat) (now : Z) (req : AnnounceRequest) (st : State) : result (list nat) * State :=
  let peer := peer_of_request now req in
  if invalid_address peer then (Err "invalid address"%string, st)
  else
    let p := length (peers st) in
    let st := set_peers (peers st ++ [peer]) st in
    let '((r, ok), st) := get_or_create n (req_InfoHash req) st in
    match Common.Conn peer with
    | None => (Err nil_deref, st)
    | Some c =>
        let st := set_conns (alter (fun cn => mkConn (Some (r, req_PeerID req)) (closed cn) (written cn)) c (conns st)) st in
        if negb ok then
          (Ok [], spawn (WsSend (req_InfoHash req) p) (put_map r (sm_LoadOrStore (GetKey peer) p (map_at st r)).2 st))
        else if Event peer =? PeerEvent_Stopped then
          let st := Close c st in
          (Ok [], put_map r (sm_Delete (GetKey peer) (map_at st r)).2 st)
        else
          let st := spawn (WsAnnounce r p (req_InfoHash req)) st in
          (Ok (Range (collect (peers st) peer (req_NumWant req)) (map_at st r) []), st)
    end.

(** The goroutines. *)
Definition run_task (t : ws_task) (st : State) : State :=
  match t with
  | WsAnnounce r p ih =>
      match peers st !! p with
      | None => st
      | Some peer =>
          match sm_Load (GetKey peer) (map_at st r) with
          | Some k =>
              match peers st !! k with
              | None => st
              | Some knownPeer =>
                  let st := if (negb (Left knownPeer =? 0) && (Left peer =? 0)) || negb (Event knownPeer =? Event peer)
                            then spawn (WsSend ih p) st else st in
                  set_peers (alter (update_peer peer) k (peers st)) st
              end
          | None => spawn (WsInsert r p) st
          end
      end
  | WsInsert r p =>
      match peers st !! p with
      | None => st
      | Some peer => put_map r (sm_LoadOrStore (GetKey peer) p (map_at st r)).2 st
      end
  | WsSend ih p =>
      match peers st !! p with
      | None => st
      | Some peer => set_sent (sent st ++ SendPeerEvent (EnableEventProducer (Tracker cfg)) ih peer) st
      end
  end.

(** The visit of one peer by [Scrape]: (seeder, complete, incomplete, downloaded). *)
Definition scrape_visit (h : list Peer) (acc : ScrapeFile) (k : string) (p : nat) : ScrapeFile * bool :=
  match h !! p with
  | None => (acc, true)
  | Some value =>
      if Left value =? 0 then
        (mkScrapeFile (if Event value =? PeerEvent_Stopped then Seeder acc else Seeder acc + 1)
           (Complete acc + 1) (Incomplete acc) (Model.Downloaded acc + 1), true)
      else if Event value =? PeerEvent_Completed then
        (mkScrapeFile (Seeder acc) (Complete acc + 1) (Incomplete acc) (Model.Downloaded acc), true)
      else (mkScrapeFile (Seeder acc) (Complete acc) (Incomplete acc + 1) (Model.Downloaded acc), true)
  end.
(** [cached] is what the cache holds for the torrent. *)
Definition worker_Scrape (n : nat) (cached : option ScrapeFile) (ih : string) (st : State) : ScrapeFile :=
  match (if redis_Enable (Cache cfg) then cached else None) with
  | Some v => v
  | None =>
      match sm_Load ih (default sm_new (localList st !! n)) with
      | None => mkScrapeFile 0 0 0 0
      | Some r => Range (scrape_visit (peers st)) (map_at st r) (mkScrapeFile 0 0 0 0)
      end
  end.

(** [body] is the decoded answer without "to_peer_id". *)
Definition worker_AnswerToPeer (net : nat → option string) (n : nat) (ih peerID : string) (body : J) (st : State)
  : result unit * State :=
  match sm_Load ih (default sm_new (localList st !! n)) with
  | None => (Err "info hash not found"%string, st)
  | Some r =>
      match sm_Load peerID (map_at st r) with
      | None => (Err "peer not found"%string, st)
      | Some p =>
          match peers st !! p ≫= Common.Conn with
          | None => (Err "peer not connected"%string, st)
          | Some c =>
              let '(err, st) := WriteJSON net c (AnswerMsg body) st in
              match err with
              | None => (Ok tt, st)
              | Some e =>
                  if contains e "close"
                  then (Err "remote peer offline"%string, set_peers (alter clear_conn p (peers st)) st)
                  else (Err e, st)
              end
          end
      end
  end.

(** ** The shards ([manager.go]) *)
Definition pickWorker (hashBytes : bytes) (st : State) : nat :=
  Z.to_nat (u64 (be_decode hashBytes) mod u64 (Z.of_nat (length (localList st)))).
Definition shard_of (ih : string) (st : State) : nat := pickWorker (bytes_of_string ih) st.

Definition check_bans (req : AnnounceRequest) (st : State) : option string :=
  if default false (Ban.Test BanTypeInfoHash (req_InfoHash req) (ban st)) then Some "banned info_hash"
  else if default false (Ban.Test BanTypePeerId (req_PeerID req) (ban st)) then Some "banned peer_id"
  else if bool_decide (req_ClientIP req ≠ None) && TestIPAddr (req_ClientIP req) (ban st)
  then Some "banned ip"
  else None.

(** Without a shard the remainder panics. *)
Definition no_shard : string := "runtime error: integer divide by zero".
Definition has_shard (ih : string) (st : State) : bool := (shard_of ih st <? length (localList st))%nat.

Definition HandleAnnouncePeer (now : Z) (req : AnnounceRequest) (st : State) : result (list nat) * State :=
  match check_bans req st with
  | Some e => (Err e, st)
  | None =>
      if has_shard (req_InfoHash req) st
      then worker_HandleAnnouncePeer (shard_of (req_InfoHash req) st) now req st
      else (Err no_shard, st)
  end.
Definition Scrape (cached : string → option ScrapeFile) (ih : string) (st : State) : result ScrapeFile :=
  if has_shard ih st then Ok (worker_Scrape (shard_of ih st) (cached ih) ih st) else Err no_shard.
Definition AnswerToPeer (net : nat → option string) (ih peerID : string) (body : J) (st : State) : result unit * State :=
  if has_shard ih st then worker_AnswerToPeer net (shard_of ih st) ih peerID body st else (Err no_shard, st).
End Shard.
End Websocket.
Arguments State : clear implicits.
Arguments Conn : clear implicits.
Arguments infoHashRoot : clear implicits.
