(* ===== verification/WebTorrent.v ===== *)
(** The WebTorrent handler ([biz/handler/webtorrent.go],
    [utils/webtorrent/response.go]): the messages of a connection, answered
    over the WebTorrent store.

    Decoding of JSON (sonic, encoding/json) is a parameter, and so are the random
    choices of an interval and of offers. *)
From Stdlib Require Import ZArith Lia Bool Strings.String.
From stdpp Require Import base strings list gmap.
From S2P Require Import Prelude GoStd Config Model Common Mapx Local BanItem IPFilter Ban Http Admin Websocket.
Set Default Proof Using "Type*".
Local Open Scope Z_scope.

(** What the handlers ask of a message: [N] are parsed nodes, [J] objects. *)
Class Json (N J : Type) := {
  json_Get : bytes → string → result N;
  node_String : N → result string;
  node_Valid : N → bool;
  (** the elements, [None] for one that is not a string *)
  node_Array : N → result (list (option string));
  unmarshal_request : bytes → result AnnounceRequest;
  unmarshal_object : bytes → J;
  delete_key : string → J → J;
}.

Section WebTorrent.
Context {M : Type → Type} `{SyncStringMap M} {B F N J : Type} `{BloomFilter B} `{IPFilter F} `{Json N J} `{Charmap}.
Context (cfg : Config) (SubString : string → string).
Notation State := (Websocket.State M B F J).

(** What the environment decides while a message is handled: the clock, the
    jitter, which offer each [picker.One()] takes, the writes that fail, the
    scrape cache. *)
Record env := mkEnv
  { e_now : Z; e_rnd : Z; e_pick : nat → nat; e_net : nat → option string; e_cached : string → option ScrapeFile }.

(** [webtorrent.ResponseErr]; its own error is dropped by the callers. *)
Definition ResponseErr (e : env) (conn : nat) (err : string) (st : State) : State :=
  (WriteJSON (e_net e) conn (ErrorMsg err) st).2.

Definition get_string (msg : bytes) (k : string) : result string :=
  match json_Get msg k with Err e => Err e | Ok n => node_String n end.

Definition handleWSAnswer (e : env) (msg : bytes) (st : State) : result unit * State :=
  match get_string msg "info_hash" with
  | Err err => (Err err, st)
  | Ok infoHash =>
      match get_string msg "to_peer_id" with
      | Err err => (Err err, st)
      | Ok peerId =>
          let peerId := utf8_to_8859_1 peerId in
          if bool_decide (peerId = ""%string) then (Err "invalid peerId"%string, st)
          else AnswerToPeer (e_net e) (utf8_to_8859_1 infoHash) peerId (delete_key "to_peer_id" (unmarshal_object msg)) st
      end
  end.

Definition sendOffer (e : env) (target : nat) (o : Offer) (infoHash peerId : string) (st : State) : State :=
  match peers st !! target ≫= Common.Conn with
  | None => st
  | Some c => (WriteJSON (e_net e) c (OfferMsg (utf8_of_8859_1 infoHash) (OfferID o) peerId (Offer_ o)) st).2
  end.
Definition is_other (st : State) (peerId : string) (p : nat) : bool :=
  match peers st !! p with Some x => negb (bool_decide (ID x = peerId)) | None => false end.

(** As many offers as peers: the i-th goes to the i-th. *)
Fixpoint send_each (e : env) (infoHash peerId : string) (res : list nat) (offers : list Offer) (st : State) : State :=
  match res, offers with
  | p :: res, o :: offers =>
      send_each e infoHash peerId res offers (if is_other st peerId p then sendOffer e p o infoHash peerId st else st)
  | _, _ => st
  end.
(** Otherwise every peer gets one picked at random. *)
Fixpoint send_picked (e : env) (i : nat) (infoHash peerId : string) (res : list nat) (offers : list Offer) (st : State) : State :=
  match res with
  | [] => st
  | p :: res =>
      if is_other st peerId p then
        match offers !! (e_pick e i mod length offers)%nat with
        | Some o => send_picked e (S i) infoHash peerId res offers (sendOffer e p o infoHash peerId st)
        | None => st
        end
      else send_picked e i infoHash peerId res offers st
  end.
Definition send_offers (e : env) (req : AnnounceRequest) (res : list nat) (st : State) : State :=
  if (length (req_Offers req) =? 0)%nat then st
  else if (length (req_Offers req) =? length res)%nat
  then send_each e (req_InfoHash req) (req_PeerID req) res (req_Offers req) st
  else send_picked e 0 (req_InfoHash req) (req_PeerID req) res (req_Offers req) st.

(** The request the store is given. *)
Definition ws_NumWant (n : Z) : Z := if (n =? 0) || (500 <? n) then 50 else n.
Definition ws_request (c : http_context) (conn : nat) (req : AnnounceRequest) : AnnounceRequest :=
  mkAnnounceRequest
    {| req_ClientIP := GetClientIP c; req_InfoHash := utf8_to_8859_1 (req_InfoHash req);
       req_PeerID := utf8_to_8859_1 (req_PeerID req); req_Event := req_Event req;
       req_UserAgent := SubString (hc_UserAgent c); req_IP := req_IP req; req_IPv4 := req_IPv4 req;
       req_IPv6 := req_IPv6 req; req_Port := req_Port req; req_Uploaded := req_Uploaded req;
       req_Downloaded := req_Downloaded req; req_Left := req_Left req;
       req_NumWant := ws_NumWant (req_NumWant req); req_Type := PeerTypeWebtorrent; req_Compact := req_Compact req |}
    SourceWS (req_Offers req) (Some conn).

Definition handleWSAnnounce (e : env) (c : http_context) (conn : nat) (msg : bytes) (st : State) : result unit * State :=
  match unmarshal_request msg with
  | Err err => (Err err, st)
  | Ok raw =>
      let req := ws_request c conn raw in
      if negb (validAnnounceReq req) then (Err "invalid request"%string, st)
      else
        match Websocket.HandleAnnouncePeer (e_now e) req st with
        | (Err err, st) => (Err err, st)
        | (Ok res, st) =>
            match Websocket.Scrape cfg (e_cached e) (req_InfoHash req) st with
            | Err err => (Err err, st)
            | Ok scrape =>
                let resp := AnnounceMsg (interval cfg (e_rnd e)) (Incomplete scrape) (Complete scrape)
                              (utf8_of_8859_1 (req_InfoHash req)) in
                match WriteJSON (e_net e) conn resp st with
                | (Some err, st) => (Err err, st)
                | (None, st) => (Ok tt, send_offers e req res st)
                end
            end
        end
  end.

Definition scrape_names (n : N) : list string :=
  match node_Array n with
  | Ok l => omap id l
  | Err _ => match node_String n with Ok s => [s] | Err _ => [] end
  end.
Fixpoint ws_scrape_all (e : env) (names : list string) (ret : gmap string ScrapeFile) (st : State)
  : result (gmap string ScrapeFile) :=
  match names with
  | [] => Ok ret
  | name :: names =>
      match Websocket.Scrape cfg (e_cached e) (utf8_to_8859_1 name) st with
      | Err err => Err err
      | Ok f => ws_scrape_all e names (<[name := f]> ret) st
      end
  end.
Definition handleWSScrape (e : env) (conn : nat) (msg : bytes) (st : State) : result unit * State :=
  match json_Get msg "info_hash" with
  | Err err => (Err err, st)
  | Ok n =>
      match scrape_names n with
      | [] => (Err "info_hash can't be empty"%string, st)
      | names =>
          match ws_scrape_all e names ∅ st with
          | Err err => (Err err, st)
          | Ok ret =>
              match WriteJSON (e_net e) conn (ScrapeMsg ret) st with
              | (Some err, st) => (Err err, st)
              | (None, st) => (Ok tt, st)
              end
          end
      end
  end.

(** Refuse and close; the loop ends. *)
Definition hang_up (e : env) (conn : nat) (err : string) (st : State) : bool * State :=
  (false, Close conn (ResponseErr e conn err st)).

(** One round of the loop of [HandleWebTorrent]; the boolean is whether it goes on. *)
Definition handle_message (e : env) (c : http_context) (conn : nat) (msg : bytes) (st : State) : bool * State :=
  match get_string msg "action" with
  | Err _ => hang_up e conn "get action error" st
  | Ok action =>
      if decide (action = "announce"%string) then
        let is_answer := match json_Get msg "answer" with Ok n => node_Valid n | Err _ => false end in
        if is_answer then (true, (handleWSAnswer e msg st).2)
        else
          match handleWSAnnounce e c conn msg st with
          | (Err err, st) => hang_up e conn err st
          | (Ok _, st) => (true, st)
          end
      else if decide (action = "scrape"%string) then
        match handleWSScrape e conn msg st with
        | (Err err, st) => hang_up e conn err st
        | (Ok _, st) => (true, st)
        end
      else hang_up e conn "invalid action" st
  end.

(** What [ReadMessage] returns: a message, or an error, which ends the loop. *)
Inductive incoming := Message (e : env) (msg : bytes) | ReadError (close_error : bool).
Fixpoint message_loop (c : http_context) (conn : nat) (l : list incoming) (st : State) : State :=
  match l with
  | [] => st
  | Message e msg :: l =>
      let '(continue, st) := handle_message e c conn msg st in
      if continue then message_loop c conn l st else Close conn st
  | ReadError close_error :: _ => Close conn (if close_error then Close conn st else st)
  end.
(** The connection that was upgraded gets a new [model.Conn]. *)
Definition HandleWebTorrent (upgraded : bool) (c : http_context) (l : list incoming) (st : State)
  : option (JSON (commonResponse unit)) * State :=
  if upgraded then (None, message_loop c (length (conns st)) l (set_conns (conns st ++ [NewConn]) st))
  else (Some (ResponseErrCustom 406 "only support websocket protocol"), st).
End WebTorrent.
