(* ===== verification/WsSpec.v ===== *)
(** What the WebTorrent store keeps: the invariant of its shared objects under
    any interleaving, the answers of announces, what closing a connection does,
    and where offers go. *)
From Stdlib Require Import ZArith Lia Bool Strings.String.
From stdpp Require Import base strings list sets gmap relations.
From S2P Require Import Prelude GoStd Config Model Common Samples Mapx Local BanItem IPFilter Ban Http Admin Websocket WebTorrent.
Set Default Proof Using "Type*".
Local Open Scope Z_scope.

Section Invariant.
Context {M : Type → Type} {B F J : Type} `{SyncStringMapLaws M} `{BloomFilter B} `{IPFilter F}.
Context (cfg : Config).
Notation State := (Websocket.State M B F J).
Implicit Types (st : State) (cn : Conn J) (i : infoHashRoot M).

Definition task_ok st (t : ws_task) : Prop :=
  match t with
  | WsAnnounce r p _ | WsInsert r p => (r < length (roots st))%nat ∧ (p < length (peers st))%nat
  | WsSend _ p => (p < length (peers st))%nat
  end.
(** No reference dangles: torrents are indexed under their own info hash,
    peers under their own id, and goroutines and callbacks refer to torrents and
    peers that exist. *)
Record ws_ok st : Prop := mkWsOk {
  wo_index n m ih r : localList st !! n = Some m → sm_view m !! ih = Some r → ∃ i, roots st !! r = Some i ∧ infoHash i = ih;
  wo_map r i k p : roots st !! r = Some i → sm_view (peerMap i) !! k = Some p → ∃ x, peers st !! p = Some x ∧ ID x = k;
  wo_task t : t ∈ tasks st → task_ok st t;
  wo_conn c cn r k : conns st !! c = Some cn → CloseCallback cn = Some (r, k) → (r < length (roots st))%nat;
}.

(** *** The elementary changes keep it *)
Lemma ws_ok_tasks ts st : ws_ok st → (∀ t, t ∈ ts → task_ok st t) → ws_ok (set_tasks ts st).
Proof. intros [Hi Hm _ Hc] Ht. by constructor. Qed.
Lemma ws_ok_spawn t st : ws_ok st → task_ok st t → ws_ok (spawn t st).
Proof.
  intros Hok Ht. apply ws_ok_tasks; [done|]. intros t' [Ht'|Ht']%elem_of_app; [by apply wo_task|].
  by apply list_elem_of_singleton in Ht' as ->.
Qed.
Lemma ws_ok_conns f c st :
  ws_ok st → (∀ cn r k, conns st !! c = Some cn → CloseCallback (f cn) = Some (r, k) → (r < length (roots st))%nat) →
  ws_ok (set_conns (alter f c (conns st)) st).
Proof.
  intros [Hi Hm Ht Hc] Hf. constructor; [done..|]. cbn. intros c' cn r k.
  destruct (decide (c' = c)) as [->|Hne].
  - rewrite list_lookup_alter_eq. destruct (conns st !! c) as [cn0|] eqn:E; [|done]. simpl. intros [= <-]. by apply Hf.
  - rewrite list_lookup_alter_ne by done. by apply Hc.
Qed.
Lemma ws_ok_accept st : ws_ok st → ws_ok (set_conns (conns st ++ [NewConn]) st).
Proof.
  intros [Hi Hm Ht Hc]. constructor; [done..|]. cbn. intros c cn r k Hcn.
  apply lookup_app_Some in Hcn as [Hcn|[_ Hcn]]; [by eapply Hc|].
  apply list_lookup_singleton_Some in Hcn as [_ <-]. done.
Qed.
Lemma ws_ok_app x st : ws_ok st → ws_ok (set_peers (peers st ++ [x]) st).
Proof.
  intros [Hi Hm Ht Hc]. constructor; [done| |cbn; intros t Hin; apply Ht in Hin; destruct t; cbn in *; rewrite length_app; simpl; lia|done].
  cbn. intros r i k p Hr Hk. destruct (Hm r i k p Hr Hk) as (y & Hy & Hid). exists y. by rewrite (lookup_app_l_Some _ _ _ _ Hy).
Qed.
Lemma ws_ok_alter f p st : (∀ x, ID (f x) = ID x) → ws_ok st → ws_ok (set_peers (alter f p (peers st)) st).
Proof.
  intros Hf [Hi Hm Ht Hc]. constructor; [done| |cbn; intros t Hin; apply Ht in Hin; destruct t; cbn in *; by rewrite length_alter|done].
  cbn. intros r i k q Hr Hk. destruct (Hm r i k q Hr Hk) as (y & Hy & Hid). destruct (decide (q = p)) as [->|Hne].
  - exists (f y). rewrite list_lookup_alter_eq, Hy. by rewrite Hf.
  - exists y. by rewrite list_lookup_alter_ne.
Qed.
Lemma ws_ok_put r pm st :
  ws_ok st → (∀ k p, sm_view pm !! k = Some p → ∃ x, peers st !! p = Some x ∧ ID x = k) → ws_ok (put_map r pm st).
Proof.
  intros [Hi Hm Ht Hc] Hpm. unfold put_map. constructor; cbn.
  - intros n m ih r' Hn Hr. destruct (Hi n m ih r' Hn Hr) as (i & Hri & <-). destruct (decide (r' = r)) as [->|Hne].
    + eexists. by rewrite list_lookup_alter_eq, Hri.
    + eexists. by rewrite list_lookup_alter_ne, Hri.
  - intros r' i k p. destruct (decide (r' = r)) as [->|Hne].
    + rewrite list_lookup_alter_eq. destruct (roots st !! r) as [i0|] eqn:E; [|done]. simpl. intros [= <-]. apply Hpm.
    + rewrite list_lookup_alter_ne by done. apply Hm.
  - intros t Hin. apply Ht in Hin. destruct t; cbn in *; by rewrite ?length_alter.
  - intros c cn r' k Hcn Hcb. rewrite length_alter. by eapply Hc.
Qed.
Lemma map_at_entries st r k p :
  ws_ok st → sm_view (map_at st r) !! k = Some p → ∃ x, peers st !! p = Some x ∧ ID x = k.
Proof.
  intros Hok. unfold map_at, root_at. destruct (roots st !! r) as [i|] eqn:E; cbn [default from_option].
  - by apply (wo_map _ Hok r).
  - simpl. by rewrite sm_view_new, lookup_empty.
Qed.
Lemma ws_ok_delete r k st : ws_ok st → ws_ok (put_map r (sm_Delete k (map_at st r)).2 st).
Proof.
  intros Hok. apply ws_ok_put; [done|]. intros k' p. rewrite sm_Delete_view, lookup_delete_Some.
  intros [_ Hk]. by apply (map_at_entries st r).
Qed.
Lemma ws_ok_insert r p st x :
  ws_ok st → peers st !! p = Some x → ws_ok (put_map r (sm_LoadOrStore (GetKey x) p (map_at st r)).2 st).
Proof.
  intros Hok Hx. apply ws_ok_put; [done|]. intros k' q. rewrite sm_LoadOrStore_view.
  destruct (sm_view (map_at st r) !! GetKey x) eqn:E; [by apply (map_at_entries st r)|].
  intros [[<- <-]|[_ Hk]]%lookup_insert_Some; [by exists x|by apply (map_at_entries st r)].
Qed.

Lemma get_or_create_spec n ih st r ok st' :
  get_or_create n ih st = ((r, ok), st') → ws_ok st → (n < length (localList st))%nat →
  ws_ok st' ∧ (r < length (roots st'))%nat ∧ peers st' = peers st ∧ conns st' = conns st ∧ tasks st' = tasks st ∧
  (ok = false → sm_view (map_at st' r) = ∅).
Proof.
  intros E Hok Hn. unfold get_or_create in E.
  destruct (localList st !! n) as [m0|] eqn:Hm0; [|apply lookup_ge_None in Hm0; lia].
  pose proof (sm_LoadOrStoreLazy_ret ih (fun _ => length (roots st)) m0) as Hr.
  pose proof (sm_LoadOrStoreLazy_view ih (fun _ => length (roots st)) m0) as Hv.
  change (default sm_new (Some m0)) with m0 in E.
  destruct (sm_LoadOrStoreLazy ih _ m0) as [[r1 b] m1]. cbn [fst snd] in Hr, Hv.
  destruct (sm_view m0 !! ih) as [r2|] eqn:Hih; injection Hr as -> ->; apply (inj2 pair) in E as [[= <- <-] <-].
  - destruct (wo_index _ Hok n m0 ih r2 Hm0 Hih) as (i & Hi & _). split_and!; [|by eapply lookup_lt_Some|done..].
    constructor; cbn; [|apply Hok..]. intros n' m ih' r' [(<- & <- & _)|[_ Hn']]%list_lookup_insert_Some Hr'.
    + rewrite Hv in Hr'. by eapply (wo_index _ Hok n).
    + by eapply (wo_index _ Hok n').
  - split_and!; [|cbn; rewrite length_app; simpl; lia|done..|].
    + constructor; cbn.
      * intros n' m ih' r' [(<- & <- & _)|[_ Hn']]%list_lookup_insert_Some Hr'.
        -- rewrite Hv in Hr'. apply lookup_insert_Some in Hr' as [[<- <-]|[_ Hr']].
           ++ eexists. rewrite lookup_app_r, Nat.sub_diag by lia. done.
           ++ destruct (wo_index _ Hok n m0 ih' r' Hm0 Hr') as (i & Hi & Hh). exists i. split; [by apply lookup_app_l_Some|done].
        -- destruct (wo_index _ Hok n' m ih' r' Hn' Hr') as (i & Hi & Hh). exists i. split; [by apply lookup_app_l_Some|done].
      * intros r' i k p [Hr'|[_ Hr']]%lookup_app_Some; [by apply (wo_map _ Hok r')|].
        apply list_lookup_singleton_Some in Hr' as [_ <-]. simpl. by rewrite sm_view_new, lookup_empty.
      * intros t Ht%(wo_task _ Hok). destruct t; cbn in *; rewrite ?length_app; simpl; lia.
      * intros c cn r' k Hc Hcb. pose proof (wo_conn _ Hok c cn r' k Hc Hcb). rewrite length_app. lia.
    + intros _. unfold map_at, root_at. cbn. rewrite lookup_app_r, Nat.sub_diag by lia. simpl. apply sm_view_new.
Qed.

Lemma ws_ok_callback cb st : ws_ok st → ws_ok (close_callback cb st).
Proof.
  intros Hok. unfold close_callback.
  pose proof (sm_LoadAndDelete_view cb.2 (map_at st cb.1)) as Hv.
  destruct (sm_LoadAndDelete cb.2 (map_at st cb.1)) as [v pm]. cbn [snd] in Hv.
  assert (ws_ok (put_map cb.1 pm st)) as Hok'.
  { apply ws_ok_put; [done|]. intros k p. rewrite Hv, lookup_delete_Some. intros [_ Hk]. by apply (map_at_entries st cb.1). }
  destruct v; [|done]. by apply ws_ok_alter.
Qed.
Lemma close_callback_frame cb st :
  conns (close_callback cb st) = conns st ∧ length (roots (close_callback cb st)) = length (roots st) ∧
  localList (close_callback cb st) = localList st ∧ tasks (close_callback cb st) = tasks st ∧
  length (peers (close_callback cb st)) = length (peers st).
Proof using Type.
  unfold close_callback. destruct (sm_LoadAndDelete _ _) as [[v|] pm]; cbn; by rewrite ?length_alter.
Qed.

Lemma ws_ok_Close c st : ws_ok st → ws_ok (Close c st).
Proof.
  intros Hok. unfold Close. destruct (conns st !! c) as [cn|] eqn:Hc; [|done]. destruct (closed cn); [done|].
  destruct (CloseCallback cn) as [[r k]|] eqn:Hcb.
  - destruct (close_callback_frame (r, k) st) as (Ec & Er & _).
    apply ws_ok_conns; [by apply ws_ok_callback|]. rewrite Ec, Er. cbn. intros cn' r' k' ? ?. by eapply (wo_conn _ Hok c).
  - apply ws_ok_conns; [done|]. cbn. intros cn' r' k' ? ?. by eapply (wo_conn _ Hok c).
Qed.
Lemma ws_ok_WriteJSON net c v st : ws_ok st → ws_ok (WriteJSON net c v st).2.
Proof.
  intros Hok. unfold WriteJSON. destruct (conns st !! c) as [cn|] eqn:Hc; [|done]. destruct (closed cn); [done|].
  destruct (net c); [done|]. cbn [snd]. apply ws_ok_conns; [done|]. cbn. intros cn' r k ? ?. by eapply (wo_conn _ Hok c).
Qed.
Lemma ws_ok_AnswerToPeer net ih id body st : ws_ok st → ws_ok (AnswerToPeer net ih id body st).2.
Proof.
  intros Hok. unfold AnswerToPeer, worker_AnswerToPeer. destruct (has_shard ih st); [|done].
  destruct (sm_Load ih _) as [r|]; [|done]. destruct (sm_Load id _) as [p|]; [|done].
  destruct (peers st !! p ≫= Common.Conn) as [c|]; [|done].
  pose proof (ws_ok_WriteJSON net c (AnswerMsg body) st Hok) as Hw.
  destruct (WriteJSON net c (AnswerMsg body) st) as [[e|] st']; [|done]. cbn [snd] in *.
  destruct (contains e "close"); [by apply ws_ok_alter|done].
Qed.

Lemma Close_frame c st :
  length (roots (Close c st)) = length (roots st) ∧ length (peers (Close c st)) = length (peers st) ∧
  tasks (Close c st) = tasks st.
Proof using Type.
  unfold Close. destruct (conns st !! c) as [cn|]; [|done]. destruct (closed cn); [done|].
  destruct (CloseCallback cn) as [cb|]; [|done]. destruct (close_callback_frame cb st) as (_ & ? & _ & ? & ?). done.
Qed.

Lemma worker_ok n now (req : AnnounceRequest) st :
  ws_ok st → (n < length (localList st))%nat → ws_ok (worker_HandleAnnouncePeer n now req st).2.
Proof.
  intros Hok Hn. unfold worker_HandleAnnouncePeer. set (x := peer_of_request now req). destruct (invalid_address x); [done|].
  set (st0 := set_peers (peers st ++ [x]) st). assert (ws_ok st0) as Hok0 by by apply ws_ok_app.
  destruct (get_or_create n (req_InfoHash req) st0) as [[r ok] st1] eqn:E.
  destruct (get_or_create_spec n _ st0 r ok st1 E Hok0 Hn) as (Hok1 & Hr & Hp & Hc & Ht & _).
  destruct (Common.Conn x) as [c|]; [|done].
  set (st2 := set_conns _ st1).
  assert (ws_ok st2) as Hok2 by (apply ws_ok_conns; [done|]; cbn; intros cn r' k _ [= <- <-]; done).
  assert (peers st2 !! length (peers st) = Some x) as Hx.
  { cbn. rewrite Hp. cbn. by rewrite lookup_app_r, Nat.sub_diag by lia. }
  pose proof (lookup_lt_Some _ _ _ Hx) as Hlt.
  destruct ok; cbn [negb]; [destruct (Event x =? PeerEvent_Stopped)|]; cbn [snd].
  - by apply ws_ok_delete, ws_ok_Close.
  - apply ws_ok_spawn; [done|]. done.
  - apply ws_ok_spawn; [by apply (ws_ok_insert r _ st2 x)|]. done.
Qed.

Lemma ws_ok_announce now (req : AnnounceRequest) st : ws_ok st → ws_ok (Websocket.HandleAnnouncePeer now req st).2.
Proof.
  intros Hok. unfold Websocket.HandleAnnouncePeer. destruct (check_bans req st); [done|]. unfold has_shard.
  destruct (Nat.ltb_spec (shard_of (req_InfoHash req) st) (length (localList st))); [by apply worker_ok|done].
Qed.

Lemma ws_ok_task t st ts : ws_ok st → task_ok st t → (∀ t', t' ∈ ts → task_ok st t') → ws_ok (run_task cfg t (set_tasks ts st)).
Proof.
  intros Hok Ht Hts. assert (ws_ok (set_tasks ts st)) as Hok' by by apply ws_ok_tasks.
  destruct t as [r p ih|r p|ih p]; cbn [run_task].
  - change (peers (set_tasks ts st)) with (peers st). destruct (peers st !! p) as [x|] eqn:Hx; [|done].
    destruct (sm_Load _ _) as [k|]; [|by apply ws_ok_spawn].
    change (peers (set_tasks ts st)) with (peers st). destruct (peers st !! k) as [y|]; [|done].
    apply (ws_ok_alter (update_peer x)); [done|]. destruct (_ || _); [|done]. apply ws_ok_spawn; [done|]. apply Ht.
  - change (peers (set_tasks ts st)) with (peers st). destruct (peers st !! p) as [x|] eqn:Hx; [|done]. by apply ws_ok_insert.
  - destruct (peers (set_tasks ts st) !! p) as [x|]; [|done]. destruct Hok'. by constructor.
Qed.

(** ** The store over time *)

(** The elementary steps: an announce, a goroutine, an accepted connection, a
    write to one, an answer relayed, a connection closed. *)
Inductive ws_step st : State → Prop :=
| ws_announce now (req : AnnounceRequest) : ws_step st (Websocket.HandleAnnouncePeer now req st).2
| ws_task_run t ts1 ts2 : tasks st = ts1 ++ t :: ts2 → ws_step st (run_task cfg t (set_tasks (ts1 ++ ts2) st))
| ws_accept : ws_step st (set_conns (conns st ++ [NewConn]) st)
| ws_write net c v : ws_step st (WriteJSON net c v st).2
| ws_answer net ih id body : ws_step st (AnswerToPeer net ih id body st).2
| ws_close c : ws_step st (Close c st).
Definition ws_reachable num ban st : Prop := rtc ws_step (NewWSMuxLocalManager num ban) st.

Lemma ws_step_ok st st' : ws_step st st' → ws_ok st → ws_ok st'.
Proof.
  intros Hs Hok. destruct Hs as [now req|t ts1 ts2 Ht| |net c v|net ih id body|c].
  - by apply ws_ok_announce.
  - pose proof (wo_task _ Hok) as Hts. rewrite Ht in Hts. apply ws_ok_task; [done|apply Hts, elem_of_app; right; by left|].
    intros t' Ht'. apply Hts. apply elem_of_app in Ht' as [?|?]; apply elem_of_app; [by left|right; by right].
  - by apply ws_ok_accept.
  - by apply ws_ok_WriteJSON.
  - by apply ws_ok_AnswerToPeer.
  - by apply ws_ok_Close.
Qed.
Lemma ws_ok_new num b : ws_ok (NewWSMuxLocalManager num b).
Proof.
  constructor; cbn; [|done|by intros t ?%not_elem_of_nil|done].
  intros n m ih r [-> _]%lookup_replicate. unfold newManager. by rewrite sm_view_new, lookup_empty.
Qed.
Lemma ws_steps_ok st st' : rtc ws_step st st' → ws_ok st → ws_ok st'.
Proof. induction 1; [done|]. intros Hok. by apply IHrtc, (ws_step_ok x). Qed.
Lemma ws_reachable_ok num b st : ws_reachable num b st → ws_ok st.
Proof. intros Hr. eapply ws_steps_ok; [exact Hr|apply ws_ok_new]. Qed.
End Invariant.

(** ** Handlers *)
Section Handlers.
Context {M : Type → Type} {B F N J : Type} `{SyncStringMapLaws M} `{BloomFilter B} `{IPFilter F} `{Json N J} `{Charmap}.
Context (cfg : Config) (SubString : string → string).
Notation State := (Websocket.State M B F J).
Notation steps := (rtc (ws_step cfg)).
Implicit Types (st : State) (cn : Conn J).

Lemma hang_up_steps e conn err st : steps st (hang_up e conn err st).2.
Proof using Type. unfold hang_up, ResponseErr. cbn [snd]. eapply rtc_l; [apply ws_write|]. apply rtc_once, ws_close. Qed.

Lemma sendOffer_steps e p o ih id st : steps st (sendOffer e p o ih id st).
Proof using Type. unfold sendOffer. destruct (peers st !! p ≫= Common.Conn); [|done]. apply rtc_once, ws_write. Qed.
Lemma send_each_steps e ih id res offers st : steps st (send_each e ih id res offers st).
Proof using Type.
  revert offers st. induction res as [|p res IH]; intros [|o offers] st; cbn [send_each]; [done..|].
  destruct (is_other st id p); [|apply IH]. etrans; [apply sendOffer_steps|apply IH].
Qed.
Lemma send_picked_steps e i ih id res offers st : steps st (send_picked e i ih id res offers st).
Proof using Type.
  revert i st. induction res as [|p res IH]; intros i st; cbn [send_picked]; [done|].
  destruct (is_other st id p); [|apply IH]. destruct (offers !! _); [|done]. etrans; [apply sendOffer_steps|apply IH].
Qed.
Lemma send_offers_steps e (req : AnnounceRequest) res st : steps st (send_offers e req res st).
Proof using Type.
  unfold send_offers. destruct (_ =? 0)%nat; [done|]. destruct (_ =? _)%nat; [apply send_each_steps|apply send_picked_steps].
Qed.

Lemma handleWSAnswer_steps e msg st : steps st (handleWSAnswer e msg st).2.
Proof using Type.
  unfold handleWSAnswer. destruct (get_string msg "info_hash"); [|done]. destruct (get_string msg "to_peer_id"); [|done].
  case_bool_decide; [done|]. apply rtc_once, ws_answer.
Qed.
Lemma handleWSAnnounce_steps e c conn msg st : steps st (handleWSAnnounce cfg SubString e c conn msg st).2.
Proof using Type.
  unfold handleWSAnnounce. destruct (unmarshal_request msg) as [raw|]; [|done].
  set (req := ws_request SubString c conn raw). destruct (negb (validAnnounceReq req)); [done|].
  pose proof (ws_announce cfg st (e_now e) req) as Ha.
  destruct (Websocket.HandleAnnouncePeer (e_now e) req st) as [[res|err] st1]; [|by apply rtc_once].
  eapply rtc_l; [exact Ha|]. cbn [snd]. destruct (Websocket.Scrape _ _ _ _) as [f|]; [|done].
  match goal with |- context [WriteJSON ?n ?c ?v ?s] => pose proof (ws_write cfg s n c v) as Hw; destruct (WriteJSON n c v s) as [[err|] st2] end.
  - by apply rtc_once.
  - eapply rtc_l; [exact Hw|]. apply send_offers_steps.
Qed.
Lemma handleWSScrape_steps e conn msg st : steps st (handleWSScrape cfg e conn msg st).2.
Proof using Type.
  unfold handleWSScrape. destruct (json_Get msg "info_hash") as [n|]; [|done]. destruct (scrape_names n) as [|x l]; [done|].
  destruct (ws_scrape_all _ _ _ _ _) as [ret|]; [|done].
  pose proof (ws_write cfg st (e_net e) conn (ScrapeMsg ret)) as Hw. destruct (WriteJSON _ _ _ _) as [[err|] st1]; by apply rtc_once.
Qed.
Lemma handle_message_steps e c conn msg st : steps st (handle_message cfg SubString e c conn msg st).2.
Proof using Type.
  unfold handle_message. destruct (get_string msg "action") as [action|]; [|apply hang_up_steps].
  case_decide; [|case_decide; [|apply hang_up_steps]].
  - destruct (match json_Get msg "answer" with Ok n => node_Valid n | Err _ => false end); [apply handleWSAnswer_steps|].
    pose proof (handleWSAnnounce_steps e c conn msg st) as Ha.
    destruct (handleWSAnnounce _ _ _ _ _ _ _) as [[u|err] st1]; [done|]. etrans; [exact Ha|apply hang_up_steps].
  - pose proof (handleWSScrape_steps e conn msg st) as Ha.
    destruct (handleWSScrape _ _ _ _ _) as [[u|err] st1]; [done|]. etrans; [exact Ha|apply hang_up_steps].
Qed.
Lemma message_loop_steps c conn l st : steps st (message_loop cfg SubString c conn l st).
Proof using Type.
  revert st. induction l as [|[e msg|b] l IH]; intros st; cbn [message_loop]; [done|..].
  - pose proof (handle_message_steps e c conn msg st) as Hm. destruct (handle_message _ _ _ _ _ _ _) as [[|] st1].
    + etrans; [exact Hm|apply IH].
    + eapply rtc_r; [exact Hm|apply ws_close].
  - destruct b; [eapply rtc_l; [apply ws_close|]|]; apply rtc_once, ws_close.
Qed.

(** C23: Serving a WebTorrent connection, whatever it sends and however its
    writes fail, is a run of the store's elementary steps; so in every state that
    connections, goroutines and relayed answers reach, interleaved in any way,
    torrents are indexed under their own info hash, peers under their own id, and
    no goroutine, callback or map refers to a torrent or peer that does not exist. *)
Theorem webtorrent_well_formed num ban st upgraded c l :
  ws_reachable cfg num ban st →
  ws_ok st ∧ ws_reachable cfg num ban (HandleWebTorrent cfg SubString upgraded c l st).2.
Proof.
  intros Hr. split; [by eapply ws_reachable_ok|]. unfold ws_reachable in *. etrans; [exact Hr|].
  unfold HandleWebTorrent. destruct upgraded; [|done]. eapply rtc_l; [apply ws_accept|]. apply message_loop_steps.
Qed.

(** ** Answers *)
Lemma collect_spec st x n r resp :
  ws_ok st → resp = Range (collect (peers st) x n) (map_at st r) [] →
  Z.of_nat (length resp) ≤ Z.max 0 n ∧
  ∀ p, p ∈ resp → ∃ y, peers st !! p = Some y ∧ ID y ≠ ID x ∧ Type_ y = Type_ x ∧ Event y ≠ PeerEvent_Stopped ∧
    (Type_ y = PeerTypeWebtorrent → is_Some (Common.Conn y)) ∧ sm_view (map_at st r) !! ID y = Some p.
Proof.
  intros Hok ->. unfold Range.
  assert (∀ k p, (k, p) ∈ sm_Range (map_at st r) → sm_view (map_at st r) !! k = Some p) as Hl by (intros k p; apply sm_Range_elem).
  revert Hl. generalize (sm_Range (map_at st r)) as l.
  set (P := fun p : nat => ∃ y, peers st !! p = Some y ∧ ID y ≠ ID x ∧ Type_ y = Type_ x ∧ Event y ≠ PeerEvent_Stopped ∧
    (Type_ y = PeerTypeWebtorrent → is_Some (Common.Conn y)) ∧ sm_view (map_at st r) !! ID y = Some p).
  assert (∀ l resp, (∀ k p, (k, p) ∈ l → sm_view (map_at st r) !! k = Some p) → Z.of_nat (length resp) ≤ Z.max 0 n → (∀ p, p ∈ resp → P p) →
    Z.of_nat (length (range_loop (collect (peers st) x n) l resp)) ≤ Z.max 0 n ∧
    ∀ p, p ∈ range_loop (collect (peers st) x n) l resp → P p) as Hloop.
  { induction l as [|[k p] l IH]; intros resp Hl Hn Hp; [done|]. cbn [range_loop].
    assert (∀ k p, (k, p) ∈ l → sm_view (map_at st r) !! k = Some p) as Hl' by (intros; apply Hl; by right).
    unfold collect at 1 3. destruct (peers st !! p) as [y|] eqn:Hy; [|by apply IH].
    destruct (Z.eqb_spec (Type_ y) (Type_ x)) as [Hty|]; cbn [negb]; [|by apply IH].
    destruct ((Type_ y =? PeerTypeWebtorrent) && bool_decide (Common.Conn y = None)) eqn:Hc; [by apply IH|].
    destruct (Z.eqb_spec (Event y) PeerEvent_Stopped); [by apply IH|].
    destruct (Z.leb_spec n (Z.of_nat (length resp))); [done|]. case_decide as Hid; [by apply IH|].
    apply IH; [done|rewrite length_app; simpl; lia|]. intros q [Hq|Hq]%elem_of_app; [by apply Hp|].
    apply list_elem_of_singleton in Hq as ->. exists y. split_and!; [done|done|done|done| |].
    - intros Hw. rewrite Hw, Z.eqb_refl in Hc. cbn [andb] in Hc. apply bool_decide_eq_false in Hc.
      by destruct (Common.Conn y).
    - assert (sm_view (map_at st r) !! k = Some p) as Hk by (apply Hl; by left).
      destruct (map_at_entries st r k p Hok Hk) as (y' & Hy' & <-). by simplify_eq. }
  intros l Hl. apply Hloop; [done|simpl; lia|]. by intros p ?%not_elem_of_nil.
Qed.

(** The answer of an announce is about other, present peers of the torrent. *)
Lemma announce_res now (req : AnnounceRequest) st res st' :
  ws_ok st → Websocket.HandleAnnouncePeer now req st = (Ok res, st') →
  ws_ok st' ∧ Z.of_nat (length res) ≤ Z.max 0 (req_NumWant req) ∧
  ∀ p, p ∈ res → ∃ y, peers st' !! p = Some y ∧ ID y ≠ req_PeerID req ∧ Type_ y = req_Type req ∧
    Event y ≠ PeerEvent_Stopped ∧ (Type_ y = PeerTypeWebtorrent → is_Some (Common.Conn y)).
Proof.
  intros Hok E. pose proof (ws_ok_announce now req st Hok) as Hok'. rewrite E in Hok'. split; [done|]. clear Hok'.
  assert (∀ s : State, (Ok [], s) = (Ok res, st') → Z.of_nat (length res) ≤ Z.max 0 (req_NumWant req) ∧
    ∀ p, p ∈ res → ∃ y, peers st' !! p = Some y ∧ ID y ≠ req_PeerID req ∧ Type_ y = req_Type req ∧
    Event y ≠ PeerEvent_Stopped ∧ (Type_ y = PeerTypeWebtorrent → is_Some (Common.Conn y))) as Hnil.
  { intros s [= <- <-]. split; [simpl; lia|]. by intros p ?%not_elem_of_nil. }
  revert E. unfold Websocket.HandleAnnouncePeer. destruct (check_bans req st); [done|]. unfold has_shard.
  destruct (Nat.ltb_spec (shard_of (req_InfoHash req) st) (length (localList st))) as [Hn|]; [|done].
  unfold worker_HandleAnnouncePeer. set (x := peer_of_request now req). destruct (invalid_address x); [done|].
  set (st0 := set_peers (peers st ++ [x]) st). assert (ws_ok st0) as Hok0 by by apply ws_ok_app.
  destruct (get_or_create _ (req_InfoHash req) st0) as [[r ok] st1] eqn:Eg.
  destruct (get_or_create_spec _ _ st0 r ok st1 Eg Hok0 Hn) as (Hok1 & Hr & _).
  destruct (Common.Conn x) as [c|]; [|done].
  set (st2 := set_conns _ st1).
  assert (ws_ok st2) as Hok2 by (apply ws_ok_conns; [done|]; cbn; intros cn r' k _ [= <- <-]; done).
  destruct ok; cbn [negb]; [destruct (Event x =? PeerEvent_Stopped)|]; try apply Hnil.
  intros E. injection E as Hres Hst'. symmetry in Hres.
  destruct (collect_spec st2 x (req_NumWant req) r res Hok2 Hres) as [Hl Hp].
  split; [exact Hl|]. intros p Hin. destruct (Hp p Hin) as (y & Hy & ? & ? & ? & ? & _). exists y. rewrite <- Hst'. by split_and!.
Qed.

(** ** Closing *)

(** C25: Closing an open connection takes the peer it announced last out of
    that torrent, and nothing else: the record loses its connection, no other
    entry of any torrent changes, further writes to the connection do nothing,
    and an answer relayed to the peer is refused. *)
Theorem close_forgets c cn r k st :
  ws_ok st → conns st !! c = Some cn → closed cn = false → CloseCallback cn = Some (r, k) →
  let st' := Close c st in
  closed <$> conns st' !! c = Some true ∧
  sm_view (map_at st' r) = delete k (sm_view (map_at st r)) ∧
  (∀ r', r' ≠ r → map_at st' r' = map_at st r') ∧
  (∀ p x, peers st !! p = Some x → peers st' !! p = Some (if decide (sm_view (map_at st r) !! k = Some p) then clear_conn x else x)) ∧
  (∀ net v, WriteJSON net c v st' = (None, st')) ∧
  ∀ net n ih m body, localList st !! n = Some m → sm_view m !! ih = Some r →
    worker_AnswerToPeer net n ih k body st' = (Err "peer not found"%string, st').
Proof using Type* - N.
  intros Hok Hc Hop Hcb st'. unfold st', Close. rewrite Hc, Hop, Hcb.
  pose proof (wo_conn st Hok c cn r k Hc Hcb) as Hr. destruct (roots st !! r) as [i|] eqn:Hi; [|apply lookup_ge_None in Hi; lia].
  unfold close_callback. cbn [fst snd].
  pose proof (sm_LoadAndDelete_ret k (map_at st r)) as Hv. pose proof (sm_LoadAndDelete_view k (map_at st r)) as Hd.
  destruct (sm_LoadAndDelete k (map_at st r)) as [v pm]. cbn [fst snd] in Hv, Hd. subst v.
  set (st1 := put_map r pm st).
  set (st2 := match sm_view (map_at st r) !! k with Some p => set_peers (alter clear_conn p (peers st1)) st1 | None => st1 end).
  assert (conns st2 = conns st ∧ roots st2 = roots st1 ∧ localList st2 = localList st) as (Ec & Er & El)
    by (unfold st2; by destruct (_ !! k)).
  assert (∀ r', map_at (set_conns (alter (fun cn => mkConn (CloseCallback cn) true (written cn)) c (conns st2)) st2) r' = map_at st1 r') as Hmap
    by (intros r'; unfold map_at, root_at; cbn; by rewrite Er).
  assert (map_at st1 r = pm) as Hpm by (unfold map_at, root_at, st1, put_map; cbn; by rewrite list_lookup_alter_eq, Hi).
  split_and!.
  - cbn. by rewrite Ec, list_lookup_alter_eq, Hc.
  - by rewrite Hmap, Hpm.
  - intros r' Hne. rewrite Hmap. unfold map_at, root_at, st1, put_map. cbn. by rewrite list_lookup_alter_ne.
  - intros p x Hx. cbn. unfold st2. case_decide as Hk; [rewrite Hk|destruct (sm_view (map_at st r) !! k) as [q|] eqn:Hq]; cbn.
    + by rewrite list_lookup_alter_eq, Hx.
    + rewrite list_lookup_alter_ne; [done|]. by intros ->.
    + done.
  - intros net v. unfold WriteJSON. cbn. rewrite Ec, list_lookup_alter_eq, Hc. done.
  - intros net n ih m body Hn Hih. unfold worker_AnswerToPeer. cbn [localList set_conns]. rewrite El, Hn.
    change (default sm_new (Some m)) with m. rewrite (sm_Load_ret ih m), Hih, Hmap, Hpm, sm_Load_ret, Hd, lookup_delete_eq. done.
Qed.

(** ** Offers *)
Definition push (v : message J) cn : Conn J :=
  if closed cn then cn else mkConn (CloseCallback cn) (closed cn) (written cn ++ [v]).

(** A write that does not fail appends to an open connection. *)
Lemma WriteJSON_works net c v st :
  net c = None → WriteJSON net c v st = (None, set_conns (alter (push v) c (conns st)) st).
Proof using Type.
  intros Hn. unfold WriteJSON. rewrite Hn. destruct (conns st !! c) as [cn|] eqn:Hc.
  - destruct (closed cn) eqn:Hcl.
    + f_equal. destruct st as [l b rs ps cs ts es]. unfold set_conns. cbn in *. f_equal. symmetry. apply list_eq. intros j.
      destruct (decide (j = c)) as [->|]; [|by rewrite list_lookup_alter_ne].
      rewrite list_lookup_alter_eq, Hc. simpl. unfold push. by rewrite Hcl.
    + f_equal. f_equal. apply list_eq. intros j. destruct (decide (j = c)) as [->|]; [|by rewrite !list_lookup_alter_ne].
      rewrite !list_lookup_alter_eq, Hc. simpl. unfold push. by rewrite Hcl.
  - f_equal. destruct st as [l b rs ps cs ts es]. unfold set_conns. cbn in *. f_equal. symmetry. apply list_eq. intros j.
    destruct (decide (j = c)) as [->|]; [|by rewrite list_lookup_alter_ne]. by rewrite list_lookup_alter_eq, Hc.
Qed.

(** The offers among [os] that are meant for connection [c]. *)
Definition offers_for (h : list Peer) (c : nat) (ih id : string) (os : list (nat * Offer)) : list (message J) :=
  omap (fun '(p, o) => if decide (h !! p ≫= Common.Conn = Some c)
                       then Some (OfferMsg (utf8_of_8859_1 ih) (OfferID o) id (Offer_ o)) else None) os.

(** [st'] is [st] with the messages [f c] appended to each open connection. *)
Definition wrote (f : nat → list (message J)) st st' : Prop :=
  peers st' = peers st ∧
  ∀ c cn, conns st !! c = Some cn → closed cn = false →
    ∃ cn', conns st' !! c = Some cn' ∧ closed cn' = false ∧ written cn' = written cn ++ f c.

Lemma wrote_trans f g st1 st2 st3 : wrote f st1 st2 → wrote g st2 st3 → wrote (fun c => f c ++ g c) st1 st3.
Proof using Type.
  intros [Hp1 H1'] [Hp2 H2']. split; [congruence|]. intros c cn Hc Hcl.
  destruct (H1' c cn Hc Hcl) as (cn1 & Hc1 & Hcl1 & E1). destruct (H2' c cn1 Hc1 Hcl1) as (cn2 & Hc2 & Hcl2 & E2).
  exists cn2. split_and!; [done|done|]. by rewrite E2, E1, app_assoc.
Qed.
Lemma wrote_nil st : wrote (fun _ => []) st st.
Proof using Type. split; [done|]. intros c cn Hc Hcl. exists cn. by rewrite app_nil_r. Qed.
Lemma wrote_one c0 v st :
  wrote (fun c => if decide (c = c0) then [v] else []) st (set_conns (alter (push v) c0 (conns st)) st).
Proof using Type.
  split; [done|]. intros c cn Hc Hcl. cbn. case_decide as Hcc.
  - subst c0. rewrite list_lookup_alter_eq, Hc. exists (push v cn).
    split; [done|]. unfold push. by rewrite Hcl.
  - rewrite list_lookup_alter_ne, app_nil_r by done. by exists cn.
Qed.

Lemma wrote_ext f g st st' : (∀ c, f c = g c) → wrote f st st' → wrote g st st'.
Proof using Type. intros E [Hp Hc]. split; [done|]. intros c cn. rewrite <- E. apply Hc. Qed.

Lemma sendOffer_wrote e p o ih id st :
  (∀ c, e_net e c = None) → wrote (fun c => offers_for (peers st) c ih id [(p, o)]) st (sendOffer e p o ih id st).
Proof using Type.
  intros Hn. unfold sendOffer, offers_for. csimpl. destruct (peers st !! p ≫= Common.Conn) as [c0|].
  - rewrite WriteJSON_works by done. eapply wrote_ext; [|apply wrote_one]. intros c. cbn.
    repeat case_decide; by simplify_eq.
  - eapply wrote_ext; [|apply wrote_nil]. intros c. by case_decide.
Qed.

Lemma offers_for_app h c ih id l k : offers_for h c ih id (l ++ k) = offers_for h c ih id l ++ offers_for h c ih id k.
Proof using Type. apply omap_app. Qed.

Definition others st (id : string) (res : list nat) : Prop := ∀ p, p ∈ res → is_other st id p = true.
Lemma others_peers st st' id res : peers st' = peers st → others st id res → others st' id res.
Proof using Type. intros E Ho p Hp. unfold is_other. rewrite E. by apply Ho. Qed.

Lemma send_each_wrote e ih id res offers st :
  (∀ c, e_net e c = None) → others st id res →
  wrote (fun c => offers_for (peers st) c ih id (zip res offers)) st (send_each e ih id res offers st).
Proof using Type.
  intros Hn. revert offers st. induction res as [|p res IH]; intros offers st Ho; [apply wrote_nil|].
  destruct offers as [|o offers]; [apply wrote_nil|]. cbn [send_each zip zip_with].
  rewrite (Ho p) by by left. pose proof (sendOffer_wrote e p o ih id st Hn) as Hw.
  eapply wrote_ext; [|eapply wrote_trans; [exact Hw|apply IH]].
  - intros c. cbn beta. rewrite (proj1 Hw). by rewrite <- offers_for_app.
  - eapply others_peers; [apply Hw|]. intros q Hq. apply Ho. by right.
Qed.

(** The offers [picker.One()] gives, from its i-th call on. *)
Definition picked e (i n : nat) (offers : list Offer) : list Offer :=
  omap (fun j => offers !! (e_pick e j mod length offers)%nat) (seq i n).

Lemma send_picked_wrote e i ih id res offers st :
  (∀ c, e_net e c = None) → others st id res → offers ≠ [] →
  wrote (fun c => offers_for (peers st) c ih id (zip res (picked e i (length res) offers))) st (send_picked e i ih id res offers st).
Proof using Type.
  intros Hn Ho Hne. revert i st Ho. induction res as [|p res IH]; intros i st Ho; [apply wrote_nil|].
  cbn [send_picked length]. rewrite (Ho p) by by left. unfold picked. cbn [seq]. csimpl.
  destruct (offers !! (e_pick e i mod length offers)%nat) as [o|] eqn:Eo.
  2: { apply lookup_ge_None in Eo. assert (length offers ≠ 0%nat) as Hl by (by destruct offers).
       pose proof (Nat.mod_upper_bound (e_pick e i) _ Hl). lia. }
  cbn [zip zip_with]. pose proof (sendOffer_wrote e p o ih id st Hn) as Hw.
  eapply wrote_ext; [|eapply wrote_trans; [exact Hw|apply IH]].
  - intros c. cbn beta. rewrite (proj1 Hw). by rewrite <- offers_for_app.
  - eapply others_peers; [apply Hw|]. intros q Hq. apply Ho. by right.
Qed.

(** Which offer each peer of the answer is sent. *)
Definition assigned e (offers : list Offer) (res : list nat) : list (nat * Offer) :=
  if (length offers =? length res)%nat then zip res offers else zip res (picked e 0 (length res) offers).

Lemma send_offers_wrote e (req : AnnounceRequest) res st :
  (∀ c, e_net e c = None) → others st (req_PeerID req) res →
  wrote (fun c => offers_for (peers st) c (req_InfoHash req) (req_PeerID req) (assigned e (req_Offers req) res)) st
    (send_offers e req res st).
Proof using Type.
  intros Hn Ho. unfold send_offers, assigned. destruct (Nat.eqb_spec (length (req_Offers req)) 0) as [Hz|Hz].
  - apply nil_length_inv in Hz. rewrite Hz. eapply wrote_ext; [|apply wrote_nil]. intros c. cbn [length].
    assert (∀ i n, picked e i n [] = []) as Hp.
    { intros i n. unfold picked. revert i. induction n as [|n IH]; intros i; [done|]. cbn [seq]. csimpl. apply IH. }
    rewrite Hp. destruct (_ =? _)%nat; by destruct res.
  - destruct (_ =? _)%nat; [by apply send_each_wrote|apply send_picked_wrote; [done|done|]]. by destruct (req_Offers req).
Qed.

(** C24: An announce over a WebTorrent connection that succeeds, with no write
    failing, writes to every open connection exactly this: to its own the reply
    with the interval and the counts, then to the connection of each peer of
    the answer one offer, the i-th to the i-th if there are as many offers as
    peers and one of them picked at random otherwise; none goes to a peer with
    the caller's id, and the answer has no more peers than asked for. *)
Theorem announce_offers e c conn msg raw st u st' :
  ws_ok st → unmarshal_request msg = Ok raw → (∀ c, e_net e c = None) →
  handleWSAnnounce cfg SubString e c conn msg st = (Ok u, st') →
  let req := ws_request SubString c conn raw in
  ∃ res st1 f, Websocket.HandleAnnouncePeer (e_now e) req st = (Ok res, st1) ∧
    Websocket.Scrape cfg (e_cached e) (req_InfoHash req) st1 = Ok f ∧
    Z.of_nat (length res) ≤ Z.max 0 (req_NumWant req) ∧ others st1 (req_PeerID req) res ∧
    wrote (fun c' =>
        (if decide (c' = conn)
         then [AnnounceMsg (interval cfg (e_rnd e)) (Incomplete f) (Complete f) (utf8_of_8859_1 (req_InfoHash req))] else [])
        ++ offers_for (peers st1) c' (req_InfoHash req) (req_PeerID req) (assigned e (req_Offers req) res)) st1 st'.
Proof.
  intros Hok Hraw Hn. unfold handleWSAnnounce. rewrite Hraw. set (req := ws_request SubString c conn raw).
  destruct (validAnnounceReq req); [|done]. cbn [negb].
  destruct (Websocket.HandleAnnouncePeer (e_now e) req st) as [[res|err] st1] eqn:Ea; [|done].
  destruct (Websocket.Scrape cfg (e_cached e) (req_InfoHash req) st1) as [f|] eqn:Ef; [|done].
  rewrite WriteJSON_works by done. intros [= _ <-]. cbv zeta. exists res, st1, f.
  destruct (announce_res (e_now e) req st res st1 Hok Ea) as (_ & Hl & Hp).
  assert (others st1 (req_PeerID req) res) as Ho.
  { intros p Hin. destruct (Hp p Hin) as (y & Hy & Hid & _). unfold is_other. rewrite Hy. by rewrite bool_decide_eq_false_2. }
  split_and!; [done|done|done|done|]. eapply wrote_trans; [apply wrote_one|].
  eapply wrote_ext; [|apply send_offers_wrote; [done|]]; [done|]. by eapply others_peers.
Qed.
End Handlers.

(** ** Runs *)

(** Messages are numbers of requests. *)
Definition ws_peer (id ih : string) (uploaded left : Z) (offers : list Offer) : AnnounceRequest :=
  mkAnnounceRequest
    {| req_ClientIP := None; req_InfoHash := ih; req_PeerID := id; req_Event := "started"; req_UserAgent := "";
       req_IP := ""; req_IPv4 := ""; req_IPv6 := ""; req_Port := 0; req_Uploaded := uploaded; req_Downloaded := 0;
       req_Left := left; req_NumWant := 10; req_Type := PeerTypeWebtorrent; req_Compact := 0 |} SourceWS offers None.
Definition id_p : string := "PPPPPPPPPPPPPPPPPPPP".
Definition id_q : string := "QQQQQQQQQQQQQQQQQQQQ".
Definition torrent_a : string := "aaaaaaaaaaaaaaaaaaaa".
Definition torrent_b : string := "bbbbbbbbbbbbbbbbbbbb".
Definition offer_1 : Offer := mkOffer "o1" (mkOfferDetail "offer" "sdp").
Definition ws_messages : list AnnounceRequest :=
  [ws_peer id_p torrent_a 0 1000 [offer_1]; ws_peer id_p torrent_b 0 1000 [offer_1]; ws_peer id_q torrent_a 0 1000 [offer_1]].
#[export] Instance sample_json : Json string unit := {|
  json_Get msg k := if decide (k = "action"%string) then Ok "announce"%string else Err "no such key"%string;
  node_String n := Ok n; node_Valid n := true; node_Array n := Err "not an array"%string;
  unmarshal_request msg := match msg with
                           | [b] => match ws_messages !! Z.to_nat (Z_of_byte b) with Some r => Ok r | None => Err "syntax"%string end
                           | _ => Err "syntax"%string end;
  unmarshal_object _ := (); delete_key _ j := j |}.
Definition quiet : env := mkEnv sample_time 100 (fun i => i) (fun _ => None) (fun _ => None).

Notation sample_ws_state := (Websocket.State Skip (list bytes) fallbackIPFilter unit).
Definition no_context : http_context := mkHttpContext (fun _ => ""%string) "192.0.2.1" "".
Definition say (conn : nat) (n : Byte.byte) (st : sample_ws_state) : sample_ws_state :=
  (handle_message (sample_cfg 400) (fun s => s) quiet no_context conn [n] st).2.
(** Two connections to a store of one shard; P announces torrent A, then
    torrent B, over the first; then it hangs up. *)
Definition ws_none : sample_ws_state := NewWSMuxLocalManager 1 (mkManager empty_item empty_item newFallbackIPFilter).
Definition ws_start : sample_ws_state := set_conns [NewConn; NewConn] ws_none.
Lemma ws_start_steps : rtc (ws_step (sample_cfg 400)) ws_none ws_start.
Proof.
  apply (rtc_l _ _ (set_conns [NewConn] ws_none)); [apply (ws_accept (sample_cfg 400) ws_none)|].
  apply rtc_once, (ws_accept (sample_cfg 400) (set_conns [NewConn] ws_none)).
Qed.
Definition ws_two : sample_ws_state := say 0 Byte.x01 (say 0 Byte.x00 ws_start).
Definition ws_gone : sample_ws_state := Close 0 ws_two.

(** A WebTorrent peer that has everything still to download but has not
    uploaded yet is stored as complete: the scrape of its torrent counts one
    seeder and no leecher. *)
Theorem left_is_uploaded :
  req_Left (ws_peer id_p torrent_a 0 1000 [offer_1]) = 1000 ∧
  Left <$> peers (say 0 Byte.x00 ws_start) = [0] ∧
  Websocket.Scrape (sample_cfg 400) (fun _ => None) torrent_a (say 0 Byte.x00 ws_start) = Ok (mkScrapeFile 1 1 0 1).
Proof. vm_compute. auto. Qed.

(** A peer that announced two torrents over one connection stays in the
    first when the connection closes: it is out of the second, but the next peer
    of the first torrent is still told about it, and its offer goes nowhere. *)
Theorem first_torrent_stays :
  closed <$> conns ws_gone = [true; false] ∧
  Websocket.Scrape (sample_cfg 400) (fun _ => None) torrent_b ws_gone = Ok (mkScrapeFile 0 0 0 0) ∧
  Websocket.Scrape (sample_cfg 400) (fun _ => None) torrent_a ws_gone = Ok (mkScrapeFile 1 1 0 1) ∧
  (Websocket.HandleAnnouncePeer sample_time
     (ws_request (fun s => s) no_context 1 (ws_peer id_q torrent_a 0 1000 [offer_1])) ws_gone).1 = Ok [0%nat] ∧
  concat (written <$> conns (say 1 Byte.x02 ws_gone)) = concat (written <$> conns ws_gone) ++ [AnnounceMsg 900 0 1 torrent_a].
Proof. vm_compute. auto. Qed.

Lemma webtorrent_well_formed_witness :
  ws_ok ws_gone ∧
  ws_reachable (sample_cfg 400) 1 (ban ws_none)
    (HandleWebTorrent (sample_cfg 400) (fun s => s) true no_context [Message quiet [Byte.x02]; ReadError true] ws_gone).2.
Proof.
  apply webtorrent_well_formed.
  change (rtc (ws_step (sample_cfg 400)) ws_none ws_gone).
  etransitivity; [apply ws_start_steps|].
  etransitivity; [apply handle_message_steps|]. etransitivity; [apply handle_message_steps|].
  apply rtc_once, ws_close.
Defined.

Lemma ws_two_ok : ws_ok ws_two.
Proof.
  apply (ws_steps_ok (sample_cfg 400) ws_start).
  - etransitivity; apply handle_message_steps.
  - apply (ws_steps_ok (sample_cfg 400) ws_none); [apply ws_start_steps|apply ws_ok_new].
Qed.

(** The connection announced torrent B, the second root, last. *)
Lemma close_forgets_witness :
  sm_view (map_at ws_gone 1) = ∅ ∧ closed <$> conns ws_gone !! 0%nat = Some true.
Proof.
  assert (conns ws_two !! 0%nat = Some (mkConn (Some (1%nat, id_p)) false
    [AnnounceMsg 900 0 1 torrent_a; AnnounceMsg 900 0 1 torrent_b])) as Hc by (vm_compute; reflexivity).
  destruct (close_forgets 0 _ 1 id_p ws_two ws_two_ok Hc eq_refl eq_refl) as (H1 & H2 & _).
  split; [etransitivity; [exact H2|vm_compute; reflexivity]|exact H1].
Defined.

(** Q announces torrent A while P is there: P's connection gets Q's offer. *)
Lemma announce_offers_witness :
  ∃ res st1 f, Websocket.HandleAnnouncePeer sample_time
      (ws_request (fun s => s) no_context 1 (ws_peer id_q torrent_a 0 1000 [offer_1])) ws_two = (Ok res, st1) ∧
    Websocket.Scrape (sample_cfg 400) (fun _ => None) torrent_a st1 = Ok f ∧
    wrote (fun c' => (if decide (c' = 1%nat) then [AnnounceMsg 900 (Incomplete f) (Complete f) torrent_a] else [])
       ++ offers_for (peers st1) c' torrent_a id_q (assigned quiet [offer_1] res)) st1 (say 1 Byte.x02 ws_two).
Proof.
  assert ((handleWSAnnounce (sample_cfg 400) (fun s => s) quiet no_context 1 [Byte.x02] ws_two).1 = Ok ()) as E by (vm_compute; reflexivity).
  destruct (announce_offers (sample_cfg 400) (fun s => s) quiet no_context 1 [Byte.x02]
    (ws_peer id_q torrent_a 0 1000 [offer_1]) ws_two tt
    (handleWSAnnounce (sample_cfg 400) (fun s => s) quiet no_context 1 [Byte.x02] ws_two).2 ws_two_ok)
    as (res & st1 & f & Ha & Hf & _ & _ & Hw).
  - reflexivity.
  - reflexivity.
  - rewrite <- E. apply surjective_pairing.
  - exists res, st1, f. split; [exact Ha|]. split; [exact Hf|].
    assert (say 1 Byte.x02 ws_two = (handleWSAnnounce (sample_cfg 400) (fun s => s) quiet no_context 1 [Byte.x02] ws_two).2) as ->
      by (vm_compute; reflexivity).
    exact Hw.
Defined.
Example offer_arrives :
  written <$> conns (say 1 Byte.x02 ws_two) !! 0%nat
  = Some [AnnounceMsg 900 0 1 torrent_a; AnnounceMsg 900 0 1 torrent_b; OfferMsg torrent_a "o1" id_q (mkOfferDetail "offer" "sdp")].
Proof. vm_compute. reflexivity. Qed.
