(* ===== verification/WsTracker.v ===== *)
(** The WebTorrent store against a reference tracker: run call by call, the
    shards answer, write and keep what one map from info hashes to tables of
    peers and one list of connections would. *)
From Stdlib Require Import ZArith Lia Bool Strings.String.
From stdpp Require Import base strings list sets gmap.
From S2P Require Import Prelude GoStd Config Model Common Samples Mapx Local LocalScrape BanItem IPFilter Ban Tracker Websocket WebTorrent WsSpec.
Set Default Proof Using "Type*".
Local Open Scope Z_scope.

(** ** The calls of the handlers and connections *)
Inductive ws_call (J : Type) :=
| WsCallAccept
| WsCallAnnounce (now : Z) (req : AnnounceRequest)
| WsCallScrape (ih : string)
| WsCallAnswer (net : nat → option string) (ih id : string) (body : J)
| WsCallWrite (net : nat → option string) (c : nat) (v : message J)
| WsCallClose (c : nat).
Arguments WsCallAccept {J}. Arguments WsCallAnnounce {J}. Arguments WsCallScrape {J}.
Arguments WsCallAnswer {J}. Arguments WsCallWrite {J}. Arguments WsCallClose {J}.

Section Reference.
Context {M : Type → Type} {B F J : Type} `{SyncStringMapLaws M} `{BloomFilter B} `{IPFilter F}.
Context (cfg : Config) (cached : string → option ScrapeFile).
Notation State := (Websocket.State M B F J).
Implicit Types (st : State) (cn : Conn J) (i : infoHashRoot M).

(** ** The store, one call at a time *)
Fixpoint ws_run_all (fuel : nat) st : State :=
  match fuel, tasks st with
  | S n, t :: ts => ws_run_all n (run_task cfg t (set_tasks ts st))
  | _, _ => st
  end.

Definition unit_of (r : option string) : result unit := match r with None => Ok tt | Some e => Err e end.

Definition ws_run_call (c : ws_call J) st : reply * State :=
  match c with
  | WsCallAccept => (ReplyUnit (Ok tt), set_conns (conns st ++ [NewConn]) st)
  | WsCallAnnounce now req =>
      let '(r, st) := HandleAnnouncePeer now req st in
      (ReplyPeers (res_map (omap (fun p => peers st !! p)) r), ws_run_all 2 st)
  | WsCallScrape ih => (ReplyScrape (Scrape cfg cached ih st), st)
  | WsCallAnswer net ih id body => let '(r, st) := AnswerToPeer net ih id body st in (ReplyUnit r, st)
  | WsCallWrite net c v => let '(r, st) := WriteJSON net c v st in (ReplyUnit (unit_of r), st)
  | WsCallClose c => (ReplyUnit (Ok tt), Close c st)
  end.
Fixpoint ws_run_calls (cs : list (ws_call J)) st : list reply * State :=
  match cs with
  | [] => ([], st)
  | c :: cs => let '(r, st) := ws_run_call c st in let '(rs, st) := ws_run_calls cs st in (r :: rs, st)
  end.

(** ** The reference *)
(** A connection remembers the torrent and the id it announced last. *)
Record ref_conn := mkRefConn { rc_last : option (string * string); rc_closed : bool; rc_written : list (message J) }.
Record ws_reference := mkWsRef
  { wr_ban : Ban.Manager B F; wr_torrents : gmap string (gmap string Peer); wr_conns : list ref_conn; wr_sent : list eventBody }.
Implicit Types (R : ws_reference) (rc : ref_conn).

Definition wr_table R (ih : string) : gmap string Peer := default ∅ (wr_torrents R !! ih).
Definition wr_update (ih : string) (f : gmap string Peer → gmap string Peer) R : ws_reference :=
  mkWsRef (wr_ban R) (alter f ih (wr_torrents R)) (wr_conns R) (wr_sent R).
Definition wr_create (ih : string) R : ws_reference :=
  mkWsRef (wr_ban R) (<[ih := wr_table R ih]> (wr_torrents R)) (wr_conns R) (wr_sent R).
Definition wr_set_conns cs R : ws_reference := mkWsRef (wr_ban R) (wr_torrents R) cs (wr_sent R).
Definition wr_set_sent es R : ws_reference := mkWsRef (wr_ban R) (wr_torrents R) (wr_conns R) es.
Definition wr_event (ih : string) (x : Peer) R : ws_reference :=
  wr_set_sent (wr_sent R ++ SendPeerEvent (EnableEventProducer (Tracker cfg)) ih x) R.

Definition wr_close (c : nat) R : ws_reference :=
  match wr_conns R !! c with
  | None => R
  | Some rc =>
      if rc_closed rc then R
      else
        let R := match rc_last rc with Some (ih, id) => wr_update ih (delete id) R | None => R end in
        wr_set_conns (alter (fun rc => mkRefConn (rc_last rc) true (rc_written rc)) c (wr_conns R)) R
  end.

Definition wr_write (net : nat → option string) (c : nat) (v : message J) R : option string * ws_reference :=
  match wr_conns R !! c with
  | None => (None, R)
  | Some rc =>
      if rc_closed rc then (None, R)
      else
        match net c with
        | None => (None, wr_set_conns (alter (fun rc => mkRefConn (rc_last rc) (rc_closed rc) (rc_written rc ++ [v])) c (wr_conns R)) R)
        | Some e => (if write_lost e then None else Some e, R)
        end
  end.

(** Who is handed out to the peer [x]. *)
Definition ws_wanted (x y : Peer) : bool :=
  (Type_ y =? Type_ x) && negb ((Type_ y =? PeerTypeWebtorrent) && bool_decide (Common.Conn y = None))
  && negb (Event y =? PeerEvent_Stopped) && bool_decide (ID y ≠ ID x).

(** A peer that is known is updated, and reported when it completed or its
    event changed; a new one is filed. *)
Definition wr_file (ih : string) (x : Peer) R : ws_reference :=
  match wr_table R ih !! ID x with
  | Some y =>
      let R := if (negb (Left y =? 0) && (Left x =? 0)) || negb (Event y =? Event x) then wr_event ih x R else R in
      wr_update ih (alter (update_peer x) (ID x)) R
  | None => wr_update ih (insert (ID x) x) R
  end.

Definition wr_check (req : AnnounceRequest) R : option string :=
  check_bans req (mkState (M := M) (J := J) [] (wr_ban R) [] [] [] [] []).

Definition wr_announce (now : Z) (req : AnnounceRequest) R : allowed * ws_reference :=
  let x := peer_of_request now req in
  let ih := req_InfoHash req in
  match wr_check req R with
  | Some e => (Fails e, R)
  | None =>
      if invalid_address x then (Fails "invalid address", R)
      else
        let known := wr_torrents R !! ih in
        let R := wr_create ih R in
        match Common.Conn x with
        | None => (Fails nil_deref, R)
        | Some c =>
            let R := wr_set_conns (alter (fun rc => mkRefConn (Some (ih, ID x)) (rc_closed rc) (rc_written rc)) c (wr_conns R)) R in
            match known with
            | None => (AnyOf 0 [], wr_event ih x (wr_update ih (insert (ID x) x) R))
            | Some t =>
                if Event x =? PeerEvent_Stopped then (AnyOf 0 [], wr_update ih (delete (ID x)) (wr_close c R))
                else (AnyOf (Z.to_nat (req_NumWant req)) (List.filter (ws_wanted x) (peers_of t)), wr_file ih x R)
            end
        end
  end.

Definition wr_answer (net : nat → option string) (ih id : string) (body : J) R : result unit * ws_reference :=
  match wr_torrents R !! ih with
  | None => (Err "info hash not found"%string, R)
  | Some t =>
      match t !! id with
      | None => (Err "peer not found"%string, R)
      | Some x =>
          match Common.Conn x with
          | None => (Err "peer not connected"%string, R)
          | Some c =>
              match wr_write net c (AnswerMsg body) R with
              | (None, R) => (Ok tt, R)
              | (Some e, R) =>
                  if contains e "close" then (Err "remote peer offline"%string, wr_update ih (alter clear_conn id) R)
                  else (Err e, R)
              end
          end
      end
  end.

Definition wr_call (c : ws_call J) R : allowed * ws_reference :=
  match c with
  | WsCallAccept => (Outcome (Ok tt), wr_set_conns (wr_conns R ++ [mkRefConn None false []]) R)
  | WsCallAnnounce now req => wr_announce now req R
  | WsCallScrape ih => (Counts (add_counts (mkScrapeFile 0 0 0 0) (peers_of (wr_table R ih))), R)
  | WsCallAnswer net ih id body => let '(r, R) := wr_answer net ih id body R in (Outcome r, R)
  | WsCallWrite net c v => let '(r, R) := wr_write net c v R in (Outcome (unit_of r), R)
  | WsCallClose c => (Outcome (Ok tt), wr_close c R)
  end.
Fixpoint wr_calls (cs : list (ws_call J)) R : list allowed * ws_reference :=
  match cs with
  | [] => ([], R)
  | c :: cs => let '(a, R) := wr_call c R in let '(l, R) := wr_calls cs R in (a :: l, R)
  end.

(** ** What of the store the reference speaks of *)
Definition index st (ih : string) : option nat := localList st !! shard_of ih st ≫= sm_Load ih.
Definition table st (r : nat) : gmap string Peer := omap (fun p => peers st !! p) (sm_view (map_at st r)).
Definition name_of st (r : nat) : string := infoHash (root_at st r).
Definition view_conn st cn : ref_conn :=
  mkRefConn ((fun cb => (name_of st cb.1, cb.2)) <$> CloseCallback cn) (closed cn) (written cn).
Definition ws_torrent st (ih : string) : option (gmap string Peer) := table st <$> index st ih.

Record ws_sim st R : Prop := {
  ws_sim_ok : ws_ok st;
  ws_sim_tasks : tasks st = [];
  ws_sim_shards : localList st ≠ [];
  ws_sim_length : Z.of_nat (length (localList st)) < 2 ^ 64;
  ws_sim_indexed r i : roots st !! r = Some i → index st (infoHash i) = Some r;
  ws_sim_unshared r1 k1 r2 k2 p :
    sm_view (map_at st r1) !! k1 = Some p → sm_view (map_at st r2) !! k2 = Some p → r1 = r2;
  ws_sim_ban : ban st = wr_ban R;
  ws_sim_sent : sent st = wr_sent R;
  ws_sim_conns : view_conn st <$> conns st = wr_conns R;
  ws_sim_torrents ih : ws_torrent st ih = wr_torrents R !! ih;
}.

(** ** Tables under the elementary changes *)
Lemma name_of_at st r i : roots st !! r = Some i → name_of st r = infoHash i.
Proof using Type. intros Hr. unfold name_of, root_at. by rewrite Hr. Qed.

Lemma map_at_lookup st r k p : sm_view (map_at st r) !! k = Some p → is_Some (roots st !! r).
Proof.
  unfold map_at, root_at. destruct (roots st !! r); [by eauto|]. simpl. by rewrite sm_view_new, lookup_empty.
Qed.

Lemma ws_table_lookup st r k : table st r !! k = sm_view (map_at st r) !! k ≫= fun p => peers st !! p.
Proof using Type. apply lookup_omap. Qed.

Lemma map_at_put st r pm r' :
  (r < length (roots st))%nat → map_at (put_map r pm st) r' = if decide (r' = r) then pm else map_at st r'.
Proof using Type.
  intros Hr. apply lookup_lt_is_Some in Hr as [i Hi]. unfold map_at, root_at, put_map. cbn. case_decide as E.
  - subst r'. by rewrite list_lookup_alter_eq, Hi.
  - by rewrite list_lookup_alter_ne.
Qed.
Lemma name_of_put st r pm r' : name_of (put_map r pm st) r' = name_of st r'.
Proof using Type.
  unfold name_of, root_at, put_map. cbn. destruct (decide (r' = r)) as [->|]; [|by rewrite list_lookup_alter_ne].
  rewrite list_lookup_alter_eq. by destruct (roots st !! r).
Qed.

(** ** The relation under the elementary changes *)
Lemma ws_sim_root st R ih r : ws_sim st R → index st ih = Some r → (r < length (roots st))%nat ∧ name_of st r = ih.
Proof.
  intros Hs Hr. unfold index in Hr. destruct (localList st !! shard_of ih st) as [m|] eqn:Hm; [|done]. simpl in Hr.
  rewrite sm_Load_ret in Hr. destruct (wo_index _ (ws_sim_ok _ _ Hs) _ _ _ _ Hm Hr) as (i & Hi & <-).
  split; [by eapply lookup_lt_Some|by apply name_of_at].
Qed.

(** Putting a map [pm] and records [ps] in place changes the table of [ih]. *)
Lemma ws_sim_put st R ih r pm ps f :
  ws_sim st R → index st ih = Some r → ws_ok (set_peers ps (put_map r pm st)) →
  (∀ k p r' k', sm_view pm !! k = Some p → sm_view (map_at st r') !! k' = Some p → r' = r) →
  omap (fun p => ps !! p) (sm_view pm) = f (table st r) →
  (∀ r' k p, r' ≠ r → sm_view (map_at st r') !! k = Some p → ps !! p = peers st !! p) →
  ws_sim (set_peers ps (put_map r pm st)) (wr_update ih f R).
Proof.
  intros Hs Hr Hok Hpm Hf Hps. destruct (ws_sim_root _ _ _ _ Hs Hr) as [Hlt Hn].
  assert (∀ ih', index st ih' = Some r → ih' = ih) as Hone
    by (intros ih' [_ Hn']%(ws_sim_root _ _ _ _ Hs); by rewrite <- Hn, Hn').
  assert (∀ r', map_at (set_peers ps (put_map r pm st)) r' = if decide (r' = r) then pm else map_at st r') as Hmap
    by (intros r'; by apply (map_at_put st r pm r')).
  destruct Hs as [_ S2 S3 S4 S5 S6 S7 S8 S9 S10]. split; [done|done|done|done| | |done|done| |].
  - cbn. intros r' i Hi. destruct (decide (r' = r)) as [->|Hne].
    + rewrite list_lookup_alter_eq in Hi. destruct (roots st !! r) as [i0|] eqn:E; [|done]. cbn in Hi. apply (inj Some) in Hi as <-. exact (S5 r i0 E).
    + rewrite list_lookup_alter_ne in Hi by done. by apply S5.
  - intros r1 k1 r2 k2 p. rewrite !Hmap. repeat case_decide; subst; [done|..|by apply S6].
    + intros Hk1 Hk2. symmetry. by eapply Hpm.
    + intros Hk1 Hk2. by eapply Hpm.
  - cbn. rewrite <- S9. apply list_fmap_ext. intros c cn _. unfold view_conn. f_equal.
    destruct (CloseCallback cn) as [[r' k]|]; [|done]. simpl. by rewrite <- (name_of_put st r pm r').
  - intros ih'. unfold ws_torrent. change (index (set_peers ps (put_map r pm st)) ih') with (index st ih'). cbn [wr_torrents wr_update].
    specialize (S10 ih') as St. unfold ws_torrent in St. destruct (decide (ih' = ih)) as [->|Hne].
    + rewrite lookup_alter_eq, <- St, Hr. simpl. f_equal. unfold table. cbn [peers set_peers]. by rewrite Hmap, decide_True, Hf.
    + rewrite lookup_alter_ne, <- St by done. destruct (index st ih') as [r'|] eqn:Hr'; [|done]. simpl. f_equal.
      assert (r' ≠ r) as Hrr by (intros ->; by apply Hne, Hone).
      unfold table. cbn [peers set_peers]. rewrite Hmap, decide_False by done. apply map_eq. intros k. rewrite !lookup_omap.
      destruct (sm_view (map_at st r') !! k) as [p|] eqn:Hk; [|done]. simpl. by eapply Hps.
Qed.

Lemma set_peers_id st : set_peers (peers st) st = st.
Proof using Type. by destruct st. Qed.
Lemma put_map_id st r : put_map r (map_at st r) st = st.
Proof using Type.
  unfold put_map, map_at, root_at. destruct st as [l b rs ps cs ts es]. unfold set_roots. cbn. f_equal.
  apply list_eq. intros r'. destruct (decide (r' = r)) as [->|]; [|by rewrite list_lookup_alter_ne].
  rewrite list_lookup_alter_eq. destruct (rs !! r) as [[]|]; done.
Qed.

Lemma ws_sim_key st R r k p : ws_sim st R → sm_view (map_at st r) !! k = Some p → ∃ x, peers st !! p = Some x ∧ ID x = k.
Proof. intros Hs. apply map_at_entries, Hs. Qed.

(** A record belongs to one entry of one torrent. *)
Lemma ws_sim_entry st R r k p r' k' :
  ws_sim st R → sm_view (map_at st r) !! k = Some p → sm_view (map_at st r') !! k' = Some p → r' = r ∧ k' = k.
Proof.
  intros Hs Hk Hk'. split; [by eapply (ws_sim_unshared _ _ Hs)|].
  destruct (ws_sim_key _ _ _ _ _ Hs Hk) as (x & Hx & <-). destruct (ws_sim_key _ _ _ _ _ Hs Hk') as (y & Hy & <-). by simplify_eq.
Qed.

Lemma ws_sim_delete st R ih r k :
  ws_sim st R → index st ih = Some r → ws_sim (put_map r (sm_Delete k (map_at st r)).2 st) (wr_update ih (delete k) R).
Proof.
  intros Hs Hr. rewrite <- (set_peers_id (put_map r _ st)). apply ws_sim_put; [done|done|..].
  - rewrite set_peers_id. apply ws_ok_delete, Hs.
  - intros k1 p r' k'. rewrite sm_Delete_view. intros [_ Hk]%lookup_delete_Some Hk'. by eapply ws_sim_unshared.
  - rewrite sm_Delete_view. apply omap_delete.
  - done.
Qed.

Lemma ws_sim_insert st R ih r p x :
  ws_sim st R → index st ih = Some r → peers st !! p = Some x → (∀ r' k', sm_view (map_at st r') !! k' ≠ Some p) →
  sm_view (map_at st r) !! ID x = None →
  ws_sim (put_map r (sm_LoadOrStore (GetKey x) p (map_at st r)).2 st) (wr_update ih (insert (ID x) x) R).
Proof.
  intros Hs Hr Hx Hp Hk. rewrite <- (set_peers_id (put_map r _ st)).
  assert (sm_view (sm_LoadOrStore (GetKey x) p (map_at st r)).2 = <[ID x := p]> (sm_view (map_at st r))) as Hv
    by (rewrite sm_LoadOrStore_view; unfold GetKey; by rewrite Hk).
  apply ws_sim_put; [done|done|..].
  - rewrite set_peers_id. apply ws_ok_insert; [apply Hs|done].
  - intros k1 q r' k'. rewrite Hv. intros [[_ <-]|[_ Hk1]]%lookup_insert_Some Hk'; [by destruct (Hp r' k')|by eapply ws_sim_unshared].
  - rewrite Hv. by apply omap_insert_Some.
  - done.
Qed.

Lemma omap_alter_heap (h : list Peer) (f : Peer → Peer) p k (m : gmap string nat) :
  m !! k = Some p → (∀ k', m !! k' = Some p → k' = k) →
  omap (fun q => alter f p h !! q) m = alter f k (omap (fun q => h !! q) m).
Proof using Type.
  intros Hk Hone. apply map_eq. intros k'. destruct (decide (k' = k)) as [->|Hne].
  - rewrite lookup_alter_eq, !lookup_omap, Hk. simpl. by rewrite list_lookup_alter_eq.
  - rewrite lookup_alter_ne, !lookup_omap by done. destruct (m !! k') as [q|] eqn:Hq; [|done]. simpl.
    rewrite list_lookup_alter_ne; [done|]. intros ->. by apply Hne, Hone.
Qed.
Lemma omap_alter_absent (h : list Peer) (f : Peer → Peer) p (m : gmap string nat) :
  (∀ k, m !! k ≠ Some p) → omap (fun q => alter f p h !! q) m = omap (fun q => h !! q) m.
Proof using Type.
  intros Hp. apply map_eq. intros k. rewrite !lookup_omap. destruct (m !! k) as [q|] eqn:Hq; [|done]. simpl.
  rewrite list_lookup_alter_ne; [done|]. intros ->. by apply (Hp k).
Qed.

Lemma ws_sim_alter st R ih r k p (f : Peer → Peer) :
  ws_sim st R → index st ih = Some r → sm_view (map_at st r) !! k = Some p → (∀ x, ID (f x) = ID x) →
  ws_sim (set_peers (alter f p (peers st)) st) (wr_update ih (alter f k) R).
Proof.
  intros Hs Hr Hk Hf. rewrite <- (put_map_id st r) at 2. apply ws_sim_put; [done|done|..].
  - rewrite put_map_id. apply ws_ok_alter; [done|apply Hs].
  - intros k1 q r' k' Hk1 Hk'. by eapply ws_sim_unshared.
  - apply omap_alter_heap; [done|]. intros k' Hk'. by apply (ws_sim_entry _ _ _ _ _ _ _ Hs Hk Hk').
  - intros r' k' q Hne Hk'. rewrite list_lookup_alter_ne; [done|]. intros ->. by apply Hne, (ws_sim_entry _ _ _ _ _ _ _ Hs Hk Hk').
Qed.

Lemma ws_sim_callback st R ih r k :
  ws_sim st R → index st ih = Some r → ws_sim (close_callback (r, k) st) (wr_update ih (delete k) R).
Proof.
  intros Hs Hr. pose proof (ws_ok_callback (r, k) st (ws_sim_ok _ _ Hs)) as Hok. unfold close_callback in *. cbn [fst snd] in *.
  pose proof (sm_LoadAndDelete_ret k (map_at st r)) as Hv. pose proof (sm_LoadAndDelete_view k (map_at st r)) as Hd.
  destruct (sm_LoadAndDelete k (map_at st r)) as [v pm]. cbn [fst snd] in Hv, Hd.
  assert (∀ k1 q r' k', sm_view pm !! k1 = Some q → sm_view (map_at st r') !! k' = Some q → r' = r) as Hpm.
  { intros k1 q r' k'. rewrite Hd. intros [_ Hk]%lookup_delete_Some Hk'. by eapply ws_sim_unshared. }
  destruct v as [p|]; symmetry in Hv.
  - apply ws_sim_put; [done..| |].
    + change (peers (put_map r pm st)) with (peers st). rewrite omap_alter_absent, Hd; [apply omap_delete|].
      intros k1. rewrite Hd. intros [Hne Hk1]%lookup_delete_Some. apply Hne. symmetry. by apply (ws_sim_entry _ _ _ _ _ _ _ Hs Hv Hk1).
    + intros r' k' q Hne Hk'. change (peers (put_map r pm st)) with (peers st). rewrite list_lookup_alter_ne; [done|].
      intros ->. by apply Hne, (ws_sim_entry _ _ _ _ _ _ _ Hs Hv Hk').
  - rewrite <- (set_peers_id (put_map r pm st)) in Hok |- *. apply ws_sim_put; [done..| |done]. rewrite Hd. apply omap_delete.
Qed.

Lemma ws_sim_heap st R ps :
  ws_sim st R → ws_ok (set_peers ps st) → (∀ r k p, sm_view (map_at st r) !! k = Some p → ps !! p = peers st !! p) →
  ws_sim (set_peers ps st) R.
Proof.
  intros [S1 S2 S3 S4 S5 S6 S7 S8 S9 S10] Hok Hps. split; try done. intros ih. rewrite <- S10. unfold ws_torrent.
  change (index (set_peers ps st) ih) with (index st ih). destruct (index st ih) as [r|]; [|done]. simpl. f_equal.
  apply map_eq. intros k. rewrite !ws_table_lookup. change (map_at (set_peers ps st) r) with (map_at st r).
  destruct (sm_view (map_at st r) !! k) as [p|] eqn:Hk; [|done]. by apply (Hps r k).
Qed.

Lemma ws_sim_app st R x : ws_sim st R → ws_sim (set_peers (peers st ++ [x]) st) R.
Proof.
  intros Hs. apply ws_sim_heap; [done|apply ws_ok_app, Hs|]. intros r k p Hk.
  destruct (ws_sim_key _ _ _ _ _ Hs Hk) as (y & Hy & _). by rewrite Hy, (lookup_app_l_Some _ _ _ _ Hy).
Qed.

Lemma ws_sim_conns_set st R cs rcs :
  ws_sim st R → ws_ok (set_conns cs st) → view_conn st <$> cs = rcs → ws_sim (set_conns cs st) (wr_set_conns rcs R).
Proof. intros [S1 S2 S3 S4 S5 S6 S7 S8 S9 S10] Hok Hcs. by split. Qed.

Lemma ws_sim_conn st R c (f : Conn J → Conn J) g :
  ws_sim st R → (∀ cn, view_conn st (f cn) = g (view_conn st cn)) →
  (∀ cn r k, conns st !! c = Some cn → CloseCallback (f cn) = Some (r, k) → (r < length (roots st))%nat) →
  ws_sim (set_conns (alter f c (conns st)) st) (wr_set_conns (alter g c (wr_conns R)) R).
Proof.
  intros Hs Hf Hr. apply ws_sim_conns_set; [done|apply ws_ok_conns; [apply Hs|done]|]. rewrite <- (ws_sim_conns _ _ Hs).
  apply list_fmap_alter, Forall_true, Hf.
Qed.

Lemma ws_sim_event st R ih x :
  ws_sim st R →
  ws_sim (set_sent (sent st ++ SendPeerEvent (EnableEventProducer (Tracker cfg)) ih x) st) (wr_event ih x R).
Proof. intros [[] S2 S3 S4 S5 S6 S7 S8 S9 S10]. split; try done. cbn. by rewrite S8. Qed.

Lemma view_conn_at st R c : ws_sim st R → wr_conns R !! c = view_conn st <$> conns st !! c.
Proof using Type. intros Hs. rewrite <- (ws_sim_conns _ _ Hs). apply list_lookup_fmap. Qed.

Lemma ws_sim_Close st R c : ws_sim st R → ws_sim (Close c st) (wr_close c R).
Proof.
  intros Hs. unfold Close, wr_close. rewrite (view_conn_at _ _ c Hs). destruct (conns st !! c) as [cn|] eqn:Hc; [|done].
  cbn [fmap option_fmap option_map]. change (rc_closed (view_conn st cn)) with (closed cn). destruct (closed cn); [done|]. unfold view_conn. cbn [rc_last].
  destruct (CloseCallback cn) as [[r k]|] eqn:Hcb; cbn [fmap option_fmap option_map fst snd].
  - pose proof (wo_conn _ (ws_sim_ok _ _ Hs) _ _ _ _ Hc Hcb) as Hr. pose proof Hr as [i Hi]%lookup_lt_is_Some.
    rewrite (name_of_at _ _ _ Hi). pose proof (ws_sim_indexed _ _ Hs _ _ Hi) as Hix.
    pose proof (ws_sim_callback _ _ _ _ k Hs Hix) as Hs'. destruct (close_callback_frame (r, k) st) as (Ec & El & _). cbn [fst snd].
    apply (ws_sim_conn _ _ c (fun cn => mkConn (CloseCallback cn) true (written cn)) (fun rc => mkRefConn (rc_last rc) true (rc_written rc)) Hs'); [done|].
    cbn. intros cn' r' k'. rewrite Ec, El. intros ??. by eapply (wo_conn _ (ws_sim_ok _ _ Hs) c).
  - apply (ws_sim_conn _ _ c (fun cn => mkConn (CloseCallback cn) true (written cn)) (fun rc => mkRefConn (rc_last rc) true (rc_written rc)) Hs); [done|].
    cbn. intros cn' r' k' ??. by eapply (wo_conn _ (ws_sim_ok _ _ Hs) c).
Qed.

Lemma ws_sim_write st R net c v :
  ws_sim st R → (WriteJSON net c v st).1 = (wr_write net c v R).1 ∧ ws_sim (WriteJSON net c v st).2 (wr_write net c v R).2.
Proof.
  intros Hs. unfold WriteJSON, wr_write. rewrite (view_conn_at _ _ c Hs). destruct (conns st !! c) as [cn|] eqn:Hc; [|done].
  cbn [fmap option_fmap option_map]. change (rc_closed (view_conn st cn)) with (closed cn). destruct (closed cn); [done|]. destruct (net c); [done|].
  split; [done|]. cbn [snd].
  apply (ws_sim_conn _ _ c (fun cn => mkConn (CloseCallback cn) (closed cn) (written cn ++ [v]))
    (fun rc => mkRefConn (rc_last rc) (rc_closed rc) (rc_written rc ++ [v])) Hs); [done|].
  cbn. intros cn' r' k' ??. by eapply (wo_conn _ (ws_sim_ok _ _ Hs) c).
Qed.

(** A torrent that is not there yet becomes one without peers. *)
Lemma ws_shard_lt st R ih : ws_sim st R → (shard_of ih st < length (localList st))%nat.
Proof using Type.
  intros Hs. pose proof (ws_sim_shards _ _ Hs). pose proof (ws_sim_length _ _ Hs). unfold shard_of, pickWorker.
  assert (0 < Z.of_nat (length (localList st))) by (destruct (localList st); [done|simpl; lia]).
  unfold u64 at 2. rewrite (wrap_u_small 64 (Z.of_nat _)) by lia.
  pose proof (Z.mod_pos_bound (u64 (be_decode (bytes_of_string ih))) (Z.of_nat (length (localList st)))). lia.
Qed.

Lemma index_lookup st ih m : localList st !! shard_of ih st = Some m → index st ih = sm_view m !! ih.
Proof. intros Hm. unfold index. rewrite Hm. simpl. apply sm_Load_ret. Qed.

Lemma view_conn_roots st st' cn :
  (∀ r k, CloseCallback cn = Some (r, k) → name_of st' r = name_of st r) → view_conn st' cn = view_conn st cn.
Proof using Type. intros Hn. unfold view_conn. f_equal. destruct (CloseCallback cn) as [[r k]|]; [|done]. simpl. by rewrite (Hn r k). Qed.

Lemma get_or_create_index st ih r ok st' :
  get_or_create (shard_of ih st) ih st = ((r, ok), st') → (shard_of ih st < length (localList st))%nat →
  index st ih = (if ok then Some r else None) ∧ length (localList st') = length (localList st) ∧
  roots st' = (if ok then roots st else roots st ++ [mkRoot ih sm_new]) ∧ (ok = false → r = length (roots st)) ∧
  ban st' = ban st ∧ sent st' = sent st ∧
  ∀ ih', index st' ih' = if decide (ih' = ih) then Some r else index st ih'.
Proof.
  intros E [m0 Hm0]%lookup_lt_is_Some. unfold get_or_create in E. rewrite Hm0 in E. change (default sm_new (Some m0)) with m0 in E.
  pose proof (sm_LoadOrStoreLazy_ret ih (fun _ => length (roots st)) m0) as Hr.
  pose proof (sm_LoadOrStoreLazy_view ih (fun _ => length (roots st)) m0) as Hv.
  destruct (sm_LoadOrStoreLazy ih _ m0) as [[r1 b] m1]. cbn [fst snd] in Hr, Hv.
  apply (inj2 pair) in E as [[= -> ->] <-].
  assert (∀ b, localList (if b : bool then set_localList (<[shard_of ih st := m1]> (localList st)) st
    else set_roots (roots st ++ [mkRoot ih sm_new]) (set_localList (<[shard_of ih st := m1]> (localList st)) st))
    = <[shard_of ih st := m1]> (localList st)) as El by by intros [].
  assert (is_Some (sm_view m1 !! ih) ∧ sm_view m1 !! ih = Some r ∧ ∀ ih', ih' ≠ ih → sm_view m1 !! ih' = sm_view m0 !! ih') as (_ & H1' & H2').
  { rewrite Hv. destruct (sm_view m0 !! ih) eqn:E2; injection Hr as -> ->; [done|]. rewrite lookup_insert_eq.
    split_and!; [done..|]. intros ih' Hne. by apply lookup_insert_ne. }
  rewrite (index_lookup _ _ _ Hm0). split_and!.
  - destruct (sm_view m0 !! ih); by injection Hr as -> ->.
  - by rewrite El, length_insert.
  - by destruct ok.
  - intros ->. destruct (sm_view m0 !! ih); by injection Hr as ->.
  - by destruct ok.
  - by destruct ok.
  - intros ih'. unfold index, shard_of, pickWorker. rewrite El, length_insert.
    change (Z.to_nat _) with (shard_of ih' st). destruct (decide (shard_of ih' st = shard_of ih st)) as [Ei|Ei].
    + rewrite Ei, Hm0, list_lookup_insert_eq by by eapply lookup_lt_Some. simpl. rewrite !sm_Load_ret. case_decide as Eh; [by subst|by apply H2'].
    + rewrite list_lookup_insert_ne by done. rewrite decide_False; [done|]. by intros ->.
Qed.

Lemma ws_sim_create st R ih r ok st' :
  get_or_create (shard_of ih st) ih st = ((r, ok), st') → ws_sim st R →
  ws_sim st' (wr_create ih R) ∧ index st' ih = Some r ∧ ok = bool_decide (is_Some (wr_torrents R !! ih)) ∧
  peers st' = peers st ∧ (ok = false → sm_view (map_at st' r) = ∅) ∧
  ∀ r' k p, sm_view (map_at st' r') !! k = Some p → sm_view (map_at st r') !! k = Some p.
Proof.
  intros E Hs. pose proof (ws_shard_lt _ _ ih Hs) as Hlt.
  destruct (get_or_create_spec _ _ _ _ _ _ E (ws_sim_ok _ _ Hs) Hlt) as (Hok & _ & Hp & Hc & Ht & Hnew).
  destruct (get_or_create_index _ _ _ _ _ E Hlt) as (Eok & El & Er & En & Eb & Ese & Hix).
  assert (∀ r', (r' < length (roots st))%nat → root_at st' r' = root_at st r') as Hroot.
  { intros r' Hr. unfold root_at. rewrite Er. destruct ok; [done|]. by rewrite lookup_app_l. }
  assert (∀ r' k p, sm_view (map_at st' r') !! k = Some p → sm_view (map_at st r') !! k = Some p) as Hback.
  { intros r' k p Hk. pose proof (map_at_lookup _ _ _ _ Hk) as Hr%lookup_lt_is_Some. rewrite Er in Hr.
    destruct ok; [unfold map_at in *; by rewrite Hroot in Hk|]. rewrite length_app in Hr. simpl in Hr.
    destruct (decide (r' = length (roots st))) as [->|]; [by rewrite <- En, Hnew, lookup_empty in Hk|].
    unfold map_at in *. rewrite Hroot in Hk by lia. done. }
  pose proof (ws_sim_root st R) as Hroots. pose proof (ws_sim_torrents _ _ Hs) as Htor.
  destruct Hs as [S1 S2 S3 S4 S5 S6 S7 S8 S9 S10].
  split_and!; [|by rewrite Hix, decide_True| |done..].
  2: { rewrite <- Htor. unfold ws_torrent. rewrite Eok. by destruct ok. }
  split; [done|by rewrite Ht|intros Hl; apply S3, nil_length_inv; by rewrite <- El, Hl|by rewrite El| | |by rewrite Eb|by rewrite Ese| |].
  - intros r' i Hi. rewrite Hix. rewrite Er in Hi. destruct ok.
    + rewrite (S5 _ _ Hi). case_decide as Eh; [|done]. rewrite <- Eok, <- Eh. by apply S5.
    + apply lookup_app_Some in Hi as [Hi|[Hge Hi]].
      * rewrite (S5 _ _ Hi). case_decide as Eh; [|done]. rewrite <- Eh, (S5 _ _ Hi) in Eok. done.
      * apply list_lookup_singleton_Some in Hi as [Hl <-]. rewrite decide_True by done. f_equal. rewrite En by done. lia.
  - intros r1 k1 r2 k2 p Hk1%Hback Hk2%Hback. by eapply S6.
  - rewrite Hc. change (wr_conns (wr_create ih R)) with (wr_conns R). rewrite <- S9. apply list_fmap_ext. intros c cn Hcn.
    apply view_conn_roots. intros r' k Hcb. unfold name_of. by rewrite Hroot by by eapply (wo_conn _ S1).
  - intros ih'. unfold ws_torrent. rewrite Hix. cbn [wr_torrents wr_create]. unfold wr_table. rewrite <- Htor. case_decide as Eh.
    + subst ih'. rewrite lookup_insert_eq. simpl. f_equal. unfold ws_torrent. rewrite Eok. destruct ok; simpl.
      * unfold table, map_at, root_at. by rewrite Hp, Er.
      * unfold table. rewrite Hnew by done. apply omap_empty.
    + rewrite lookup_insert_ne, <- S10 by done. unfold ws_torrent. destruct (index st ih') as [r'|] eqn:Hr; [|done]. simpl. f_equal.
      unfold table, map_at. rewrite Hp, Hroot; [done|]. apply (Hroots ih' r'); [by split|done].
Qed.

(** ** What is read of a torrent *)
Lemma collect_take (h : list Peer) x n (l : list (string * nat)) resp :
  range_loop (collect h x n) l resp
  = resp ++ take (Z.to_nat n - length resp)
      (List.filter (fun p => match h !! p with None => false | Some y => ws_wanted x y end) l.*2).
Proof using Type.
  revert resp. induction l as [|[k p] l IH]; intros resp; [symmetry; etrans; [apply (f_equal (app resp)), take_nil|apply app_nil_r]|]. cbn [range_loop fmap list_fmap snd List.filter].
  unfold collect at 1. destruct (h !! p) as [y|]; [|apply IH]. unfold ws_wanted at 1.
  destruct (Type_ y =? Type_ x); cbn [negb andb]; [|apply IH].
  destruct ((Type_ y =? PeerTypeWebtorrent) && bool_decide (Common.Conn y = None)); cbn [negb andb]; [apply IH|].
  destruct (Event y =? PeerEvent_Stopped); cbn [negb andb]; [apply IH|].
  destruct (Z.leb_spec n (Z.of_nat (length resp))) as [Hn|Hn].
  { assert (Z.to_nat n - length resp = 0)%nat as -> by lia. by rewrite app_nil_r. }
  destruct (decide (ID y = ID x)) as [Hid|Hid].
  - rewrite bool_decide_eq_false_2 by (intros Hne; by apply Hne). apply IH.
  - rewrite bool_decide_eq_true_2, IH by done. rewrite <- app_assoc. f_equal. rewrite length_app. cbn [length].
    destruct (Z.to_nat n - length resp)%nat as [|j] eqn:Ej; [lia|]. assert (Z.to_nat n - (length resp + 1) = j)%nat as -> by lia. done.
Qed.

Lemma read_range st r : omap (fun p => peers st !! p) (sm_Range (map_at st r)).*2 ≡ₚ peers_of (table st r).
Proof. rewrite sm_Range_perm. symmetry. apply peers_of_omap. Qed.

Lemma collect_answers st r x n :
  answers (AnyOf (Z.to_nat n) (List.filter (ws_wanted x) (peers_of (table st r))))
    (ReplyPeers (Ok (omap (fun p => peers st !! p) (Range (collect (peers st) x n) (map_at st r) [])))).
Proof.
  unfold Range. rewrite collect_take. cbn [app length]. rewrite Nat.sub_0_r, omap_take.
  - rewrite omap_filter. apply take_answers, read_range.
  - apply Forall_forall. intros p Hp%list_elem_of_In. apply filter_In in Hp as [_ Hp]. by destruct (peers st !! p).
Qed.

Lemma scrape_loop (h : list Peer) (l : list (string * nat)) f :
  range_loop (scrape_visit h) l f = add_counts f (omap (fun p => h !! p) l.*2).
Proof using Type.
  assert (∀ f : ScrapeFile, add_counts f [] = f) as Hnil.
  { intros []. unfold add_counts. rewrite !count_nil. cbn -[Z.add]. f_equal; lia. }
  revert f. induction l as [|[k p] l IH]; intros f; [by rewrite Hnil|]. cbn [range_loop fmap list_fmap snd omap list_omap].
  unfold scrape_visit at 1. destruct (h !! p) as [y|]; [|apply IH]. unfold add_counts. rewrite !count_cons. unfold is_seeder at 1, is_complete at 1 3.
  destruct (Left y =? 0); cbn [orb andb negb]; [destruct (Event y =? PeerEvent_Stopped)|destruct (Event y =? PeerEvent_Completed)];
    cbn [negb]; rewrite IH; unfold add_counts; cbn -[Z.add LocalScrape.count]; f_equal; lia.
Qed.

Lemma ws_sim_Scrape st R ih :
  redis_Enable (Cache cfg) = false ∨ cached ih = None → ws_sim st R →
  Scrape cfg cached ih st = Ok (add_counts (mkScrapeFile 0 0 0 0) (peers_of (wr_table R ih))).
Proof.
  intros Hc Hs. pose proof (ws_shard_lt _ _ ih Hs) as Hlt. unfold Scrape, has_shard. rewrite (proj2 (Nat.ltb_lt _ _) Hlt).
  apply lookup_lt_is_Some in Hlt as [m Hm]. unfold worker_Scrape. rewrite Hm. change (default sm_new (Some m)) with m.
  assert ((if redis_Enable (Cache cfg) then cached ih else None) = None) as -> by (destruct (redis_Enable _), Hc; done).
  rewrite sm_Load_ret, <- (index_lookup _ _ _ Hm). unfold wr_table. rewrite <- (ws_sim_torrents _ _ Hs). unfold ws_torrent.
  destruct (index st ih) as [r|]; [|done]. simpl. unfold Range. rewrite scrape_loop. by rewrite (add_counts_perm _ _ _ (read_range st r)).
Qed.

(** ** The goroutines of an announce *)
Lemma run_spawned n t st : tasks st = [] → ws_run_all (S n) (spawn t st) = ws_run_all n (run_task cfg t st).
Proof using Type. intros E. cbn [ws_run_all spawn tasks set_tasks]. rewrite E. cbn [app]. f_equal. f_equal. destruct st. cbn in *. by rewrite E. Qed.
Lemma ws_run_all_done n st : tasks st = [] → ws_run_all n st = st.
Proof using Type. intros E. destruct n; [done|]. cbn [ws_run_all]. by rewrite E. Qed.

Lemma ws_sim_send n st R ih p x :
  ws_sim st R → peers st !! p = Some x → ws_sim (ws_run_all (S n) (spawn (WsSend ih p) st)) (wr_event ih x R).
Proof.
  intros Hs Hx. pose proof (ws_sim_tasks _ _ Hs) as E. rewrite run_spawned by done. cbn [run_task]. rewrite Hx.
  rewrite ws_run_all_done by done. by apply ws_sim_event.
Qed.

Lemma ws_sim_file st R ih r p x :
  ws_sim st R → index st ih = Some r → peers st !! p = Some x → (∀ r' k', sm_view (map_at st r') !! k' ≠ Some p) →
  ws_sim (ws_run_all 2 (spawn (WsAnnounce r p ih) st)) (wr_file ih x R).
Proof.
  intros Hs Hr Hx Hp. pose proof (ws_sim_tasks _ _ Hs) as E. rewrite run_spawned by done. cbn [run_task]. rewrite Hx, sm_Load_ret.
  unfold wr_file, wr_table. rewrite <- (ws_sim_torrents _ _ Hs). unfold ws_torrent. rewrite Hr. simpl default. rewrite ws_table_lookup. unfold GetKey.
  destruct (sm_view (map_at st r) !! ID x) as [k|] eqn:Hk; cbn [mbind option_bind].
  - destruct (ws_sim_key _ _ _ _ _ Hs Hk) as (y & Hy & _). rewrite Hy.
    pose proof (ws_sim_alter st R ih r (ID x) k (update_peer x) Hs Hr Hk ltac:(done)) as Hs'.
    destruct (_ || _); [|by rewrite ws_run_all_done].
    change (set_peers _ (spawn (WsSend ih p) st)) with (spawn (WsSend ih p) (set_peers (alter (update_peer x) k (peers st)) st)).
    apply (ws_sim_send 0 _ (wr_update ih (alter (update_peer x) (ID x)) R) ih p x Hs').
    cbn. rewrite list_lookup_alter_ne; [done|]. intros ->. by apply (Hp r (ID x)).
  - rewrite run_spawned by done. cbn [run_task]. rewrite Hx, ws_run_all_done by done. by apply ws_sim_insert.
Qed.

(** ** One call *)
Lemma Close_localList st c : localList (Close c st) = localList st.
Proof using Type.
  unfold Close. destruct (conns st !! c) as [cn|]; [|done]. destruct (closed cn); [done|].
  destruct (CloseCallback cn) as [cb|]; [|done]. by destruct (close_callback_frame cb st) as (_ & _ & ? & _).
Qed.
Lemma index_localList st st' ih : localList st' = localList st → index st' ih = index st ih.
Proof using Type. intros E. unfold index, shard_of, pickWorker. by rewrite E. Qed.

(** The connection remembers its last announce. *)
Lemma ws_sim_remember st R ih r k c :
  ws_sim st R → index st ih = Some r →
  ws_sim (set_conns (alter (fun cn => mkConn (Some (r, k)) (closed cn) (written cn)) c (conns st)) st)
    (wr_set_conns (alter (fun rc => mkRefConn (Some (ih, k)) (rc_closed rc) (rc_written rc)) c (wr_conns R)) R).
Proof.
  intros Hs Hr. destruct (ws_sim_root _ _ _ _ Hs Hr) as [Hlt Hname]. apply ws_sim_conn; [done|..].
  - intros cn. unfold view_conn. cbn. by rewrite Hname.
  - cbn. by intros cn r' k' _ [= <- <-].
Qed.

Lemma ws_sim_announce now (req : AnnounceRequest) st R :
  ws_sim st R →
  answers (wr_announce now req R).1 (ws_run_call (WsCallAnnounce now req) st).1 ∧
  ws_sim (ws_run_call (WsCallAnnounce now req) st).2 (wr_announce now req R).2.
Proof.
  intros Hs. unfold ws_run_call, HandleAnnouncePeer, wr_announce.
  assert (check_bans req st = wr_check req R) as -> by (unfold wr_check, check_bans; cbn; by rewrite (ws_sim_ban _ _ Hs)).
  destruct (wr_check req R) as [e|]; [split; [done|]; cbn [snd]; by rewrite (ws_run_all_done _ _ (ws_sim_tasks _ _ Hs))|].
  unfold has_shard. rewrite (proj2 (Nat.ltb_lt _ _) (ws_shard_lt _ _ (req_InfoHash req) Hs)). unfold worker_HandleAnnouncePeer.
  set (x := peer_of_request now req). destruct (invalid_address x).
  { split; [done|]. cbn [snd]. by rewrite (ws_run_all_done _ _ (ws_sim_tasks _ _ Hs)). }
  pose proof (ws_sim_app _ _ x Hs) as Hs0. set (st0 := set_peers (peers st ++ [x]) st) in *.
  change (shard_of (req_InfoHash req) st) with (shard_of (req_InfoHash req) st0).
  destruct (get_or_create _ (req_InfoHash req) st0) as [[r ok] st1] eqn:E.
  destruct (ws_sim_create _ _ _ _ _ _ E Hs0) as (Hs1 & Hr & Hknown & Hp1 & Hnew & Hback).
  destruct (Common.Conn x) as [c|].
  2: { split; [done|]. cbn [snd]. by rewrite (ws_run_all_done _ _ (ws_sim_tasks _ _ Hs1)). }
  assert (peers st1 !! length (peers st) = Some x) as Hx by (rewrite Hp1; cbn; by rewrite lookup_app_r, Nat.sub_diag by lia).
  assert (∀ r' k', sm_view (map_at st1 r') !! k' ≠ Some (length (peers st))) as Hp.
  { intros r' k' Hk%Hback. destruct (ws_sim_key st R r' k' _ Hs Hk) as (y & Hy%lookup_lt_Some & _). lia. }
  pose proof (ws_sim_remember st1 _ _ r (req_PeerID req) c Hs1 Hr) as Hs2.
  set (st2 := set_conns _ st1) in *. set (R2 := wr_set_conns _ _) in *.
  pose proof (ws_sim_torrents _ _ Hs2 (req_InfoHash req)) as Ht. unfold ws_torrent in Ht. change (index st2) with (index st1) in Ht.
  rewrite Hr in Ht. cbn in Ht. rewrite lookup_insert_eq in Ht. apply (inj Some) in Ht. unfold wr_table in Ht.
  destruct (wr_torrents R !! req_InfoHash req) as [t|] eqn:Eknown; subst ok; cbn [negb].
  - rewrite bool_decide_eq_true_2 by done. cbn [negb]. destruct (Event x =? PeerEvent_Stopped); cbn [fst snd res_map].
    + split; [by split|]. rewrite ws_run_all_done by (cbn; by destruct (Close_frame c st2) as (_ & _ & ->); apply Hs2).
      apply ws_sim_delete; [by apply ws_sim_Close|]. by rewrite (index_localList st2 _ _ (Close_localList _ _)).
    + split; [|by apply ws_sim_file]. change t with (default ∅ (Some t)). rewrite <- Ht. apply (collect_answers st2 r).
  - rewrite bool_decide_eq_false_2 by (by intros [? ?]). cbn [negb fst snd res_map]. split; [by split|].
    apply ws_sim_send; [|done]. apply ws_sim_insert; [done..|].
    change (map_at st2 r) with (map_at st1 r). rewrite Hnew; [apply lookup_empty|]. by apply bool_decide_eq_false_2; intros [? ?].
Qed.

Lemma WriteJSON_frame net c v st :
  peers (WriteJSON net c v st).2 = peers st ∧ roots (WriteJSON net c v st).2 = roots st ∧
  localList (WriteJSON net c v st).2 = localList st.
Proof using Type.
  unfold WriteJSON. destruct (conns st !! c) as [cn|]; [|done]. destruct (closed cn); [done|]. by destruct (net c).
Qed.

Lemma ws_sim_answer st R net ih id body :
  ws_sim st R →
  (AnswerToPeer net ih id body st).1 = (wr_answer net ih id body R).1 ∧
  ws_sim (AnswerToPeer net ih id body st).2 (wr_answer net ih id body R).2.
Proof.
  intros Hs. pose proof (ws_shard_lt _ _ ih Hs) as Hlt. unfold AnswerToPeer, has_shard. rewrite (proj2 (Nat.ltb_lt _ _) Hlt).
  apply lookup_lt_is_Some in Hlt as [m Hm]. unfold worker_AnswerToPeer, wr_answer. rewrite Hm. change (default sm_new (Some m)) with m.
  rewrite sm_Load_ret, <- (index_lookup _ _ _ Hm), <- (ws_sim_torrents _ _ Hs). unfold ws_torrent.
  destruct (index st ih) as [r|] eqn:Hr; [|done]. cbn [fmap option_fmap option_map]. rewrite sm_Load_ret, ws_table_lookup.
  destruct (sm_view (map_at st r) !! id) as [p|] eqn:Hp; [|done]. cbn [mbind option_bind].
  destruct (ws_sim_key _ _ _ _ _ Hs Hp) as (x & -> & _). cbn [mbind option_bind].
  destruct (Common.Conn x) as [c|]; [|done]. destruct (ws_sim_write _ _ net c (AnswerMsg body) Hs) as [Ew Hs'].
  destruct (WriteJSON_frame net c (AnswerMsg body) st) as (Ep & Er & El).
  destruct (WriteJSON _ _ _ _) as [e st'], (wr_write _ _ _ _) as [e' R']. cbn [fst snd] in *. subst e'.
  destruct e as [e|]; [|done]. destruct (contains e "close"); [|done]. split; [done|]. cbn [snd].
  apply (ws_sim_alter _ _ _ r); [done|by rewrite (index_localList st)|unfold map_at, root_at; by rewrite Er|done].
Qed.

Lemma ws_sim_call c st R :
  redis_Enable (Cache cfg) = false ∨ (∀ ih, cached ih = None) → ws_sim st R →
  answers (wr_call c R).1 (ws_run_call c st).1 ∧ ws_sim (ws_run_call c st).2 (wr_call c R).2.
Proof.
  intros Hc Hs. destruct c as [|now req|ih|net ih id body|net c v|c].
  - split; [done|]. apply ws_sim_conns_set; [done|apply ws_ok_accept, Hs|]. rewrite fmap_app. by rewrite (ws_sim_conns _ _ Hs).
  - by apply ws_sim_announce.
  - unfold ws_run_call, wr_call. rewrite (ws_sim_Scrape st R ih) by naive_solver. done.
  - unfold ws_run_call, wr_call. destruct (ws_sim_answer st R net ih id body Hs) as [E Hs'].
    destruct (AnswerToPeer _ _ _ _ _), (wr_answer _ _ _ _ _). by cbn in *; subst.
  - unfold ws_run_call, wr_call. destruct (ws_sim_write st R net c v Hs) as [E Hs'].
    destruct (WriteJSON _ _ _ _), (wr_write _ _ _ _). by cbn in *; subst.
  - split; [done|]. by apply ws_sim_Close.
Qed.

Lemma ws_sim_calls cs st R :
  redis_Enable (Cache cfg) = false ∨ (∀ ih, cached ih = None) → ws_sim st R →
  Forall2 answers (wr_calls cs R).1 (ws_run_calls cs st).1 ∧ ws_sim (ws_run_calls cs st).2 (wr_calls cs R).2.
Proof.
  intros Hc. revert st R. induction cs as [|c cs IH]; intros st R Hs; cbn [wr_calls ws_run_calls]; [by split; [constructor|]|].
  destruct (ws_sim_call c st R Hc Hs) as [Ha Hs']. destruct (ws_run_call c st) as [r st']. destruct (wr_call c R) as [a R']. cbn [fst snd] in *.
  destruct (IH st' R' Hs') as [Has Hs'']. destruct (ws_run_calls cs st') as [rs st'']. destruct (wr_calls cs R') as [l R'']. cbn [fst snd] in *.
  split; [by constructor|done].
Qed.

Lemma ws_sim_new num b : 0 < num < 2 ^ 64 → ws_sim (NewWSMuxLocalManager num b) (mkWsRef b ∅ [] []).
Proof.
  intros Hn. assert (∀ ih, index (NewWSMuxLocalManager num b : State) ih = None) as Hix.
  { intros ih. unfold index. destruct (localList _ !! _) as [m|] eqn:E; [|done]. apply lookup_replicate in E as [-> _]. simpl.
    unfold newManager. by rewrite sm_Load_ret, sm_view_new. }
  split; [apply ws_ok_new|done| | |done| |done..|].
  - cbn. destruct (Z.to_nat num) eqn:E; [lia|done].
  - cbn. rewrite length_replicate. lia.
  - intros r1 k1 r2 k2 p Hk. apply map_at_lookup in Hk as [? Hk]. by destruct r1.
  - intros ih. unfold ws_torrent. rewrite Hix. cbn. by rewrite lookup_empty.
Qed.

(** C5: Equivalence with a reference. Whatever sequence of connections,
    announces, scrapes, relayed answers, writes and hang-ups a WebTorrent store
    with any number of shards is given, the goroutines of each announce run
    before the next call: it does what a tracker would that keeps one map from
    info hashes to tables of peers, one list of connections, and for each
    connection the torrent and id it announced last. Every announce is handed as
    many of the wanted peers of its torrent as it asked for or there are, or is
    refused with the same message; scrapes count the table; answers reach the
    connection of the peer or are refused alike; a hang-up takes the last
    announced peer out. In the end the torrents, what was written to every
    connection and the events sent are the reference's. The scrape cache is off
    or empty. *)
Theorem webtorrent_reference num b cs :
  redis_Enable (Cache cfg) = false ∨ (∀ ih, cached ih = None) → 0 < num < 2 ^ 64 →
  let R := mkWsRef b ∅ [] [] in
  let st := (ws_run_calls cs (NewWSMuxLocalManager num b)).2 in
  Forall2 answers (wr_calls cs R).1 (ws_run_calls cs (NewWSMuxLocalManager num b)).1 ∧
  (∀ ih, ws_torrent st ih = wr_torrents (wr_calls cs R).2 !! ih) ∧
  view_conn st <$> conns st = wr_conns (wr_calls cs R).2 ∧
  sent st = wr_sent (wr_calls cs R).2.
Proof.
  intros Hc Hn R st. destruct (ws_sim_calls cs _ _ Hc (ws_sim_new num b Hn)) as [Ha Hs].
  split_and!; [done|apply Hs..].
Qed.
End Reference.
Arguments ref_conn : clear implicits.
Arguments ws_reference : clear implicits.

(** P announces over the first connection and Q over the second; Q completes,
    P is relayed an answer and leaves. *)
Definition ws_ann (conn : nat) (id event : string) (uploaded : Z) : ws_call unit :=
  WsCallAnnounce sample_time (mkAnnounceRequest
    {| req_ClientIP := None; req_InfoHash := torrent_a; req_PeerID := id; req_Event := event; req_UserAgent := "";
       req_IP := ""; req_IPv4 := ""; req_IPv6 := ""; req_Port := 0; req_Uploaded := uploaded; req_Downloaded := 0;
       req_Left := 7; req_NumWant := 10; req_Type := PeerTypeWebtorrent; req_Compact := 0 |} SourceWS [offer_1] (Some conn)).
Definition ws_sample_calls : list (ws_call unit) :=
  [WsCallAccept; WsCallAccept; ws_ann 0 id_p "started" 7; ws_ann 1 id_q "started" 7; ws_ann 1 id_q "completed" 0;
   ws_ann 0 id_p "" 7; WsCallScrape torrent_a; WsCallAnswer (fun _ => None) torrent_a id_p tt; WsCallClose 0].
Notation ws_sample_run := (ws_run_calls (sample_cfg 400) (fun _ => None) ws_sample_calls ws_none).
Notation ws_sample_ref := (wr_calls (M := Skip) (sample_cfg 400) ws_sample_calls (mkWsRef (ban ws_none) ∅ [] [])).

Lemma webtorrent_reference_witness :
  option_map (fmap Left) (ws_torrent ws_sample_run.2 torrent_a) = Some ({[id_q := 0]} : gmap string Z) ∧
  ws_sample_ref.1 !! 6%nat = Some (Counts (mkScrapeFile 1 1 1 1)) ∧
  written <$> conns ws_sample_run.2 = [[AnswerMsg tt]; []].
Proof.
  destruct (webtorrent_reference (M := Skip) (sample_cfg 400) (fun _ => None) 1 (ban ws_none) ws_sample_calls) as (_ & Ht & Hc & _);
    [by right|lia|]. split_and!.
  - etransitivity; [exact (f_equal (option_map (fmap Left)) (Ht torrent_a))|vm_compute; reflexivity].
  - vm_compute. reflexivity.
  - change (written <$> conns ws_sample_run.2) with (rc_written <$> (view_conn ws_sample_run.2 <$> conns ws_sample_run.2)).
    etransitivity; [exact (f_equal (fmap rc_written) Hc)|vm_compute; reflexivity].
Defined.

(** A peer that comes back over a new connection keeps the record of its old
    one: offers and answers go on to the old connection, and when that closes the
    peer is out of the torrent, although its new connection is open. *)
Definition ws_reconnect : list (ws_call unit) :=
  [WsCallAccept; WsCallAccept; ws_ann 0 id_p "started" 7; ws_ann 1 id_p "started" 7;
   WsCallAnswer (fun _ => None) torrent_a id_p tt; WsCallClose 0].
Theorem reconnected_peer_lost :
  let st := (ws_run_calls (sample_cfg 400) (fun _ => None) ws_reconnect ws_none).2 in
  closed <$> conns st = [true; false] ∧ written <$> conns st = [[AnswerMsg tt]; []] ∧ ws_torrent st torrent_a = Some ∅.
Proof. vm_compute. auto. Qed.
