(* ===== verification/WsCache.v ===== *)
(** The scrape cache of the WebTorrent store ([peer/websocket/local.go]), and the
    one redis it shares with the cache of the in-memory store. *)
From Stdlib Require Import ZArith Lia Bool Strings.String.
From stdpp Require Import base strings list gmap.
From S2P Require Import Prelude GoStd Config Model Common Samples Mapx Local LocalTable BanItem IPFilter Ban Cache Websocket WsSpec.
Set Default Proof Using "Type*".
Local Open Scope Z_scope.

Section WsCache.
Context {R : Type} `{RedisLaws R} {M : Type → Type} `{SyncStringMapLaws M} `{MsgpackLaws ScrapeFile}.
Context {B F J : Type} `{BloomFilter B} `{IPFilter F} (cfg : Config).
Implicit Types (st : Websocket.State M B F J) (r : R).

(** A scrape of a shard with its cache; what is counted is put there unless the
    torrent is unknown. *)
Definition ws_scrape_key (ih : string) : string := ("scrape_ws_" ++ ih)%string.
Definition ws_Scrape_cached (now : Z) (n : nat) (ih : string) st r : ScrapeFile * R :=
  let cached := Get now (ws_scrape_key ih) r in
  let ret := worker_Scrape cfg n cached ih st in
  (ret, if negb (redis_Enable (Config.Cache cfg)) then r
        else match cached, sm_Load ih (default sm_new (localList st !! n)) with
             | None, Some _ => (Set_ now (ws_scrape_key ih) ret scrape_expiry r).2
             | _, _ => r
             end).

(** A scrape of either store: its time, its torrent, and the state it is made in. *)
Inductive either_scrape :=
| MemoryScrape (now : Z) (ih : string) (st : Local.State M)
| WsScrape (now : Z) (n : nat) (ih : string) (st : Websocket.State M B F J).
Definition es_now (a : either_scrape) : Z := match a with MemoryScrape now _ _ => now | WsScrape now _ _ _ => now end.
Definition es_hash (a : either_scrape) : string := match a with MemoryScrape _ ih _ => ih | WsScrape _ _ ih _ => ih end.
Definition es_ws (a : either_scrape) : bool := match a with MemoryScrape _ _ _ => false | WsScrape _ _ _ _ => true end.
Definition es_key (a : either_scrape) : string := if es_ws a then ws_scrape_key (es_hash a) else scrape_key (es_hash a).
(** What it counts without a cache. *)
Definition es_counts (a : either_scrape) : ScrapeFile :=
  match a with
  | MemoryScrape now ih st => counts cfg (mkScrapeAt now ih st)
  | WsScrape _ n ih st => worker_Scrape cfg n None ih st
  end.
Definition es_answer (a : either_scrape) r : ScrapeFile * R :=
  match a with
  | MemoryScrape now ih st => sa_answer cfg (mkScrapeAt now ih st) r
  | WsScrape now n ih st => ws_Scrape_cached now n ih st r
  end.

Lemma es_answers_through : redis_Enable (Config.Cache cfg) = true → answers_through es_now es_key es_counts es_answer.
Proof.
  intros He [now ih st|now n ih st] r; [apply (sa_answers_through cfg He (mkScrapeAt now ih st))|].
  unfold es_now, es_key, es_answer, es_counts, ws_Scrape_cached, worker_Scrape. cbn [es_ws es_hash]. rewrite He. cbn [negb].
  destruct (Get now (ws_scrape_key ih) r) as [f|]; [left; by exists f|]. right.
  destruct (sm_Load ih _); (split; [done|]); [by right|by left].
Qed.

(** Info hashes of the same length keep the two stores' keys apart. *)
Lemma es_key_inj a b :
  String.length (es_hash a) = String.length (es_hash b) → es_key a = es_key b → es_ws a = es_ws b ∧ es_hash a = es_hash b.
Proof.
  unfold es_key, ws_scrape_key, scrape_key. intros Hl E.
  assert (∀ x y, String.length x = String.length y → ("ws_" ++ x)%string ≠ y) as Hne
    by (intros x y Hxy E'; apply (f_equal String.length) in E'; change (S (S (S (String.length x))) = String.length y) in E'; lia).
  destruct (es_ws a), (es_ws b); [by injection E| | |by injection E].
  - injection E as E. by destruct (Hne _ _ Hl).
  - injection E as E. symmetry in Hl, E. by destruct (Hne _ _ Hl).
Qed.

(** C38: Composition of both stores with the redis they share. With the cache on,
    scrapes of the in-memory store and of the WebTorrent store, of info hashes of
    20 bytes, mixed in any order, whatever the stores do in between and whatever
    the cache loses: every scrape is answered with what a scrape of that torrent
    in that store really counted, at this moment or less than five minutes ago.
    Entries of other torrents and of the other store are never taken for it. *)
Theorem shared_cache_recent l r fs r' n f a :
  redis_Enable (Config.Cache cfg) = true → (∀ now k, Get (V := ScrapeFile) now k r = None) →
  (∀ a, a ∈ l → String.length (es_hash a) = 20%nat) →
  answers es_answer l r = (fs, r') → fs !! n = Some f → l !! n = Some a →
  ∃ b, (b = a ∨ b ∈ drop (S n) l ∧ es_now a < es_now b + 5 * Minute) ∧
    es_ws b = es_ws a ∧ es_hash b = es_hash a ∧ f = es_counts b.
Proof.
  intros He Hr0 Hl Hs Hf Ha.
  destruct (answers_recent _ _ _ _ (es_answers_through He) l r fs r' n f a) as (b & Hb & Hk & ->); [intros; apply Hr0|done..|].
  exists b. split; [exact Hb|]. destruct (es_key_inj b a) as [Hw Hh]; [|done|by split_and!].
  assert (a ∈ l) as Hin by by eapply list_elem_of_lookup_2. rewrite (Hl a Hin). apply Hl.
  destruct Hb as [->|[Hb _]]; [done|]. by apply (subseteq_drop (S n) l).
Qed.

(** Without the length the keys meet: the WebTorrent handler does not check the
    info hash of a scrape, and 17 bytes select an entry of the other store. *)
Theorem keys_meet ih : ws_scrape_key ih = scrape_key ("ws_" ++ ih).
Proof. done. Qed.
End WsCache.

(** A WebTorrent torrent with one seeder is scraped, then the other store, which
    has no such torrent, then, a second later, a WebTorrent store that has become
    empty: it still answers the seeder. *)
Definition mixed_scrapes : list (either_scrape (M := Skip) (B := list bytes) (F := fallbackIPFilter) (J := unit)) :=
  [ WsScrape (sample_time + Second) 0 torrent_a ws_none; MemoryScrape sample_time torrent_a seq_state1;
    WsScrape sample_time 0 torrent_a ws_gone ].
Lemma shared_cache_recent_witness :
  map Complete (answers (es_answer cached_cfg) mixed_scrapes (∅ : sample_redis)).1 = [1; 0; 1] ∧
  ∃ b, (b = WsScrape (sample_time + Second) 0 torrent_a ws_none ∨
        b ∈ drop 1 mixed_scrapes ∧ sample_time + Second < es_now b + 5 * Minute) ∧
    es_ws b = true ∧ Complete (es_counts cached_cfg b) = 1.
Proof.
  split; [vm_compute; reflexivity|].
  destruct (shared_cache_recent cached_cfg mixed_scrapes (∅ : sample_redis) (answers (es_answer cached_cfg) mixed_scrapes (∅ : sample_redis)).1
    (answers (es_answer cached_cfg) mixed_scrapes (∅ : sample_redis)).2 0%nat (mkScrapeFile 1 1 0 1)
    (WsScrape (sample_time + Second) 0 torrent_a ws_none)) as (b & Hb & Hw & _ & Hf).
  - reflexivity.
  - intros now k. reflexivity.
  - intros a [->|[->|[->|?%not_elem_of_nil]%elem_of_cons]%elem_of_cons]%elem_of_cons; [reflexivity..|done].
  - apply surjective_pairing.
  - vm_compute. reflexivity.
  - reflexivity.
  - exists b. split; [exact Hb|]. split; [exact Hw|]. by rewrite <- Hf.
Defined.
