(* ===== verification/Db.v ===== *)
(** Database mode ([biz/services/peer/database]): the tables, the queries of
    the repositories, the conversions and the peer manager over them.

    The object-relational mapper (gorm) and the database are a class: a query is
    its WHERE clause as a predicate on rows, and the laws say what the calls
    the code makes do to the tables.  A call may always fail. *)
From Stdlib Require Import ZArith Lia Bool Strings.String.
From stdpp Require Import base strings list gmap sorting.
From S2P Require Import Prelude GoStd Config Model Common BanItem Manager Local.
Set Default Proof Using "Type*".
Local Open Scope Z_scope.

(** ** The rows ([entity]); the generated columns [id] are left out. *)
Record Peers := mkPeers
  { r_Ip : netIP; r_Ipv4 : netIP; r_Ipv6 : netIP; r_ClientIp : netIP; r_LastSeen : Z; r_Offers : list Offer;
    r_UpdatedAt : Z; r_InfoHash : string; r_PeerID : string; r_UserAgent : string; r_Port : Z; r_Left : Z;
    r_Uploaded : Z; r_Downloaded : Z; r_Type : Z; r_Source : Z; r_Event : Z }.
Definition BlockTypeInfoHash : Z := 0.
Definition BlockTypePeerID : Z := 1.
Record BlockList := mkBlockList { b_Target : string; b_Type : Z; b_CreatedAt : Z }.

(** [hex.EncodeToString] and [hex.DecodeString]; the callers drop the error and
    use what was decoded. *)
Definition hex_of (s : string) : string := string_of_bytes (hex_encode (bytes_of_string s)).
Definition unhex (s : string) : string := string_of_bytes (hex_prefix (bytes_of_string s)).

(** ** The mapper *)
Class Gorm (T : Type) := {
  tb_peers : T → list Peers;
  tb_blocks : T → list BlockList;
  (** [Where(..).Order("RAND()").Limit(n).Find], [Where(..).Find], [Count], [Distinct("info_hash").Count] *)
  db_Pick : (Peers → bool) → Z → T → result (list Peers);
  db_Find : (Peers → bool) → T → result (list Peers);
  db_Count : (Peers → bool) → T → result Z;
  db_CountInfoHash : (Peers → bool) → T → result Z;
  (** [Clauses(OnConflict{DoUpdates: ..}).Save] *)
  db_Save : (Peers → Peers → Peers) → Peers → T → result unit * T;
  db_Delete : (Peers → bool) → T → result unit * T;
  (** [Clauses(OnConflict{DoNothing}).Create] and [Where(..).Find] on the block list *)
  db_CreateBlock : BlockList → T → result unit * T;
  db_FindBlocks : (BlockList → bool) → T → result (list BlockList);
}.

(** The unique keys of the two tables ([peers.sql], [block_list.sql]). *)
Definition same_peer (a b : Peers) : bool := bool_decide (r_PeerID a = r_PeerID b) && bool_decide (r_InfoHash a = r_InfoHash b).
Definition same_block (a b : BlockList) : bool := (b_Type a =? b_Type b) && bool_decide (b_Target a = b_Target b).
Definition upsert (update : Peers → Peers → Peers) (row : Peers) (rows : list Peers) : list Peers :=
  if existsb (same_peer row) rows
  then map (fun old => if same_peer row old then update row old else old) rows
  else rows ++ [row].

(** What the columns of [peers.sql] keep of a row: all of it but the fraction of
    a second in its times, and what does not fit in the four bytes of [ipv4]. *)
Definition keeps_columns (row kept : Peers) : Prop :=
  r_InfoHash kept = r_InfoHash row ∧ r_PeerID kept = r_PeerID row ∧
  r_Ip kept = r_Ip row ∧ r_Ipv6 kept = r_Ipv6 row ∧ r_ClientIp kept = r_ClientIp row ∧ r_Port kept = r_Port row ∧
  r_Left kept = r_Left row ∧ r_Uploaded kept = r_Uploaded row ∧ r_Downloaded kept = r_Downloaded row ∧
  r_UserAgent kept = r_UserAgent row ∧ r_Event kept = r_Event row ∧ r_Offers kept = r_Offers row ∧
  r_Type kept = r_Type row ∧ r_Source kept = r_Source row ∧
  Z.abs (r_LastSeen kept - r_LastSeen row) < Second ∧ Z.abs (r_UpdatedAt kept - r_UpdatedAt row) < Second.

Class GormLaws (T : Type) `{Gorm T} := {
  db_stored : Peers → Peers;
  db_stored_keeps row : keeps_columns row (db_stored row);
  db_Pick_ok p n t l : db_Pick p n t = Ok l → 0 ≤ n →
    (∃ rest, l ++ rest ≡ₚ List.filter p (tb_peers t)) ∧
    length l = Nat.min (Z.to_nat n) (length (List.filter p (tb_peers t)));
  db_Find_ok p t l : db_Find p t = Ok l → l ≡ₚ List.filter p (tb_peers t);
  db_Count_ok p t n : db_Count p t = Ok n → n = Z.of_nat (length (List.filter p (tb_peers t)));
  db_CountInfoHash_ok p t n :
    db_CountInfoHash p t = Ok n → n = Z.of_nat (size (list_to_set (map r_InfoHash (List.filter p (tb_peers t))) : gset string));
  db_Save_ok u row t t' : db_Save u row t = (Ok tt, t') → tb_peers t' ≡ₚ upsert u (db_stored row) (tb_peers t) ∧ tb_blocks t' = tb_blocks t;
  db_Save_err u row t e t' : db_Save u row t = (Err e, t') → t' = t;
  db_Delete_ok p t t' : db_Delete p t = (Ok tt, t') →
    tb_peers t' ≡ₚ List.filter (fun x => negb (p x)) (tb_peers t) ∧ tb_blocks t' = tb_blocks t;
  db_CreateBlock_ok b t t' : db_CreateBlock b t = (Ok tt, t') →
    tb_peers t' = tb_peers t ∧ tb_blocks t' ≡ₚ if existsb (same_block b) (tb_blocks t) then tb_blocks t else tb_blocks t ++ [b];
  db_FindBlocks_ok p t l : db_FindBlocks p t = Ok l → l ≡ₚ List.filter p (tb_blocks t);
}.

(** [ClearAll] of the Bloom filter. *)
Class BloomClear (B : Type) := { bl_ClearAll : B → B }.
Class BloomClearLaws (B : Type) `{BloomFilter B, BloomClear B} := {
  bl_Test_ClearAll x (b : B) : bl_Test x (bl_ClearAll b) = false;
}.

(** ** [adaptor.go] *)
Definition CommonToDB (now : Z) (infoHash : string) (peer : Peer) : Peers :=
  {| r_InfoHash := hex_of infoHash; r_PeerID := hex_of (ID peer); r_Ip := IP peer; r_Ipv4 := IPv4 peer;
     r_Ipv6 := IPv6 peer; r_ClientIp := ClientIP peer; r_Port := Port peer; r_Type := Type_ peer;
     r_Left := Left peer; r_Uploaded := Uploaded peer; r_Downloaded := Downloaded peer;
     r_LastSeen := LastSeen peer; r_UserAgent := UserAgent peer; r_Event := Event peer;
     r_Source := Source_ peer; r_Offers := Offers peer; r_UpdatedAt := now |}.
Definition DBToCommon (peer : Peers) : Peer :=
  {| ID := unhex (r_PeerID peer); IP := r_Ip peer; IPv4 := r_Ipv4 peer; IPv6 := r_Ipv6 peer;
     ClientIP := r_ClientIp peer; Port := r_Port peer; Type_ := r_Type peer; Left := r_Left peer;
     Source_ := r_Source peer; Uploaded := r_Uploaded peer; Downloaded := r_Downloaded peer;
     LastSeen := r_LastSeen peer; UserAgent := r_UserAgent peer; Offers := r_Offers peer;
     Event := r_Event peer; Conn := None |}.

Section Db.
Context {T B : Type} `{Gorm T} `{BloomFilter B} `{BloomClear B} (cfg : Config).

(** ** The repositories ([data]) *)
Definition validTime (now : Z) : Z := Add now (seconds (-1 * TTL (Tracker cfg))).

Definition PickPeers (now : Z) (currentPeerID infoHashRaw : string) (numWant peerType : Z) (t : T) : result (list Peers) :=
  let infoHash := hex_of infoHashRaw in
  db_Pick (fun r => bool_decide (r_InfoHash r = infoHash) && negb (bool_decide (r_PeerID r = currentPeerID)) &&
                    (validTime now <? r_LastSeen r) && negb (r_Event r =? PeerEvent_Stopped) && (r_Type r =? peerType)) numWant t.

(** The columns that a conflicting row takes over. *)
Definition assign_columns (row old : Peers) : Peers :=
  {| r_Ip := r_Ip row; r_Ipv4 := r_Ipv4 row; r_Ipv6 := r_Ipv6 row; r_ClientIp := r_ClientIp row; r_Port := r_Port row;
     r_Left := r_Left row; r_Uploaded := r_Uploaded row; r_Downloaded := r_Downloaded row;
     r_LastSeen := r_LastSeen row; r_UserAgent := r_UserAgent row; r_Event := r_Event row;
     r_Offers := r_Offers row; r_UpdatedAt := r_UpdatedAt row;
     r_InfoHash := r_InfoHash old; r_PeerID := r_PeerID old; r_Type := r_Type old; r_Source := r_Source old |}.
Definition SavePeer (peer : Peers) (t : T) : result unit * T := db_Save assign_columns peer t.

Definition GetDownloadedCount (infoHash : string) : T → result Z :=
  db_Count (fun r => bool_decide (r_InfoHash r = infoHash) && (r_Event r =? 3)).
Definition GetCompleteCount (now : Z) (infoHash : string) : T → result Z :=
  db_Count (fun r => bool_decide (r_InfoHash r = infoHash) && (validTime now <? r_LastSeen r) && (r_Left r =? 0)).
Definition GetSeederCount (now : Z) (infoHash : string) : T → result Z :=
  db_Count (fun r => bool_decide (r_InfoHash r = infoHash) && (validTime now <? r_LastSeen r) && (r_Left r =? 0) && negb (r_Event r =? 2)).
Definition GetInCompleteCount (now : Z) (infoHash : string) : T → result Z :=
  db_Count (fun r => bool_decide (r_InfoHash r = infoHash) && (validTime now <? r_LastSeen r) && (0 <? r_Left r)).
Definition GetPeersCount (now : Z) : T → result Z := db_Count (fun r => validTime now <? r_LastSeen r).
Definition GetInfoHashCount (now : Z) : T → result Z := db_CountInfoHash (fun r => validTime now <? r_LastSeen r).

Definition AddToBlockList (now : Z) (targetRaw : string) (blockType : Z) (t : T) : result unit * T :=
  db_CreateBlock {| b_Target := hex_of targetRaw; b_Type := blockType; b_CreatedAt := now |} t.
Definition GetBlockList (blockType : Z) : T → result (list BlockList) := db_FindBlocks (fun b => b_Type b =? blockType).
Definition repo_GetPeers (now : Z) (infoHashRaw : string) : T → result (list Peers) :=
  db_Find (fun r => bool_decide (r_InfoHash r = hex_of infoHashRaw) && (validTime now <? r_LastSeen r)).
Definition repo_DeleteInfoHash (infoHashRaw : string) (t : T) : result unit * T :=
  db_Delete (fun r => bool_decide (r_InfoHash r = hex_of infoHashRaw)) t.

(** ** The manager ([db_manager.go], [admin.go], [dummy.go]); a started save is a
    row of [pending]. *)
Record DBManager := mkDB { db : T; banInfoHash : B; banPeerId : B; pending : list Peers }.
Definition set_db t m := mkDB t (banInfoHash m) (banPeerId m) (pending m).

Definition test_ban (f : B) (s : string) : bool := bl_Test (bytes_of_string s) f.

(** The record of an announce; unlike the other managers' it has no [Source]. *)
Definition peer_of_request (now : Z) (req : AnnounceRequest) : Peer :=
  {| ID := req_PeerID req; IP := ParseIP (req_IP req); IPv4 := ParseIP (req_IPv4 req);
     IPv6 := ParseIP (req_IPv6 req); ClientIP := req_ClientIP req;
     Uploaded := if 0 <=? req_Uploaded req then u64 (req_Uploaded req) else 0;
     Type_ := req_Type req; Left := if 0 <=? req_Left req then u64 (req_Left req) else MaxUint64;
     Port := req_Port req; Downloaded := if 0 <=? req_Downloaded req then u64 (req_Downloaded req) else 0;
     LastSeen := now; Event := ParsePeerEvent (req_Event req); Offers := req_Offers req;
     UserAgent := req_UserAgent req; Conn := None; Source_ := 0 |}.

Definition HandleAnnouncePeer (now now' : Z) (req : AnnounceRequest) (m : DBManager) : result (list Peer) * DBManager :=
  if test_ban (banInfoHash m) (req_InfoHash req) then (Err "banned"%string, m)
  else if test_ban (banPeerId m) (req_PeerID req) then (Err "banned"%string, m)
  else
    let peer := peer_of_request now req in
    if invalid_address peer then (Err "invalid address"%string, m)
    else
      let m := if IsPeerConnectable (UseAnnounceIP (Tracker cfg)) peer
               then mkDB (db m) (banInfoHash m) (banPeerId m) (pending m ++ [CommonToDB now (req_InfoHash req) peer]) else m in
      (res_map (map DBToCommon) (PickPeers now' (hex_of (ID peer)) (req_InfoHash req) (req_NumWant req) (req_Type req) (db m)), m).

(** The goroutine: its error is only logged. *)
Definition save_next (m : DBManager) : DBManager :=
  match pending m with
  | [] => m
  | row :: rows => mkDB (SavePeer row (db m)).2 (banInfoHash m) (banPeerId m) rows
  end.

Definition Scrape (now : Z) (infoHashRaw : string) (m : DBManager) : result ScrapeFile :=
  let infoHash := hex_of infoHashRaw in
  match GetCompleteCount now infoHash (db m) with
  | Err e => Err e
  | Ok complete =>
      match GetSeederCount now infoHash (db m) with
      | Err e => Err e
      | Ok seeder =>
          match GetDownloadedCount infoHash (db m) with
          | Err e => Err e
          | Ok downloaded =>
              match GetInCompleteCount now infoHash (db m) with
              | Err e => Err e
              | Ok incomplete => Ok (mkScrapeFile seeder complete incomplete downloaded)
              end
          end
      end
  end.
Definition GetStatistic (now : Z) (m : DBManager) : result StatisticInfo :=
  match GetPeersCount now (db m) with
  | Err e => Err e
  | Ok peersCount =>
      match GetInfoHashCount now (db m) with
      | Err e => Err e
      | Ok infoHashCount =>
          Ok {| TotalPeers := u64 peersCount; TotalTorrents := u64 infoHashCount;
                Shards := [("all"%string, (u64 peersCount, u64 infoHashCount))] |}
      end
  end.

Definition BanInfoHash (now : Z) (infoHash : string) (m : DBManager) : result unit * DBManager :=
  let m := mkDB (db m) (bl_Add (bytes_of_string infoHash) (banInfoHash m)) (banPeerId m) (pending m) in
  let '(r, t) := AddToBlockList now infoHash BlockTypeInfoHash (db m) in (r, set_db t m).
Definition BanPeer (now : Z) (peerID : string) (m : DBManager) : result unit * DBManager :=
  let m := mkDB (db m) (banInfoHash m) (bl_Add (bytes_of_string peerID) (banPeerId m)) (pending m) in
  let '(r, t) := AddToBlockList now peerID BlockTypePeerID (db m) in (r, set_db t m).
(** Both clear the filter of peer ids. *)
Definition ClearBanInfoHash (m : DBManager) : DBManager := mkDB (db m) (banInfoHash m) (bl_ClearAll (banPeerId m)) (pending m).
Definition ClearBanPeer (m : DBManager) : DBManager := mkDB (db m) (banInfoHash m) (bl_ClearAll (banPeerId m)) (pending m).
Definition GetPeers (now : Z) (infoHash : string) (m : DBManager) : result (list Peer) :=
  res_map (map DBToCommon) (repo_GetPeers now infoHash (db m)).
Definition DeleteInfoHash (infoHash : string) (m : DBManager) : result unit * DBManager :=
  let '(r, t) := repo_DeleteInfoHash infoHash (db m) in (r, set_db t m).

(** The bans read back at the start; an error is logged and that list skipped. *)
Definition restore_filter (f : B) (r : result (list BlockList)) : B :=
  match r with
  | Err _ => f
  | Ok items => fold_left (fun f item => bl_Add (bytes_of_string (unhex (b_Target item))) f) items f
  end.
Definition restoreBlockList (m : DBManager) : DBManager :=
  mkDB (db m) (restore_filter (banInfoHash m) (GetBlockList BlockTypeInfoHash (db m)))
    (restore_filter (banPeerId m) (GetBlockList BlockTypePeerID (db m))) (pending m).
Definition NewDBManager (t : T) : DBManager :=
  restoreBlockList (mkDB t (bl_NewWithEstimates 10000) (bl_NewWithEstimates 10000) []).

Definition Clean (m : DBManager) : Z * DBManager := (0, m).
Definition not_supported (what : string) : string :=
  (what ++ " is not supported in database mode, use memory mode with XDP config")%string.

(** As a [PeerManager]; the clock of the admin calls is [t0]. *)
Definition db_manager (t0 : Z) : PeerManager DBManager := {|
  pm_HandleAnnouncePeer := HandleAnnouncePeer; pm_Scrape now ih m := (Scrape now ih m, m); pm_Clean _ := Clean;
  pm_GetStatistic := GetStatistic t0; pm_BanInfoHash := BanInfoHash t0; pm_BanPeer := BanPeer t0;
  pm_ClearBanInfoHash := ClearBanInfoHash; pm_ClearBanPeer := ClearBanPeer; pm_GetPeers := GetPeers t0;
  pm_DeleteInfoHash := DeleteInfoHash;
  pm_BanIP _ m := (Err (not_supported "IP banning"), m); pm_UnbanIP _ m := (Err (not_supported "IP unbanning"), m);
  pm_ClearBanIP m := (Err (not_supported "IP ban clearing"), m); pm_GetIPFilterStats _ := None;
|}.
End Db.
Arguments DBManager : clear implicits.
