(* ===== verification/DbSpec.v ===== *)
(** What database mode keeps: its answers, its table as a finite map, its bans
    over a restart; and what clearing the info hash bans does. *)
From Stdlib Require Import ZArith Lia Bool Strings.String.
From stdpp Require Import base strings list gmap relations.
From S2P Require Import Prelude GoStd Config Model Common Samples BanItem Manager Local Mapx LocalSafety IPFilter Ban Mux MuxSpec ManagerLaws Db.
Set Default Proof Using "Type*".
Local Open Scope Z_scope.

Lemma unhex_hex s : unhex (hex_of s) = s.
Proof. unfold unhex, hex_of. rewrite bytes_of_string_of_bytes, hex_prefix_encode. apply string_of_bytes_of_string. Qed.
#[export] Instance hex_of_inj : Inj (=) (=) hex_of.
Proof. intros a b E. by rewrite <- (unhex_hex a), E, unhex_hex. Qed.

(** A row gives back the peer it was made of, without its connection. *)
Definition disconnected (p : Peer) : Peer := clear_conn p.
Lemma DB_roundtrip now ih p : DBToCommon (CommonToDB now ih p) = disconnected p.
Proof. unfold DBToCommon, CommonToDB, disconnected, clear_conn. cbn -[unhex hex_of]. by rewrite unhex_hex. Qed.

Section Spec.
Context {T B : Type} `{GormLaws T} `{BloomFilterLaws B} `{!BloomClear B} `{!BloomClearLaws B} (cfg : Config).
Implicit Types (t : T) (m : DBManager T B).

(** ** The table as a map *)
Definition key (r : Peers) : string * string := (r_InfoHash r, r_PeerID r).
Definition unique_rows t : Prop := NoDup (map key (tb_peers t)).
Definition table t : gmap (string * string) Peers := list_to_map (map (fun r => (key r, r)) (tb_peers t)).

Lemma same_peer_spec a b : same_peer a b = true ↔ key a = key b.
Proof using Type. unfold same_peer, key. rewrite andb_true_iff, !bool_decide_eq_true. split; [intros [-> ->]; done|by intros [= -> ->]]. Qed.

Lemma fst_rows l : (map (fun r => (key r, r)) l).*1 = map key l.
Proof using Type. induction l as [|r l IH]; [done|]. csimpl. by rewrite IH. Qed.

Lemma table_row t k r : unique_rows t → table t !! k = Some r ↔ r ∈ tb_peers t ∧ key r = k.
Proof using Type.
  intros Hu. unfold table. rewrite <- elem_of_list_to_map; [|by rewrite fst_rows].
  rewrite list_elem_of_fmap. split; [by intros (r' & [= -> <-] & ?)|]. intros [Hr <-]. by exists r.
Qed.

Lemma key_assign row old : key (assign_columns row old) = key old.
Proof using Type. done. Qed.

Lemma upsert_keys row l :
  map key (upsert assign_columns row l) = if existsb (same_peer row) l then map key l else map key l ++ [key row].
Proof using Type.
  unfold upsert. destruct (existsb (same_peer row) l); [|by rewrite map_app].
  rewrite map_map. apply map_ext. intros old. by destruct (same_peer row old).
Qed.

Lemma stored_key row : key (db_stored row) = key row.
Proof using Type*. destruct (db_stored_keeps row) as (E1 & E2 & _). unfold key. by rewrite E1, E2. Qed.

(** An upsert on a table with unique keys is an insertion in the map. *)
Lemma upsert_table row t t' :
  unique_rows t → tb_peers t' ≡ₚ upsert assign_columns row (tb_peers t) →
  unique_rows t' ∧
  table t' = <[key row := match table t !! key row with Some old => assign_columns row old | None => row end]> (table t).
Proof using Type.
  intros Hu Hp.
  assert (existsb (same_peer row) (tb_peers t) = bool_decide (key row ∈ map key (tb_peers t))) as Hex.
  { apply eq_bool_prop_intro. rewrite !Is_true_true, bool_decide_eq_true, existsb_exists, list_elem_of_fmap. split.
    - intros (old & Hin & E%same_peer_spec). exists old. split; [done|by apply list_elem_of_In].
    - intros (old & E & Hin). exists old. split; [by apply list_elem_of_In|by apply same_peer_spec]. }
  assert (unique_rows t') as Hu'.
  { unfold unique_rows. rewrite Hp, upsert_keys, Hex. case_bool_decide as Hk; [done|].
    apply NoDup_app. split_and!; [done| |apply NoDup_singleton]. intros k Hin ->%list_elem_of_singleton. done. }
  split; [done|]. apply map_eq. intros k. apply option_eq. intros r. rewrite table_row, Hp, lookup_insert_Some by done.
  unfold upsert. rewrite Hex. case_bool_decide as Hk.
  - apply list_elem_of_fmap in Hk as (old & Eo & Hin). assert (table t !! key row = Some old) as -> by (by apply table_row).
    rewrite list_elem_of_fmap. rewrite table_row by done. split.
    + intros [(o & -> & Ho) <-]. destruct (same_peer row o) eqn:E.
      * apply same_peer_spec in E. left. split; [done|]. f_equal.
        assert (table t !! key row = Some o) as Ht by by apply table_row.
        assert (table t !! key row = Some old) as Ht' by by apply table_row. congruence.
      * right. split; [|done]. intros E'%same_peer_spec. congruence.
    + intros [[<- <-]|[Hne [Hr <-]]].
      * split; [|done]. exists old. split; [|done]. by rewrite (proj2 (same_peer_spec row old)).
      * split; [|done]. exists r. split; [|done]. destruct (same_peer row r) eqn:E; [|done]. apply same_peer_spec in E. done.
  - assert (table t !! key row = None) as ->.
    { apply eq_None_not_Some. intros [old [Hin E]%table_row]; [|done]. apply Hk. rewrite <- E. by apply list_elem_of_fmap_2. }
    rewrite elem_of_app, list_elem_of_singleton, table_row by done. split.
    + intros [[Hr| ->] <-]; [|by left]. right. split; [|done]. intros E. apply Hk. rewrite E. by apply list_elem_of_fmap_2.
    + intros [[<- <-]|[Hne [Hr <-]]]; [split; [by right|done]|split; [by left|done]].
Qed.

(** C33: When a peer's row is saved without error, the table, as a map from info
    hash and peer id, changes at that key only; keys stay unique; and the row a
    later query reads there gives back the peer: every field is this announce's
    (the times up to a second, the IPv4 address cut to its column), except
    that the type and the source of a row that was there already stay. *)
Theorem save_refines now ih p t t' :
  unique_rows t → SavePeer (CommonToDB now ih p) t = (Ok tt, t') →
  let k := (hex_of ih, hex_of (ID p)) in
  unique_rows t' ∧
  (∀ k', k' ≠ k → table t' !! k' = table t !! k') ∧
  ∃ r, table t' !! k = Some r ∧ Z.abs (r_UpdatedAt r - now) < Second ∧
    let x := DBToCommon r in
    ID x = ID p ∧ IP x = IP p ∧ IPv6 x = IPv6 p ∧ ClientIP x = ClientIP p ∧ Port x = Port p ∧
    Left x = Left p ∧ Uploaded x = Uploaded p ∧ Downloaded x = Downloaded p ∧
    UserAgent x = UserAgent p ∧ Event x = Event p ∧ Offers x = Offers p ∧
    Z.abs (LastSeen x - LastSeen p) < Second ∧ IPv4 x = r_Ipv4 (db_stored (CommonToDB now ih p)) ∧
    match table t !! k with
    | Some old => Type_ x = r_Type old ∧ Source_ x = r_Source old
    | None => Type_ x = Type_ p ∧ Source_ x = Source_ p
    end.
Proof using Type*.
  intros Hu [Hp _]%db_Save_ok k. set (row := CommonToDB now ih p) in *.
  destruct (upsert_table _ t t' Hu Hp) as [Hu' Ht]. rewrite (stored_key row) in Ht. change (key row) with k in Ht.
  destruct (db_stored_keeps row) as (E1 & E2 & E3 & E4 & E5 & E6 & E7 & E8 & E9 & E10 & E11 & E12 & E13 & E14 & E15 & E16).
  split; [done|]. rewrite Ht. split; [intros k' Hk; by apply lookup_insert_ne|]. eexists. split; [apply lookup_insert_eq|].
  destruct (table t !! k) as [old|] eqn:Eo.
  - apply table_row in Eo as [_ Eo]; [|done]. unfold key in Eo. injection Eo as Eo1 Eo2.
    split; [exact E16|]. cbv zeta. split_and!; try assumption; try done.
    transitivity (unhex (r_PeerID old)); [done|]. rewrite Eo2. apply unhex_hex.
  - split; [exact E16|]. cbv zeta. split_and!; try assumption; try done.
    transitivity (unhex (r_PeerID (db_stored row))); [done|]. rewrite E2. exact (unhex_hex (ID p)).
Qed.

(** ** Answers *)

(** Rows written by the program carry encoded hashes and ids. *)
Definition encoded_row (r : Peers) : Prop := ∃ ih id, r_InfoHash r = hex_of ih ∧ r_PeerID r = hex_of id.
Definition db_ok m : Prop := Forall encoded_row (tb_peers (db m)) ∧ Forall encoded_row (pending m).

Lemma CommonToDB_encoded now ih p : encoded_row (CommonToDB now ih p).
Proof using Type. by exists ih, (ID p). Qed.

Lemma announce_db_ok now now' (req : AnnounceRequest) m : db_ok m → db_ok (HandleAnnouncePeer cfg now now' req m).2.
Proof using Type.
  intros [Hd Hp]. unfold HandleAnnouncePeer. destruct (test_ban _ _); [done|]. destruct (test_ban _ _); [done|].
  destruct (invalid_address _); [done|]. cbn [snd]. destruct (IsPeerConnectable _ _); [|done]. split; [done|].
  apply Forall_app. split; [done|]. apply Forall_singleton, CommonToDB_encoded.
Qed.

Lemma save_db_ok m : db_ok m → db_ok (save_next m).
Proof using Type*.
  intros [Hd Hp]. unfold save_next. destruct (pending m) as [|row rows] eqn:E; [by rewrite <- E in Hp|].
  apply Forall_cons_iff in Hp as [Hrow Hrows]. split; [|done]. cbn [db].
  destruct (SavePeer row (db m)) as [[[]|e] t'] eqn:Es; cbn [snd].
  - apply db_Save_ok in Es as [Hp _]. rewrite Hp. unfold upsert. destruct (existsb _ _).
    + apply Forall_map. eapply Forall_impl; [exact Hd|]. intros old (ih & id & Hi & Hid). cbn.
      destruct (same_peer _ old); by exists ih, id.
    + apply Forall_app. split; [done|]. apply Forall_singleton. destruct Hrow as (ih & id & Hi & Hid).
      destruct (db_stored_keeps row) as (E1 & E2 & _). exists ih, id. by rewrite E1, E2.
  - apply db_Save_err in Es as ->. done.
Qed.

(** A row another peer may be told about. *)
Definition eligible (now : Z) (req : AnnounceRequest) (r : Peers) : bool :=
  bool_decide (r_InfoHash r = hex_of (req_InfoHash req)) && negb (bool_decide (r_PeerID r = hex_of (req_PeerID req))) &&
  (validTime cfg now <? r_LastSeen r) && negb (r_Event r =? PeerEvent_Stopped) && (r_Type r =? req_Type req).

Lemma announce_rows now now' (req : AnnounceRequest) m ps :
  (HandleAnnouncePeer cfg now now' req m).1 = Ok ps →
  ∃ rows, PickPeers cfg now' (hex_of (req_PeerID req)) (req_InfoHash req) (req_NumWant req) (req_Type req) (db m) = Ok rows ∧
    ps = map DBToCommon rows.
Proof using Type.
  unfold HandleAnnouncePeer. destruct (test_ban _ _); [done|]. destruct (test_ban _ _); [done|].
  destruct (invalid_address _); [done|]. cbn [fst].
  match goal with |- res_map _ ?r = _ → _ => assert (r = PickPeers cfg now' (hex_of (req_PeerID req)) (req_InfoHash req) (req_NumWant req) (req_Type req) (db m)) as -> end.
  { by destruct (IsPeerConnectable _ _). }
  destruct (PickPeers _ _ _ _ _ _ _) as [rows|e]; [|done]. intros [= <-]. by exists rows.
Qed.

(** An announce that is answered leaves the table and queues the caller's row. *)
Lemma announce_queues now now' (req : AnnounceRequest) m :
  (∃ ps, (HandleAnnouncePeer cfg now now' req m).1 = Ok ps) →
  db (HandleAnnouncePeer cfg now now' req m).2 = db m ∧
  pending (HandleAnnouncePeer cfg now now' req m).2
  = pending m ++ (if IsPeerConnectable (UseAnnounceIP (Tracker cfg)) (peer_of_request now req)
                  then [CommonToDB now (req_InfoHash req) (peer_of_request now req)] else []).
Proof using Type.
  intros [ps Hps]. revert Hps. unfold HandleAnnouncePeer. destruct (test_ban _ _); [done|]. destruct (test_ban _ _); [done|].
  destruct (invalid_address _); [done|]. intros _. cbn [snd].
  destruct (IsPeerConnectable _ _); [done|]. by rewrite app_nil_r.
Qed.

(** What an announce is answered with. *)
Lemma db_answer now now' (req : AnnounceRequest) m ps :
  db_ok m → 0 ≤ req_NumWant req →
  (HandleAnnouncePeer cfg now now' req m).1 = Ok ps →
  let candidates := List.filter (eligible now' req) (tb_peers (db m)) in
  (∃ rows rest, ps = map DBToCommon rows ∧ rows ++ rest ≡ₚ candidates) ∧
  length ps = Nat.min (Z.to_nat (req_NumWant req)) (length candidates) ∧
  Forall (fun x => offered req x ∧ validTime cfg now' < LastSeen x) ps ∧
  db (HandleAnnouncePeer cfg now now' req m).2 = db m ∧
  pending (HandleAnnouncePeer cfg now now' req m).2
  = pending m ++ (if IsPeerConnectable (UseAnnounceIP (Tracker cfg)) (peer_of_request now req)
                  then [CommonToDB now (req_InfoHash req) (peer_of_request now req)] else []).
Proof using Type*.
  intros Hok Hn Hans candidates. pose proof Hans as (rows & Hp & ->)%announce_rows.
  destruct (db_Pick_ok _ _ _ _ Hp Hn) as ((rest & Hperm) & Hl). split_and!.
  - by exists rows, rest.
  - by rewrite length_map.
  - apply Forall_map, Forall_forall. intros r Hr.
    assert (r ∈ candidates) as Hc by (unfold candidates; rewrite <- Hperm; apply elem_of_app; by left).
    apply list_elem_of_In, filter_In in Hc as [Hin He]. apply list_elem_of_In in Hin. unfold eligible in He.
    rewrite !andb_true_iff, !negb_true_iff, bool_decide_eq_true, bool_decide_eq_false, Z.ltb_lt, Z.eqb_neq, Z.eqb_eq in He.
    destruct He as ((((_ & Hid) & Hlive) & Hev) & Hty).
    destruct Hok as [Hd _]. rewrite Forall_forall in Hd. destruct (Hd r Hin) as (ih & id & _ & Hr').
    split; [split_and!|]; cbn -[unhex hex_of]; try done. rewrite Hr', unhex_hex. intros ->. by apply Hid.
  - by destruct (announce_queues now now' req m (ex_intro _ _ Hans)).
  - by destruct (announce_queues now now' req m (ex_intro _ _ Hans)).
Qed.

(** C34: In database mode an announce that asks for no negative number of peers is answered with as many peers as were
    asked for, or as many as there are: rows of the torrent, each used once, seen
    within the time to live, not stopped, of the caller's type and of another
    peer id; the table is as it was, and the caller's own row, if it has an
    address to be reached at, joins those waiting to be saved. *)
Theorem db_announce now now' (req : AnnounceRequest) m ps :
  db_ok m → 0 ≤ req_NumWant req →
  (HandleAnnouncePeer cfg now now' req m).1 = Ok ps →
  let candidates := List.filter (eligible now' req) (tb_peers (db m)) in
  (∃ rows rest, ps = map DBToCommon rows ∧ rows ++ rest ≡ₚ candidates) ∧
  length ps = Nat.min (Z.to_nat (req_NumWant req)) (length candidates) ∧
  Forall (fun x => offered req x ∧ validTime cfg now' < LastSeen x) ps ∧
  db (HandleAnnouncePeer cfg now now' req m).2 = db m ∧
  pending (HandleAnnouncePeer cfg now now' req m).2
  = pending m ++ (if IsPeerConnectable (UseAnnounceIP (Tracker cfg)) (peer_of_request now req)
                  then [CommonToDB now (req_InfoHash req) (peer_of_request now req)] else []).
Proof using Type*. apply db_answer. Qed.

(** ** Counts *)

(** A scrape in database mode that meets no error counts the live rows of the
    torrent: complete those with nothing left, incomplete the others, together
    all of them; seeders are the complete ones that have not stopped. *)
Theorem db_scrape now ih m f :
  Scrape cfg now ih m = Ok f → Forall (fun r => 0 ≤ r_Left r) (tb_peers (db m)) →
  let live := List.filter (fun r => bool_decide (r_InfoHash r = hex_of ih) && (validTime cfg now <? r_LastSeen r)) (tb_peers (db m)) in
  Complete f = Z.of_nat (length (List.filter (fun r => r_Left r =? 0) live)) ∧
  Complete f + Incomplete f = Z.of_nat (length live) ∧
  Seeder f = Z.of_nat (length (List.filter (fun r => (r_Left r =? 0) && negb (r_Event r =? PeerEvent_Stopped)) live)) ∧
  0 ≤ Seeder f ≤ Complete f.
Proof using Type*.
  unfold Scrape, GetCompleteCount, GetSeederCount, GetDownloadedCount, GetInCompleteCount.
  destruct (db_Count _ _) as [c|] eqn:Ec; [|done]. destruct (db_Count (fun r => _ && negb _) _) as [sd|] eqn:Es; [|done].
  destruct (db_Count (fun r => _ && (r_Event r =? 3)) _) as [d|]; [|done].
  destruct (db_Count (fun r => _ && (0 <? _)) _) as [i|] eqn:Ei; [|done]. intros [= <-] Hl.
  apply db_Count_ok in Ec as ->, Es as ->, Ei as ->. cbn [Complete Incomplete Seeder]. revert Hl.
  generalize (tb_peers (db m)) as l. induction l as [|r l IH]; [done|]. intros [Hr Hl]%Forall_cons_iff.
  specialize (IH Hl). cbn [List.filter]. cbv zeta in IH |- *. unfold PeerEvent_Stopped in IH |- *.
  destruct (bool_decide (r_InfoHash r = hex_of ih)), (validTime cfg now <? r_LastSeen r); cbn [andb]; try exact IH.
  cbn [List.filter]. destruct (Z.eqb_spec (r_Left r) 0) as [E|E]; cbn [andb].
  - rewrite E. change (0 <? 0) with false. cbn [andb List.filter length].
    destruct (negb (r_Event r =? 2)); cbn [length]; lia.
  - rewrite (proj2 (Z.ltb_lt 0 (r_Left r))) by lia. cbn [length]. lia.
Qed.

(** ** Bans *)
Lemma restored_test (x : bytes) (items : list BlockList) (f : B) :
  bl_Test x f = true ∨ (∃ b, b ∈ items ∧ bytes_of_string (unhex (b_Target b)) = x) →
  bl_Test x (restore_filter f (Ok items)) = true.
Proof using Type*.
  unfold restore_filter. revert f. induction items as [|b items IH]; intros f Hx; cbn [fold_left].
  - destruct Hx as [?|(b & Hb & _)]; [done|by apply not_elem_of_nil in Hb].
  - apply IH. destruct Hx as [Hx|(b' & [->|Hb]%elem_of_cons & <-)].
    + left. by apply bl_Test_mono.
    + left. apply bl_Test_Add.
    + right. by exists b'.
Qed.

(** In database mode a ban that was stored holds at once, and again in a
    program started later on the same database, if that can read its block list. *)
Theorem db_ban_restored now ih m m' items :
  BanInfoHash now ih m = (Ok tt, m') →
  test_ban (banInfoHash m') ih = true ∧
  (GetBlockList BlockTypeInfoHash (db m') = Ok items → test_ban (banInfoHash (NewDBManager (db m'))) ih = true).
Proof using Type*.
  unfold BanInfoHash, AddToBlockList. cbn [db].
  destruct (db_CreateBlock _ (db m)) as [[[]|e] t'] eqn:E; [|done]. intros [= <-]. split.
  { unfold test_ban. cbn. apply bl_Test_Add. }
  cbn [db set_db]. intros Hitems. unfold test_ban, NewDBManager, restoreBlockList. cbn [banInfoHash db]. rewrite Hitems.
  apply restored_test. right.
  apply db_CreateBlock_ok in E as [_ Hb]. apply db_FindBlocks_ok in Hitems.
  set (b := mkBlockList (hex_of ih) BlockTypeInfoHash now) in *.
  assert (∃ b', b' ∈ tb_blocks t' ∧ b_Type b' = BlockTypeInfoHash ∧ b_Target b' = hex_of ih) as (b' & Hin & Hty & Htg).
  { destruct (existsb (same_block b) (tb_blocks (db m))) eqn:Hex.
    - apply existsb_exists in Hex as (b' & Hin & Hs). unfold same_block in Hs.
      rewrite andb_true_iff, Z.eqb_eq, bool_decide_eq_true in Hs. destruct Hs as [Hty Htg].
      exists b'. rewrite Hb. split_and!; [by apply list_elem_of_In|done|done].
    - exists b. rewrite Hb. split; [apply elem_of_app; right; by left|done]. }
  exists b'. split; [|by rewrite Htg, unhex_hex]. rewrite Hitems. apply list_elem_of_In, filter_In.
  split; [by apply list_elem_of_In|by rewrite Hty].
Qed.

(** Clearing the info hash bans in database mode leaves every banned info
    hash banned, and lifts every ban of a peer id instead; neither leaves the
    block list, so both are back after a restart. *)
Theorem db_clear_wrong m :
  (∀ ih, test_ban (banInfoHash (ClearBanInfoHash m)) ih = test_ban (banInfoHash m) ih) ∧
  (∀ id, test_ban (banPeerId (ClearBanInfoHash m)) id = false) ∧
  tb_blocks (db (ClearBanInfoHash m)) = tb_blocks (db m).
Proof using Type*. split_and!; [done| |done]. intros id. unfold test_ban. apply bl_Test_ClearAll. Qed.

(** ** The promises of a manager *)
#[export] Program Instance db_laws (t0 : Z) : PeerManagerLaws (DBManager T B) (H := db_manager cfg t0) := {|
  pm_ok := db_ok; pm_serves _ := True |}.
Next Obligation. intros t0 now now' req m. apply announce_db_ok. Qed.
Next Obligation. done. Qed.
Next Obligation.
  intros t0 now now' req m ps _ Hn Hok Hps. destruct (db_answer now now' req m ps Hok Hn Hps) as (_ & Hl & Hps' & _ & _).
  split; [lia|]. eapply Forall_impl; [exact Hps'|]. by intros x [? _].
Qed.
End Spec.

(** The column [ipv4] holds four bytes; what is stored in it has sixteen. *)
Lemma ipv4_column now (req : AnnounceRequest) ih ip :
  r_Ipv4 (CommonToDB now ih (peer_of_request now req)) = Some ip → length ip = 16%nat.
Proof. cbn. apply ParseIP_length. Qed.

(** ** A database in memory *)
Definition MemDB : Type := list Peers * list BlockList.
(** Times without their fraction, an address of at most four bytes. *)
Definition mysql_row (r : Peers) : Peers :=
  {| r_InfoHash := r_InfoHash r; r_PeerID := r_PeerID r; r_Ip := r_Ip r; r_Ipv4 := take 4 <$> r_Ipv4 r;
     r_Ipv6 := r_Ipv6 r; r_ClientIp := r_ClientIp r; r_Port := r_Port r; r_Type := r_Type r;
     r_Left := r_Left r; r_Uploaded := r_Uploaded r; r_Downloaded := r_Downloaded r;
     r_LastSeen := r_LastSeen r / Second * Second; r_UserAgent := r_UserAgent r; r_Event := r_Event r;
     r_Source := r_Source r; r_Offers := r_Offers r; r_UpdatedAt := r_UpdatedAt r / Second * Second |}.
Lemma mysql_row_keeps r : keeps_columns r (mysql_row r).
Proof.
  assert (∀ t, Z.abs (t / Second * Second - t) < Second) as Hs.
  { intros t. unfold Second. pose proof (Z.mod_pos_bound t 1000000000 eq_refl). rewrite (Z.div_mod t 1000000000) at 2 by done. lia. }
  split_and!; try done; apply Hs.
Qed.
#[export] Instance mem_gorm : Gorm MemDB := {|
  tb_peers := fst; tb_blocks := snd;
  db_Pick p n t := Ok (take (Z.to_nat n) (List.filter p t.1));
  db_Find p t := Ok (List.filter p t.1);
  db_Count p t := Ok (Z.of_nat (length (List.filter p t.1)));
  db_CountInfoHash p t := Ok (Z.of_nat (size (list_to_set (map r_InfoHash (List.filter p t.1)) : gset string)));
  db_Save u row t := (Ok tt, (upsert u (mysql_row row) t.1, t.2));
  db_Delete p t := (Ok tt, (List.filter (fun x => negb (p x)) t.1, t.2));
  db_CreateBlock b t := (Ok tt, (t.1, if existsb (same_block b) t.2 then t.2 else t.2 ++ [b]));
  db_FindBlocks p t := Ok (List.filter p t.2);
|}.
#[export] Instance mem_gorm_laws : GormLaws MemDB.
Proof.
  refine {| db_stored := mysql_row |}; cbn.
  - apply mysql_row_keeps.
  - intros p n t l [= <-] Hn. split; [|apply length_take]. exists (drop (Z.to_nat n) (List.filter p t.1)). by rewrite take_drop.
  - by intros p t l [= <-].
  - by intros p t n [= <-].
  - by intros p t n [= <-].
  - by intros u row t t' [= <-].
  - done.
  - by intros p t t' [= <-].
  - by intros b t t' [= <-].
  - by intros p t l [= <-].
Defined.
#[export] Instance list_clear : BloomClear (list bytes) := {| bl_ClearAll _ := [] |}.
#[export] Instance list_clear_laws : BloomClearLaws (list bytes).
Proof. by constructor. Qed.

Definition db_announce_of (id : string) (left : Z) (m : DBManager MemDB (list bytes)) :=
  HandleAnnouncePeer (sample_cfg 400) sample_time sample_time (sample_request id hash_a "started" Byte.x01 left 50) m.
(** P and then Q announce torrent A; P's row is saved, then Q's. *)
Definition db_empty : DBManager MemDB (list bytes) := NewDBManager ([], []).
Definition db_with_p : DBManager MemDB (list bytes) := save_next (db_announce_of "P" 7 db_empty).2.
Definition db_with_q : DBManager MemDB (list bytes) := save_next (db_announce_of "Q" 0 db_with_p).2.
Lemma db_with_p_ok : db_ok db_with_p.
Proof. apply save_db_ok, announce_db_ok. split; constructor. Qed.

Lemma db_announce_witness :
  ∃ ps, (db_announce_of "Q" 0 db_with_p).1 = Ok ps ∧ length ps = 1%nat ∧
    Forall (fun x => ID x ≠ "Q"%string ∧ Event x ≠ PeerEvent_Stopped) ps.
Proof.
  assert ((db_announce_of "Q" 0 db_with_p).1 = Ok [sample_peer "P" Byte.x01 PeerEvent_Started 7 sample_time]) as E
    by (vm_compute; reflexivity).
  destruct (db_announce (sample_cfg 400) sample_time sample_time (sample_request "Q" hash_a "started" Byte.x01 0 50) db_with_p _
    db_with_p_ok ltac:(vm_compute; discriminate) E) as (_ & Hl & Hp & _).
  eexists. split; [exact E|]. split; [exact Hl|]. eapply Forall_impl; [exact Hp|]. intros x [(? & _ & ?) _]. split; assumption.
Defined.

Definition peer_q : Peer := peer_of_request sample_time (sample_request "Q" hash_a "completed" Byte.x01 0 50).
(** Q's second announce replaces the row of its first. *)
Lemma save_refines_witness :
  ∃ t, SavePeer (CommonToDB sample_time hash_a peer_q) (db db_with_q) = (Ok tt, t) ∧ unique_rows t ∧
    ∃ r, table t !! (hex_of hash_a, hex_of "Q") = Some r ∧ r_Event r = PeerEvent_Completed.
Proof.
  assert (unique_rows (db db_with_q)) as Hu by (refine (bool_decide_eq_true_1 (NoDup _) _); vm_compute; reflexivity).
  eexists. split; [reflexivity|].
  destruct (save_refines sample_time hash_a peer_q (db db_with_q) _ Hu eq_refl)
    as (Hu' & _ & r & Hr & _ & _ & _ & _ & _ & _ & _ & _ & _ & _ & He & _).
  split; [exact Hu'|]. exists r. split; [exact Hr|]. exact He.
Defined.

Lemma db_scrape_witness :
  ∃ f, Scrape (sample_cfg 400) sample_time hash_a db_with_q = Ok f ∧ Complete f = 1 ∧ Complete f + Incomplete f = 2.
Proof.
  assert (Scrape (sample_cfg 400) sample_time hash_a db_with_q = Ok (mkScrapeFile 1 1 1 0)) as E by (vm_compute; reflexivity).
  destruct (db_scrape (sample_cfg 400) sample_time hash_a db_with_q _ E) as (H1 & H2 & _).
  - assert (map r_Left (tb_peers (db db_with_q)) = [7; 0]) as Hl by (vm_compute; reflexivity).
    apply (Forall_map r_Left). rewrite Hl. repeat constructor; vm_compute; discriminate.
  - eexists. split; [exact E|]. split; [rewrite H1|rewrite H2]; vm_compute; reflexivity.
Defined.

Lemma db_ban_restored_witness :
  test_ban (banInfoHash (NewDBManager (B := list bytes) (db (BanInfoHash sample_time hash_a db_with_q).2))) hash_a = true.
Proof.
  destruct (db_ban_restored sample_time hash_a db_with_q (BanInfoHash sample_time hash_a db_with_q).2
    [mkBlockList (hex_of hash_a) BlockTypeInfoHash sample_time]) as [_ Hr].
  - vm_compute. reflexivity.
  - apply Hr. vm_compute. reflexivity.
Defined.
