(* ===== verification/Clients.v ===== *)
(** The client a peer id names ([utils/bittorrent/peer_id.go]), the label of
    the announce metrics.

    The patterns are data; the regular-expression engine is a class, whose law
    is its documented rule: of the ways to match, the first in the order that
    prefers longer repetitions. *)
From Stdlib Require Import ZArith Lia Bool Strings.String.
From stdpp Require Import base strings list.
From S2P Require Import Prelude GoStd.
Set Default Proof Using "Type*".
Local Open Scope Z_scope.

(** An anchored pattern: character classes, each with the least and the greatest
    number of repetitions. *)
Record atom := mkAtom { a_class : bytes → bool; a_min : nat; a_max : option nat }.
Definition pattern := list atom.

Definition one_byte (f : Z → bool) (c : bytes) : bool := match c with [b] => f (Z_of_byte b) | _ => false end.
Definition is_char (s : string) : atom := mkAtom (fun c => bool_decide (c = bytes_of_string s)) 1 (Some 1%nat).
Definition digit : bytes → bool := one_byte (fun z => (48 <=? z) && (z <=? 57)).
Definition letter : bytes → bool := one_byte (fun z => ((65 <=? z) && (z <=? 90)) || ((97 <=? z) && (z <=? 122))).
Definition not_dash (c : bytes) : bool := negb (bool_decide (c = bytes_of_string "-")).

Definition commonClients : pattern := [is_char "-"; mkAtom not_dash 6 (Some 6%nat); is_char "-"].
Definition btSpritClients : pattern := [is_char "-"; mkAtom letter 1 None; mkAtom digit 1 (Some 4%nat)].
Definition aria2Clients : pattern :=
  [is_char "A"; is_char "2"; is_char "-"; mkAtom digit 1 None; is_char "-"; mkAtom digit 1 None; is_char "-";
   mkAtom digit 1 None; is_char "-"].
Definition mgClients : pattern :=
  [is_char "M"; is_char "G"; is_char "-"; mkAtom digit 1 None; is_char "."; mkAtom digit 1 None; is_char ".";
   mkAtom digit 1 (Some 4%nat)].
Definition middleDash : pattern := [mkAtom letter 1 None; mkAtom digit 1 None; is_char "-"].

Section Matching.
(** The length of the first character of a text, if there is one. *)
Context (char_len : bytes → option nat).

(** The lengths of the first [n] = 0, 1, .. characters of the class, at most [fuel] of them. *)
Fixpoint repeats (fuel : nat) (a : atom) (s : bytes) : list nat :=
  0%nat :: match fuel with
  | O => []
  | S fuel =>
      match char_len s with
      | Some n => if a_class a (take n s) then map (Nat.add n) (repeats fuel a (drop n s)) else []
      | None => []
      end
  end.
(** The lengths of the matches at the start of [s], in the order of preference. *)
Fixpoint matches (p : pattern) (s : bytes) : list nat :=
  match p with
  | [] => [0%nat]
  | a :: p =>
      let ns := drop (a_min a) (repeats (default (length s) (a_max a)) a s) in
      flat_map (fun n => map (Nat.add n) (matches p (drop n s))) (rev ns)
  end.
End Matching.

Class Regexp := {
  rx_char : bytes → option nat;
  rx_FindString : pattern → bytes → option bytes;
}.
Class RegexpLaws `{!Regexp} := {
  rx_ascii b s : Z_of_byte b < 128 → rx_char (b :: s) = Some 1%nat;
  rx_first p s : rx_FindString p s = (fun n => take n s) <$> head (matches rx_char p s);
}.

(** [strings.TrimFunc] with the characters beyond ASCII: their bytes, and no
    others, are above 127. *)
Fixpoint trim_left (s : bytes) : bytes :=
  match s with [] => [] | b :: s' => if 127 <? Z_of_byte b then trim_left s' else s end.
Definition TrimNonASCII (s : bytes) : bytes := rev (trim_left (rev (trim_left s))).
Definition HasPrefix (s prefix : bytes) : bool := bool_decide (take (length prefix) s = prefix).
(** [m[:len(m)-1]] *)
Definition cut_last (m : bytes) : bytes := take (length m - 1) m.

Section Parse.
Context `{Regexp}.

Definition ParsePeerID (peerIdRaw : string) : string :=
  let peerId := TrimNonASCII (bytes_of_string peerIdRaw) in
  let has s := HasPrefix peerId (bytes_of_string s) in
  if has "-XL0019"%string then "-XL0019"
  else if has "-FD51"%string then "-FD51"
  else
    match rx_FindString commonClients peerId with
    | Some common => string_of_bytes (cut_last common)
    | None =>
        match rx_FindString btSpritClients peerId with
        | Some btSprit => string_of_bytes btSprit
        | None =>
            match rx_FindString mgClients peerId with
            | Some mg => string_of_bytes mg
            | None =>
                match rx_FindString aria2Clients peerId with
                | Some aria2 => string_of_bytes (cut_last aria2)
                | None =>
                    match rx_FindString middleDash peerId with
                    | Some middle => string_of_bytes (cut_last middle)
                    | None =>
                        if has "FD6"%string then "FD6"
                        else if has "12BS"%string then "12BS"
                        else "unknown"
                    end
                end
            end
        end
    end.

(** Every label but "unknown" is the beginning of the trimmed peer id. *)
Lemma HasPrefix_of s p : HasPrefix s p = true → p `prefix_of` s.
Proof using Type. unfold HasPrefix. rewrite bool_decide_eq_true. intros <-. exists (drop (length p) s). by rewrite take_drop. Qed.

Lemma FindString_prefix `{!RegexpLaws} p s m : rx_FindString p s = Some m → m `prefix_of` s.
Proof. rewrite rx_first. intros (n & _ & ->)%fmap_Some. exists (drop n s). by rewrite take_drop. Qed.

Lemma cut_last_prefix m s : m `prefix_of` s → cut_last m `prefix_of` s.
Proof using Type. intros [k ->]. exists (drop (length m - 1) m ++ k). unfold cut_last. by rewrite app_assoc, take_drop. Qed.

Lemma label_is_prefix `{!RegexpLaws} id :
  ParsePeerID id = "unknown"%string ∨ bytes_of_string (ParsePeerID id) `prefix_of` TrimNonASCII (bytes_of_string id).
Proof.
  unfold ParsePeerID. set (s := TrimNonASCII _).
  repeat match goal with
  | |- context [if HasPrefix s ?p then _ else _] => destruct (HasPrefix s p) eqn:?; [right; by apply HasPrefix_of|]
  | |- context [match rx_FindString ?p s with Some _ => _ | None => _ end] =>
      destruct (rx_FindString p s) eqn:?; [right; rewrite bytes_of_string_of_bytes; eauto using cut_last_prefix, FindString_prefix|]
  end.
  by left.
Qed.
End Parse.

(** An engine that follows the rule; characters are UTF-8 sequences by their
    first byte, and a byte that starts none is no character. *)
Definition sample_char (s : bytes) : option nat :=
  match s with
  | [] => None
  | b :: _ =>
      let z := Z_of_byte b in
      let n := if z <? 128 then 1%nat else if z <? 194 then 0%nat else if z <? 224 then 2%nat else if z <? 240 then 3%nat
               else if z <? 245 then 4%nat else 0%nat in
      if ((0 <? n) && (n <=? length s))%nat then Some n else None
  end.
#[export] Instance sample_regexp : Regexp := {|
  rx_char := sample_char; rx_FindString p s := (fun n => take n s) <$> head (matches sample_char p s) |}.
#[export] Instance sample_regexp_laws : RegexpLaws.
Proof.
  split; [|done]. intros b s Hb. cbn. by rewrite (proj2 (Z.ltb_lt _ _) Hb).
Qed.

(** The cases of [peer_id_test.go] in ASCII. *)
Example ParsePeerID_tests :
  map ParsePeerID ["-qB452B-w(33PK*XDMdD"; "-SP3604ndasgasgwegaeg"; "-SP36041dasgasgwegaeg"; "-SP3605]-adsgasew";
    "-UW140Jdgaegeagsgwes"; "qB452B-w(33PK*XDMdD"; "qB452B"; "A2-1-35-0-abc"; "TIX0332-77wfm2rcxovo";
    "FD68Ki0o~Jd0mWb(GCY5"; "-FD51]x-FdrWCsIvJAk4"; "12BSx"; "MG-3.01.43194l*c0n8."; "-qB5040-aDF2_bJ-PlEs"; "-XL0019-x"]%string
  = ["-qB452B"; "-SP3604"; "-SP3604"; "-SP3605"; "-UW140"; "unknown"; "unknown"; "A2-1-35-0"; "TIX0332";
     "FD6"; "-FD51"; "12BS"; "MG-3.01.4319"; "-qB5040"; "-XL0019"]%string.
Proof. vm_compute. reflexivity. Qed.
