(* ===== verification/Metrics.v ===== *)
(** The metrics ([service/metrics]): registration, counters and histograms, and
    what a scrape of /metrics then reads.

    The Prometheus client is third-party: its vectors of counters and histograms
    and its check of a registration are classes, whose laws say what its
    documentation does.  Vectors are shared between the handler maps and the
    registry they are registered in, so they live in a store and are referred to
    by index. *)
From Stdlib Require Import ZArith Lia Bool Strings.String.
From stdpp Require Import base strings list gmap sets.
From S2P Require Import Prelude GoStd Config Model.
Set Default Proof Using "Type*".
Local Open Scope Z_scope.

Abbreviation Labels := (gmap string string) (only parsing).

(** ** The Prometheus client *)

(** A vector of children of type [C], one for each assignment of its labels;
    [mv_update] is [Add] or [Observe] on the child, [mv_child] what is collected. *)
Class MetricVec (V C : Type) := {
  mv_new : string → list string → list Z → V;
  mv_GetMetricWith : Labels → V → result V;
  mv_update : Labels → Z → V → V;
  mv_child : V → Labels → option C;
}.
(** [GetMetricWith] fails unless exactly the vector's labels are given, and makes
    the child if there is none. *)
Class MetricVecLaws (V C : Type) `{MetricVec V C} (zero : list Z → C) (step : list Z → Z → C → C) := {
  mv_labels : V → list string;
  mv_buckets : V → list Z;
  mv_new_labels n ls bs : mv_labels (mv_new n ls bs) = ls;
  mv_new_buckets n ls bs : mv_buckets (mv_new n ls bs) = bs;
  mv_new_child n ls bs l : mv_child (mv_new n ls bs) l = None;
  mv_get_ok l v : (∃ v', mv_GetMetricWith l v = Ok v') ↔ dom l = (list_to_set (mv_labels v) : gset string);
  mv_get_same l v v' : mv_GetMetricWith l v = Ok v' → mv_labels v' = mv_labels v ∧ mv_buckets v' = mv_buckets v;
  mv_get_child l v v' l' : mv_GetMetricWith l v = Ok v' →
    mv_child v' l' = if decide (l' = l) then Some (default (zero (mv_buckets v)) (mv_child v l)) else mv_child v l';
  mv_update_same l x v : mv_labels (mv_update l x v) = mv_labels v ∧ mv_buckets (mv_update l x v) = mv_buckets v;
  mv_update_child l x v l' :
    mv_child (mv_update l x v) l' = if decide (l' = l) then step (mv_buckets v) x <$> mv_child v l else mv_child v l';
}.

(** Addition of [float64]s that hold whole numbers. *)
Class Float64 := { float_add : Z → Z → Z }.
Class Float64Laws `{Float64} := {
  float_add_exact a b : 0 ≤ a → 0 ≤ b → a + b ≤ 2 ^ 53 → float_add a b = a + b;
}.

(** A counter's child is its value, a histogram's the observations up to each of
    its bounds, and all of them. *)
Record histogram := mkHistogram { h_upto : list Z; h_count : Z }.
Definition counter_step `{Float64} (_ : list Z) (x c : Z) : Z := float_add c x.
Definition histogram_zero (bs : list Z) : histogram := mkHistogram (map (fun _ => 0) bs) 0.
Definition histogram_step (bs : list Z) (x : Z) (h : histogram) : histogram :=
  mkHistogram (zip_with (fun b n => if x <=? b then n + 1 else n) bs (h_upto h)) (h_count h + 1).

(** [Registry.MustRegister] panics if a collector of that name is registered, or
    the name is not a metric's. *)
Class PrometheusRegistry := { can_register : list string → string → bool }.
Definition metric_char (first : bool) (c : Z) : bool :=
  ((97 <=? c) && (c <=? 122)) || ((65 <=? c) && (c <=? 90)) || (c =? 95) || (c =? 58)
  || (negb first && (48 <=? c) && (c <=? 57)).
Definition metric_name (n : string) : bool :=
  match bytes_of_string n with
  | [] => false
  | b :: bs => metric_char true (Z_of_byte b) && forallb (fun b => metric_char false (Z_of_byte b)) bs
  end.
Class PrometheusRegistryLaws `{PrometheusRegistry} := {
  can_register_new l n : metric_name n = true → n ∉ l → can_register l n = true;
}.

(** ** [counter.go] and [histogram.go] *)
Definition metricsPrefix : string := "trunker_".
Definition CounterInvalidRequest : string := "invalid_request_counter".
Definition CounterUDPRequest : string := "udp_request_counter".
Definition CounterUDPRequestError : string := "udp_request_error_counter".
Definition CounterAnnounce : string := "announce_counter".
Definition LabelReason : string := "reason".
Definition LabelAction : string := "action".
Definition LabelClient : string := "client".
Definition LabelSource : string := "source".
Definition HistogramLatency : string := "udp_request_latency_us".
Definition GaugeTorrentTotal : string := "torrents_total".
Definition GaugeTorrent : string := "shard_torrents".
Definition GaugePeer : string := "shard_peers".

(** What a registry holds: a vector of the store, or a gauge ([Service.gauges]
    has what the gauges are set to). *)
Inductive collector := CounterVec (p : nat) | HistogramVec (p : nat) | GaugeVec | GaugeFunc.
Definition registry_object : Type := list (string * collector).

(** The registration calls, the iteration over a map being in any order. *)
Fixpoint MustRegister `{PrometheusRegistry} (cs : registry_object) (reg : registry_object) : option registry_object :=
  match cs with
  | [] => Some reg
  | c :: cs => if can_register reg.*1 c.1 then MustRegister cs (reg ++ [c]) else None
  end.

Section Metrics.
Context {CV HV : Type} `{MetricVec CV Z} `{MetricVec HV histogram} `{PrometheusRegistry}.
Context (cfg : Config) (range : gmap string collector → registry_object).

(** The global variables of the package, and the objects they refer to. *)
Record metrics := mkMetrics
  { counter_vecs : list CV; histogram_vecs : list HV; registries : list registry_object;
    registry : option nat; once : bool;
    counterHandler : gmap string nat; histogramHandler : gmap string nat; gaugeHandler : gmap string collector }.
Definition no_metrics : metrics := mkMetrics [] [] [] None false ∅ ∅ ∅.

Definition counterAdd (v : CV) (value : Z) (l : Labels) : result CV :=
  match mv_GetMetricWith l v with Err e => Err e | Ok v => Ok (mv_update l value v) end.
Definition histogramObserve (v : HV) (value : Z) (l : Labels) : result HV :=
  match mv_GetMetricWith l v with Err e => Err e | Ok v => Ok (mv_update l value v) end.

Definition gaugeSet {GV : Type} `{MetricVec GV Z} (v : GV) (value : Z) (l : Labels) : result GV :=
  match mv_GetMetricWith l v with Err e => Err e | Ok v => Ok (mv_update l value v) end.

(** The entries of a handler map under their full names. *)
Definition prefixed (cs : registry_object) : registry_object := map (fun c => ((metricsPrefix ++ c.1)%string, c.2)) cs.

Definition registerCounter (vecs : list CV) (reg : registry_object) : option (gmap string nat * list CV * registry_object) :=
  let p := length vecs in
  let m := <[CounterAnnounce := (p + 3)%nat]> (<[CounterUDPRequestError := (p + 2)%nat]>
             (<[CounterUDPRequest := (p + 1)%nat]> {[CounterInvalidRequest := p]})) in
  let vec name ls := mv_new (metricsPrefix ++ name) ls [] in
  let vecs := vecs ++ [vec CounterInvalidRequest [LabelReason]; vec CounterUDPRequest [LabelAction];
                       vec CounterUDPRequestError [LabelReason; LabelAction]; vec CounterAnnounce [LabelClient; LabelSource]] in
  reg ← MustRegister (prefixed (range (CounterVec <$> m))) reg;
  Some (m, vecs, reg).

Definition latency_buckets : list Z := [5000; 10000; 25000; 50000; 100000; 250000; 500000; 1000000].
Definition registerHistogram (vecs : list HV) (reg : registry_object) : option (gmap string nat * list HV * registry_object) :=
  let m := {[HistogramLatency := length vecs]} in
  let vecs := vecs ++ [mv_new (metricsPrefix ++ HistogramLatency) [LabelAction] latency_buckets] in
  reg ← MustRegister (prefixed (range (HistogramVec <$> m))) reg;
  Some (m, vecs, reg).

Definition registerGauge (reg : registry_object) : option (gmap string collector * registry_object) :=
  let m := <[GaugeTorrentTotal := GaugeFunc]> (<[GaugeTorrent := GaugeVec]> {[GaugePeer := GaugeVec]}) in
  reg ← MustRegister (prefixed (range m)) reg;
  Some (m, reg).

(** ** [init.go] *)

(** [None] is a panic. *)
Definition Init (s : metrics) : option metrics :=
  let r := length (registries s) in
  if EnableMetrics (Tracker cfg) then
    '(ch, cvs, reg) ← registerCounter (counter_vecs s) [];
    '(hh, hvs, reg) ← registerHistogram (histogram_vecs s) reg;
    '(gh, reg) ← registerGauge reg;
    Some (mkMetrics cvs hvs (registries s ++ [reg]) (Some r) (once s) ch hh gh)
  else
    Some (mkMetrics (counter_vecs s) (histogram_vecs s) (registries s ++ [[]]) (Some r) (once s)
            (counterHandler s) (histogramHandler s) (gaugeHandler s)).

Definition set_once (s : metrics) : metrics :=
  mkMetrics (counter_vecs s) (histogram_vecs s) (registries s) (registry s) true
    (counterHandler s) (histogramHandler s) (gaugeHandler s).
Definition GetRegistry (s : metrics) : option (option nat * metrics) :=
  match registry s with
  | Some _ => if once s then Some (registry s, s) else s ← Init s; Some (registry s, set_once s)
  | None => Some (None, s)
  end.

Definition EmitCounter (name : string) (value : Z) (l : Labels) (s : metrics) : metrics :=
  if negb (EnableMetrics (Tracker cfg)) then s
  else
    match counterHandler s !! name with
    | Some p =>
        match (fun v => counterAdd v value l) <$> counter_vecs s !! p with
        | Some (Ok v) => mkMetrics (<[p := v]> (counter_vecs s)) (histogram_vecs s) (registries s) (registry s) (once s)
                           (counterHandler s) (histogramHandler s) (gaugeHandler s)
        | _ => s
        end
    | None => s
    end.
Definition ObserveHistogram (name : string) (cost : Z) (l : Labels) (s : metrics) : metrics :=
  if negb (EnableMetrics (Tracker cfg)) then s
  else
    match histogramHandler s !! name with
    | Some p =>
        match (fun v => histogramObserve v cost l) <$> histogram_vecs s !! p with
        | Some (Ok v) => mkMetrics (counter_vecs s) (<[p := v]> (histogram_vecs s)) (registries s) (registry s) (once s)
                           (counterHandler s) (histogramHandler s) (gaugeHandler s)
        | _ => s
        end
    | None => s
    end.
End Metrics.
Arguments metrics : clear implicits.

(** What the handlers report. *)
Inductive emission :=
| Counter (name : string) (value : Z) (l : Labels)
| Histogram (name : string) (cost : Z) (l : Labels).
