(* ===== verification/MetricsSpec.v ===== *)
(** What the metrics promise: whatever the handlers report, the registry that is
    served at /metrics shows it, each report counted once. *)
From Stdlib Require Import ZArith Lia Bool Strings.String.
From stdpp Require Import base strings list gmap sets.
From S2P Require Import Prelude GoStd Config Model Samples Metrics.
Set Default Proof Using "Type*".
Local Open Scope Z_scope.

(** ** One vector *)
Section Vec.
Context {V C : Type} {zero : list Z → C} {step : list Z → Z → C → C} `{MetricVecLaws V C zero step}.

Definition vec_add (v : V) (x : Z) (l : Labels) : result V :=
  match mv_GetMetricWith l v with Err e => Err e | Ok v => Ok (mv_update l x v) end.

Lemma vec_add_ok v x l :
  dom l = (list_to_set (mv_labels v) : gset string) →
  ∃ v', vec_add v x l = Ok v' ∧ mv_labels v' = mv_labels v ∧ mv_buckets v' = mv_buckets v ∧
    ∀ l', mv_child v' l'
      = if decide (l' = l) then Some (step (mv_buckets v) x (default (zero (mv_buckets v)) (mv_child v l))) else mv_child v l'.
Proof.
  intros [v1 Hv1]%mv_get_ok. unfold vec_add. rewrite Hv1. eexists. split; [done|].
  destruct (mv_get_same _ _ _ Hv1) as [E1 E2]. destruct (mv_update_same l x v1) as [E3 E4].
  split_and!; [congruence..|]. intros l'. rewrite mv_update_child, E2.
  rewrite !(mv_get_child _ _ _ _ Hv1). rewrite (decide_True (P := l = l)) by done. by case_decide.
Qed.

Lemma vec_add_bad v x l v' : vec_add v x l = Ok v' → dom l = (list_to_set (mv_labels v) : gset string).
Proof. unfold vec_add. destruct (mv_GetMetricWith l v) as [v1|] eqn:E; [|done]. intros _. apply mv_get_ok. by exists v1. Qed.

(** A vector that was given the values [xs l] for each correct assignment [l]. *)
Definition filled (ls : list string) (bs : list Z) (xs : Labels → list Z) (v : V) : Prop :=
  mv_labels v = ls ∧ mv_buckets v = bs ∧
  ∀ l, dom l = (list_to_set ls : gset string) →
    mv_child v l = match xs l with [] => None | _ => Some (fold_left (fun c x => step bs x c) (xs l) (zero bs)) end.

Lemma filled_new n ls bs : filled ls bs (fun _ => []) (mv_new n ls bs).
Proof. split_and!; [apply mv_new_labels|apply mv_new_buckets|]. intros l _. apply mv_new_child. Qed.

Lemma filled_ext ls bs xs xs' v :
  (∀ l, dom l = (list_to_set ls : gset string) → xs' l = xs l) → filled ls bs xs v → filled ls bs xs' v.
Proof. intros Hx (E1 & E2 & Hc). split_and!; [done..|]. intros l Hl. by rewrite Hx, Hc. Qed.

Lemma filled_add ls bs xs v x l :
  filled ls bs xs v →
  match vec_add v x l with
  | Ok v' => filled ls bs (fun l' => if decide (l' = l) then xs l' ++ [x] else xs l') v'
  | Err _ => dom l ≠ (list_to_set ls : gset string)
  end.
Proof.
  intros (E1 & E2 & Hc). destruct (decide (dom l = (list_to_set ls : gset string))) as [Hl|Hl].
  - rewrite <- E1 in Hl. destruct (vec_add_ok v x l Hl) as (v' & -> & E3 & E4 & Hv'). rewrite E1 in Hl.
    split_and!; [congruence..|]. intros l' Hl'. rewrite Hv'. case_decide as E; [|by apply Hc]. subst l'.
    rewrite E2, (Hc l Hl), fold_left_app. simpl. by destruct (xs l).
  - destruct (vec_add v x l) as [v'|] eqn:E; [|done]. apply vec_add_bad in E. congruence.
Qed.
End Vec.

(** ** Registration *)
Section Register.
Context `{PrometheusRegistryLaws}.

Lemma MustRegister_new cs reg :
  NoDup (reg ++ cs).*1 → forallb (fun c => metric_name c.1) cs = true → MustRegister cs reg = Some (reg ++ cs).
Proof.
  revert reg. induction cs as [|c cs IH]; intros reg Hn Hm; simpl in *; [by rewrite app_nil_r|].
  apply andb_true_iff in Hm as [Hc Hm]. rewrite can_register_new; [|done|].
  - rewrite IH; [by rewrite <- app_assoc| |done]. by rewrite <- app_assoc.
  - rewrite fmap_app in Hn. apply NoDup_app in Hn as (_ & Hd & _). intros Hin. apply (Hd _ Hin). by left.
Qed.
End Register.

#[export] Instance collector_eq_dec : EqDecision collector.
Proof. solve_decision. Defined.

(** ** The package *)
Section Spec.
Context {CV HV : Type} `{Float64Laws}
  `{!MetricVec CV Z, !MetricVecLaws CV Z (fun _ => 0) counter_step}
  `{!MetricVec HV histogram, !MetricVecLaws HV histogram histogram_zero histogram_step}
  `{PrometheusRegistryLaws}.
Context (cfg : Config) (range : gmap string collector → registry_object).
Hypothesis range_perm : ∀ m, range m ≡ₚ map_to_list m.
Local Notation metrics := (metrics CV HV).
Implicit Types (s : metrics) (es : list emission).

(** The program's start: [Init], and the registry asked for when it is served. *)
Definition started : option (option nat * metrics) := s ← Init cfg range no_metrics; GetRegistry cfg range s.

Definition emit s (e : emission) : metrics :=
  match e with
  | Counter name value l => EmitCounter cfg name value l s
  | Histogram name cost l => ObserveHistogram cfg name cost l s
  end.
Definition emit_all es s : metrics := fold_left emit es s.

(** The samples of a metric under given labels that a collection of a registry gives. *)
Definition collect_counter s (r : nat) (name : string) (l : Labels) : list Z :=
  omap (M := list) (fun c => if decide (c.1 = (metricsPrefix ++ name)%string)
    then match c.2 with CounterVec p => counter_vecs s !! p ≫= fun v => mv_child v l | _ => None end else None)
    (default [] (registries s !! r)).
Definition collect_histogram s (r : nat) (name : string) (l : Labels) : list histogram :=
  omap (M := list) (fun c => if decide (c.1 = (metricsPrefix ++ name)%string)
    then match c.2 with HistogramVec p => histogram_vecs s !! p ≫= fun v => mv_child v l | _ => None end else None)
    (default [] (registries s !! r)).

(** The values reported of one counter or histogram. *)
Definition counted (name : string) (l : Labels) es : list Z :=
  omap (M := list) (fun e => match e with Counter n v l' => if decide (n = name ∧ l' = l) then Some v else None | _ => None end) es.
Definition observed (name : string) (l : Labels) es : list Z :=
  omap (M := list) (fun e => match e with Histogram n v l' => if decide (n = name ∧ l' = l) then Some v else None | _ => None end) es.

Definition counter_labels : list (string * list string) :=
  [(CounterInvalidRequest, [LabelReason]); (CounterUDPRequest, [LabelAction]);
   (CounterUDPRequestError, [LabelReason; LabelAction]); (CounterAnnounce, [LabelClient; LabelSource])].

(** The order in which a map is iterated over does not matter to a registry. *)
Lemma register_step m reg reg0 :
  reg ≡ₚ reg0 → NoDup (reg0 ++ prefixed (map_to_list m)).*1 →
  forallb (fun c => metric_name c.1) (prefixed (map_to_list m)) = true →
  ∃ reg', MustRegister (prefixed (range m)) reg = Some reg' ∧ reg' ≡ₚ reg0 ++ prefixed (map_to_list m).
Proof using range_perm H0 H2.
  intros Hreg Hn Hv. pose proof (range_perm m) as Hp.
  assert (prefixed (range m) ≡ₚ prefixed (map_to_list m)) as Hpp by by apply Permutation_map.
  exists (reg ++ prefixed (range m)). split; [|by rewrite Hreg, Hpp]. apply MustRegister_new.
  - by rewrite Hreg, Hpp.
  - rewrite <- Hv. clear -Hpp. induction Hpp as [|x l1 l2 _ IH|x y l1|l1 l2 l3 _ IH1 _ IH2]; simpl; [done|by rewrite IH| |congruence].
    by rewrite !andb_assoc, (andb_comm (metric_name y.1)).
Qed.

Definition counters_at (p : nat) : gmap string nat :=
  <[CounterAnnounce := (p + 3)%nat]> (<[CounterUDPRequestError := (p + 2)%nat]>
    (<[CounterUDPRequest := (p + 1)%nat]> {[CounterInvalidRequest := p]})).
Definition gauges_map : gmap string collector :=
  <[GaugeTorrentTotal := GaugeFunc]> (<[GaugeTorrent := GaugeVec]> {[GaugePeer := GaugeVec]}).
Definition registered (p q : nat) : registry_object :=
  (prefixed (map_to_list (CounterVec <$> counters_at p))
   ++ prefixed (map_to_list (HistogramVec <$> ({[HistogramLatency := q]} : gmap string nat)))) ++ prefixed (map_to_list gauges_map).
Definition new_counters : list CV :=
  map (fun c => mv_new (metricsPrefix ++ c.1) c.2 []) counter_labels.
Definition new_histogram : HV := mv_new (metricsPrefix ++ HistogramLatency) [LabelAction] latency_buckets.

(** An initialisation makes a registry and fresh vectors, and the handlers and
    the registry refer to the same ones. *)
Lemma Init_gives s :
  EnableMetrics (Tracker cfg) = true →
  let p := length (counter_vecs s) in let q := length (histogram_vecs s) in
  ∃ reg, Init cfg range s = Some (mkMetrics (counter_vecs s ++ new_counters) (histogram_vecs s ++ [new_histogram])
      (registries s ++ [reg]) (Some (length (registries s))) (once s) (counters_at p) {[HistogramLatency := q]} gauges_map)
    ∧ reg ≡ₚ registered p q.
Proof using range_perm H0 H2.
  intros He p q. unfold Init. rewrite He. unfold registerCounter, registerHistogram, registerGauge. cbv zeta.
  fold p q. fold (counters_at p). fold gauges_map.
  destruct (register_step (CounterVec <$> counters_at p) [] []) as (reg1 & -> & H1'); [done|apply (bool_decide_unpack _); vm_compute; reflexivity|vm_compute; reflexivity|].
  cbn [mbind option_bind].
  destruct (register_step (HistogramVec <$> {[HistogramLatency := q]}) reg1 _ H1') as (reg2 & -> & H2'); [apply (bool_decide_unpack _); vm_compute; reflexivity|vm_compute; reflexivity|].
  cbn [mbind option_bind].
  destruct (register_step gauges_map reg2 _ H2') as (reg3 & -> & H3'); [apply (bool_decide_unpack _); vm_compute; reflexivity|vm_compute; reflexivity|].
  cbn [mbind option_bind]. exists reg3. by split.
Qed.

Lemma counters_at_labels p n q : counters_at p !! n = Some q → ∃ ls, (n, ls) ∈ counter_labels.
Proof using Type.
  unfold counters_at. rewrite !lookup_insert_Some, lookup_singleton_Some.
  intros [[<- _]|[_ [[<- _]|[_ [[<- _]|[_ [<- _]]]]]]]; eexists; apply list_elem_of_In; simpl; eauto 6.
Qed.

Lemma counters_at_inj p n n' q : counters_at p !! n = Some q → counters_at p !! n' = Some q → n = n'.
Proof using Type. unfold counters_at. rewrite !lookup_insert_Some, !lookup_singleton_Some. intros H1' H2'. naive_solver lia. Qed.

Lemma labels_once n ls ls' : (n, ls) ∈ counter_labels → (n, ls') ∈ counter_labels → ls = ls'.
Proof using Type.
  intros Hn Hn'. assert (NoDup counter_labels.*1) as Hd by (apply (bool_decide_unpack _); vm_compute; reflexivity).
  apply (elem_of_list_to_map_1 (M := gmap string)) in Hn, Hn'; [congruence|done..].
Qed.

(** The state the handlers leave behind. *)
Record tallied (reg0 reg1 : registry_object) es s : Prop := {
  ta_registries : registries s = [reg0; reg1];
  ta_registry : registry s = Some 1%nat;
  ta_counters : counterHandler s = counters_at 4;
  ta_histograms : histogramHandler s = {[HistogramLatency := 1%nat]};
  ta_counter n ls p : (n, ls) ∈ counter_labels → counters_at 4 !! n = Some p →
    ∃ v, counter_vecs s !! p = Some v ∧ filled ls [] (fun l => counted n l es) v;
  ta_histogram : ∃ v, histogram_vecs s !! 1%nat = Some v ∧
    filled [LabelAction] latency_buckets (fun l => observed HistogramLatency l es) v;
}.

Lemma started_tallied :
  EnableMetrics (Tracker cfg) = true →
  ∃ reg0 reg1 s, started = Some (Some 1%nat, s) ∧ reg1 ≡ₚ registered 4 1 ∧ tallied reg0 reg1 [] s.
Proof using range_perm H0 H2 MetricVecLaws0 MetricVecLaws1.
  intros He. unfold started. destruct (Init_gives no_metrics He) as (reg0 & -> & _). cbn [mbind option_bind].
  set (s0 := mkMetrics _ _ _ _ _ _ _ _). unfold GetRegistry. cbn [registry s0 once no_metrics].
  destruct (Init_gives s0 He) as (reg1 & -> & Hreg). cbn [mbind option_bind].
  exists reg0, reg1. eexists. split; [reflexivity|]. split; [exact Hreg|]. split; try reflexivity.
  - intros n ls p Hn Hp.
    assert (∃ i : nat, p = (4 + i)%nat ∧ counter_labels !! i = Some (n, ls)) as (i & -> & Hi).
    { unfold counters_at in Hp. rewrite !lookup_insert_Some, lookup_singleton_Some in Hp.
      apply list_elem_of_lookup in Hn as [i Hi]. exists i. split; [|done].
      destruct i as [|[|[|[|i]]]]; simpl in Hi; try discriminate; injection Hi as <- <-; naive_solver. }
    exists (mv_new (metricsPrefix ++ n) ls []). split; [|apply filled_new].
    change (counter_vecs (set_once _)) with (new_counters ++ new_counters).
    rewrite lookup_app_r by (simpl; lia).
    replace (4 + i - length new_counters)%nat with i by (simpl; lia).
    unfold new_counters. by rewrite list_lookup_fmap, Hi.
  - exists new_histogram. split; [done|]. apply filled_new.
Qed.

Lemma counted_snoc n l es e :
  counted n l (es ++ [e]) = counted n l es ++
    match e with Counter n' v l' => if decide (n' = n ∧ l' = l) then [v] else [] | _ => [] end.
Proof using Type. unfold counted. rewrite omap_app. f_equal. destruct e; [|done]. simpl. by case_decide. Qed.
Lemma observed_snoc n l es e :
  observed n l (es ++ [e]) = observed n l es ++
    match e with Histogram n' v l' => if decide (n' = n ∧ l' = l) then [v] else [] | _ => [] end.
Proof using Type. unfold observed. rewrite omap_app. f_equal. destruct e; [done|]. simpl. by case_decide. Qed.

Lemma emit_tallied reg0 reg1 es e s :
  EnableMetrics (Tracker cfg) = true → tallied reg0 reg1 es s → tallied reg0 reg1 (es ++ [e]) (emit s e).
Proof using MetricVecLaws0 MetricVecLaws1.
  intros He Hs. pose proof Hs as [E1 E2 E3 E4 Hc Hh].
  destruct e as [n x l|n x l]; unfold emit, EmitCounter, ObserveHistogram; rewrite He; cbn [negb].
  - assert (∃ v, histogram_vecs s !! 1%nat = Some v ∧
      filled [LabelAction] latency_buckets (fun l0 => observed HistogramLatency l0 (es ++ [Counter n x l])) v) as Hh'.
    { destruct Hh as (v & Hv & Hf). exists v. split; [done|]. eapply filled_ext; [|exact Hf].
      intros l' _. by rewrite observed_snoc, app_nil_r. }
    rewrite E3. destruct (counters_at 4 !! n) as [p|] eqn:Hp.
    2: { split; try done. intros n' ls p Hn Hp'. destruct (Hc n' ls p Hn Hp') as (v & Hv & Hf). exists v. split; [done|].
         eapply filled_ext; [|exact Hf]. intros l' _. rewrite counted_snoc, decide_False, app_nil_r by naive_solver. done. }
    destruct (counters_at_labels _ _ _ Hp) as [ls Hls]. destruct (Hc n ls p Hls Hp) as (v & Hv & Hf).
    rewrite Hv. cbn [fmap option_fmap option_map]. pose proof (filled_add ls [] _ v x l Hf) as Hadd.
    change (vec_add v x l) with (counterAdd v x l) in Hadd. destruct (counterAdd v x l) as [v'|e].
    + split; try done. intros n' ls' p' Hn' Hp'. cbn [counter_vecs]. destruct (decide (p' = p)) as [->|Hne].
      * assert (n' = n) as -> by by eapply counters_at_inj. assert (ls' = ls) as -> by by eapply labels_once.
        exists v'. rewrite list_lookup_insert_eq by by eapply lookup_lt_Some. split; [done|].
        eapply filled_ext; [|exact Hadd]. intros l' _. rewrite counted_snoc. simpl.
        destruct (decide (l' = l)) as [->|Hl]; [by rewrite decide_True|]. rewrite decide_False by naive_solver. by rewrite app_nil_r.
      * rewrite list_lookup_insert_ne by done. destruct (Hc n' ls' p' Hn' Hp') as (w & Hw & Hf'). exists w. split; [done|].
        eapply filled_ext; [|exact Hf']. intros l' _. rewrite counted_snoc, decide_False, app_nil_r; [done|].
        intros [-> _]. congruence.
    + split; try done. intros n' ls' p' Hn' Hp'. destruct (Hc n' ls' p' Hn' Hp') as (w & Hw & Hf'). exists w. split; [done|].
      eapply filled_ext; [|exact Hf']. intros l' Hl'. rewrite counted_snoc, decide_False, app_nil_r; [done|].
      intros [-> ->]. apply Hadd. by rewrite (labels_once n' ls ls').
  - assert (∀ n' ls p, (n', ls) ∈ counter_labels → counters_at 4 !! n' = Some p →
      ∃ v, counter_vecs s !! p = Some v ∧ filled ls [] (fun l0 => counted n' l0 (es ++ [Histogram n x l])) v) as Hc'.
    { intros n' ls p Hn Hp. destruct (Hc n' ls p Hn Hp) as (v & Hv & Hf). exists v. split; [done|].
      eapply filled_ext; [|exact Hf]. intros l' _. by rewrite counted_snoc, app_nil_r. }
    rewrite E4. destruct Hh as (v & Hv & Hf). destruct (({[HistogramLatency := 1%nat]} : gmap string nat) !! n) as [p|] eqn:Hp.
    2: { split; try done. exists v. split; [done|]. eapply filled_ext; [|exact Hf]. intros l' _.
         rewrite observed_snoc, decide_False, app_nil_r; [done|]. intros [-> _]. by rewrite lookup_singleton_eq in Hp. }
    apply lookup_singleton_Some in Hp as [<- <-]. rewrite Hv. cbn [fmap option_fmap option_map].
    pose proof (filled_add _ _ _ v x l Hf) as Hadd.
    change (vec_add v x l) with (histogramObserve v x l) in Hadd. destruct (histogramObserve v x l) as [v'|e].
    + split; try done. exists v'. cbn [histogram_vecs]. rewrite list_lookup_insert_eq by by eapply lookup_lt_Some. split; [done|].
      eapply filled_ext; [|exact Hadd]. intros l' _. rewrite observed_snoc. simpl.
      destruct (decide (l' = l)) as [->|Hl]; [by rewrite decide_True|]. rewrite decide_False by naive_solver. by rewrite app_nil_r.
    + split; try done. exists v. split; [done|]. eapply filled_ext; [|exact Hf]. intros l' Hl'.
      rewrite observed_snoc, decide_False, app_nil_r; [done|]. by intros [_ ->].
Qed.

(** The samples under a name that is registered once. *)
Lemma omap_once {A C D} `{EqDecision A} (g : C → option D) (l : list (A * C)) k c :
  NoDup l.*1 → (k, c) ∈ l →
  omap (M := list) (fun e => if decide (e.1 = k) then g e.2 else None) l = match g c with Some y => [y] | None => [] end.
Proof using Type.
  unfold omap.
  assert (∀ l : list (A * C), k ∉ l.*1 → list_omap _ _ (fun e => if decide (e.1 = k) then g e.2 else None) l = []) as Hno.
  { clear l. induction l as [|[k' c'] l IH]; intros Hk; [done|]. apply not_elem_of_cons in Hk as [Hk Hl]. cbn [list_omap fst snd] in *.
    rewrite decide_False by done. by apply IH. }
  induction l as [|[k' c'] l IH]; intros Hn Hk; [by apply not_elem_of_nil in Hk|]. cbn [list_omap fst snd].
  apply NoDup_cons in Hn as [Hk' Hn]. apply elem_of_cons in Hk as [[= <- <-]|Hk].
  - rewrite decide_True, (Hno l Hk') by done. done.
  - rewrite decide_False; [by apply IH|]. intros ->. by apply Hk', (list_elem_of_fmap_2 fst l (k, c)).
Qed.

Lemma float_sum xs c :
  Forall (fun x => 0 ≤ x) xs → 0 ≤ c → c + foldr Z.add 0 xs ≤ 2 ^ 53 →
  fold_left (fun c x => counter_step [] x c) xs c = c + foldr Z.add 0 xs.
Proof using H0.
  intros Hx. revert c. induction Hx as [|x xs Hx Hxs IH]; intros c Hc Hs; simpl in *; [lia|].
  assert (0 ≤ foldr Z.add 0 xs) as Hp. { clear -Hxs. induction Hxs; simpl; lia. }
  unfold counter_step at 2. rewrite float_add_exact by lia. rewrite IH by lia. lia.
Qed.

Lemma count_observations bs xs h :
  h_count (fold_left (fun c x => histogram_step bs x c) xs h) = h_count h + Z.of_nat (length xs).
Proof using Type.
  revert h. induction xs as [|x xs IH]; intros h; simpl; [lia|]. rewrite IH. simpl. lia.
Qed.

Lemma registered_at n ls :
  (n, ls) ∈ counter_labels →
  ∃ p, counters_at 4 !! n = Some p ∧ ((metricsPrefix ++ n)%string, CounterVec p) ∈ registered 4 1.
Proof using Type.
  intros Hn%list_elem_of_In. simpl in Hn.
  assert (∀ p, counters_at 4 !! n = Some p → bool_decide (((metricsPrefix ++ n)%string, CounterVec p) ∈ registered 4 1) = true →
    ∃ p, counters_at 4 !! n = Some p ∧ ((metricsPrefix ++ n)%string, CounterVec p) ∈ registered 4 1) as Hgo.
  { intros p Hp Hb. exists p. split; [done|by apply bool_decide_eq_true in Hb]. }
  destruct Hn as [[= <- <-]|[[= <- <-]|[[= <- <-]|[[= <- <-]|[]]]]];
    [apply (Hgo 4%nat)|apply (Hgo 5%nat)|apply (Hgo 6%nat)|apply (Hgo 7%nat)]; vm_compute; reflexivity.
Qed.

(** What a collection shows. *)
Lemma metrics_shown :
  (EnableMetrics (Tracker cfg) = false → ∀ es s, emit_all es s = s) ∧
  (EnableMetrics (Tracker cfg) = true →
   ∃ s, started = Some (Some 1%nat, s) ∧ ∀ es, let s' := emit_all es s in
     registry s' = Some 1%nat ∧
     (∀ n ls l, (n, ls) ∈ counter_labels → dom l = (list_to_set ls : gset string) →
        Forall (fun x => 0 ≤ x) (counted n l es) → foldr Z.add 0 (counted n l es) ≤ 2 ^ 53 →
        collect_counter s' 1 n l = match counted n l es with [] => [] | xs => [foldr Z.add 0 xs] end) ∧
     (∀ l, dom l = ({[LabelAction]} : gset string) →
        map h_count (collect_histogram s' 1 HistogramLatency l)
        = match observed HistogramLatency l es with [] => [] | xs => [Z.of_nat (length xs)] end)).
Proof using range_perm H0 H2 MetricVecLaws0 MetricVecLaws1.
  split.
  { intros He es. induction es as [|e es IH]; intros s; [done|]. simpl. rewrite IH.
    unfold emit, EmitCounter, ObserveHistogram. rewrite He. by destruct e. }
  intros He. destruct (started_tallied He) as (reg0 & reg1 & s & Hst & Hreg & Hs). exists s. split; [done|]. intros es s'.
  assert (tallied reg0 reg1 es s') as [E1 E2 _ _ Hc (v & Hv & Hf)].
  { unfold s', emit_all. clear Hst. induction es as [|e es IH] using rev_ind; [done|]. rewrite fold_left_app. by apply emit_tallied. }
  assert (NoDup reg1.*1) as Hnd by (rewrite Hreg; apply (bool_decide_unpack _); vm_compute; reflexivity).
  split; [done|]. split.
  - intros n ls l Hn Hl Hpos Hsum. unfold collect_counter. rewrite E1. cbn [lookup list_lookup default from_option id].
    destruct (registered_at n ls Hn) as (p & Hp & Hin). rewrite <- Hreg in Hin.
    rewrite (omap_once (fun c => match c with CounterVec p => counter_vecs s' !! p ≫= fun v => mv_child v l | _ => None end) _ _ _ Hnd Hin).
    destruct (Hc n ls p Hn Hp) as (w & Hw & _ & _ & Hw'). rewrite Hw. cbn [mbind option_bind]. rewrite (Hw' l Hl).
    destruct (counted n l es) as [|x xs] eqn:E; [done|]. rewrite <- E in Hpos, Hsum |- *. by rewrite float_sum.
  - intros l Hl. unfold collect_histogram. rewrite E1. cbn [lookup list_lookup default from_option id].
    assert (((metricsPrefix ++ HistogramLatency)%string, HistogramVec 1) ∈ reg1) as Hin
      by (rewrite Hreg; apply (bool_decide_unpack _); vm_compute; reflexivity).
    rewrite (omap_once (fun c => match c with HistogramVec p => histogram_vecs s' !! p ≫= fun v => mv_child v l | _ => None end) _ _ _ Hnd Hin).
    rewrite Hv. cbn [mbind option_bind]. destruct Hf as (_ & _ & Hf). rewrite Hf by (rewrite Hl; simpl; set_solver).
    destruct (observed HistogramLatency l es) as [|x xs] eqn:E; [done|]. rewrite <- E. simpl. by rewrite count_observations.
Qed.
(** C31: With metrics on, once the program has started, and whatever its handlers
    report, the registry that is served shows for every counter and every full
    assignment of its labels one sample, the sum of the values reported under
    them (none if nothing was, exact up to 2^53), and for the latency histogram as
    many observations as were reported; reports under other labels change
    nothing. With metrics off nothing is changed at all. *)
Theorem metrics_served :
  (EnableMetrics (Tracker cfg) = false → ∀ es s, emit_all es s = s) ∧
  (EnableMetrics (Tracker cfg) = true →
   ∃ s, started = Some (Some 1%nat, s) ∧ ∀ es, let s' := emit_all es s in
     registry s' = Some 1%nat ∧
     (∀ n ls l, (n, ls) ∈ counter_labels → dom l = (list_to_set ls : gset string) →
        Forall (fun x => 0 ≤ x) (counted n l es) → foldr Z.add 0 (counted n l es) ≤ 2 ^ 53 →
        collect_counter s' 1 n l = match counted n l es with [] => [] | xs => [foldr Z.add 0 xs] end) ∧
     (∀ l, dom l = ({[LabelAction]} : gset string) →
        map h_count (collect_histogram s' 1 HistogramLatency l)
        = match observed HistogramLatency l es with [] => [] | xs => [Z.of_nat (length xs)] end)).
Proof using range_perm H0 H2 MetricVecLaws0 MetricVecLaws1. apply metrics_shown. Qed.
End Spec.

(** *** A client in memory *)
Record sample_vec (C : Type) := mkSampleVec { sv_labels : list string; sv_buckets : list Z; sv_children : gmap Labels C }.
Arguments mkSampleVec {C}. Arguments sv_labels {C}. Arguments sv_buckets {C}. Arguments sv_children {C}.

Section SampleVec.
Context {C : Type} (zero : list Z → C) (step : list Z → Z → C → C).

Definition sv_get (l : Labels) (v : sample_vec C) : result (sample_vec C) :=
  if bool_decide (dom l = (list_to_set (sv_labels v) : gset string))
  then Ok (mkSampleVec (sv_labels v) (sv_buckets v)
             (<[l := default (zero (sv_buckets v)) (sv_children v !! l)]> (sv_children v)))
  else Err "inconsistent label cardinality"%string.
Definition sv_update (l : Labels) (x : Z) (v : sample_vec C) : sample_vec C :=
  mkSampleVec (sv_labels v) (sv_buckets v) (alter (step (sv_buckets v) x) l (sv_children v)).

Definition sample_metric_vec : MetricVec (sample_vec C) C := {|
  mv_new _ ls bs := mkSampleVec ls bs ∅; mv_GetMetricWith := sv_get; mv_update := sv_update;
  mv_child v l := sv_children v !! l |}.

Lemma sample_metric_vec_laws : @MetricVecLaws (sample_vec C) C sample_metric_vec zero step.
Proof.
  refine {| mv_labels := sv_labels : sample_vec C → list string; mv_buckets := sv_buckets : sample_vec C → list Z |}; try done.
  - intros l v. simpl. unfold sv_get. case_bool_decide as Hd; (split; [|by eauto]); [done|]. by intros [? ?].
  - intros l v v'. simpl. unfold sv_get. case_bool_decide; [|done]. by intros [= <-].
  - intros l v v' l'. simpl. unfold sv_get. case_bool_decide; [|done]. intros [= <-]. simpl. case_decide as E; [subst; apply lookup_insert_eq|by apply lookup_insert_ne].
  - intros l x v l'. simpl. case_decide as E; [subst; by rewrite lookup_alter_eq|by rewrite lookup_alter_ne].
Qed.
End SampleVec.

#[export] Instance exact_floats : Float64 := {| float_add := Z.add |}.
#[export] Instance exact_floats_laws : Float64Laws.
Proof. by split. Qed.
#[export] Instance sample_counters : MetricVec (sample_vec Z) Z := sample_metric_vec (fun _ => 0) counter_step.
#[export] Instance sample_counters_laws : MetricVecLaws (sample_vec Z) Z (fun _ => 0) counter_step := sample_metric_vec_laws _ _.
#[export] Instance sample_histograms : MetricVec (sample_vec histogram) histogram := sample_metric_vec histogram_zero histogram_step.
#[export] Instance sample_histograms_laws : MetricVecLaws (sample_vec histogram) histogram histogram_zero histogram_step :=
  sample_metric_vec_laws _ _.
#[export] Instance sample_registry : PrometheusRegistry := {| can_register l n := metric_name n && bool_decide (n ∉ l) |}.
#[export] Instance sample_registry_laws : PrometheusRegistryLaws.
Proof. split. intros l n Hn Hl. simpl. rewrite Hn. by apply bool_decide_eq_true. Qed.

(** The sample configuration with metrics on. *)
Definition metrics_cfg : Config :=
  let c := sample_cfg 400 in let t := Tracker c in
  {| Cache := Cache c; RocketMq := RocketMq c;
     Tracker := {| Database := Database t; Memory := Memory t; UDPServer := UDPServer t; WSServer := WSServer t;
       Mode := Mode t; RPC := RPC t; XDP := XDP t; HostPorts := HostPorts t; MetricsHostPorts := MetricsHostPorts t;
       TTL := TTL t; IntervalTask := IntervalTask t; UseUnixSocket := UseUnixSocket t; UseAnnounceIP := UseAnnounceIP t;
       EnableEventProducer := EnableEventProducer t; EnableMetrics := true; TrackerId := TrackerId t; DebugPort := DebugPort t |} |}.

Definition sample_emissions : list emission :=
  [Counter CounterUDPRequest 1 {[LabelAction := "announce"%string]}; Histogram HistogramLatency 80 {[LabelAction := "announce"%string]};
   Counter CounterUDPRequest 1 {[LabelAction := "scrape"%string]}; Counter CounterUDPRequest 1 {[LabelAction := "announce"%string]};
   Counter CounterUDPRequest 1 {[LabelReason := "announce"%string]}].

Lemma metrics_served_witness :
  ∃ s : metrics (sample_vec Z) (sample_vec histogram),
    started metrics_cfg map_to_list = Some (Some 1%nat, s) ∧
    collect_counter (emit_all metrics_cfg sample_emissions s) 1 CounterUDPRequest {[LabelAction := "announce"%string]} = [2] ∧
    map h_count (collect_histogram (emit_all metrics_cfg sample_emissions s) 1 HistogramLatency {[LabelAction := "announce"%string]}) = [1].
Proof.
  destruct (metrics_served (CV := sample_vec Z) (HV := sample_vec histogram) metrics_cfg map_to_list (fun m => Permutation_refl _)) as [_ Hs].
  destruct (Hs eq_refl) as (s & Hst & He). exists s. split; [exact Hst|].
  destruct (He sample_emissions) as (_ & Hc & Hh). split.
  - etransitivity.
    + apply (Hc CounterUDPRequest [LabelAction] {[LabelAction := "announce"%string]}).
      * right. left.
      * vm_compute. reflexivity.
      * apply (bool_decide_unpack _). vm_compute. exact I.
      * vm_compute. discriminate.
    + vm_compute. reflexivity.
  - etransitivity; [apply (Hh {[LabelAction := "announce"%string]}); vm_compute; reflexivity|]. vm_compute. reflexivity.
Defined.

(** Before the first initialisation [GetRegistry] gives nothing, and the first
    call after it initialises again: the condition in front of [once.Do] is the
    wrong way round. What was counted in between is in a registry nobody serves. *)
Definition counted_announces (r : nat) (s : metrics (sample_vec Z) (sample_vec histogram)) : list Z :=
  collect_counter s r CounterUDPRequest {[LabelAction := "announce"%string]}.
Example GetRegistry_inverted :
  fst <$> GetRegistry metrics_cfg map_to_list (no_metrics (CV := sample_vec Z) (HV := sample_vec histogram)) = Some None ∧
  (s ← Init metrics_cfg map_to_list no_metrics;
   '(r, s) ← GetRegistry metrics_cfg map_to_list (emit_all metrics_cfg sample_emissions s);
   Some (r, counted_announces 0 s, counted_announces 1 s)) = Some (Some 1%nat, [2], []).
Proof. split; vm_compute; reflexivity. Qed.
