(* ===== verification/Traffic.v ===== *)
(** The UDP server's event handlers ([udp_server/server.go]) and the metrics the
    front ends report: a datagram from its arrival to the counters. *)
From Stdlib Require Import ZArith Lia Bool Strings.String.
From stdpp Require Import base strings list gmap sets.
From S2P Require Import Prelude GoStd Config Model Common Mapx BanItem IPFilter Ban Manager Udp Idl Http Rpc Admin Websocket WebTorrent Clients Metrics.
Set Default Proof Using "Type*".
Local Open Scope Z_scope.

(** ** What the handlers report *)
Section Reports.
Context `{Regexp}.

(** The report of an announce, made by a goroutine of its own. *)
Definition announce_report (source peerID : string) : emission :=
  Counter CounterAnnounce 1 (<[LabelSource := source]> {[LabelClient := ParsePeerID peerID]}).
Definition invalid_report (reason : string) : emission := Counter CounterInvalidRequest 1 {[LabelReason := reason]}.

(** [validAnnounceReq] of the HTTP handler. *)
Definition validAnnounceReq_reports (req : HttpAnnounceRequest) : list emission :=
  if negb (String.length (req_InfoHash req) =? 20)%nat || negb (String.length (req_PeerID req) =? 20)%nat
  then [invalid_report "info hash or peer id length error"]
  else if negb ((0 <=? req_Port req) && (req_Port req <? 65535)) then [invalid_report "invalid port"]
  else [].
Definition http_reports (cfg : Config) (c : http_context) (bound : result HttpAnnounceRequest) : list emission :=
  if wants_websocket cfg c then []
  else
    match bound with
    | Err _ => [invalid_report "bind error"]
    | Ok req =>
        if negb (validAnnounceReq req) then validAnnounceReq_reports req
        else [announce_report "http" (req_PeerID req)]
    end.

(** [handleAnnounce] of the UDP server, once the packet is read. *)
Definition udp_announce_reports (remote : UDPAddr) (b : bytes) : list emission :=
  match announce_request remote b with
  | Some (Ok (req, _)) => [announce_report "udp" (req_PeerID req)]
  | _ => []
  end.

(** [Announce] of the RPC service reports what the manager accepted. *)
Definition rpc_reports {A} (request : idl_AnnounceRequest) (resp : result A) : list emission :=
  match resp with
  | Err _ => []
  | Ok _ => [announce_report (sourceToMetrics (ia_Source request)) (ia_PeerId request)]
  end.

(** [handleWSAnnounce], and a message of a WebTorrent connection. *)
Section WebTorrent.
Context {N J : Type} `{Json N J} `{Charmap} (SubString : string → string) (c : http_context) (conn : nat).
Definition ws_announce_reports (msg : bytes) : list emission :=
  match unmarshal_request msg with
  | Err _ => [invalid_report "bind error"]
  | Ok raw =>
      let req := ws_request SubString c conn raw in
      if negb (validAnnounceReq req) then validAnnounceReq_reports req
      else [announce_report "websocket" (req_PeerID req)]
  end.
Definition ws_message_reports (msg : bytes) : list emission :=
  match get_string msg "action" with
  | Ok action =>
      if decide (action = "announce"%string) then
        if match json_Get msg "answer" with Ok n => node_Valid n | Err _ => false end then [] else ws_announce_reports msg
      else []
  | Err _ => []
  end.
End WebTorrent.

(** ** [OnTraffic] and [OnTick] *)

(** The context [handleRequest] leaves on the connection ([conn.SetContext]), and
    what it reports meanwhile. *)
Definition request_context (addr : UDPAddr) (next : result bytes) (srv : UDPServer) : option string :=
  match next with
  | Err _ => None
  | Ok headerBuf =>
      if (length headerBuf <? 16)%nat then None
      else
        let connectionID := be_decode (take 8 headerBuf) in
        let action := be_decode (take 4 (drop 8 headerBuf)) in
        if (connectionID =? ProtocolID) && (action =? ActionConnect) then Some "connection"%string
        else
          match sync.Load connectionID srv with
          | Some c =>
              if negb (bool_decide (UDPAddr_String (remoteAddr c) = UDPAddr_String addr)) then None
              else if action =? ActionAnnounce then Some "announce"%string
              else if action =? ActionScrape then Some "scrape"%string
              else Some "unknown"%string
          | None => None
          end
  end.
Definition request_reports (addr : UDPAddr) (next : result bytes) (srv : UDPServer) : list emission :=
  match next, request_context addr next srv with
  | Ok headerBuf, Some "announce"%string => udp_announce_reports addr (drop 16 headerBuf)
  | _, _ => []
  end.

Context {S : Type} `{PeerManager S} (cfg : Config).

(** A datagram: what the outside gives its request, how long it takes in
    microseconds, who sends it, what is read, and the connection's context. *)
Record datagram := mkDatagram
  { dg_world : world; dg_cost : Z; dg_addr : UDPAddr; dg_next : result bytes; dg_context : option string }.

(** The label: [conn.Context()], or "unknown" if there is none. *)
Definition traffic_action (d : datagram) (srv : UDPServer) : string :=
  default "unknown"%string
    match request_context (dg_addr d) (dg_next d) srv with Some c => Some c | None => dg_context d end.

(** What is written, the server, the manager, and the reports.  A panic is
    recovered: nothing is reported. *)
Definition OnTraffic (d : datagram) (srv : UDPServer) (s : S) : list bytes * UDPServer * S * list emission :=
  match handleRequest cfg (dg_world d) (dg_addr d) (dg_next d) srv s with
  | None => ([], srv, s, [])
  | Some (err, out, srv', s') =>
      let reports := request_reports (dg_addr d) (dg_next d) srv in
      let errors :=
        match err with
        | Err e => [Counter CounterUDPRequestError 1 (<[LabelReason := e]> {[LabelAction := "unknown"%string]})]
        | Ok _ => []
        end in
      let action := traffic_action d srv in
      (out, srv', s',
       reports ++ errors ++ [Counter CounterUDPRequest 1 {[LabelAction := action]};
                             Histogram HistogramLatency (dg_cost d) {[LabelAction := action]}])
  end.

(** The delay to the next tick, and the table once the goroutine has run. *)
Definition OnTick (t : Z) (srv : UDPServer) : Z * UDPServer := (2 * Minute, cleanConnection t srv).

(** Datagrams and ticks as they come. *)
Inductive udp_event := Datagram (d : datagram) | Tick (t : Z).
Fixpoint run_events (es : list udp_event) (srv : UDPServer) (s : S) : list bytes * UDPServer * S * list emission :=
  match es with
  | [] => ([], srv, s, [])
  | Datagram d :: es =>
      let '(out, srv, s, em) := OnTraffic d srv s in
      let '(out', srv, s, em') := run_events es srv s in (out ++ out', srv, s, em ++ em')
  | Tick t :: es => run_events es (OnTick t srv).2 s
  end.
End Reports.
