(* ===== verification/TrafficSpec.v ===== *)
(** What the UDP server's metrics say: every datagram is counted exactly once,
    under what it asked for. *)
From Stdlib Require Import ZArith Lia Bool Strings.String.
From stdpp Require Import base strings list gmap sets.
From S2P Require Import Prelude GoStd Config Model Common Samples Mapx IPFilter BanItem Manager Mux MuxSpec Udp UdpSpec Http Admin Websocket WebTorrent Clients Metrics MetricsSpec Traffic.
Set Default Proof Using "Type*".
Local Open Scope Z_scope.

(** How many elements of a list satisfy a test. *)
Definition how_many {A} (f : A → bool) (l : list A) : nat := length (List.filter f l).

Lemma how_many_app {A} (f : A → bool) l1 l2 : how_many f (l1 ++ l2) = (how_many f l1 + how_many f l2)%nat.
Proof. unfold how_many. by rewrite List.filter_app, length_app. Qed.

Section Reports.
Context `{Regexp} {S : Type} `{PeerManager S} (cfg : Config).
Implicit Types (srv : UDPServer) (s : S).

Lemma counted_app n l (es1 es2 : list emission) : counted n l (es1 ++ es2) = counted n l es1 ++ counted n l es2.
Proof. apply omap_app. Qed.
Lemma observed_app n l (es1 es2 : list emission) : observed n l (es1 ++ es2) = observed n l es1 ++ observed n l es2.
Proof. apply omap_app. Qed.

Lemma counted_counter n l n' v l' es :
  counted n l (Counter n' v l' :: es) = (if decide (n' = n ∧ l' = l) then [v] else []) ++ counted n l es.
Proof. unfold counted, omap. cbn [list_omap]. by case_decide. Qed.
Lemma counted_histogram n l n' v l' es : counted n l (Histogram n' v l' :: es) = counted n l es.
Proof. done. Qed.
Lemma observed_histogram n l n' v l' es :
  observed n l (Histogram n' v l' :: es) = (if decide (n' = n ∧ l' = l) then [v] else []) ++ observed n l es.
Proof. unfold observed, omap. cbn [list_omap]. by case_decide. Qed.
Lemma observed_counter n l n' v l' es : observed n l (Counter n' v l' :: es) = observed n l es.
Proof. done. Qed.

(** The label and the outcome of each datagram. *)
Fixpoint outcomes (es : list udp_event) srv s : list (string * result unit) :=
  match es with
  | [] => []
  | Datagram d :: es =>
      match handleRequest cfg (dg_world d) (dg_addr d) (dg_next d) srv s with
      | Some (err, _, srv', s') => (traffic_action d srv, err) :: outcomes es srv' s'
      | None => outcomes es srv s
      end
  | Tick t :: es => outcomes es (OnTick t srv).2 s
  end.
Definition has_action (a : string) (o : string * result unit) : bool := bool_decide (o.1 = a).
Definition failed_with (e : string) (o : string * result unit) : bool :=
  match o.2 with Err e' => bool_decide (e' = e) | Ok _ => false end.

Lemma handleRequest_total w addr next srv s : is_Some (handleRequest cfg w addr next srv s).
Proof.
  destruct next as [b|e]; [|by eexists].
  destruct (request_answered cfg w addr b srv s) as (r & out & srv' & s' & E & _). by eexists.
Qed.

(** Every datagram has an outcome. *)
Definition is_datagram (e : udp_event) : bool := match e with Datagram _ => true | Tick _ => false end.
Lemma outcomes_length es srv s : length (outcomes es srv s) = how_many is_datagram es.
Proof.
  unfold how_many. revert srv s. induction es as [|[d|t] es IH]; intros srv s; simpl; [done| |apply IH].
  destruct (handleRequest_total (dg_world d) (dg_addr d) (dg_next d) srv s) as [[[[err out] srv'] s'] ->]. simpl. by rewrite IH.
Qed.

Definition action_labels (a : string) : Labels := {[LabelAction := a]}.
Definition error_labels (e : string) : Labels := <[LabelReason := e]> {[LabelAction := "unknown"%string]}.

Lemma action_labels_inj a a' : action_labels a = action_labels a' ↔ a = a'.
Proof. split; [|by intros ->]. intros E%(f_equal (fun m => m !! LabelAction)). unfold action_labels in E. rewrite !lookup_singleton_eq in E. congruence. Qed.
Lemma error_labels_inj e e' : error_labels e = error_labels e' ↔ e = e'.
Proof. split; [|by intros ->]. intros E%(f_equal (fun m => m !! LabelReason)). unfold error_labels in E. rewrite !lookup_insert_eq in E. congruence. Qed.

(** The reports of the handlers themselves are of other counters. *)
Lemma reports_other n l addr next srv :
  n ≠ CounterAnnounce → counted n l (request_reports addr next srv) = [] ∧ observed n l (request_reports addr next srv) = [].
Proof.
  intros Hn. unfold request_reports. destruct next as [b|]; [|done].
  assert (counted n l (udp_announce_reports addr (drop 16 b)) = [] ∧ observed n l (udp_announce_reports addr (drop 16 b)) = []) as Hu.
  { unfold udp_announce_reports. destruct (announce_request _ _) as [[[req v6]|e]|]; [|done..]. split; [|done].
    unfold announce_report. rewrite counted_counter, decide_False by naive_solver. done. }
  by repeat case_match.
Qed.

(** The reports every datagram ends with. *)
Definition request_done (a : string) (cost : Z) : list emission :=
  [Counter CounterUDPRequest 1 (action_labels a); Histogram HistogramLatency cost (action_labels a)].
Definition error_reports (err : result unit) : list emission :=
  match err with Err e => [Counter CounterUDPRequestError 1 (error_labels e)] | Ok _ => [] end.

Lemma if_iff {A} (P Q : Prop) `{!Decision P, !Decision Q} (x y : A) :
  (P ↔ Q) → (if decide P then x else y) = (if bool_decide Q then x else y).
Proof. intros HPQ. case_decide; case_bool_decide; tauto. Qed.

Lemma request_done_counted a a' cost :
  counted CounterUDPRequest (action_labels a) (request_done a' cost) = (if bool_decide (a' = a) then [1] else []) ∧
  observed HistogramLatency (action_labels a) (request_done a' cost) = (if bool_decide (a' = a) then [cost] else []) ∧
  ∀ l, counted CounterUDPRequestError l (request_done a' cost) = [].
Proof.
  unfold request_done. rewrite counted_counter, counted_histogram, observed_counter, observed_histogram, app_nil_r.
  split_and!; [|rewrite app_nil_r|].
  - apply if_iff. rewrite action_labels_inj. tauto.
  - apply if_iff. rewrite action_labels_inj. tauto.
  - intros l. rewrite counted_counter, decide_False by naive_solver. done.
Qed.

Lemma error_reports_counted err :
  (∀ e, counted CounterUDPRequestError (error_labels e) (error_reports err)
        = match err with Err e' => if bool_decide (e' = e) then [1] else [] | Ok _ => [] end) ∧
  (∀ l, counted CounterUDPRequest l (error_reports err) = []) ∧ ∀ n l, observed n l (error_reports err) = [].
Proof.
  destruct err as [u|e']; [done|]. unfold error_reports. split_and!; [| |done].
  - intros e. rewrite counted_counter, app_nil_r. apply if_iff. rewrite error_labels_inj. tauto.
  - intros l. rewrite counted_counter, decide_False by naive_solver. done.
Qed.

Lemma OnTraffic_counted d srv s err out srv' s' :
  handleRequest cfg (dg_world d) (dg_addr d) (dg_next d) srv s = Some (err, out, srv', s') →
  ∃ es, OnTraffic cfg d srv s = (out, srv', s', es) ∧
    (∀ a, counted CounterUDPRequest (action_labels a) es = if has_action a (traffic_action d srv, err) then [1] else []) ∧
    (∀ a, length (observed HistogramLatency (action_labels a) es) = if has_action a (traffic_action d srv, err) then 1%nat else 0%nat) ∧
    (∀ e, counted CounterUDPRequestError (error_labels e) es = if failed_with e (traffic_action d srv, err) then [1] else []).
Proof.
  intros E. unfold OnTraffic. rewrite E. eexists. split; [reflexivity|]. unfold has_action, failed_with. cbn [fst snd].
  change (match err with Ok _ => [] | Err e => _ end) with (error_reports err).
  change [Counter CounterUDPRequest 1 _; _] with (request_done (traffic_action d srv) (dg_cost d)).
  destruct (error_reports_counted err) as (E1 & E2 & E3).
  split_and!; intros x; pose proof (request_done_counted x (traffic_action d srv) (dg_cost d)) as (D1 & D2 & D3).
  - rewrite !counted_app, (proj1 (reports_other _ _ _ _ _ (ltac:(done) : CounterUDPRequest ≠ CounterAnnounce))). by rewrite E2, D1.
  - rewrite !observed_app, (proj2 (reports_other _ _ _ _ _ (ltac:(done) : HistogramLatency ≠ CounterAnnounce))), E3, D2.
    by case_bool_decide.
  - rewrite !counted_app, (proj1 (reports_other _ _ _ _ _ (ltac:(done) : CounterUDPRequestError ≠ CounterAnnounce))), E1, D3, app_nil_r.
    destruct err; [done|]. simpl. by case_bool_decide.
Qed.

(** What a run reports. *)
Lemma run_counted es srv s :
  let em := (run_events cfg es srv s).2 in
  (∀ a, counted CounterUDPRequest (action_labels a) em = replicate (how_many (has_action a) (outcomes es srv s)) 1) ∧
  (∀ a, length (observed HistogramLatency (action_labels a) em) = how_many (has_action a) (outcomes es srv s)) ∧
  (∀ e, counted CounterUDPRequestError (error_labels e) em = replicate (how_many (failed_with e) (outcomes es srv s)) 1).
Proof.
  revert srv s. induction es as [|[d|t] es IH]; intros srv s; [done| |apply IH]. cbn [run_events outcomes].
  destruct (handleRequest_total (dg_world d) (dg_addr d) (dg_next d) srv s) as [[[[err out] srv'] s'] E]. rewrite E.
  destruct (OnTraffic_counted _ _ _ _ _ _ _ E) as (es1 & -> & C1 & C2 & C3). specialize (IH srv' s').
  destruct (run_events cfg es srv' s') as [[[out' srv2] s2] es2]. cbn [snd] in *. destruct IH as (I1 & I2 & I3).
  unfold how_many in *. split_and!.
  - intros a. rewrite counted_app, C1, I1. simpl. by destruct (has_action _ _).
  - intros a. rewrite observed_app, length_app, C2, I2. simpl. by destruct (has_action _ _).
  - intros e. rewrite counted_app, C3, I3. simpl. by destruct (failed_with _ _).
Qed.
End Reports.

(** A WebTorrent announce is reported under its client once it is handed to the
    store, whatever the store answers; otherwise it is refused without touching
    the store, and reported as invalid. *)
Theorem ws_announce_reported {M : Type → Type} {B F N J : Type} `{SyncStringMap M} `{BloomFilter B} `{IPFilter F} `{Json N J}
    `{Charmap} `{Regexp} cfg SubString e c conn msg (st : Websocket.State M B F J) :
  (∃ raw, unmarshal_request msg = Ok raw ∧
    ws_announce_reports SubString c conn msg = [announce_report "websocket" (req_PeerID (ws_request SubString c conn raw))]) ∨
  (∃ err reason, handleWSAnnounce cfg SubString e c conn msg st = (Err err, st) ∧
    ws_announce_reports SubString c conn msg = [invalid_report reason]).
Proof.
  unfold ws_announce_reports, handleWSAnnounce. destruct (unmarshal_request msg) as [raw|err]; [|right; by eexists _, _].
  unfold Http.validAnnounceReq. unfold validAnnounceReq_reports.
  destruct (_ || _); cbn [negb]; [right; by eexists _, _|]. destruct (_ && _); cbn [negb]; [left; by exists raw|right; by eexists _, _].
Qed.

(** *** Shown by the registry that is served *)
Section Served.
Context {CV HV : Type} `{Float64Laws}
  `{!MetricVec CV Z, !MetricVecLaws CV Z (fun _ => 0) counter_step}
  `{!MetricVec HV histogram, !MetricVecLaws HV histogram histogram_zero histogram_step}
  `{PrometheusRegistryLaws} `{Regexp} {S : Type} `{PeerManager S}.
Context (cfg : Config) (range : gmap string collector → registry_object).
Hypothesis range_perm : ∀ m, range m ≡ₚ map_to_list m.

(** The sample of a counter that was raised [n] times. *)
Definition sample (n : nat) : list Z := if (n =? 0)%nat then [] else [Z.of_nat n].

Lemma sum_ones n : foldr Z.add 0 (replicate n 1) = Z.of_nat n.
Proof using Type. induction n as [|n IH]; simpl; lia. Qed.
Lemma sample_ones n : match replicate n 1 with [] => [] | xs => [foldr Z.add 0 xs] end = sample n.
Proof using Type. destruct n as [|n]; [done|]. unfold sample. simpl. rewrite sum_ones. f_equal. lia. Qed.
Lemma how_many_le {A} (f : A → bool) l : (how_many f l ≤ length l)%nat.
Proof using Type. unfold how_many. induction l as [|x l IH]; simpl; [lia|]. destruct (f x); simpl; lia. Qed.

(** C30: Composition of the UDP server with the metrics. With metrics on, from the
    program's start, for any datagrams and ticks of the clean-up in any order:
    every datagram has exactly one outcome; the registry served at /metrics
    counts under each action as many requests, and as many latencies, as
    datagrams got that label, and under each error as many as failed with it. *)
Theorem traffic_counted es srv (s : S) :
  EnableMetrics (Tracker cfg) = true → Z.of_nat (length es) ≤ 2 ^ 53 →
  ∃ ms : metrics CV HV, started cfg range = Some (Some 1%nat, ms) ∧
    let os := outcomes cfg es srv s in
    let ms' := emit_all cfg (run_events cfg es srv s).2 ms in
    length os = how_many is_datagram es ∧
    (∀ a, collect_counter ms' 1 CounterUDPRequest {[LabelAction := a]} = sample (how_many (has_action a) os)) ∧
    (∀ a, map h_count (collect_histogram ms' 1 HistogramLatency {[LabelAction := a]}) = sample (how_many (has_action a) os)) ∧
    (∀ e, collect_counter ms' 1 CounterUDPRequestError (<[LabelReason := e]> {[LabelAction := "unknown"%string]})
          = sample (how_many (failed_with e) os)).
Proof using range_perm H0 H2 MetricVecLaws0 MetricVecLaws1.
  intros He Hn. destruct (metrics_shown (CV := CV) (HV := HV) cfg range range_perm) as [_ Hs].
  destruct (Hs He) as (ms & Hst & Hms). exists ms. split; [done|]. intros os ms'.
  destruct (Hms (run_events cfg es srv s).2) as (_ & Hc & Hh).
  destruct (run_counted cfg es srv s) as (C1 & C2 & C3). fold os in C1, C2, C3.
  assert (length os = how_many is_datagram es) as Hlen by apply outcomes_length. split; [done|].
  assert (∀ f, Z.of_nat (how_many f os) ≤ 2 ^ 53) as Hle.
  { intros f. pose proof (how_many_le f os). pose proof (how_many_le is_datagram es). lia. }
  assert (∀ n : nat, Forall (fun x => 0 ≤ x) (replicate n 1)) as Hpos by (intros n; by apply Forall_replicate).
  split_and!.
  - intros a. change {[LabelAction := a]} with (action_labels a).
    rewrite (Hc CounterUDPRequest [LabelAction]), C1, sample_ones; rewrite ?C1, ?sum_ones; try done. right. left.
  - intros a. change {[LabelAction := a]} with (action_labels a). rewrite Hh.
    + rewrite <- C2. by destruct (observed _ _ _).
    + apply dom_singleton_L.
  - intros e. fold (error_labels e).
    rewrite (Hc CounterUDPRequestError [LabelReason; LabelAction]), C3, sample_ones; rewrite ?C3, ?sum_ones; try done. do 2 right. left.
Qed.
End Served.

(** A connect, an announce over it, a datagram that is too short and one from
    another port. *)
Definition sample_datagram (w : world) (port : Z) (b : bytes) : udp_event :=
  Datagram (mkDatagram w 120 (sample_addr Byte.x01 port) (Ok b) None).
Definition sample_traffic : list udp_event :=
  [sample_datagram sample_world 6881 (request ProtocolID ActionConnect 7 []);
   sample_datagram sample_world 6881 (request 42 ActionAnnounce 8 (encode_packet (sample_packet 2)));
   sample_datagram sample_world 6881 [Byte.x00];
   Tick sample_time;
   sample_datagram sample_world 6882 (request 42 ActionAnnounce 9 (encode_packet (sample_packet 2)))].

Lemma traffic_counted_witness :
  ∃ ms : metrics (sample_vec Z) (sample_vec histogram),
    let ms' := emit_all metrics_cfg (run_events (H0 := sample_peers) metrics_cfg sample_traffic NewUDPServer sample_mux).2 ms in
    collect_counter ms' 1 CounterUDPRequest {[LabelAction := "announce"%string]} = [1] ∧
    collect_counter ms' 1 CounterUDPRequest {[LabelAction := "unknown"%string]} = [2] ∧
    collect_counter ms' 1 CounterUDPRequestError (<[LabelReason := "invalid request"%string]> {[LabelAction := "unknown"%string]}) = [1].
Proof.
  destruct (traffic_counted (CV := sample_vec Z) (HV := sample_vec histogram) (H4 := sample_peers) metrics_cfg map_to_list
    (fun m => Permutation_refl _) sample_traffic NewUDPServer sample_mux) as (ms & _ & _ & Hc & _ & He).
  - reflexivity.
  - vm_compute. discriminate.
  - exists ms. split; [|split].
    + etransitivity; [apply (Hc "announce"%string)|]. vm_compute. reflexivity.
    + etransitivity; [apply (Hc "unknown"%string)|]. vm_compute. reflexivity.
    + etransitivity; [apply (He "invalid request"%string)|]. vm_compute. reflexivity.
Defined.
