(* ===== verification/Service.v ===== *)
(** What runs around the peer manager: the admin routes behind their
    authentication ([biz/router/admin.go], [biz/middleware/admin.go]), the
    interval task ([biz/services/interval]) and the gauges of the metrics
    ([service/metrics/torrent.go]), over any peer manager. *)
From Stdlib Require Import ZArith Lia Bool Strings.String.
From stdpp Require Import base strings list gmap.
From S2P Require Import Prelude GoStd Config Model Common Manager Http Admin.
Set Default Proof Using "Type*".
Local Open Scope Z_scope.

(** ** Authentication and routes *)

(** The middleware in front of the admin handlers, if there is one: given the
    Authorization header, whether it goes on to the handler.  [key] is the
    environment variable ADMIN_KEY. *)
Definition GetAdminAuthMiddleware (key : string) : option (string → bool) :=
  if bool_decide (key ≠ ""%string)
  then let expectedHeader := ("Bearer " ++ key)%string in Some (fun header => bool_decide (header = expectedHeader))
  else None.

(** The admin requests, with what binding makes of them. *)
Inductive admin_request :=
| GetStatisticReq
| PutBanInfoHash (bound : result (list string)) | PutBanPeer (bound : result (list string))
| DeleteBanInfoHash | DeleteBanPeer
| PutBanIP (bound : result (list string)) | DeleteBanIP (bound : result (list string)) | DeleteClearIPBan
| GetFilterStats
| GetInfoHashPeersReq (bound : result string) | DeleteInfoHashReq (bound : result string).
Inductive admin_reply :=
| ReplyText (r : JSON (commonResponse string))
| ReplyStatistic (r : JSON (commonResponse StatisticInfo))
| ReplyFilter (r : JSON (commonResponse IPFilterStats))
| ReplyPeers (r : JSON (commonResponse (list Peer)))
| ReplyUnit (r : JSON (commonResponse unit)).
Definition reply_status (r : admin_reply) : Z :=
  match r with ReplyText r => r.1 | ReplyStatistic r => r.1 | ReplyFilter r => r.1 | ReplyPeers r => r.1 | ReplyUnit r => r.1 end.

Section Service.
Context {S : Type} `{PeerManager S}.

Definition admin_handler `{Charmap} (rq : admin_request) (st : S) : admin_reply * S :=
  match rq with
  | GetStatisticReq => (ReplyStatistic (Statistic st), st)
  | PutBanInfoHash b => let '(r, st) := HandleBanInfoHash b st in (ReplyText r, st)
  | PutBanPeer b => let '(r, st) := HandleBanPeer b st in (ReplyText r, st)
  | DeleteBanInfoHash => let '(r, st) := HandleClearBanInfoHash st in (ReplyText r, st)
  | DeleteBanPeer => let '(r, st) := HandleClearBanPeer st in (ReplyText r, st)
  | PutBanIP b => let '(r, st) := HandleBanIP b st in (ReplyText r, st)
  | DeleteBanIP b => let '(r, st) := HandleUnbanIP b st in (ReplyText r, st)
  | DeleteClearIPBan => let '(r, st) := HandleClearBanIP st in (ReplyText r, st)
  | GetFilterStats => (ReplyFilter (HandleGetIPFilterStats st), st)
  | GetInfoHashPeersReq b => (ReplyPeers (GetInfoHashPeers b st), st)
  | DeleteInfoHashReq b => let '(r, st) := DeleteInfoHash b st in (ReplyUnit r, st)
  end.

(** The group "admin": the middleware first; one that aborts leaves the handler out. *)
Definition RegisterAdminRouter `{Charmap} (key header : string) (rq : admin_request) (st : S) : admin_reply * S :=
  match GetAdminAuthMiddleware key with
  | Some authorized =>
      if authorized header then admin_handler rq st else (ReplyUnit ResponseUnauthorized, st)
  | None => admin_handler rq st
  end.

(** ** The interval task *)

(** The tasks of [taskList] read and change [taskRunning] and the manager; [store]
    is what [StoreToPersist] makes of the manager's state and the files. *)
Context {A : Type} (store : S → A → A).
Record service := mkService { taskRunning : bool; manager : S; stored : A }.

Definition cleanInactivePeer (now : Z) (s : service) : service :=
  mkService (taskRunning s) (pm_Clean now (manager s)).2 (stored s).
(** It only logs. *)
Definition printStatics (s : service) : option (Z * Z) :=
  match pm_GetStatistic (manager s) with Err _ => None | Ok i => Some (TotalPeers i, TotalTorrents i) end.
Definition saveDB (s : service) : service := mkService (taskRunning s) (manager s) (store (manager s) (stored s)).
Definition doIntervalTask (now : Z) (s : service) : service :=
  if taskRunning s then s
  else
    let s := mkService true (manager s) (stored s) in
    let s := saveDB (cleanInactivePeer now s) in
    mkService false (manager s) (stored s).

(** ** The gauges *)

(** [info], [fetchCount] and what the gauges per shard were last set to. *)
Record gauges := mkGauges { info : option StatisticInfo; fetchCount : Z; shard_gauges : gmap string (Z * Z) }.
Definition no_gauges : gauges := mkGauges None 0 ∅.
Definition set_shards (i : StatisticInfo) (g : gmap string (Z * Z)) : gmap string (Z * Z) :=
  fold_left (fun g '(s, v) => <[s := v]> g) (Shards i) g.

(** The function behind "torrents_total"; an error leaves [info] nil. *)
Definition torrents_total (st : S) (g : gauges) : Z * gauges :=
  if match info g with None => true | Some _ => fetchCount g =? 20 end then
    match pm_GetStatistic st with
    | Err _ => (0, mkGauges None (fetchCount g) (shard_gauges g))
    | Ok i => (TotalTorrents i, mkGauges (Some i) 0 (set_shards i (shard_gauges g)))
    end
  else
    match info g with
    | None => (0, g)
    | Some i => (TotalTorrents i, mkGauges (Some i) (u32 (fetchCount g + 1)) (set_shards i (shard_gauges g)))
    end.
(** Collections one after another. *)
Fixpoint collections (l : list S) (g : gauges) : list Z * gauges :=
  match l with
  | [] => ([], g)
  | st :: l => let '(v, g) := torrents_total st g in let '(vs, g) := collections l g in (v :: vs, g)
  end.

(** The statistics are fetched at the first collection, and then at every
    twenty-first one, as long as the manager answers. *)
Lemma collections_from l g n st i :
  Forall (fun st => ∃ i, pm_GetStatistic st = Ok i) l →
  info g = Some i → 0 ≤ fetchCount g ≤ 20 → l !! n = Some st →
  (collections l g).1 !! n =
    if Z.of_nat n <? 20 - fetchCount g then Some (TotalTorrents i)
    else match l !! Z.to_nat (20 - fetchCount g + 21 * ((Z.of_nat n - (20 - fetchCount g)) / 21)) with
         | Some st' => match pm_GetStatistic st' with Ok i' => Some (TotalTorrents i') | Err _ => None end
         | None => None
         end.
Proof using Type.
  intros Hl. revert g n i. induction Hl as [|st0 l (i0 & Hi0) Hl IH]; intros g n i Hi Hc Hn; [done|].
  cbn [collections]. unfold torrents_total. rewrite Hi. destruct (Z.eqb_spec (fetchCount g) 20) as [E|E].
  - rewrite E, Hi0. set (g' := mkGauges _ _ _).
    change (20 - 20) with 0. rewrite (proj2 (Z.ltb_ge (Z.of_nat n) 0)) by lia. rewrite Z.add_0_l, Z.sub_0_r.
    destruct n as [|n].
    { change (Z.to_nat (21 * (Z.of_nat 0 / 21))) with O. destruct (collections l g'). cbn [lookup list_lookup fst]. by rewrite Hi0. }
    cbn in Hn. specialize (IH g' n i0 eq_refl ltac:(cbn; lia) Hn). cbn [fetchCount g'] in IH.
    destruct (collections l g') as [vs g2]. cbn [fst] in *. etransitivity; [exact IH|].
    change (20 - 0) with 20. destruct (Z.ltb_spec (Z.of_nat n) 20) as [Hlt|Hge].
    + rewrite Z.div_small by lia. change (Z.to_nat (21 * 0)) with O. cbn [lookup list_lookup]. by rewrite Hi0.
    + assert (Z.of_nat (Datatypes.S n) / 21 = (Z.of_nat n - 20) / 21 + 1) as ->.
      { rewrite <- Z.div_add by lia. f_equal. lia. }
      set (q := (Z.of_nat n - 20) / 21). assert (0 ≤ q) by (apply Z.div_pos; lia).
      replace (Z.to_nat (21 * (q + 1))) with (Datatypes.S (Z.to_nat (20 + 21 * q))) by lia. done.
  - assert (u32 (fetchCount g + 1) = fetchCount g + 1) as Hu by (unfold u32, wrap_u; rewrite Z.mod_small; lia).
    set (g' := mkGauges _ _ _). destruct n as [|n].
    { rewrite (proj2 (Z.ltb_lt (Z.of_nat 0) _)) by lia. by destruct (collections l g'). }
    cbn in Hn. specialize (IH g' n i eq_refl ltac:(cbn; lia) Hn). cbn [fetchCount g'] in IH. rewrite Hu in IH.
    destruct (collections l g') as [vs g2]. cbn [fst] in *. etransitivity; [exact IH|].
    destruct (Z.ltb_spec (Z.of_nat n) (20 - (fetchCount g + 1))), (Z.ltb_spec (Z.of_nat (Datatypes.S n)) (20 - fetchCount g)); [done|lia..|].
    replace (Z.of_nat (Datatypes.S n) - (20 - fetchCount g)) with (Z.of_nat n - (20 - (fetchCount g + 1))) by lia.
    set (q := _ / 21). assert (0 ≤ q) by (apply Z.div_pos; lia).
    replace (Z.to_nat (20 - fetchCount g + 21 * q)) with (Datatypes.S (Z.to_nat (20 - (fetchCount g + 1) + 21 * q))) by lia. done.
Qed.
End Service.
Arguments service : clear implicits.
