(* ===== verification/ServiceSpec.v ===== *)
(** What the admin routes and the gauges promise: nothing without the key, a
    ban that was confirmed holds, and totals that are at most twenty collections old. *)
From Stdlib Require Import ZArith Lia Bool Strings.String.
From stdpp Require Import base strings list gmap relations.
From S2P Require Import Prelude GoStd Config Model Common Samples Mapx Local LocalTable BanItem IPFilter Ban Manager Mux MuxSpec Http Admin Service.
Set Default Proof Using "Type*".
Local Open Scope Z_scope.

Section Gauges.
Context {S : Type} `{PeerManager S}.

(** While the manager answers, the n-th collection of the metrics reports the
    number of torrents at collection 21 * (n / 21): the statistics are fetched at
    the first collection and at every twenty-first after it, and never twice in
    between. *)
Theorem gauge_fetches (l : list S) n st :
  Forall (fun st => ∃ i, pm_GetStatistic st = Ok i) l → l !! n = Some st →
  ∃ st' i, l !! (21 * (n / 21))%nat = Some st' ∧ pm_GetStatistic st' = Ok i ∧
    (collections l no_gauges).1 !! n = Some (TotalTorrents i).
Proof.
  intros Hl Hn. set (any := mkStatisticInfo 0 0 []).
  assert ((collections l no_gauges).1 = (collections l (mkGauges (Some any) 20 ∅)).1) as ->.
  { destruct Hl as [|st0 l (i0 & Hi0) Hl]; [done|]. cbn [collections]. unfold torrents_total. cbn [info no_gauges fetchCount shard_gauges].
    by rewrite Hi0. }
  rewrite (collections_from l _ n st any) by (done || cbn; lia). cbn [fetchCount].
  rewrite (proj2 (Z.ltb_ge (Z.of_nat n) _)) by lia.
  replace (Z.to_nat (20 - 20 + 21 * ((Z.of_nat n - (20 - 20)) / 21))) with (21 * (n / 21))%nat.
  2: { change (20 - 20) with 0. rewrite Z.sub_0_r, Z.add_0_l.
       change 21 with (Z.of_nat 21). rewrite <- Nat2Z.inj_div, <- Nat2Z.inj_mul. by rewrite Nat2Z.id. }
  pose proof (Nat.Div0.mul_div_le n 21). apply lookup_lt_Some in Hn.
  destruct (lookup_lt_is_Some_2 l (21 * (n / 21))%nat) as [st' Hst']; [lia|].
  destruct (proj1 (Forall_forall _ _) Hl st') as [i Hi]; [by eapply list_elem_of_lookup_2|].
  exists st', i. rewrite Hst', Hi. done.
Qed.
End Gauges.

(** ** The admin routes over the sharded manager *)
Section Admin.
Context {M : Type → Type} {B F : Type} `{SyncStringMapLaws M} `{BloomFilterLaws B} `{IPFilterLaws F} `{Charmap}.
Context (cfg : Config) (o : io) (cached : string → option ScrapeFile).
Implicit Types (m : MuxLocalManager M B F).
Local Notation admin_router := (RegisterAdminRouter (H := mux_manager cfg o cached)).

Definition authorized (key header : string) : Prop := key = ""%string ∨ header = ("Bearer " ++ key)%string.

Lemma router_authorized key header rq m :
  (authorized key header ∧ admin_router key header rq m = @admin_handler _ (mux_manager cfg o cached) _ rq m) ∨
  (¬ authorized key header ∧ admin_router key header rq m = (ReplyUnit ResponseUnauthorized, m)).
Proof.
  unfold RegisterAdminRouter, GetAdminAuthMiddleware, authorized. case_bool_decide as Hk.
  - case_bool_decide as Hh; [left|right]; (split; [|done]); [by right|]. by intros [?|?].
  - left. split; [|done]. left. destruct (decide (key = ""%string)); [done|]. by destruct Hk.
Qed.

(** Bans one after another: all of them hold once the last has succeeded. *)
Lemma for_each_keeps f l ih m r m' :
  banned ih m → for_each (fun x => Mux.BanInfoHash o (f x)) l m = (r, m') → banned ih m'.
Proof using Type* cfg cached.
  revert m. induction l as [|x l IH]; intros m Hb; cbn [for_each]; [by intros [= <- <-]|].
  assert (banned ih (Mux.BanInfoHash o (f x) m).2) as Hb1.
  { unfold banned. rewrite (proj2 (BanInfoHash_step cfg o (f x) m)). by apply add_keeps. }
  destruct (Mux.BanInfoHash o (f x) m) as [[[]|e] m1]; cbn [snd] in Hb1; [by apply IH|]. by intros [= <- <-].
Qed.

Lemma for_each_bans f l m m' :
  whole (infoHash (ban m)) → Forall (fun x => short (bytes_of_string (f x))) l →
  for_each (fun x => Mux.BanInfoHash o (f x)) l m = (Ok tt, m') →
  ∀ x, x ∈ l → banned (f x) m'.
Proof using Type* cfg cached.
  intros Hw Hl. revert m Hw. induction Hl as [|x l Hx Hl IH]; intros m Hw; cbn [for_each].
  { by intros _ x ?%not_elem_of_nil. }
  pose proof (BanInfoHash_banned cfg o (f x) m Hw Hx) as Hb.
  destruct (Mux.BanInfoHash o (f x) m) as [[[]|e] m1]; cbn [fst snd] in *; [|done].
  destruct (Hb eq_refl) as [Hb1 Hw1]. intros E y [->|Hy]%elem_of_cons; [by eapply for_each_keeps|by apply (IH m1)].
Qed.

(** C29: Any admin request whose Authorization header is not the configured key
    is answered with 401 and changes nothing.  With the right header (or without
    a key) a request to ban info hashes on a ban file of whole lines, once
    answered with 200, has them all banned: from then on, until the bans are
    cleared, every announce of one of those torrents (its 20 bytes as Latin-1
    text) is refused and changes nothing. *)
Theorem admin_bans_enforced key header :
  (∀ rq m, ¬ authorized key header →
     let '(reply, m1) := admin_router key header rq m in reply_status reply = 401 ∧ m1 = m) ∧
  ∀ l m m',
    whole (infoHash (ban m)) → Forall (fun h => short (bytes_of_string (utf8_to_8859_1 h))) l →
    let '(reply, m1) := admin_router key header (PutBanInfoHash (Ok l)) m in
    reply_status reply = 200 → rtc (mux_step cfg cached (fun _ => True) False) m1 m' →
    ∀ h now now' (req : AnnounceRequest), h ∈ l → req_InfoHash req = utf8_to_8859_1 h →
      String.length (req_InfoHash req) = 20%nat →
      Mux.HandleAnnouncePeer cfg now now' req m' = (Err "banned info_hash"%string, m').
Proof.
  split.
  { intros rq m Ha. destruct (router_authorized key header rq m) as [[? _]|[_ ->]]; [done|by split]. }
  intros l m m' Hb Hl. destruct (router_authorized key header (PutBanInfoHash (Ok l)) m) as [[Ha ->]|[Ha ->]]; [|done].
  cbn [admin_handler]. unfold HandleBanInfoHash, handle_list. destruct l as [|h0 l0]; [done|]. set (l := h0 :: l0) in *.
  destruct (for_each _ l m) as [r m1] eqn:E. destruct r as [[]|e]; [|done].
  pose proof (for_each_bans utf8_to_8859_1 l m m1 Hb Hl E) as Hin.
  intros _ Hm' h now now' req Hh Hreq Hlen.
  unfold Mux.HandleAnnouncePeer. erewrite check_banned; [done| | |exact Hreq].
  - eapply mux_steps_keep_bans; [exact Hm'|]. by apply Hin.
  - rewrite <- Hreq, <- Hlen. apply length_bytes_of_string.
Qed.

(** A round of the interval task that finds none running: the flag is down
    again, the manager has taken one step, and what is stored is what is left. *)
Lemma doIntervalTask_round {A : Type} (store : MuxLocalManager M B F → A → A) num b now (s : service _ A) :
  taskRunning s = false → mux_reachable cfg cached num b (manager s) →
  let s' := doIntervalTask (H := mux_manager cfg o cached) store now s in
  taskRunning s' = false ∧ mux_reachable cfg cached num b (manager s') ∧ stored s' = store (manager s') (stored s).
Proof using Type*.
  intros Hs Hm. unfold doIntervalTask. rewrite Hs. cbv zeta. cbn. split_and!; [done| |done].
  eapply rtc_r; [exact Hm|]. apply mux_Clean.
Qed.
End Admin.

(** ** The routes at work *)
Definition admin_put (header : string) (hashes : list string) (m : MuxLocalManager Skip (list bytes) fallbackIPFilter) :=
  RegisterAdminRouter (H := mux_manager (sample_cfg 400) io_ok (fun _ => None)) "secret" header (PutBanInfoHash (Ok hashes)) m.

(** The right key bans torrent A, whose peer P then cannot come back; the wrong
    key does nothing. *)
Lemma admin_bans_enforced_witness :
  reply_status (admin_put "Bearer secret" [hash_a] two_torrents).1 = 200 ∧
  announce_to hash_a "P" (admin_put "Bearer secret" [hash_a] two_torrents).2
  = (Err "banned info_hash"%string, (admin_put "Bearer secret" [hash_a] two_torrents).2) ∧
  reply_status (admin_put "secret" [hash_a] two_torrents).1 = 401 ∧ (admin_put "secret" [hash_a] two_torrents).2 = two_torrents.
Proof.
  assert (whole (infoHash (ban two_torrents))) as Hb by (exists []; split; [vm_compute; reflexivity|constructor]).
  assert (Forall (fun h => short (bytes_of_string (utf8_to_8859_1 h))) [hash_a]) as Hs.
  { apply Forall_singleton, hash_short. vm_compute. reflexivity. }
  assert (reply_status (admin_put "Bearer secret" [hash_a] two_torrents).1 = 200) as Hr by (vm_compute; reflexivity).
  split; [exact Hr|]. split.
  - pose proof (proj2 (admin_bans_enforced (sample_cfg 400) io_ok (fun _ => None) "secret" "Bearer secret") [hash_a] two_torrents
      (admin_put "Bearer secret" [hash_a] two_torrents).2 Hb Hs) as Hc.
    unfold admin_put in *. destruct (RegisterAdminRouter _ _ _ _) as [reply m1]. cbn [fst snd] in *.
    apply (Hc Hr (rtc_refl _ _) hash_a); [left|vm_compute; reflexivity|reflexivity].
  - assert (¬ authorized "secret" "secret") as Hn by (intros [?|?]; discriminate).
    pose proof (proj1 (admin_bans_enforced (sample_cfg 400) io_ok (fun _ => None) "secret" "secret")
      (PutBanInfoHash (Ok [hash_a])) two_torrents Hn) as Hc.
    unfold admin_put. by destruct (RegisterAdminRouter _ "secret" _ _).
Defined.

Lemma gauge_fetches_witness :
  (collections (H := mux_manager (sample_cfg 400) io_ok (fun _ => None)) [sample_mux; two_torrents] no_gauges).1 = [0; 0].
Proof.
  assert (Forall (fun st => ∃ i, @pm_GetStatistic _ (mux_manager (sample_cfg 400) io_ok (fun _ => None)) st = Ok i)
    [sample_mux; two_torrents]) as Hf by (apply Forall_cons; split; [eexists; reflexivity|apply Forall_singleton; eexists; reflexivity]).
  destruct (gauge_fetches (H := mux_manager (sample_cfg 400) io_ok (fun _ => None)) [sample_mux; two_torrents] 1 two_torrents Hf)
    as (st' & i & Hst & Hi & Hv); [reflexivity|]. injection Hst as <-. vm_compute in Hi. injection Hi as <-.
  destruct (collections _ _) as [vs g] eqn:E in Hv |- *. cbn [fst] in *.
  assert (vs !! 0%nat = Some 0 ∧ length vs = 2%nat) as [Hv0 Hl].
  { apply (f_equal fst) in E. cbn [fst] in E. subst vs. split; vm_compute; reflexivity. }
  destruct vs as [|a [|b [|]]]; try discriminate Hl. injection Hv as ->. by injection Hv0 as ->.
Defined.
