(* ===== verification/Boot.v ===== *)
(** Start and stop of the program ([main.go], [init.go], [router.go],
    [biz/services/peer/manager.go]): which parts run under which configuration,
    the peer manager of each mode behind one interface, the options and the
    middleware of the HTTP server, and what a stop saves. *)
From Stdlib Require Import ZArith Lia Bool Strings.String.
From stdpp Require Import base strings list gmap.
From S2P Require Import Prelude GoStd Config Model Common Mapx Websocket BanItem IPFilter Ban Manager Mux Persist Bencode Http Service Metrics.
Set Default Proof Using "Type*".
Local Open Scope Z_scope.
Local Open Scope go_scope.

(** The data source the database is opened with. *)
Definition InitDB (endpoint : databaseConfig) : string :=
  (db_User endpoint ++ ":" ++ db_Pass endpoint ++ "@tcp(" ++ db_Host endpoint ++ ":" ++ Itoa (db_Port endpoint) ++ ")/"
   ++ db_Database endpoint ++ "?charset=utf8mb4&loc=Local&parseTime=True")%string.

Section Boot.
Context {M : Type → Type} {B F J : Type} `{SyncStringMap M} `{BloomFilter B} `{IPFilter F} `{StoreCodec}.
Context {D R : Type} `{PeerManager D} `{PeerManager R} {CV HV : Type} `{MetricVec CV Z} `{MetricVec HV histogram} `{PrometheusRegistry}.
Context (cfg : Config) (o : io) (cached : string → option ScrapeFile) (range : gmap string collector → registry_object).
Notation tracker := (Tracker cfg).
Local Notation mux := (mux_manager (M := M) (B := B) (F := F) cfg o cached).

(** ** The variable [manager]: one of three implementations behind the interface *)
Inductive app_manager :=
| MemoryManager (m : MuxLocalManager M B F)
| DatabaseManager (d : D)
| RemoteManager (r : R).

Definition lift {A} (f : MuxLocalManager M B F → A * MuxLocalManager M B F) (g : D → A * D) (h : R → A * R)
    (a : app_manager) : A * app_manager :=
  match a with
  | MemoryManager m => let '(x, m) := f m in (x, MemoryManager m)
  | DatabaseManager d => let '(x, d) := g d in (x, DatabaseManager d)
  | RemoteManager r => let '(x, r) := h r in (x, RemoteManager r)
  end.
Definition change (f : MuxLocalManager M B F → MuxLocalManager M B F) (g : D → D) (h : R → R) (a : app_manager) : app_manager :=
  match a with
  | MemoryManager m => MemoryManager (f m)
  | DatabaseManager d => DatabaseManager (g d)
  | RemoteManager r => RemoteManager (h r)
  end.
Definition ask {A} (f : MuxLocalManager M B F → A) (g : D → A) (h : R → A) (a : app_manager) : A :=
  match a with MemoryManager m => f m | DatabaseManager d => g d | RemoteManager r => h r end.

#[export] Instance app_peer_manager : PeerManager app_manager := {|
  pm_HandleAnnouncePeer now now' req :=
    lift (pm_HandleAnnouncePeer (PeerManager := mux) now now' req) (pm_HandleAnnouncePeer now now' req) (pm_HandleAnnouncePeer now now' req);
  pm_Scrape now ih := lift (pm_Scrape (PeerManager := mux) now ih) (pm_Scrape now ih) (pm_Scrape now ih);
  pm_Clean now := lift (pm_Clean (PeerManager := mux) now) (pm_Clean now) (pm_Clean now);
  pm_GetStatistic := ask (pm_GetStatistic (PeerManager := mux)) pm_GetStatistic pm_GetStatistic;
  pm_BanInfoHash ih := lift (pm_BanInfoHash (PeerManager := mux) ih) (pm_BanInfoHash ih) (pm_BanInfoHash ih);
  pm_BanPeer id := lift (pm_BanPeer (PeerManager := mux) id) (pm_BanPeer id) (pm_BanPeer id);
  pm_ClearBanInfoHash := change (pm_ClearBanInfoHash (PeerManager := mux)) pm_ClearBanInfoHash pm_ClearBanInfoHash;
  pm_ClearBanPeer := change (pm_ClearBanPeer (PeerManager := mux)) pm_ClearBanPeer pm_ClearBanPeer;
  pm_GetPeers ih := ask (pm_GetPeers (PeerManager := mux) ih) (pm_GetPeers ih) (pm_GetPeers ih);
  pm_DeleteInfoHash ih := lift (pm_DeleteInfoHash (PeerManager := mux) ih) (pm_DeleteInfoHash ih) (pm_DeleteInfoHash ih);
  pm_BanIP s := lift (pm_BanIP (PeerManager := mux) s) (pm_BanIP s) (pm_BanIP s);
  pm_UnbanIP s := lift (pm_UnbanIP (PeerManager := mux) s) (pm_UnbanIP s) (pm_UnbanIP s);
  pm_ClearBanIP := lift (pm_ClearBanIP (PeerManager := mux)) pm_ClearBanIP pm_ClearBanIP;
  pm_GetIPFilterStats := ask (pm_GetIPFilterStats (PeerManager := mux)) pm_GetIPFilterStats pm_GetIPFilterStats;
|}.

(** [StoreToPersist]: only the in-memory manager writes anything. *)
Definition app_StoreToPersist (mkdir_ok : bool) (env : nat → file_env) (a : app_manager) (fs : files) : files :=
  match a with MemoryManager m => StoreToPersist cfg mkdir_ok env m fs | _ => fs end.

(** ** [InitPeerManager] *)

(** What the outside gives the start: the producer, the two ban files, the
    address filter, the clock, buffers and locks of loading, and the connections
    of the other two modes.  An [Err] is a panic. *)
Record boot_env := mkBootEnv
  { be_producer : result unit; be_banInfoHash : result bytes; be_banPeerId : result bytes; be_IPFilter : string → result F;
    be_now : Z; be_bufs : buffers; be_load : load_env; be_db : string → result D; be_rpc : string → result R }.

(** [NewMuxLocalManager] with the ban manager it makes. *)
Definition new_memory_manager (e : boot_env) (num : Z) : result (MuxLocalManager M B F) :=
  if num <? 0 then Err "makeslice: cap out of range"%string
  else
    let iface := if xdp_Enable (XDP tracker) && negb (bool_decide (xdp_Interface (XDP tracker) = ""%string))
                 then xdp_Interface (XDP tracker) else ""%string in
    banManager <-! NewBanManagerWithIP (be_banInfoHash e) (be_banPeerId e) (be_IPFilter e iface);
    Ok (NewMuxLocalManager num banManager).

Definition InitPeerManager (e : boot_env) (fs : files) : result (app_manager * files) :=
  if bool_decide (Mode tracker = RunningModeMemory) then
    m <-! new_memory_manager e (Shard (Memory tracker));
    match LoadFromPersist cfg (be_now e) (be_bufs e) (be_load e) fs m with
    | Some (m, fs) => Ok (MemoryManager m, fs)
    | None => Err "slice bounds out of range"%string
    end
  else if bool_decide (Mode tracker = RunningModeDB) then d <-! be_db e (InitDB (Database tracker)); Ok (DatabaseManager d, fs)
  else if bool_decide (Mode tracker = RunningModeRPC) then r <-! be_rpc e (rpc_RemoteServer (RPC tracker)); Ok (RemoteManager r, fs)
  else Err "unknown tracker mode"%string.

(** [websocket.InitWSMuxLocalManager], with [ban.NewBanManager]: it reads the
    same two ban files and asks for no network interface. *)
Definition InitWSMuxLocalManager (e : boot_env) : result (Websocket.State M B F J) :=
  if ws_Shard (WSServer tracker) <? 0 then Err "makeslice: cap out of range"%string
  else
    banManager <-! NewBanManagerWithIP (be_banInfoHash e) (be_banPeerId e) (be_IPFilter e ""%string);
    Ok (NewWSMuxLocalManager (ws_Shard (WSServer tracker)) banManager).

(** ** [Init] *)

(** The listeners the program starts. *)
Inductive listener :=
| PprofListener (addr : string)
| UDPListener (addr : string)
| RPCListener (addr : string)
| HTTPListener (addr : string) (unix : bool)
| MetricsListener (addr : string) (registry : option nat).

(** The running program: its manager, its metrics, the WebTorrent store if it
    has one, whether events are produced and scrapes cached, its
    listeners in the order they are started, and the files. *)
Record program := mkProgram
  { pr_manager : app_manager; pr_metrics : metrics CV HV; pr_websocket : option (Websocket.State M B F J); pr_producer : bool; pr_cache : bool;
    pr_listeners : list listener; pr_files : files }.

Definition initPprof : list listener :=
  if 0 <? DebugPort tracker then [PprofListener ("localhost:" ++ Itoa (DebugPort tracker))%string] else [].
Definition initUDPServer : list listener := [UDPListener ("udp://" ++ udp_HostPorts (UDPServer tracker))%string].

Definition Init (e : boot_env) (fs : files) : result program :=
  producer <-! (if EnableEventProducer tracker then be_producer e else Ok tt);
  websocket <-! (if ws_Enable (WSServer tracker) then ws <-! InitWSMuxLocalManager e; Ok (Some ws) else Ok None);
  match Metrics.Init cfg range no_metrics with
  | None => Err "duplicate metrics collector registration attempted"%string
  | Some ms =>
      init <-! InitPeerManager e fs;
      Ok {| pr_manager := init.1; pr_metrics := ms;
            pr_websocket := websocket;
            pr_producer := EnableEventProducer tracker; pr_cache := redis_Enable (Cache cfg);
            pr_listeners := initPprof ++ (if udp_Enable (UDPServer tracker) then initUDPServer else [])
              ++ (if rpc_EnableServer (RPC tracker) then [RPCListener (rpc_HostPorts (RPC tracker))] else []);
            pr_files := init.2 |}
  end.

(** ** [main] *)
Inductive server_option :=
| WithHostPorts (s : string) | WithExitWaitTime (d : Z) | WithTracer (addr : string) (registry : option nat) | WithNetwork (s : string).

(** The registry is asked for only if metrics are on. *)
Definition getServerOption (p : program) : result (list server_option * metrics CV HV) :=
  tracer <-! (if EnableMetrics tracker then
                match GetRegistry cfg range (pr_metrics p) with
                | Some (r, ms) => Ok ([WithTracer (MetricsHostPorts tracker) r], ms)
                | None => Err "duplicate metrics collector registration attempted"%string
                end
              else Ok ([], pr_metrics p));
  Ok ([WithHostPorts (HostPorts tracker); WithExitWaitTime Minute] ++ tracer.1
        ++ (if UseUnixSocket tracker then [WithNetwork "unix"] else []), tracer.2).

(** The listeners the options of the HTTP server stand for. *)
Definition option_listeners (opts : list server_option) : list listener :=
  let unix := existsb (fun o => match o with WithNetwork s => bool_decide (s = "unix"%string) | _ => false end) opts in
  flat_map (fun o => match o with
    | WithHostPorts s => [HTTPListener s unix] | WithTracer a r => [MetricsListener a r] | _ => [] end) opts.

(** The program when [main] reaches [Spin]. *)
Definition main (e : boot_env) (fs : files) : result program :=
  p <-! Init e fs;
  opts <-! getServerOption p;
  Ok (mkProgram (pr_manager p) opts.2 (pr_websocket p) (pr_producer p) (pr_cache p)
        (pr_listeners p ++ option_listeners opts.1) (pr_files p)).

(** The function added to [OnShutdown]. *)
Definition OnShutdown (mkdir_ok : bool) (env : nat → file_env) (p : program) : files :=
  app_StoreToPersist mkdir_ok env (pr_manager p) (pr_files p).

(** One round of the interval task on the program's manager and files. *)
Definition interval_round (mkdir_ok : bool) (env : nat → file_env) (now : Z) (p : program) : program :=
  let s := doIntervalTask (app_StoreToPersist mkdir_ok env) now (mkService false (pr_manager p) (pr_files p)) in
  mkProgram (Service.manager s) (pr_metrics p) (pr_websocket p) (pr_producer p) (pr_cache p) (pr_listeners p) (stored s).
(** The loop of the interval task, for the ticks that come. *)
Definition StartIntervalTask (mkdir_ok : bool) (env : nat → file_env) (ticks : list Z) (p : program) : program :=
  fold_left (fun p now => interval_round mkdir_ok env now p) ticks p.
End Boot.

(** ** [router.go] *)
Inductive http_handler := PingHandler | AnnounceHandler | ScrapeHandler.
(** The public routes; the admin ones are [Service.RegisterAdminRouter]. *)
Definition customizedRegister : list (string * string * http_handler) :=
  [("HEAD", "/ping", PingHandler); ("GET", "/ping", PingHandler); ("GET", "/announce", AnnounceHandler);
   ("GET", "/scrape", ScrapeHandler)]%string.

(** ** The middleware ([middleware/limit.go], [middleware/log.go]) *)
Section Middleware.
Context {L S A : Type}.

(** The limiter is third-party: whether it lets a request in, and what it does
    when the request is done. *)
Definition AdaptiveLimit (Allow : L → result unit * L) (done : L → L) (Marshal : render_data → result bytes) (tracker_id : string)
    (next : S → A * S) (l : L) (s : S) : (http_reply + A) * L * S :=
  let '(r, l) := Allow l in
  match r with
  | Err _ => (inl (ResponseErrWithRetry Marshal tracker_id "too many request"), l, s)
  | Ok _ => let '(a, s) := next s in (inr a, done l, s)
  end.

Definition Millisecond : Z := 1000000.
Definition slowTime (cfg : Config) : Z :=
  if bool_decide (Mode (Tracker cfg) = RunningModeMemory) then 100 * Millisecond else 3 * Second.
(** The answer, and whether the request is logged; [now] and [now'] are read
    before and after it. *)
Definition LogSlowQuery (cfg : Config) (now now' : Z) (next : S → A * S) (s : S) : A * bool * S :=
  let '(a, s) := next s in (a, slowTime cfg <? now' - now, s).
End Middleware.
