(* ===== verification/BootSpec.v ===== *)
(** What a start and a stop of the program guarantee: every part the
    configuration names runs, and a crash loses nothing that was saved. *)
From Stdlib Require Import ZArith Lia Bool Strings.String.
From stdpp Require Import base strings list gmap relations.
From S2P Require Import Prelude GoStd Config Model Common Samples Mapx Websocket Local LocalTable BanItem IPFilter Ban Manager Mux MuxSpec Idl Persist PersistSpec Http Service Metrics MetricsSpec Boot.
Set Default Proof Using "Type*".
Local Open Scope Z_scope.

Section Boot.
Context {M : Type → Type} {B F J : Type} `{SyncStringMapLaws M} `{BloomFilterLaws B} `{IPFilterLaws F} `{StoreCodecLaws}.
Context {D R : Type} `{PeerManager D} `{PeerManager R} {CV HV : Type} `{Float64Laws}
  `{!MetricVec CV Z, !MetricVecLaws CV Z (fun _ => 0) counter_step}
  `{!MetricVec HV histogram, !MetricVecLaws HV histogram histogram_zero histogram_step}
  `{PrometheusRegistryLaws}.
Context (cfg : Config) (o : io) (cached : string → option ScrapeFile) (range : gmap string collector → registry_object).
Hypothesis range_perm : ∀ m, range m ≡ₚ map_to_list m.
Local Notation file := (PersistFile (Memory (Tracker cfg))).
Local Notation program := (program (M := M) (B := B) (F := F) (J := J) (D := D) (R := R) (CV := CV) (HV := HV)).
Local Notation boot_env := (boot_env (F := F) (D := D) (R := R)).
Implicit Types (m : MuxLocalManager M B F) (fs : files) (p : program) (e : boot_env).

(** *** Saving over an earlier save *)
Lemma store_files_overwrite (ws : list (State M)) n fs1 fs2 :
  (∀ name, (∀ i, (i < length ws)%nat → name ≠ persist_name file (n + i)) → fs1 !! name = fs2 !! name) →
  store_files cfg good_files n ws fs1 = store_files cfg good_files n ws fs2.
Proof using Type.
  revert n fs1 fs2. induction ws as [|w ws IH]; intros n fs1 fs2 Hfs; cbn [store_files].
  - apply map_eq. intros name. apply Hfs. simpl. lia.
  - apply IH. intros name Hname. unfold store_file, good_files. cbn [f_lock f_open f_flush f_write].
    destruct (decide (name = persist_name file n)) as [->|Hne]; [by rewrite !lookup_insert_eq|].
    rewrite !lookup_insert_ne by done. apply Hfs. intros [|i] Hi; [by rewrite Nat.add_0_r|].
    rewrite Nat.add_succ_r. apply (Hname i). simpl in Hi. lia.
Qed.

(** The files that are not of the persistence. *)
Definition other_files fs : files := base.filter (fun e : string * bytes => negb (glob_match file e.1)) fs.

Lemma other_files_other fs name : is_Some (other_files fs !! name) → glob_match file name = false.
Proof using Type. intros [c Hc]. apply map_lookup_filter_Some in Hc as [_ Hc]. simpl in Hc. by apply Is_true_true, negb_true_iff in Hc. Qed.

Lemma StoreToPersist_again m fs :
  EnablePersist (Memory (Tracker cfg)) = true →
  (∀ name, is_Some (fs !! name) → glob_match file name = true → ∃ i, (i < length (localList m))%nat ∧ name = persist_name file i) →
  StoreToPersist cfg true good_files m fs = StoreToPersist cfg true good_files m (other_files fs).
Proof using Type.
  intros Hen Hfs. unfold StoreToPersist. rewrite Hen. cbn [negb]. apply store_files_overwrite. intros name Hname.
  unfold other_files. destruct (fs !! name) as [c|] eqn:Hc.
  - symmetry. apply map_lookup_filter_Some. split; [done|]. simpl. apply Is_true_true, negb_true_iff.
    destruct (glob_match file name) eqn:Hg; [|done]. destruct (Hfs name) as (i & Hi & ->); [by eexists|done|].
    by destruct (Hname i Hi).
  - symmetry. apply map_lookup_filter_None. by left.
Qed.

(** *** A start *)
(** The start's own requests all succeed. *)
Definition env_ok e : Prop :=
  be_producer e = Ok tt ∧ is_ok (newBanItem (B := B) (be_banInfoHash e)) = true ∧ is_ok (newBanItem (B := B) (be_banPeerId e)) = true ∧
  (∀ iface, is_ok (be_IPFilter e iface) = true) ∧ (ws_Enable (WSServer (Tracker cfg)) = true → 0 ≤ ws_Shard (WSServer (Tracker cfg))) ∧ be_load e = good_load ∧ buffers_ok (be_bufs e).

Lemma new_memory_manager_ok e num :
  env_ok e → 0 ≤ num → ∃ b, new_memory_manager cfg e num = Ok (NewMuxLocalManager (M := M) num b).
Proof using Type.
  intros (_ & Hb1 & Hb2 & Hf & _ & _) Hn. unfold new_memory_manager. rewrite (proj2 (Z.ltb_ge _ _) Hn).
  unfold NewBanManagerWithIP. destruct (newBanItem (be_banInfoHash e)); [|done]. destruct (newBanItem (be_banPeerId e)); [|done].
  specialize (Hf (if xdp_Enable (XDP (Tracker cfg)) && negb (bool_decide (xdp_Interface (XDP (Tracker cfg)) = ""%string))
                  then xdp_Interface (XDP (Tracker cfg)) else ""%string)).
  cbn [res_bind]. destruct (be_IPFilter e _); [|done]. cbn [res_bind]. by eexists.
Qed.

(** The WebTorrent store starts empty, with the configured shards. *)
Definition websocket_ready e (ws : option (Websocket.State M B F J)) : Prop :=
  if ws_Enable (WSServer (Tracker cfg))
  then ∃ b, NewBanManagerWithIP (be_banInfoHash e) (be_banPeerId e) (be_IPFilter e ""%string) = Ok b ∧
       ws = Some (NewWSMuxLocalManager (ws_Shard (WSServer (Tracker cfg))) b)
  else ws = None.
Definition websocket_fails e : Prop :=
  ws_Enable (WSServer (Tracker cfg)) = true ∧ is_ok (InitWSMuxLocalManager (M := M) (B := B) (J := J) cfg e) = false.

Lemma websocket_start e :
  match (if ws_Enable (WSServer (Tracker cfg)) then res_bind (fun ws => Ok (Some ws)) (InitWSMuxLocalManager cfg e) else Ok None) with
  | Ok ws => websocket_ready e ws
  | Err _ => websocket_fails e
  end.
Proof using Type.
  unfold websocket_ready, websocket_fails. destruct (ws_Enable _); [|done]. unfold InitWSMuxLocalManager.
  destruct (_ <? 0); [done|]. destruct (NewBanManagerWithIP _ _ _) as [b|]; [|done]. cbn [res_bind]. by exists b.
Qed.
Lemma websocket_ok e : env_ok e → ¬ websocket_fails e.
Proof using Type.
  intros (_ & Hb1 & Hb2 & Hf & Hs & _) [Hen Hw]. revert Hw. unfold InitWSMuxLocalManager.
  rewrite (proj2 (Z.ltb_ge _ _) (Hs Hen)). unfold NewBanManagerWithIP. destruct (newBanItem (be_banInfoHash e)); [|done].
  destruct (newBanItem (be_banPeerId e)); [|done]. specialize (Hf ""%string). cbn [res_bind]. by destruct (be_IPFilter e _).
Qed.

(** The metrics never stop a start, whatever order their maps are iterated in;
    with metrics on, the registry that is served is the one in use. *)
Definition metrics_ready (r : option nat) (ms : metrics CV HV) : Prop :=
  if EnableMetrics (Tracker cfg) then r = Some 1%nat ∧ started cfg range = Some (r, ms)
  else Metrics.Init cfg range no_metrics = Some ms.

Lemma metrics_start :
  ∃ ms : metrics CV HV, Metrics.Init cfg range no_metrics = Some ms ∧
  ∃ r ms', (if EnableMetrics (Tracker cfg) then GetRegistry cfg range ms = Some (r, ms') else ms' = ms) ∧ metrics_ready r ms'.
Proof using range_perm H7 H9 MetricVecLaws0 MetricVecLaws1.
  unfold metrics_ready. destruct (EnableMetrics (Tracker cfg)) eqn:He.
  - destruct (metrics_shown (CV := CV) (HV := HV) cfg range range_perm) as [_ Hs]. destruct (Hs He) as (ms' & Hst & _).
    pose proof Hst as Hst'. unfold started in Hst'. destruct (Metrics.Init cfg range no_metrics) as [ms|] eqn:E; [|done].
    exists ms. split; [done|]. exists (Some 1%nat), ms'. by split_and!.
  - unfold Metrics.Init. rewrite He. eexists. split; [done|]. by eexists None, _.
Qed.

(** The listeners of the configuration, in the order they are started. *)
Definition configured_listeners (r : option nat) : list listener :=
  (if 0 <? DebugPort (Tracker cfg) then [PprofListener ("localhost:" ++ Itoa (DebugPort (Tracker cfg)))%string] else []) ++
  (if udp_Enable (UDPServer (Tracker cfg)) then [UDPListener ("udp://" ++ udp_HostPorts (UDPServer (Tracker cfg)))%string] else []) ++
  (if rpc_EnableServer (RPC (Tracker cfg)) then [RPCListener (rpc_HostPorts (RPC (Tracker cfg)))] else []) ++
  HTTPListener (HostPorts (Tracker cfg)) (UseUnixSocket (Tracker cfg)) ::
  (if EnableMetrics (Tracker cfg) then [MetricsListener (MetricsHostPorts (Tracker cfg)) r] else []).

(** What [main] does, on every branch. *)
Lemma main_cases e fs :
  match main cfg range e fs with
  | Ok p =>
      (EnableEventProducer (Tracker cfg) = true → be_producer e = Ok tt) ∧ pr_producer p = EnableEventProducer (Tracker cfg) ∧
      InitPeerManager cfg e fs = Ok (pr_manager p, pr_files p) ∧
      websocket_ready e (pr_websocket p) ∧
      ∃ r, metrics_ready r (pr_metrics p) ∧ pr_listeners p = configured_listeners r
  | Err _ =>
      (EnableEventProducer (Tracker cfg) = true ∧ is_ok (be_producer e) = false) ∨ websocket_fails e ∨
      is_ok (InitPeerManager (M := M) (B := B) cfg e fs) = false
  end.
Proof using range_perm H7 H9 MetricVecLaws0 MetricVecLaws1.
  destruct metrics_start as (ms & Hms & r & ms' & Hr & Hready).
  unfold main, Init. destruct (if EnableEventProducer (Tracker cfg) then be_producer e else Ok tt) as [u|err] eqn:Hp.
  2: { cbn [res_bind]. left. destruct (EnableEventProducer _); [by rewrite Hp|done]. }
  assert (EnableEventProducer (Tracker cfg) = true → be_producer e = Ok tt) as Hprod.
  { intros He. rewrite He in Hp. by destruct u. }
  cbn [res_bind]. pose proof (websocket_start e) as Hws. destruct (if ws_Enable _ then _ else _) as [ws|err]; [|by right; left].
  cbn [res_bind]. rewrite Hms. destruct (InitPeerManager cfg e fs) as [[m fs']|err]; [|by right; right]. cbn [res_bind fst snd].
  unfold getServerOption. cbn [pr_metrics]. unfold metrics_ready in Hready |- *.
  destruct (EnableMetrics (Tracker cfg)) eqn:He.
  - rewrite Hr. cbn [res_bind fst snd pr_manager pr_files pr_metrics pr_websocket pr_listeners pr_producer].
    split; [exact Hprod|]. split; [done|]. split; [done|]. split; [exact Hws|]. exists r. split; [done|].
    unfold configured_listeners, initPprof, initUDPServer. rewrite He, <- !app_assoc. do 3 f_equal. by destruct (UseUnixSocket _).
  - subst ms'. cbn [res_bind fst snd pr_manager pr_files pr_metrics pr_websocket pr_listeners pr_producer].
    split; [exact Hprod|]. split; [done|]. split; [done|]. split; [exact Hws|]. exists r. split; [done|].
    unfold configured_listeners, initPprof, initUDPServer. rewrite He, <- !app_assoc. do 3 f_equal. by destruct (UseUnixSocket _).
Qed.

(** *** A restart after a crash *)
Definition memory_of p : option (MuxLocalManager M B F) :=
  match pr_manager p with MemoryManager m => Some m | _ => None end.

(** What a restart finds of a manager that was saved. *)
Definition restarted fs p0 m e : Prop :=
  ∃ q m', main cfg range e fs = Ok q ∧ memory_of q = Some m' ∧ pr_files q = other_files (pr_files p0) ∧
    length (localList m') = Z.to_nat (Shard (Memory (Tracker cfg))) ∧
    ∀ ih k, mux_torrent m' ih !! k
      = (x ← mux_torrent m ih !! k; if too_old cfg (be_now e) (PeerCommonToIDL x) then None else Some (received nil_binary x)).

Lemma saved_restarts num b m p0 e :
  Mode (Tracker cfg) = RunningModeMemory → EnablePersist (Memory (Tracker cfg)) = true →
  0 < Shard (Memory (Tracker cfg)) < 2 ^ 64 → env_ok e →
  mux_reachable cfg cached num b m →
  (∀ n w ih, localList m !! n = Some w → separated_at w ih) →
  (∀ ih k x, mux_torrent m ih !! k = Some x →
     peer_widths x ∧ record_ok (buf_cap (be_bufs e)) (mkStore ih (PeerCommonToIDL x))) →
  (∀ name, is_Some (pr_files p0 !! name) → glob_match file name = true →
     ∃ i, (i < length (localList m))%nat ∧ name = persist_name file i) →
  restarted (StoreToPersist cfg true good_files m (pr_files p0)) p0 m e.
Proof.
  intros Hmode Hen Hsh He Hr Hsep Hx Hfs. rewrite (StoreToPersist_again m _ Hen Hfs).
  destruct (new_memory_manager_ok e (Shard (Memory (Tracker cfg))) He ltac:(lia)) as [b' Hb'].
  pose proof He as (Hprod & _ & _ & _ & _ & Hload & Hbufs).
  destruct (store_load cfg cached num b m (Shard (Memory (Tracker cfg))) b' (be_now e) (be_bufs e) (other_files (pr_files p0)))
    as (m' & Hm' & Hlen & Ht); [done..|apply other_files_other|].
  pose proof (main_cases e (StoreToPersist cfg true good_files m (other_files (pr_files p0)))) as Hmain.
  assert (InitPeerManager (R := R) (D := D) cfg e (StoreToPersist cfg true good_files m (other_files (pr_files p0)))
    = Ok (MemoryManager m', other_files (pr_files p0))) as Hinit.
  { unfold InitPeerManager. rewrite Hmode, bool_decide_eq_true_2 by done. rewrite Hb'. cbn [res_bind]. by rewrite Hload, Hm'. }
  destruct (main cfg range e _) as [q|err] eqn:Hq.
  - destruct Hmain as (_ & _ & Hi & _). rewrite Hinit in Hi. injection Hi as Hi Hf.
    exists q, m'. unfold memory_of. by rewrite <- Hi, <- Hf.
  - destruct Hmain as [[_ Hp]|[Hp|Hp]]; [by rewrite Hprod in Hp|by apply (websocket_ok e He) in Hp|by rewrite Hinit in Hp].
Qed.

(** A manager whose peers all fit their records, none filed twice. *)
Definition saveable e m : Prop :=
  (∀ n w ih, localList m !! n = Some w → separated_at w ih) ∧
  ∀ ih k x, mux_torrent m ih !! k = Some x →
    peer_widths x ∧ record_ok (buf_cap (be_bufs e)) (mkStore ih (PeerCommonToIDL x)).

(** C16: Composition of the interval task, the shutdown hook, persistence and the
    start. A program in memory mode with persistence is stopped, or saves in a
    round of the interval task and is killed at any time after it: the program
    started next on the files runs, is in memory mode with the configured number
    of shards, and has under every info hash and peer id exactly the peer the
    manager had when it was saved (after the round's cleaning), unless it is too
    old by then. Earlier saves of the same shards do no harm, and files of other
    names are left alone. *)
Theorem restart_keeps num b m p e t :
  Mode (Tracker cfg) = RunningModeMemory → EnablePersist (Memory (Tracker cfg)) = true →
  0 < Shard (Memory (Tracker cfg)) < 2 ^ 64 → env_ok e →
  pr_manager p = MemoryManager m → mux_reachable cfg cached num b m →
  (∀ name, is_Some (pr_files p !! name) → glob_match file name = true →
     ∃ i, (i < length (localList m))%nat ∧ name = persist_name file i) →
  (saveable e m → restarted (OnShutdown cfg true good_files p) p m e) ∧
  let p' := interval_round cfg o cached true good_files t p in
  let m' := (Mux.Clean cfg t m).2 in
  memory_of p' = Some m' ∧ (saveable e m' → restarted (pr_files p') p m' e).
Proof.
  intros Hmode Hen Hsh He Hm Hr Hfs. split.
  - intros [Hsep Hx]. unfold OnShutdown. rewrite Hm. by apply (saved_restarts num b).
  - intros p' m'. assert (pr_manager p' = MemoryManager m' ∧ pr_files p' = StoreToPersist cfg true good_files m' (pr_files p)) as [E1 E2].
    { unfold p', interval_round, doIntervalTask, saveDB, cleanInactivePeer. cbn. rewrite Hm. cbn. unfold m'.
      by destruct (Mux.Clean cfg t m). }
    unfold memory_of. rewrite E1, E2. split; [done|]. intros [Hsep Hx]. apply (saved_restarts num b); try done.
    + eapply rtc_r; [exact Hr|]. apply mux_Clean.
    + intros name Hn Hg. destruct (Hfs name Hn Hg) as (i & Hi & ->). exists i. split; [|done].
      unfold m'. by rewrite Clean_length.
Qed.

(** C32: The start of the program, on every branch. If the event producer starts
    and the WebTorrent store can be made (or are off) and the manager of the
    configured mode can be made, [main] runs, and only then: with that manager, with
    the producer on exactly if it is configured, with an empty WebTorrent store of the configured shards if
    that is on, with exactly the configured listeners, in order, and, with
    metrics on, the registry served at the metrics address is the one the
    handlers report to. Otherwise, in particular with a mode that is none of the
    three, it panics; the metrics never make it panic. *)
Theorem main_starts e fs :
  match main cfg range e fs with
  | Ok p =>
      (EnableEventProducer (Tracker cfg) = true → be_producer e = Ok tt) ∧ pr_producer p = EnableEventProducer (Tracker cfg) ∧
      InitPeerManager cfg e fs = Ok (pr_manager p, pr_files p) ∧
      match pr_manager p with
      | MemoryManager _ => Mode (Tracker cfg) = RunningModeMemory
      | DatabaseManager _ => Mode (Tracker cfg) = RunningModeDB
      | RemoteManager _ => Mode (Tracker cfg) = RunningModeRPC
      end ∧
      websocket_ready e (pr_websocket p) ∧
      ∃ r, metrics_ready r (pr_metrics p) ∧ pr_listeners p = configured_listeners r
  | Err _ =>
      (EnableEventProducer (Tracker cfg) = true ∧ is_ok (be_producer e) = false) ∨ websocket_fails e ∨
      is_ok (InitPeerManager (M := M) (B := B) cfg e fs) = false
  end ∧
  (Mode (Tracker cfg) ∉ [RunningModeMemory; RunningModeDB; RunningModeRPC] → is_ok (main (M := M) (B := B) (J := J) cfg range e fs) = false).
Proof using range_perm H7 H9 MetricVecLaws0 MetricVecLaws1.
  pose proof (main_cases e fs) as Hm.
  assert (∀ a fs', InitPeerManager (M := M) (B := B) cfg e fs = Ok (a, fs') →
    match a with
    | MemoryManager _ => Mode (Tracker cfg) = RunningModeMemory
    | DatabaseManager _ => Mode (Tracker cfg) = RunningModeDB
    | RemoteManager _ => Mode (Tracker cfg) = RunningModeRPC
    end) as Hmode.
  { intros a fs'. unfold InitPeerManager. case_bool_decide; [|case_bool_decide; [|case_bool_decide; [|done]]].
    - destruct (new_memory_manager _ _ _); [|done]. cbn [res_bind]. destruct (LoadFromPersist _ _ _ _ _ _) as [[? ?]|]; [|done]. by intros [= <- <-].
    - destruct (be_db e _); [|done]. by intros [= <- <-].
    - destruct (be_rpc e _); [|done]. by intros [= <- <-]. }
  destruct (main cfg range e fs) as [p|err]; (split; [|intros Hn]); [|exfalso|done|done].
  - destruct Hm as (Hp & Hpp & Hi & Hw & Hr). split_and!; [done|done|done|by eapply Hmode|done|done].
  - destruct Hm as (_ & _ & Hi & _). apply Hmode in Hi. rewrite !not_elem_of_cons in Hn. destruct (pr_manager p); tauto.
Qed.
End Boot.

(** *** A start, a save and a crash *)
Definition no_manager : PeerManager (MuxLocalManager Skip (list bytes) fallbackIPFilter) := mux_manager (sample_cfg 400) io_ok (fun _ => None).
Definition sample_env : boot_env (F := fallbackIPFilter) (D := MuxLocalManager Skip (list bytes) fallbackIPFilter)
    (R := MuxLocalManager Skip (list bytes) fallbackIPFilter) :=
  {| be_producer := Ok tt; be_banInfoHash := Ok []; be_banPeerId := Ok []; be_IPFilter _ := Ok newFallbackIPFilter;
     be_now := sample_time; be_bufs := sample_bufs; be_load := good_load; be_db _ := Err "no database"%string;
     be_rpc _ := Err "no server"%string |}.
Definition sample_program : program (M := Skip) (B := list bytes) (F := fallbackIPFilter) (J := unit)
    (D := MuxLocalManager Skip (list bytes) fallbackIPFilter) (R := MuxLocalManager Skip (list bytes) fallbackIPFilter)
    (CV := sample_vec Z) (HV := sample_vec histogram) :=
  {| pr_manager := MemoryManager two_torrents; pr_metrics := no_metrics; pr_websocket := None; pr_producer := true; pr_cache := false;
     pr_listeners := []; pr_files := {["notes.txt"%string := []; "persist.dat.0"%string := [Byte.x00]]} |}.

Lemma two_saveable : saveable sample_env two_torrents.
Proof.
  split; [exact two_separated|]. intros ih k x Hx. apply two_stored in Hx as [-> Hk]. split; [vm_compute; split_and!; congruence|].
  apply stored_ok. apply elem_of_cons in Hk as [Hk|Hk%list_elem_of_singleton]; injection Hk as -> ->; [by left|by right].
Qed.

Lemma restart_keeps_witness :
  ∃ (q : program (M := Skip) (B := list bytes) (F := fallbackIPFilter) (J := unit) (D := MuxLocalManager Skip (list bytes) fallbackIPFilter)
      (R := MuxLocalManager Skip (list bytes) fallbackIPFilter) (CV := sample_vec Z) (HV := sample_vec histogram)) m',
    main (sample_cfg 400) map_to_list sample_env (OnShutdown (sample_cfg 400) true good_files sample_program) = Ok q ∧
    memory_of q = Some m' ∧ pr_files q = {["notes.txt"%string := []]} ∧
    mux_torrent m' hash_b !! "Q"%string = Some (received (Some []) (sample_peer "Q" Byte.x01 PeerEvent_Started 7 sample_time)).
Proof.
  destruct (restart_keeps (H4 := no_manager) (H5 := no_manager) (sample_cfg 400) io_ok (fun _ => None) map_to_list (fun m => Permutation_refl _)
    4 (ban sample_mux) two_torrents sample_program sample_env sample_time) as [Hr _].
  - reflexivity.
  - reflexivity.
  - vm_compute. split; [reflexivity|reflexivity].
  - split_and!; [reflexivity|vm_compute; reflexivity|vm_compute; reflexivity|intros i; reflexivity|vm_compute; discriminate|reflexivity|exact sample_bufs_ok].
  - reflexivity.
  - exact two_torrents_reachable.
  - intros name [c Hc] Hg. cbn [pr_files sample_program] in Hc.
    apply lookup_insert_Some in Hc as [[<- _]|[_ Hc]]; [by vm_compute in Hg|].
    apply lookup_singleton_Some in Hc as [<- _]. exists 0%nat. split; [vm_compute; lia|reflexivity].
  - destruct (Hr two_saveable) as (q & m' & Hq & Hm' & Hf & _ & Ht). exists q, m'. split; [exact Hq|]. split; [exact Hm'|]. split.
    + etransitivity; [exact Hf|]. vm_compute. reflexivity.
    + etransitivity; [apply Ht|]. vm_compute. reflexivity.
Defined.

(** The configured start of an empty program: a UDP and an HTTP listener. *)
Lemma main_starts_witness :
  ∃ p : program (M := Skip) (B := list bytes) (F := fallbackIPFilter) (J := unit) (D := MuxLocalManager Skip (list bytes) fallbackIPFilter)
      (R := MuxLocalManager Skip (list bytes) fallbackIPFilter) (CV := sample_vec Z) (HV := sample_vec histogram),
    main (sample_cfg 400) map_to_list sample_env ∅ = Ok p ∧
    pr_listeners p = [UDPListener "udp://0.0.0.0:6969"; HTTPListener "0.0.0.0:8888" false].
Proof.
  destruct (main_starts (M := Skip) (B := list bytes) (J := unit) (CV := sample_vec Z) (HV := sample_vec histogram) (sample_cfg 400) map_to_list
    (fun m => Permutation_refl _) sample_env ∅) as [Hm _].
  destruct (main (sample_cfg 400) map_to_list sample_env ∅) as [p|err] eqn:E.
  - destruct Hm as (_ & _ & _ & _ & _ & r & _ & Hl). exists p. split; [reflexivity|]. etransitivity; [exact Hl|]. vm_compute. reflexivity.
  - exfalso. destruct Hm as [[_ Hp]|[[_ Hw]|Hi]]; [discriminate Hp|vm_compute in Hw; discriminate Hw|vm_compute in Hi; discriminate Hi].
Defined.
